(* ===== verification/_CoqProject ===== *)
-Q . S2P
Prelude.v
Floats.v
RustStr.v
SockAddr.v
Nix.v
NarInfo.v
CacheCfg.v
Stream.v
BinaryCache.v
CacheInv.v
CacheRefine.v
S3Client.v
Presigned.v
Db.v
Support.v
Jobset.v
Graph.v
Dependents.v
Priorities.v
GraphInv.v
Result.v
Machine.v
MachineInv.v
Queue.v
QueueOrder.v
QueueInv.v
QueueProcess.v
Config.v
System.v
Uploader.v
FodChecker.v
State.v
StateInv.v
FailJob.v
SucceedJob.v
Reclaim.v
Intake.v
IntakeInv.v
Io.v
Http.v
Metrics.v
Dispatch.v
Uploads.v
Loops.v
Grpc.v
GrpcStreams.v
PresignedFlow.v
PresignedInv.v
Builder.v
BuilderInv.v
BuilderTasks.v
BuilderConn.v
Tracing.v
Connection.v
Stores.v
StoresInv.v
DispatchInv.v
EndToEnd.v
Gcroots.v
Reload.v
StatusProtocol.v
Runner.v
LockFile.v
Startup.v
Service.v
Example.v
Properties.v
CacheExample.v
ConnExample.v
StartExample.v
StoreExample.v
EndExample.v
