(* ===== verification/Prelude.v ===== *)
(** * The Hydra queue runner: a verification development

    The program builds Nix derivations for a continuous-integration server. A
    _queue runner_ ([queue-runner/]) reads unfinished builds from a PostgreSQL
    database, splits them into a graph of steps (derivations), and sends
    runnable steps to _builders_ ([builder/]), which join over gRPC, import the
    inputs, build, and send outputs and results back. Outputs are published in
    an S3 _binary cache_ ([crates/binary-cache]), by the queue runner or, with
    presigned URLs, by the builder itself. [crates/nix-utils], [crates/db] and
    [crates/shared] hold store paths, queries and the parsers of build outputs.

    ** Files and sources

    Foundations
    - [Prelude]: errors as [result], the state-and-error monad [M], record
      update, integers at their width, iteration over hash maps, generic lemmas.
    - [Floats], [RustStr], [SockAddr]: floating-point comparison; Rust's string
      functions; addresses to listen on ([config.rs]).

    Store, parsers, database
    - [Nix]: store paths, derivations, build options, queries of the store
      ([nix-utils/src/store_path.rs], [drv.rs], [hash.rs], [realise.rs],
      [lib.rs]).
    - [Stores], [StoresInv]: the trait [BaseStore] with the local and the
      remote store, realisations, hash conversion, the process of a build, and
      the C++ bindings ([lib.rs], [realisation.rs], [nix.cpp], [cxx/]).
    - [Support]: products, metrics and release names of outputs
      ([shared/src/lib.rs]).
    - [Db]: the tables, queries and transactions ([db/src/connection.rs],
      [models.rs]); a statement that fails aborts its transaction. The life of
      a build ([lives_step]) is the contract of the builds table.

    Queue runner ([queue-runner/src/state])
    - [Jobset] ([jobset.rs]), [Graph] with [Dependents], [Priorities] and
      [GraphInv] ([step.rs], [build.rs], [atomic.rs]): builds and steps in one
      heap with weak references, dependencies in both directions.
    - [Result] ([build.rs]): results of remote builds.
    - [Machine], [MachineInv] ([machine.rs]): registry, capacity and choice of
      machines.
    - [Queue], [QueueOrder], [QueueInv], [QueueProcess] ([queue.rs],
      [step_info.rs]): queues, their order, dispatch over them.
    - [Config], [Uploader], [FodChecker] ([config.rs], [uploader.rs],
      [inspectable_channel.rs], [fod_checker.rs]).
    - [State], [StateInv], [FailJob], [SucceedJob], [Reclaim]: the state of the
      queue runner ([World]) and how steps succeed and fail ([mod.rs]).
    - [Intake], [IntakeInv]: reading the queue and making steps ([mod.rs]).
    - [Dispatch], [DispatchInv]: sending steps to machines, cancelling,
      machines that leave ([mod.rs]).
    - [Uploads] ([uploader.rs]), [Loops] ([mod.rs]): the uploader at work, and
      turns of the loops that read the queue and dispatch.
    - [Grpc]: authentication, tunnels, updates and results
      ([server/grpc.rs]).
    - [GrpcStreams]: logs and archives between builder and queue runner
      ([server/grpc.rs], [mod.rs], [nix-utils/src/lib.rs], [builder/src]).
    - [Io] ([io/]), [Http] ([server/http.rs], [mod.rs]): the status pages and
      the dump of the status.
    - [Metrics] ([metrics.rs]): the figures for Prometheus.
    - [Runner]: all of it as one transition system.
    - [Reload] ([config.rs], [main.rs]): the configuration while the program
      runs, and the signal that asks for a new one.
    - [StatusProtocol] ([mod.rs], [db/src/lib.rs]): asking a running queue
      runner for its status over the notifications of the database.
    - [EndToEnd]: a builder's result on its way into the database, both
      programs together.
    - [LockFile] ([lock_file.rs]), [Startup] ([main.rs], [mod.rs],
      [config.rs]): one queue runner at a time; how it starts and stops.
    - [Service] ([server/grpc.rs], [server/http.rs], [main.rs],
      [builder/src/state.rs]): sockets, TLS, what ends the program, what the
      service manager is told.

    Binary cache ([crates/binary-cache/src])
    - [NarInfo] ([narinfo.rs], [compression.rs]), [CacheCfg] ([cfg.rs]),
      [Stream] ([streaming_hash.rs] and the chunks of [lib.rs]), [BinaryCache],
      [CacheInv] ([lib.rs], [debug_info.rs]), [Presigned] ([presigned.rs]).
    - [CacheRefine]: the cache as a catalogue of descriptions.
    - [S3Client] ([lib.rs]): the settings and keys of the service's client.
    - [PresignedFlow], [PresignedInv]: an archive from the builder to the
      cache, through both programs ([server/grpc.rs], [builder/src/state.rs],
      [builder/src/grpc.rs]).

    Builder ([builder/src])
    - [Builder], [BuilderInv]: what a builder does for a build ([state.rs],
      [metrics.rs]).
    - [BuilderTasks]: the table of active builds and the tasks beside it.
    - [Gcroots] ([state.rs], [nix-utils/src/lib.rs]): the roots of the garbage
      collector on disk.
    - [Tracing] ([crates/tracing/src/propagate.rs], [grpc.rs]): traces in the
      headers of requests.
    - [System] ([system.rs]): load, memory, pressure and free space.
    - [BuilderConn], [Connection] ([grpc.rs], [config.rs], [main.rs],
      [state.rs]): connecting, joining, pings, requests, giving up; and both
      programs together.

    [Properties] holds theorems that join components, [Example],
    [CacheExample], [ConnExample], [StartExample], [StoreExample] and
    [EndExample] small installations on which the theorems are applied.

    ** How code becomes definitions

    Names are those of the source. A [struct] is a [Record], an [enum] an
    [Inductive]; fields shared behind locks are fields of the state that is
    passed. A function that changes state or fails is a computation of the
    monad [M S E]: state, and [Ok] or [Err]. Objects behind [Arc] and [Weak]
    are addresses of a heap; what is unreachable is dropped by [Reclaim].
    Integers are [Z] and wrap or are checked where the source does. Streams
    with [buffered] are processed in their order, and one handler runs at a
    time; interleavings of handlers are the sequences of events of [Runner] and
    [DispatchInv], those of a builder's requests and tasks the events of
    [BuilderTasks]. [LockFile], [Gcroots], [StatusProtocol] and the reloader of
    [Reload] have a step for every call of the operating system or database.

    Code that is not in the repository is a class: [NixEnv] (the C++ store),
    [DbEnv] (which statements fail), [FsEnv] (files), [StateEnv] (clock,
    random ids, file system of the runner), [TimeLib], [FloatEnv], [UuidLib],
    [EnvLib], [HashIter] (the order of hash maps, some permutation), [SignLib]
    (signatures, hash conversion), [UrlLib], [Sha256Lib], [CacheEnv] (the S3
    service, compressors, directories), [HttpEnv] (requests to presigned URLs),
    [BuilderEnv] (local store, build process and network of a builder),
    [ProcEnv] and [SelfEnv] (procfs), [ConnEnv] (the network), [NixSettings],
    [LogEnv] (log files), [ArchiveEnv] (exports and imports), [JsonLib],
    [PromLib] (the registry of Prometheus), [StartEnv] (database pool),
    [LibNix] (the Nix library), [NixDiff] (the parser of derivations), [Tokio]
    and [Processes], [RootEnv] (symbolic links), [NetEnv] (sockets), [AwsLib]
    (the client of object stores) and [Propagator] (traces). [Stores] goes down to [LibNix]; what it gives the other
    files is [NixEnv], by [local_store_answers].
    An answer depends on its number, so that the same question may be answered
    differently. Theorems state what they need of these classes, and the
    files of examples have instances.

    ** What the theorems show

    - Database: every run of the queue runner refines the life of a build,
      submitted once and finished at most once; finished builds are final;
      failed transactions have no effect; step numbers stay unique; results
      read back.
    - Steps: a failed step fails all that depend on it, a successful one
      releases exactly those that wait for it; retries; reading the queue ends
      and leaves the graph well formed; dependents and priorities reach exactly
      the steps they should; reclaiming keeps exactly what is referenced; the
      fixed-output derivations found are exactly those below what was queued.
    - Queues and machines: invariants in every reachable state; order of
      jobs; only eligible jobs are offered; the best machine is chosen; limits
      hold; the figures of a machine stay within their types; a builder that
      leaves has no jobs; a step that ends wakes the dispatcher.
    - Binary cache: what is copied or uploaded is found again, signed, with
      the hash of its bytes, in the same form by both ways; a description is
      only published with its archive; round trip and binding of descriptions;
      the missing paths are exact; the uploader publishes whole closures; every
      run of a client refines a catalogue that grows by whole descriptions.
    - Stores: requisites come complete and in order, missing paths and sizes
      of closures are exact, the local store answers as [NixEnv] says, an
      import from a broken stream fails, the library starts once.
    - Builder: inputs are rooted, and the directories of roots implement a set
      of paths per build; at most one result is reported, it means the same to
      the queue runner as its own store would; active builds are distinct.
    - Both: the report of a build that succeeded finishes it on the queue
      runner, without exception while database and store answer; a result that
      cannot be recorded is lost.
    - Connection: who is let in; joining registers the builder; a job reaches
      its builder; a builder listens until the stream ends or ten messages in
      a row are lost; one that was stopped rests; logs and archives arrive.
    - Operation: pages and metrics show the state, the dump reads back, the
      metrics can be registered; the lock excludes; a new state is in order,
      a second start is refused, and stopping leaves nothing behind; a reload
      happens as a whole or not at all; nobody waits in vain for a status; with
      any part of TLS configured there is TLS or no server; the keys of the
      cache come from where they should; addresses read back.
    - Errors the code does not mean to make, each with its theorem: the
      retained upload tasks, disabled authentication, sorting on reload,
      drifting seconds, refused uploads, blocked derivations, debug links,
      resolution of derivations, broken transfers, overlapping paths, equal
      host names, the overtaken lock, stranded steps, early reports, roots
      that are made again, signals during a reload, lone servers.

    ** Fuel and bounds

    Recursion that is not structural has fuel that is enough, by theorem:
    [create_step] as much as there are derivations, [fail_loop] two turns more
    than there are builds, [get_dependents] and [propagate_priorities] by the
    number of steps, [STEP_FUEL] two turns for a step number (a second attempt
    only after a conflict), streams one turn per byte left, [chunks] the length
    of the list; retries make as many attempts as the source configures.

    ** Not modelled

    The examples of the crates; the set-up of logging and of the exporter of
    traces ([crates/tracing/src/lib.rs]); the readers of command lines, TOML
    and JSON, the allocator and the hook for panics ([main.rs]); the transport
    of gRPC and HTTP, which is [tonic]'s and [hyper]'s; the pool of connections
    and the text of SQL statements; the Nix library itself, which [LibNix]
    stands for. All of these are calls of other libraries. Handlers count
    metrics in passing: [Metrics] has the operations, the handlers do not call
    them, since nothing they do depends on a counter. What else of the sources
    has no definition is tests, imports, attributes, accessors of one field,
    and wrappers that take a lock and call what is modelled. *)

From stdpp Require Export base tactics option list gmap fin_maps strings sets
  sorting relations numbers pretty.
From Stdlib Require Export Lia ZArith.

(** ** Results

    The code returns [Result<T, E>] and propagates errors with [?]. *)

Inductive result (E A : Type) : Type :=
| Ok (a : A)
| Err (e : E).
Arguments Ok {E A} a.
Arguments Err {E A} e.

#[export] Instance result_ret {E} : MRet (result E) := λ A a, Ok a.
#[export] Instance result_bind {E} : MBind (result E) :=
  λ A B f r, match r with Ok a => f a | Err e => Err e end.
#[export] Instance result_fmap {E} : FMap (result E) :=
  λ A B f r, match r with Ok a => Ok (f a) | Err e => Err e end.

Definition ok_or {E A} (o : option A) (e : E) : result E A :=
  match o with Some a => Ok a | None => Err e end.

Definition is_ok {E A} (r : result E A) : bool :=
  match r with Ok _ => true | Err _ => false end.

Definition ok {E A} (r : result E A) : option A :=
  match r with Ok a => Some a | Err _ => None end.

Definition map_err {E E' A} (f : E → E') (r : result E A) : result E' A :=
  match r with Ok a => Ok a | Err e => Err (f e) end.

Lemma bind_Ok_inv {E A B} (f : A → result E B) (r : result E A) b :
  r ≫= f = Ok b → ∃ a, r = Ok a ∧ f a = Ok b.
Proof. destruct r as [a|e]; cbn; intros H; [by exists a|done]. Qed.

Lemma ok_or_Ok {E A} (o : option A) (e : E) a : ok_or o e = Ok a ↔ o = Some a.
Proof. destruct o; cbn; naive_solver. Qed.

(** ** Machine integers

    A value of an unsigned type of [w] bits is a [Z] in [0 .. 2^w - 1], of a
    signed type a [Z] in [-2^(w-1) .. 2^(w-1) - 1]; the atomics' [fetch_add]
    and [fetch_sub] wrap around, [try_from] fails out of range, and [as]
    casts wrap. *)

Definition u_wrap (w z : Z) : Z := (z `mod` 2 ^ w)%Z.
Definition i_wrap (w z : Z) : Z :=
  let m := (z `mod` 2 ^ w)%Z in
  if (m <? 2 ^ (w - 1))%Z then m else (m - 2 ^ w)%Z.

Definition in_u (w z : Z) : bool := ((0 <=? z) && (z <? 2 ^ w))%Z.
Definition in_i (w z : Z) : bool :=
  ((- 2 ^ (w - 1) <=? z) && (z <? 2 ^ (w - 1)))%Z.

Definition try_u (w z : Z) : option Z := if in_u w z then Some z else None.
Definition try_i (w z : Z) : option Z := if in_i w z then Some z else None.

Abbreviation u32_wrap := (u_wrap 32).
Abbreviation u64_wrap := (u_wrap 64).
Abbreviation i32_wrap := (i_wrap 32).
Abbreviation i64_wrap := (i_wrap 64).
Definition i32_max : Z := 2147483647.
Definition u64_max : Z := 18446744073709551615.

Lemma u_wrap_bounds w z : (0 ≤ w)%Z → (0 ≤ u_wrap w z < 2 ^ w)%Z.
Proof. intros Hw. apply Z.mod_pos_bound. by apply Z.pow_pos_nonneg. Qed.

Lemma u_wrap_small w z : in_u w z = true → u_wrap w z = z.
Proof.
  unfold in_u, u_wrap. intros [H1 H2]%andb_true_iff.
  apply Z.mod_small. split; [by apply Z.leb_le|by apply Z.ltb_lt].
Qed.

Lemma i_wrap_small w z : (0 < w)%Z → in_i w z = true → i_wrap w z = z.
Proof.
  unfold in_i, i_wrap. intros Hw [H1%Z.leb_le H2%Z.ltb_lt]%andb_true_iff.
  assert (2 ^ w = 2 * 2 ^ (w - 1))%Z as Hp.
  { rewrite <-Z.pow_succ_r by lia. f_equal. lia. }
  assert (0 < 2 ^ (w - 1))%Z by (apply Z.pow_pos_nonneg; lia).
  destruct (decide (0 ≤ z)%Z) as [Hz|Hz].
  - rewrite Z.mod_small by lia.
    destruct (Z.ltb_spec z (2 ^ (w - 1))); lia.
  - replace (z `mod` 2 ^ w)%Z with (z + 2 ^ w)%Z.
    + destruct (Z.ltb_spec (z + 2 ^ w) (2 ^ (w - 1))); lia.
    + apply Z.mod_unique with (-1)%Z; lia.
Qed.

Lemma i_wrap_mod w z : (0 < w)%Z → (i_wrap w z `mod` 2 ^ w = z `mod` 2 ^ w)%Z.
Proof.
  intros Hw. unfold i_wrap.
  assert (0 < 2 ^ w)%Z by (apply Z.pow_pos_nonneg; lia).
  destruct (Z.ltb_spec (z `mod` 2 ^ w) (2 ^ (w - 1))).
  - by rewrite Z.mod_mod by lia.
  - rewrite <-(Z.mul_1_l (2 ^ w)) at 2.
    rewrite <-Z.add_opp_r, <-Z.mul_opp_l, Z.mod_add by lia.
    by rewrite Z.mod_mod by lia.
Qed.

Lemma i_wrap_cong w x y :
  (0 < w)%Z → (x `mod` 2 ^ w = y `mod` 2 ^ w)%Z → i_wrap w x = i_wrap w y.
Proof. intros _ H. unfold i_wrap. by rewrite H. Qed.

Lemma try_u_Some w z z' : try_u w z = Some z' ↔ z' = z ∧ in_u w z = true.
Proof.
  unfold try_u. destruct (in_u w z);
    (split; [intros [= <-]|intros [-> [=]]]); done.
Qed.

Lemma try_i_Some w z z' : try_i w z = Some z' ↔ z' = z ∧ in_i w z = true.
Proof.
  unfold try_i. destruct (in_i w z);
    (split; [intros [= <-]|intros [-> [=]]]); done.
Qed.

(** ** Record update

    [r <| f := v |>] is the record [r] with the field [f] replaced, as an
    assignment to a struct field or a store to one of its atomics. *)

Class Eta (R : Type) := eta : R → R.
Class Setter {R T : Type} (p : R → T) := { upd : (T → T) → R → R }.
Arguments upd {R T} p {_} f r : simpl nomatch.

(** The setter of a field, from the record's [Eta] instance, which rebuilds a
    record from its fields. *)
Ltac mk_setter p :=
  match type of p with
  | ?R → _ =>
      constructor; intros f r;
      let i := constr:(ltac:(typeclasses eauto) : Eta R) in
      let e := eval red in i in
      let b := eval cbv beta in (e r) in
      let g := eval pattern (p r) in b in
      match g with ?F _ => let res := eval cbv beta in (F (f (p r))) in exact res end
  end.

Declare Scope record_scope.
Delimit Scope record_scope with rec.
Notation "r <| p := v |>" := (upd p (λ _, v) r)
  (at level 1, left associativity, p at level 10, v at level 200, format "r  <| p  :=  v |>")
  : record_scope.
Notation "r <| p ::= f |>" := (upd p f r)
  (at level 1, left associativity, p at level 10, f at level 200, format "r  <| p  ::=  f |>")
  : record_scope.
Open Scope record_scope.

(** ** State and errors

    A handler reads and writes a state and may stop with an error, after
    which the writes it made stay: [M S E A]. *)

Definition M (S E A : Type) : Type := S → result E A * S.

#[export] Instance M_ret {S E} : MRet (M S E) := λ A a s, (Ok a, s).
#[export] Instance M_bind {S E} : MBind (M S E) := λ A B f m s,
  match m s with
  | (Ok a, s') => f a s'
  | (Err e, s') => (Err e, s')
  end.

Section StateError.
Context {S E : Type}.

Definition gets {A} (f : S → A) : M S E A := λ s, (Ok (f s), s).
Definition modify (f : S → S) : M S E unit := λ s, (Ok tt, f s).
Definition throw {A} (e : E) : M S E A := λ s, (Err e, s).
Definition lift_result {A} (r : result E A) : M S E A := λ s, (r, s).
Definition lift_opt {A} (e : E) (o : option A) : M S E A := lift_result (ok_or o e).

(** The result as a value: [match m.await { Ok(..) => .., Err(..) => .. }]. *)
Definition attempt {A} (m : M S E A) : M S E (result E A) :=
  λ s, let '(r, s') := m s in (Ok r, s').

(** [for x in l { f(x)?; }] *)
Fixpoint for_each {A} (l : list A) (f : A → M S E unit) : M S E unit :=
  match l with
  | [] => mret tt
  | x :: l' => f x ≫= λ _, for_each l' f
  end.

Lemma bind_run {A B} (m : M S E A) (f : A → M S E B) s :
  (m ≫= f) s = match m s with (Ok a, s') => f a s' | (Err e, s') => (Err e, s') end.
Proof. done. Qed.

Lemma bind_Ok {A B} (m : M S E A) (f : A → M S E B) s b s' :
  (m ≫= f) s = (Ok b, s') → ∃ a s1, m s = (Ok a, s1) ∧ f a s1 = (Ok b, s').
Proof. rewrite bind_run. destruct (m s) as [[a|e] s1]; [eauto|done]. Qed.

(** A property of the state that every operation of a computation keeps. *)
Definition preserves {A} (P : S → Prop) (m : M S E A) : Prop :=
  ∀ s, P s → P (m s).2.

Lemma preserves_ret {A} P (a : A) : preserves P (mret a : M S E A).
Proof. by intros s. Qed.

Lemma preserves_bind {A B} P (m : M S E A) (f : A → M S E B) :
  preserves P m → (∀ a, preserves P (f a)) → preserves P (m ≫= f).
Proof.
  intros Hm Hf s Hs. rewrite bind_run. specialize (Hm s Hs).
  destruct (m s) as [[a|e] s1]; [by apply Hf|done].
Qed.

Lemma preserves_for_each {A} P (l : list A) (f : A → M S E unit) :
  (∀ x, x ∈ l → preserves P (f x)) → preserves P (for_each l f).
Proof.
  induction l as [|x l IH]; intros Hf; cbn; [apply preserves_ret|].
  apply preserves_bind; [apply Hf; left|]. intros _. apply IH.
  intros y Hy. apply Hf. by right.
Qed.

Lemma preserves_gets {A} P (f : S → A) : preserves P (gets f).
Proof. by intros s. Qed.

Lemma preserves_lift {A} P (r : result E A) : preserves P (lift_result r).
Proof. by intros s. Qed.

Lemma preserves_attempt {A} P (m : M S E A) : preserves P m → preserves P (attempt m).
Proof.
  intros Hm s Hs. unfold attempt. specialize (Hm s Hs). by destruct (m s).
Qed.

(** Pre- and postconditions: [Q] of the result and the state when the
    computation succeeds, [X] of the state when it stops with an error. *)
Definition hoare {A} (P : S → Prop) (m : M S E A) (Q : A → S → Prop) (X : S → Prop) : Prop :=
  ∀ s, P s → match m s with (Ok a, s') => Q a s' | (Err _, s') => X s' end.

Lemma hoare_bind {A B} P (m : M S E A) (f : A → M S E B) R Q X :
  hoare P m R X → (∀ a, hoare (R a) (f a) Q X) → hoare P (m ≫= f) Q X.
Proof.
  intros Hm Hf s Hs. rewrite bind_run. specialize (Hm s Hs).
  destruct (m s) as [[a|e] s1]; [by apply Hf|done].
Qed.

Lemma hoare_preserves {A} P (m : M S E A) : preserves P m ↔ hoare P m (λ _, P) P.
Proof.
  split; intros H s Hs; specialize (H s Hs); by destruct (m s) as [[a|e] s'].
Qed.

Lemma hoare_pre {A} (P P' : S → Prop) (m : M S E A) Q X :
  (∀ s, P s → P' s) → hoare P' m Q X → hoare P m Q X.
Proof. intros HP H s Hs. by apply H, HP. Qed.

Lemma hoare_lift {A} (P : S → Prop) (r : result E A) (Q : A → S → Prop) (X : S → Prop) :
  (∀ a s, P s → r = Ok a → Q a s) → (∀ s, P s → X s) → hoare P (lift_result r) Q X.
Proof. intros HQ HX s Hs. unfold lift_result. destruct r; [by apply HQ|by apply HX]. Qed.

Lemma hoare_lift_keep {A} (P : S → Prop) (r : result E A) (X : S → Prop) :
  (∀ s, P s → X s) → hoare P (lift_result r) (λ _, P) X.
Proof. intros HX. by apply hoare_lift. Qed.
End StateError.

(** Run a computation on a part of the state. *)
Definition zoom {S T E A} (p : S → T) `{!Setter p} (m : M T E A) : M S E A :=
  λ s, let '(r, t) := m (p s) in (r, s <| p := t |>).

(** ** Hash map iteration

    [hashbrown]'s maps and sets iterate in an unspecified order. [iter] is
    that order, and the only thing the development relies on is that an
    iteration visits every entry once. *)

Class HashIter : Type := {
  iter : ∀ {K V : Type} `{Countable K}, gmap K V → list (K * V);
  iter_perm : ∀ {K V : Type} `{Countable K} (m : gmap K V),
    iter m ≡ₚ map_to_list m
}.

(** An iteration order that exists: the map's own. *)
#[export] Instance map_to_list_iter : HashIter | 100 := {|
  iter := λ K V _ _ m, map_to_list m;
  iter_perm := λ K V _ _ m, Permutation_refl _
|}.

Section HashIter.
Context `{HI : HashIter} {K V : Type} `{Countable K}.

Definition iter_values (m : gmap K V) : list V := (iter m).*2.
Definition iter_keys (m : gmap K V) : list K := (iter m).*1.

Lemma elem_of_iter (m : gmap K V) k v : (k, v) ∈ iter m ↔ m !! k = Some v.
Proof. by rewrite iter_perm, elem_of_map_to_list. Qed.

Lemma elem_of_iter_values (m : gmap K V) v :
  v ∈ iter_values m ↔ ∃ k, m !! k = Some v.
Proof.
  unfold iter_values. rewrite list_elem_of_fmap. split.
  - intros [[k v'] [-> Hin%elem_of_iter]]. eauto.
  - intros [k Hk]. exists (k, v). by rewrite elem_of_iter.
Qed.

Lemma elem_of_iter_keys (m : gmap K V) k : k ∈ iter_keys m ↔ is_Some (m !! k).
Proof.
  unfold iter_keys. rewrite list_elem_of_fmap. split.
  - intros [[k' v'] [-> Hin%elem_of_iter]]. eauto.
  - intros [v Hv]. exists (k, v). by rewrite elem_of_iter.
Qed.

Lemma NoDup_iter_keys (m : gmap K V) : NoDup (iter_keys m).
Proof. unfold iter_keys. rewrite iter_perm. apply NoDup_fst_map_to_list. Qed.

Lemma length_iter (m : gmap K V) : length (iter m) = size m.
Proof. by rewrite iter_perm, length_map_to_list. Qed.

Lemma iter_nil (m : gmap K V) : iter m = [] ↔ m = ∅.
Proof.
  rewrite <-length_zero_iff_nil, length_iter. split.
  - apply map_size_empty_inv.
  - intros ->. apply map_size_empty.
Qed.
End HashIter.

(** ** Comparison functions and the stable sort of [slice::sort_by]

    [sort_by] is documented to be stable, and a stable sort by a total
    preorder has one result, so an insertion sort computes the same list. *)

Class TotalCmp {A : Type} (cmp : A → A → comparison) : Prop := {
  cmp_opp : ∀ x y, cmp y x = CompOpp (cmp x y);
  cmp_le_trans : ∀ x y z, cmp x y ≠ Gt → cmp y z ≠ Gt → cmp x z ≠ Gt
}.

Section SortBy.
Context {A : Type} (cmp : A → A → comparison).

Definition cmp_le (x y : A) : Prop := cmp x y ≠ Gt.

#[export] Instance cmp_le_dec x y : Decision (cmp_le x y).
Proof. unfold cmp_le. destruct (cmp x y); first [by left|right; congruence]. Defined.

Fixpoint insert_by (x : A) (l : list A) : list A :=
  match l with
  | [] => [x]
  | y :: l' => match cmp x y with
               | Gt => y :: insert_by x l'
               | _ => x :: l
               end
  end.

Definition sort_by (l : list A) : list A := foldr insert_by [] l.

Lemma insert_by_perm x l : insert_by x l ≡ₚ x :: l.
Proof.
  induction l as [|y l IH]; cbn; [done|].
  destruct (cmp x y); [done|done|]. by rewrite IH, Permutation_swap.
Qed.

Lemma sort_by_perm l : sort_by l ≡ₚ l.
Proof. induction l as [|x l IH]; cbn; [done|]. by rewrite insert_by_perm, IH. Qed.

Context `{!TotalCmp cmp}.

Lemma cmp_refl x : cmp x x = Eq.
Proof. pose proof (cmp_opp x x) as H. by destruct (cmp x x). Qed.

Lemma cmp_Gt_le x y : cmp x y = Gt → cmp_le y x.
Proof. intros H. unfold cmp_le. by rewrite cmp_opp, H. Qed.

Lemma insert_by_sorted x l :
  StronglySorted cmp_le l → StronglySorted cmp_le (insert_by x l).
Proof.
  induction 1 as [|y l Hl IH Hy]; cbn; [by repeat constructor|].
  destruct (cmp x y) eqn:Hc.
  3:{ constructor; [done|]. rewrite insert_by_perm. constructor; [|done].
      by apply cmp_Gt_le. }
  all: assert (cmp_le x y) by (unfold cmp_le; congruence);
    constructor; [by constructor|constructor; [done|]];
    eapply Forall_impl; [exact Hy|]; intros z Hz; by eapply cmp_le_trans.
Qed.

Lemma sort_by_sorted l : StronglySorted cmp_le (sort_by l).
Proof. induction l; cbn; [constructor|by apply insert_by_sorted]. Qed.

(** Elements that compare equal keep their relative order. *)
Lemma insert_by_stable x z l :
  StronglySorted cmp_le l →
  filter (λ y, cmp z y = Eq) (insert_by x l) = filter (λ y, cmp z y = Eq) (x :: l).
Proof.
  induction 1 as [|y l Hl IH Hy]; cbn [insert_by]; [done|].
  destruct (cmp x y) eqn:Hc; [done|done|].
  rewrite filter_cons, IH, !filter_cons.
  destruct (decide (cmp z x = Eq)) as [Hx|], (decide (cmp z y = Eq)) as [Hzy|]; try done.
  exfalso. assert (cmp_le x z) as H1.
  { unfold cmp_le. rewrite cmp_opp, Hx. done. }
  assert (cmp_le z y) as H2 by (unfold cmp_le; congruence).
  by apply (cmp_le_trans x z y H1 H2).
Qed.

Lemma sort_by_stable z l :
  filter (λ y, cmp z y = Eq) (sort_by l) = filter (λ y, cmp z y = Eq) l.
Proof.
  induction l as [|x l IH]; [done|].
  change (sort_by (x :: l)) with (insert_by x (sort_by l)).
  rewrite insert_by_stable by apply sort_by_sorted.
  rewrite !filter_cons. by rewrite IH.
Qed.
End SortBy.

(** A sorted list is determined by its elements, when only equal elements
    compare equal. *)
Lemma sorted_perm_eq {A} (cmp : A → A → comparison) `{!TotalCmp cmp} l1 l2 :
  l1 ≡ₚ l2 → StronglySorted (cmp_le cmp) l1 → StronglySorted (cmp_le cmp) l2 →
  (∀ x y, x ∈ l1 → y ∈ l1 → cmp x y = Eq → x = y) → l1 = l2.
Proof.
  revert l2. induction l1 as [|x l1 IH]; intros l2 Hp H1 H2 Heq.
  { by apply Permutation_nil_l in Hp. }
  destruct l2 as [|y l2]; [by apply Permutation_nil_r in Hp|].
  inv H1. inv H2. assert (x = y) as ->.
  { assert (x ∈ y :: l2) as [?|Hx]%elem_of_cons by (rewrite <-Hp; left); [done|].
    assert (y ∈ x :: l1) as [?|Hy]%elem_of_cons by (rewrite Hp; left); [done|].
    apply Heq; [left|by right|]. rewrite Forall_forall in *.
    assert (cmp_le cmp x y) by auto. assert (cmp_le cmp y x) as Hyx by auto.
    unfold cmp_le in *. rewrite cmp_opp in Hyx. by destruct (cmp x y). }
  f_equal. apply IH; [by apply Permutation_cons_inv in Hp|done|done|].
  intros a b Ha Hb. apply Heq; by right.
Qed.

(** Lexicographic chaining of comparisons, as [then_with] and as the chains
    of [else if let c = .. && c != Equal]. *)
Definition cmp_then (c d : comparison) : comparison :=
  match c with Eq => d | _ => c end.

Lemma CompOpp_then c d : CompOpp (cmp_then c d) = cmp_then (CompOpp c) (CompOpp d).
Proof. by destruct c. Qed.

Definition cmp_on {A B} (f : A → B) (cmp : B → B → comparison) (x y : A) : comparison :=
  cmp (f x) (f y).

#[export] Instance total_Zcompare : TotalCmp Z.compare.
Proof.
  split.
  - intros x y. apply Z.compare_antisym.
  - intros x y z. rewrite !Z.compare_le_iff. lia.
Qed.

Lemma total_cmp_on {A B} (f : A → B) cmp `{!TotalCmp cmp} :
  TotalCmp (cmp_on f cmp).
Proof.
  split; unfold cmp_on; [intros; apply cmp_opp|intros x y z; apply cmp_le_trans].
Qed.

Lemma total_cmp_flip {A} (cmp : A → A → comparison) `{!TotalCmp cmp} :
  TotalCmp (flip cmp).
Proof.
  split; unfold flip.
  - intros x y. apply cmp_opp.
  - intros x y z H1 H2. by apply (cmp_le_trans z y x).
Qed.

Lemma cmp_le_Eq {A} (cmp : A → A → comparison) `{!TotalCmp cmp} x y z :
  cmp x y ≠ Gt → cmp y z ≠ Gt → cmp x z = Eq → cmp x y = Eq ∧ cmp y z = Eq.
Proof.
  intros H1 H2 H3.
  assert (cmp z x = Eq) as H3' by (rewrite cmp_opp, H3; done).
  assert (cmp y x ≠ Gt) as H4.
  { apply (cmp_le_trans y z x); [done|congruence]. }
  assert (cmp z y ≠ Gt) as H5.
  { apply (cmp_le_trans z x y); [congruence|done]. }
  rewrite cmp_opp in H4, H5.
  destruct (cmp x y), (cmp y z); cbn in *; done.
Qed.

Lemma total_cmp_then {A} (c1 c2 : A → A → comparison)
  `{!TotalCmp c1, !TotalCmp c2} : TotalCmp (λ x y, cmp_then (c1 x y) (c2 x y)).
Proof.
  split.
  - intros x y. by rewrite CompOpp_then, <-!cmp_opp.
  - intros x y z H1 H2.
    assert (c1 x y ≠ Gt) as A1 by (destruct (c1 x y); done).
    assert (c1 y z ≠ Gt) as A2 by (destruct (c1 y z); done).
    pose proof (cmp_le_trans x y z A1 A2) as A3.
    destruct (c1 x z) eqn:E; cbn; [|done|done].
    destruct (cmp_le_Eq c1 x y z A1 A2 E) as [E1 E2].
    rewrite E1 in H1. rewrite E2 in H2. cbn in *.
    by apply (cmp_le_trans x y z).
Qed.

(** ** Lists and maps *)

Section Lists.
Context {A : Type}.

Lemma find_Some_elem (f : A → bool) l x :
  List.find f l = Some x → x ∈ l ∧ f x = true.
Proof. intros [H1 H2]%List.find_some. by rewrite list_elem_of_In. Qed.

Lemma find_None_elem (f : A → bool) l x :
  List.find f l = None → x ∈ l → f x = false.
Proof. rewrite list_elem_of_In. intros H Hx. by apply (List.find_none _ _ H). Qed.

Lemma find_is_Some (f : A → bool) l :
  is_Some (List.find f l) ↔ ∃ x, x ∈ l ∧ f x = true.
Proof.
  split.
  - intros [x Hx%find_Some_elem]. eauto.
  - intros (x & Hx & Hf). destruct (List.find f l) as [y|] eqn:E; [eauto|].
    rewrite (find_None_elem _ _ _ E Hx) in Hf. done.
Qed.

(** [find] returns the first match. *)
Lemma find_Some_split (f : A → bool) l x :
  List.find f l = Some x ↔
  ∃ l1 l2, l = l1 ++ x :: l2 ∧ f x = true ∧ Forall (λ y, f y = false) l1.
Proof.
  split.
  - induction l as [|y l IH]; cbn; [done|].
    destruct (f y) eqn:E; [intros [= ->]; exists [], l; eauto|].
    intros (l1 & l2 & -> & Hf & Hl)%IH. exists (y :: l1), l2. eauto.
  - intros (l1 & l2 & -> & Hf & Hl).
    induction Hl as [|y l1 Hy _ IH]; cbn; [by rewrite Hf|by rewrite Hy].
Qed.

Lemma filter_all_true (P : A → Prop) `{!∀ x, Decision (P x)} l :
  Forall P l → filter P l = l.
Proof.
  induction 1 as [|x l Hx _ IH]; [done|]. by rewrite filter_cons_True, IH by done.
Qed.
End Lists.

Definition sum_list_Z (l : list Z) : Z := foldr Z.add 0%Z l.

Lemma sum_list_Z_app l1 l2 : sum_list_Z (l1 ++ l2) = (sum_list_Z l1 + sum_list_Z l2)%Z.
Proof. unfold sum_list_Z. induction l1; cbn in *; lia. Qed.

#[export] Instance sum_list_Z_perm : Proper ((≡ₚ) ==> (=)) sum_list_Z.
Proof. unfold sum_list_Z. induction 1; cbn in *; lia. Qed.

(** ** Automation *)

Create HintDb runner.
#[export] Hint Resolve preserves_ret preserves_gets preserves_lift preserves_attempt : runner.

(** Split a goal or hypotheses about the [match]es of a handler. *)
Ltac case_all := repeat (case_match; simplify_eq/=; try done).

(** Boolean conditions of the source as propositions. *)
Ltac bool_prop :=
  repeat match goal with
  | H : (_ && _) = true |- _ => apply andb_true_iff in H as [? ?]
  | H : (_ || _) = false |- _ => apply orb_false_iff in H as [? ?]
  | H : negb _ = true |- _ => apply negb_true_iff in H
  | H : negb _ = false |- _ => apply negb_false_iff in H
  | H : (_ <? _)%Z = true |- _ => apply Z.ltb_lt in H
  | H : (_ <? _)%Z = false |- _ => apply Z.ltb_ge in H
  | H : (_ <=? _)%Z = true |- _ => apply Z.leb_le in H
  | H : (_ <=? _)%Z = false |- _ => apply Z.leb_gt in H
  | H : (_ =? _)%Z = true |- _ => apply Z.eqb_eq in H
  | H : (_ =? _)%Z = false |- _ => apply Z.eqb_neq in H
  | H : bool_decide _ = true |- _ => apply bool_decide_eq_true in H
  | H : bool_decide _ = false |- _ => apply bool_decide_eq_false in H
  end.
