(* ===== verification/Floats.v ===== *)
(** * Floats: the [f32] and [f64] values the scheduler compares

    A float is a [spec_float] of the standard library's executable IEEE-754
    specification, in the format ([prec], [emax]) of its type. [total_cmp] is
    the comparison of the bit patterns that Rust's [f64::total_cmp] and
    [f32::total_cmp] document (IEEE-754 [totalOrder]). *)

From Corelib Require Export SpecFloat.
From S2P Require Import Prelude.
Local Open Scope Z_scope.

(** What the language leaves to the platform: the sign of the NaN an
    operation produces, and the result of [f32::powf]. *)
Class FloatEnv : Type := {
  nan_negative : bool;
  powf : spec_float → spec_float → spec_float
}.

Record format := Format { prec : Z; emax : Z }.
Definition f32_format : format := Format 24 128.
Definition f64_format : format := Format 53 1024.

Abbreviation f32 := spec_float.
Abbreviation f64 := spec_float.

Definition of_Z (F : format) (z : Z) : spec_float :=
  binary_normalize (prec F) (emax F) z 0 false.
Definition f64_of_Z : Z → f64 := of_Z f64_format.
Definition f32_of_Z : Z → f32 := of_Z f32_format.

Definition f64_div : f64 → f64 → f64 := SFdiv 53 1024.
Definition f64_mul : f64 → f64 → f64 := SFmul 53 1024.
Definition f32_mul : f32 → f32 → f32 := SFmul 24 128.

(** [f64::from(x : f32)], exact. *)
Definition f64_of_f32 (x : f32) : f64 :=
  match x with
  | S754_finite s m e => binary_round 53 1024 s m e
  | _ => x
  end.

(** [x as i64]: truncation toward zero, saturating, NaN to 0. *)
Definition trunc_Z (x : spec_float) : Z :=
  match x with
  | S754_finite s m e =>
      let v := if 0 <=? e then Z.pos m * 2 ^ e else Z.pos m / 2 ^ (- e) in
      if s then - v else v
  | _ => 0
  end.
Definition to_i64 (x : spec_float) : Z :=
  match x with
  | S754_infinity false => 2 ^ 63 - 1
  | S754_infinity true => - 2 ^ 63
  | _ => Z.max (- 2 ^ 63) (Z.min (2 ^ 63 - 1) (trunc_Z x))
  end.

(** The bits of the absolute value, as an integer: biased exponent and
    significand side by side. *)
Definition mag_bits (F : format) (x : spec_float) : Z :=
  let one_exp := 2 ^ (prec F - 1) in
  match x with
  | S754_zero _ => 0
  | S754_finite _ m e => (e - (3 - emax F - prec F)) * one_exp + Z.pos m
  | S754_infinity _ => (2 * emax F - 1) * one_exp
  | S754_nan => (2 * emax F - 1) * one_exp + 2 ^ (prec F - 2)
  end.

Section Env.
Context `{FE : FloatEnv}.

Definition sign_bit (x : spec_float) : bool :=
  match x with
  | S754_zero s | S754_infinity s | S754_finite s _ _ => s
  | S754_nan => nan_negative
  end.

(** [left ^= (((left >> 63) as u64) >> 1) as i64] turns the bit pattern of a
    negative number with magnitude [m] into [-1 - m]. *)
Definition total_key (F : format) (x : spec_float) : Z :=
  if sign_bit x then -1 - mag_bits F x else mag_bits F x.

Definition total_cmp (F : format) (x y : spec_float) : comparison :=
  (total_key F x ?= total_key F y).

#[export] Instance total_cmp_total F : TotalCmp (total_cmp F).
Proof. change (total_cmp F) with (cmp_on (total_key F) Z.compare).
  apply total_cmp_on, total_Zcompare.
Qed.

(** [Iterator::min_by(f64::total_cmp)]: the first of the least elements. *)
Definition min_by_total (F : format) (l : list spec_float) : option spec_float :=
  match l with
  | [] => None
  | x :: l' => Some (foldl (λ m y, match total_cmp F m y with Gt => y | _ => m end) x l')
  end.

Lemma min_by_foldl F l x m :
  foldl (λ m y, match total_cmp F m y with Gt => y | _ => m end) x l = m →
  m ∈ x :: l ∧ Forall (λ y, total_cmp F m y ≠ Gt) (x :: l).
Proof.
  revert x. induction l as [|y l IH]; intros x; cbn.
  - intros <-. split; [by left|]. constructor; [|done].
    rewrite (cmp_refl (total_cmp F)). done.
  - intros H. destruct (total_cmp F x y) eqn:E; apply IH in H as [Hin Hall];
      inv Hall; (split; [set_solver|]); repeat (constructor; [|try done]); try done.
    1,2: apply (cmp_le_trans m x y); [done|congruence].
    apply (cmp_le_trans m y x); [done|]. rewrite cmp_opp, E. done.
Qed.

Lemma min_by_total_spec F l m :
  min_by_total F l = Some m →
  m ∈ l ∧ Forall (λ y, total_cmp F m y ≠ Gt) l.
Proof.
  destruct l as [|x l]; cbn; [done|]. intros [= H]. by apply min_by_foldl.
Qed.
End Env.

(** The behaviour of x86-64: NaNs come out negative; [powf] of a whole
    exponent is the repeated product. *)
Definition powf_int (x y : f32) : f32 :=
  Nat.iter (Z.to_nat (trunc_Z y)) (f32_mul x) (f32_of_Z 1).
Definition x86_env : FloatEnv := {| nan_negative := true; powf := powf_int |}.

Example total_cmp_neg_zero :
  total_cmp (FE := x86_env) f64_format (S754_zero true) (S754_zero false) = Lt.
Proof. vm_compute. reflexivity. Qed.

Example total_cmp_nan :
  total_cmp (FE := x86_env) f64_format S754_nan (S754_infinity true) = Lt.
Proof. vm_compute. reflexivity. Qed.

Example f64_div_third : to_i64 (f64_div (f64_of_Z 10) (f64_of_Z 3)) = 3.
Proof. vm_compute. reflexivity. Qed.

(** ** Reading a decimal ([f64::from_str])

    The value [± m * 10 ^ k], rounded once: a quotient keeps two bits more
    than the format and a sticky bit for the remainder. *)
Definition f64_abs (x : f64) : f64 := SFabs x.
Definition f64_gt (x y : spec_float) : bool := SFltb y x.
Definition f64_lt (x y : spec_float) : bool := SFltb x y.

(** [x as u64] *)
Definition to_u64 (x : spec_float) : Z :=
  match x with
  | S754_infinity false => 2 ^ 64 - 1
  | S754_infinity true => 0
  | _ => Z.max 0 (Z.min (2 ^ 64 - 1) (trunc_Z x))
  end.

Definition of_decimal (F : format) (neg : bool) (m k : Z) : spec_float :=
  let sgn z := if neg then - z else z in
  if m =? 0 then S754_zero neg
  else if 0 <=? k then binary_normalize (prec F) (emax F) (sgn (m * 10 ^ k)) 0 neg
  else
    let d := 10 ^ (- k) in
    let s := Z.max 0 (prec F + 3 + Z.log2 d - Z.log2 m) in
    let n := m * 2 ^ s in
    let q := 2 * (n / d) + (if n mod d =? 0 then 0 else 1) in
    binary_normalize (prec F) (emax F) (sgn q) (- s - 1) neg.

Example of_decimal_tenth :
  of_decimal f64_format false 1 (-1) = S754_finite false 7205759403792794 (-56).
Proof. vm_compute. reflexivity. Qed.
