(* ===== verification/RustStr.v ===== *)
(** * RustStr: the [str] operations the code uses

    Strings are byte strings read as ASCII: [trim], [split_whitespace] and
    the case conversions treat the ASCII white space and letters. *)

From Stdlib Require Import Ascii String.
From Stdlib Require Import DecimalString DecimalN.
From S2P Require Import Prelude.
Local Open Scope string_scope.
#[local] Arguments String.append : simpl nomatch.

Definition NL : ascii := "010"%char.
Definition CR : ascii := "013"%char.

(** [char::is_whitespace] on ASCII. *)
Definition is_ws (a : ascii) : bool :=
  match a with
  | " "%char | "009"%char | "010"%char | "011"%char | "012"%char | "013"%char => true
  | _ => false
  end.

Definition is_digit (a : ascii) : bool :=
  let n := N_of_ascii a in ((48 <=? n) && (n <=? 57))%N.
Definition is_ascii_hexdigit (a : ascii) : bool :=
  let n := N_of_ascii a in
  is_digit a || ((65 <=? n) && (n <=? 70))%N || ((97 <=? n) && (n <=? 102))%N.

Definition lower (a : ascii) : ascii :=
  let n := N_of_ascii a in
  if ((65 <=? n) && (n <=? 90))%N then ascii_of_N (n + 32)%N else a.

Fixpoint to_ascii_lowercase (s : string) : string :=
  match s with "" => "" | String a s' => String (lower a) (to_ascii_lowercase s') end.

Fixpoint str_forall (f : ascii → bool) (s : string) : bool :=
  match s with "" => true | String a s' => f a && str_forall f s' end.

Fixpoint contains_char (c : ascii) (s : string) : bool :=
  match s with "" => false | String a s' => Ascii.eqb a c || contains_char c s' end.

Fixpoint strip_prefix (p s : string) : option string :=
  match p, s with
  | "", _ => Some s
  | String a p', String b s' => if Ascii.eqb a b then strip_prefix p' s' else None
  | String _ _, "" => None
  end.

Definition starts_with (p s : string) : bool := bool_decide (is_Some (strip_prefix p s)).

Fixpoint str_rev (acc s : string) : string :=
  match s with "" => acc | String a s' => str_rev (String a acc) s' end.

Definition ends_with (p s : string) : bool := starts_with (str_rev "" p) (str_rev "" s).

Definition strip_suffix (p s : string) : option string :=
  str_rev "" <$> strip_prefix (str_rev "" p) (str_rev "" s).

(** [s.split(c)]: always at least one piece. *)
Fixpoint split_char (c : ascii) (s : string) : list string :=
  match s with
  | "" => [""]
  | String a s' =>
      if Ascii.eqb a c then "" :: split_char c s'
      else match split_char c s' with
           | [] => [String a ""]
           | p :: ps => String a p :: ps
           end
  end.

(** [s.split_once(c)]: at the first [c]. *)
Fixpoint split_once (c : ascii) (s : string) : option (string * string) :=
  match s with
  | "" => None
  | String a s' =>
      if Ascii.eqb a c then Some ("", s')
      else '(k, v) ← split_once c s'; Some (String a k, v)
  end.

Fixpoint trim_start (s : string) : string :=
  match s with "" => "" | String a s' => if is_ws a then trim_start s' else s end.

Fixpoint trim_end (s : string) : string :=
  match s with
  | "" => ""
  | String a s' =>
      match trim_end s' with
      | "" => if is_ws a then "" else String a ""
      | t => String a t
      end
  end.

Definition trim (s : string) : string := trim_end (trim_start s).

(** [s.split_whitespace()] *)
Fixpoint split_ws (s : string) : list string :=
  match s with
  | "" => [""]
  | String a s' =>
      if is_ws a then "" :: split_ws s'
      else match split_ws s' with
           | [] => [String a ""]
           | p :: ps => String a p :: ps
           end
  end.
Definition split_whitespace (s : string) : list string :=
  filter (λ p, p ≠ "") (split_ws s).

Definition strip_cr (s : string) : string :=
  match strip_suffix (String CR "") s with Some s' => s' | None => s end.

(** [s.lines()]: the terminated lines without their terminator and a last
    unterminated one, when it is not empty. *)
Fixpoint lines_of (ps : list string) : list string :=
  match ps with
  | [] => []
  | [p] => if decide (p = "") then [] else [p]
  | p :: ps' => strip_cr p :: lines_of ps'
  end.
Definition lines (s : string) : list string := lines_of (split_char NL s).

Fixpoint join (sep : string) (l : list string) : string :=
  match l with
  | [] => ""
  | [p] => p
  | p :: l' => p +:+ sep +:+ join sep l'
  end.

(** [u64::to_string] and [str::parse::<u64>]. *)
Definition show_N (n : N) : string := NilZero.string_of_uint (N.to_uint n).
Definition show_Z (z : Z) : string :=
  if (z <? 0)%Z then "-" +:+ show_N (Z.to_N (- z)) else show_N (Z.to_N z).

Inductive IntErrorKind := Empty | InvalidDigit | PosOverflow | NegOverflow.

(** Why the digits of a number below [lim] cannot be read: the first character
    that is not a digit, or the first prefix that is too big. *)
Fixpoint int_error (lim acc : Z) (s : string) : IntErrorKind :=
  match s with
  | "" => InvalidDigit
  | String a s' =>
      if is_digit a then
        let acc := (10 * acc + (Z.of_N (N_of_ascii a) - 48))%Z in
        if (acc <? lim)%Z then int_error lim acc s' else PosOverflow
      else InvalidDigit
  end.

Definition parse_digits (lim : Z) (s : string) : result IntErrorKind Z :=
  match NilZero.uint_of_string s with
  | None => Err (int_error lim 0 s)
  | Some d => let z := Z.of_N (N.of_uint d) in
              if (z <? lim)%Z then Ok z else Err (int_error lim 0 s)
  end.

Definition parse_u (w : Z) (s : string) : result IntErrorKind Z :=
  match s with
  | "" => Err Empty
  | _ => parse_digits (2 ^ w) (default s (strip_prefix "+" s))
  end.

(** [str::parse::<i32>] and the like. *)
Definition parse_i (w : Z) (s : string) : result IntErrorKind Z :=
  match s with
  | "" => Err Empty
  | _ =>
      match strip_prefix "-" s with
      | None => parse_digits (2 ^ (w - 1)) (default s (strip_prefix "+" s))
      | Some digits =>
          match parse_digits (2 ^ (w - 1) + 1) digits with
          | Ok z => Ok (- z)%Z
          | Err PosOverflow => Err NegOverflow
          | Err e => Err e
          end
      end
  end.

(** ** Lemmas *)

Lemma str_app_assoc (s t u : string) : (s +:+ t) +:+ u = s +:+ (t +:+ u).
Proof. by induction s as [|a s IH]; cbn; [|rewrite <-IH]. Qed.

Lemma str_app_nil_r (s : string) : s +:+ "" = s.
Proof. by induction s as [|a s IH]; cbn; [|f_equal]. Qed.

Lemma strip_prefix_app p s : strip_prefix p (p +:+ s) = Some s.
Proof. induction p as [|a p IH]; cbn; [done|]. by rewrite Ascii.eqb_refl. Qed.

Lemma strip_prefix_Some p s t : strip_prefix p s = Some t ↔ s = p +:+ t.
Proof.
  split; [|intros ->; apply strip_prefix_app].
  revert s. induction p as [|a p IH]; intros s; cbn; [by intros [= ->]|].
  destruct s as [|b s]; [done|].
  destruct (Ascii.eqb_spec a b) as [->|]; [|done]. by intros ->%IH.
Qed.

Lemma str_rev_spec acc s : str_rev acc s = str_rev "" s +:+ acc.
Proof.
  revert acc. induction s as [|a s IH]; intros acc; cbn; [done|].
  rewrite IH, (IH (String a "")), str_app_assoc. done.
Qed.

Lemma str_rev_app s t : str_rev "" (s +:+ t) = str_rev "" t +:+ str_rev "" s.
Proof.
  induction s as [|a s IH]; cbn; [by rewrite str_app_nil_r|].
  by rewrite str_rev_spec, IH, (str_rev_spec (String a "")), str_app_assoc.
Qed.

Lemma str_rev_involutive s : str_rev "" (str_rev "" s) = s.
Proof.
  induction s as [|a s IH]; cbn; [done|].
  rewrite (str_rev_spec (String a "")), str_rev_app, IH. done.
Qed.

Lemma strip_suffix_Some p s t : strip_suffix p s = Some t ↔ s = t +:+ p.
Proof.
  unfold strip_suffix. rewrite fmap_Some. split.
  - intros (x & H%strip_prefix_Some & ->).
    rewrite <-(str_rev_involutive s), H, str_rev_app, str_rev_involutive. done.
  - intros ->. exists (str_rev "" t). rewrite str_rev_app, strip_prefix_app.
    by rewrite str_rev_involutive.
Qed.

Lemma contains_char_app c s t :
  contains_char c (s +:+ t) = contains_char c s || contains_char c t.
Proof. induction s as [|a s IH]; cbn; [done|]. by rewrite IH, orb_assoc. Qed.

Lemma split_char_nonempty c s : split_char c s ≠ [].
Proof. destruct s as [|a s]; cbn; [done|]. by case_match; [|case_match]. Qed.

(** Splitting after a piece without the separator. *)
Lemma split_char_app c s t :
  contains_char c s = false → split_char c (s +:+ String c t) = s :: split_char c t.
Proof.
  induction s as [|a s IH]; cbn; intros H; [by rewrite Ascii.eqb_refl|].
  apply orb_false_iff in H as [-> H]. by rewrite IH.
Qed.

Lemma split_char_none c s : contains_char c s = false → split_char c s = [s].
Proof.
  induction s as [|a s IH]; cbn; [done|].
  intros [-> H]%orb_false_iff. by rewrite IH.
Qed.

Lemma split_once_app c s t :
  contains_char c s = false → split_once c (s +:+ String c t) = Some (s, t).
Proof.
  induction s as [|a s IH]; cbn; intros H; [by rewrite Ascii.eqb_refl|].
  apply orb_false_iff in H as [-> H]. by rewrite IH.
Qed.

Lemma strip_cr_id s : contains_char CR s = false → strip_cr s = s.
Proof.
  intros H. unfold strip_cr. destruct (strip_suffix _ s) as [t|] eqn:E; [|done].
  apply strip_suffix_Some in E as ->. rewrite contains_char_app in H.
  by rewrite andb_false_r || (destruct (contains_char CR t); cbn in H).
Qed.

(** A text of terminated lines is read back line by line. *)
Definition unlines (ls : list string) : string :=
  foldr (λ l acc, l +:+ String NL acc) "" ls.

Definition line_ok (s : string) : bool :=
  negb (contains_char NL s) && negb (contains_char CR s).

Lemma lines_of_cons p ps : ps ≠ [] → lines_of (p :: ps) = strip_cr p :: lines_of ps.
Proof. by destruct ps. Qed.

Lemma lines_unlines ls : Forall (λ l, line_ok l = true) ls → lines (unlines ls) = ls.
Proof.
  unfold lines. induction 1 as [|l ls [H1 H2]%andb_true_iff _ IH]; [done|].
  apply negb_true_iff in H1, H2. cbn [unlines foldr].
  rewrite split_char_app by done.
  rewrite lines_of_cons by apply split_char_nonempty.
  unfold unlines in IH. by rewrite IH, strip_cr_id.
Qed.

Example parse_i_cases :
  parse_i 32 "-12" = Ok (-12)%Z ∧ parse_i 32 "+7" = Ok 7%Z ∧ parse_i 32 "2147483648" = Err PosOverflow ∧
  parse_i 32 "-2147483648" = Ok (-2147483648)%Z ∧ parse_i 32 "-" = Err InvalidDigit ∧
  parse_u 64 "+" = Err InvalidDigit ∧ parse_u 64 "-1" = Err InvalidDigit.
Proof. vm_compute. done. Qed.

(** Printed numbers parse back. *)
Lemma string_of_uint_nonempty d : NilZero.string_of_uint d ≠ "".
Proof. by destruct d. Qed.

Lemma string_of_uint_digit d a s :
  NilZero.string_of_uint d = String a s → is_digit a = true.
Proof. destruct d; cbn; intros [= <- _]; done. Qed.

Lemma uint_of_string_of_uint d :
  d ≠ Decimal.Nil → NilZero.uint_of_string (NilZero.string_of_uint d) = Some d.
Proof. apply NilZero.usu. Qed.

Lemma N_to_uint_not_nil n : N.to_uint n ≠ Decimal.Nil.
Proof.
  intros H. pose proof (DecimalN.Unsigned.of_to n) as E. rewrite H in E.
  cbn in E. subst n. done.
Qed.

Lemma parse_u_show w n :
  in_u w (Z.of_N n) = true → parse_u w (show_N n) = Ok (Z.of_N n).
Proof.
  intros H. unfold parse_u, show_N.
  destruct (NilZero.string_of_uint (N.to_uint n)) as [|a s] eqn:E.
  { by apply string_of_uint_nonempty in E. }
  destruct (strip_prefix "+" (String a s)) as [t|] eqn:Ep.
  { apply strip_prefix_Some in Ep. cbn in Ep. injection Ep as -> ->.
    apply string_of_uint_digit in E. done. }
  cbn [default]. unfold parse_digits.
  rewrite <-E, uint_of_string_of_uint by apply N_to_uint_not_nil.
  rewrite DecimalN.Unsigned.of_to. unfold in_u in H. by apply andb_true_iff in H as [_ ->].
Qed.

(** ** Trimming *)

Lemma str_forall_app f s t : str_forall f (s +:+ t) = str_forall f s && str_forall f t.
Proof. induction s as [|a s IH]; cbn; [done|]. by rewrite IH, andb_assoc. Qed.

Lemma str_forall_impl (f g : ascii → bool) s :
  (∀ a, f a = true → g a = true) → str_forall f s = true → str_forall g s = true.
Proof.
  intros Hfg. induction s as [|a s IH]; cbn; [done|].
  intros [Ha Hs]%andb_true_iff. by rewrite (Hfg a Ha), IH.
Qed.

Lemma trim_end_cons a s : is_ws a = false ∨ trim_end s ≠ "" → trim_end (String a s) = String a (trim_end s).
Proof. cbn. by destruct (trim_end s); [intros [->|?]|]. Qed.

Lemma trim_end_app s t : trim_end t ≠ "" → trim_end (s +:+ t) = s +:+ trim_end t.
Proof.
  intros H. induction s as [|a s IH]; [done|].
  cbn [String.append]. rewrite trim_end_cons, IH; [done|].
  right. rewrite IH. destruct s; [done|by cbn].
Qed.

Lemma trim_end_app_char s a t : is_ws a = false → trim_end (s +:+ String a t) = s +:+ String a (trim_end t).
Proof.
  intros Ha. rewrite trim_end_app, trim_end_cons by (rewrite ?trim_end_cons; auto). done.
Qed.

Definition non_ws (a : ascii) : bool := negb (is_ws a).

Lemma trim_end_non_ws s : str_forall non_ws s = true → trim_end s = s.
Proof.
  induction s as [|a s IH]; [done|]. cbn [str_forall]. intros [Ha Hs]%andb_true_iff.
  rewrite trim_end_cons, IH; [done..|]. left. by apply negb_true_iff.
Qed.

Lemma trim_start_app a s : is_ws a = false → trim_start (String a s) = String a s.
Proof. cbn. by intros ->. Qed.

Lemma non_ws_line s : str_forall non_ws s = true → line_ok s = true.
Proof.
  unfold line_ok. induction s as [|a s IH]; [done|].
  cbn [str_forall contains_char]. intros [Ha Hs]%andb_true_iff.
  apply IH, andb_true_iff in Hs as [H1 H2].
  destruct (Ascii.eqb_spec a NL) as [->|]; [done|].
  destruct (Ascii.eqb_spec a CR) as [->|]; [done|]. by rewrite !orb_false_l, H1, H2.
Qed.

Lemma line_ok_app s t : line_ok (s +:+ t) = line_ok s && line_ok t.
Proof. unfold line_ok. rewrite !contains_char_app, !negb_orb.
  by destruct (contains_char NL s), (contains_char CR s), (contains_char NL t). Qed.

Lemma is_digit_non_ws a : is_digit a = true → non_ws a = true.
Proof. by destruct a as [[] [] [] [] [] [] [] []]; vm_compute. Qed.

Lemma show_N_digits n : str_forall is_digit (show_N n) = true.
Proof.
  unfold show_N. assert (∀ d, str_forall is_digit (NilEmpty.string_of_uint d) = true) as H.
  { by induction d. }
  unfold NilZero.string_of_uint. by case_match; [|apply H..].
Qed.

Lemma show_Z_non_ws z : (0 ≤ z)%Z → str_forall non_ws (show_Z z) = true.
Proof.
  intros Hz. unfold show_Z. rewrite (proj2 (Z.ltb_ge z 0)) by done.
  eapply str_forall_impl, show_N_digits. apply is_digit_non_ws.
Qed.

Lemma parse_u_show_Z w z : in_u w z = true → parse_u w (show_Z z) = Ok z.
Proof.
  intros H. assert (0 ≤ z)%Z as Hz by (unfold in_u in H; lia).
  unfold show_Z. rewrite (proj2 (Z.ltb_ge z 0)) by done.
  rewrite parse_u_show; rewrite Z2N.id by done; done.
Qed.

(** Signed numbers that are not negative. *)
Lemma parse_i_show_Z w z : in_u (w - 1) z = true → parse_i w (show_Z z) = Ok z.
Proof.
  intros H. pose proof (parse_u_show_Z _ _ H) as Hu. revert Hu. unfold parse_u, parse_i.
  assert (0 ≤ z)%Z as Hz by (unfold in_u in H; lia).
  assert (show_Z z = show_N (Z.to_N z)) as -> by (unfold show_Z; by rewrite (proj2 (Z.ltb_ge z 0))).
  destruct (show_N (Z.to_N z)) as [|a s] eqn:E; [done|].
  destruct (strip_prefix "-" (String a s)) as [t|] eqn:Ep; [|done].
  apply strip_prefix_Some in Ep. cbn in Ep. injection Ep as -> ->.
  unfold show_N in E. by apply string_of_uint_digit in E.
Qed.

(** Words without white space, separated by single blanks, are read back. *)
Lemma split_ws_app s b t : is_ws b = true → str_forall non_ws s = true →
  split_ws (s +:+ String b t) = s :: split_ws t.
Proof.
  intros Hb. induction s as [|a s IH]; cbn; [by rewrite Hb|]. intros [Ha Hs]%andb_true_iff.
  apply negb_true_iff in Ha. by rewrite Ha, IH.
Qed.

Lemma split_ws_word s : str_forall non_ws s = true → split_ws s = [s].
Proof.
  induction s as [|a s IH]; cbn; [done|]. intros [Ha Hs]%andb_true_iff.
  apply negb_true_iff in Ha. by rewrite Ha, IH.
Qed.

Lemma join_cons sep p l : l ≠ [] → join sep (p :: l) = p +:+ sep +:+ join sep l.
Proof. by destruct l. Qed.

Lemma split_whitespace_join l :
  Forall (λ s, s ≠ "" ∧ str_forall non_ws s = true) l → split_whitespace (join " " l) = l.
Proof.
  unfold split_whitespace. induction 1 as [|s l [Hs Hw] _ IH]; [done|].
  destruct l as [|s' l].
  { cbn [join]. rewrite split_ws_word, filter_cons_True by done. done. }
  rewrite join_cons by done. change (" " +:+ join " " (s' :: l)) with (String " " (join " " (s' :: l))).
  rewrite split_ws_app, filter_cons_True by done. by f_equal.
Qed.

Lemma join_trim l :
  Forall (λ s, s ≠ "" ∧ str_forall non_ws s = true) l → trim_end (join " " l) = join " " l.
Proof.
  induction 1 as [|s l [Hs Hw] Hl IH]; [done|].
  destruct Hl as [|s' l [Hs' _] Hl]; [cbn [join]; by apply trim_end_non_ws|].
  rewrite join_cons, <-str_app_assoc by done. rewrite trim_end_app; rewrite IH; [done|].
  by destruct s', l.
Qed.

Lemma join_line l : Forall (λ s, str_forall non_ws s = true) l → line_ok (join " " l) = true.
Proof.
  induction 1 as [|s l Hs _ IH]; [done|]. destruct l as [|s' l]; [cbn [join]; by apply non_ws_line|].
  by rewrite join_cons, !line_ok_app, IH, non_ws_line by done.
Qed.

(** ** Separators *)

Lemma str_length_app s t : String.length (s +:+ t) = (String.length s + String.length t)%nat.
Proof. induction s as [|a s IH]; cbn; [done|]. by rewrite IH. Qed.

Lemma split_once_inj c s1 s2 t1 t2 : contains_char c s1 = false → contains_char c s2 = false →
  s1 +:+ String c t1 = s2 +:+ String c t2 → s1 = s2 ∧ t1 = t2.
Proof.
  intros H1 H2 H. apply (f_equal (split_once c)) in H. rewrite !split_once_app in H by done.
  by injection H.
Qed.

Lemma split_char_join (c : ascii) l : l ≠ [] → Forall (λ s, contains_char c s = false) l →
  split_char c (join (String c "") l) = l.
Proof.
  intros Hne H. induction H as [|s l Hs Hl IH]; [done|].
  destruct l as [|s' l]; [by apply split_char_none|].
  rewrite join_cons by done. cbn [String.append]. rewrite split_char_app by done. by rewrite IH.
Qed.

Lemma join_inj (c : ascii) l l' :
  Forall (λ s, s ≠ "" ∧ contains_char c s = false) l →
  Forall (λ s, s ≠ "" ∧ contains_char c s = false) l' →
  join (String c "") l = join (String c "") l' → l = l'.
Proof.
  intros H H' E.
  assert (∀ l : list string, Forall (λ s, s ≠ "" ∧ contains_char c s = false) l →
    l ≠ [] → join (String c "") l ≠ "") as Hne.
  { intros k Hk Hn. destruct Hk as [|s k [Hs _] _]; [done|]. by destruct s, k. }
  assert (∀ l : list string, Forall (λ s, s ≠ "" ∧ contains_char c s = false) l →
    l ≠ [] → split_char c (join (String c "") l) = l) as Hsp.
  { intros ? F ?. apply split_char_join; [done|]. eapply Forall_impl; [exact F|]. by intros ? []. }
  destruct (decide (l = [])) as [->|Hl], (decide (l' = [])) as [->|Hl']; [done| | |].
  - by edestruct Hne; [exact H'|done|].
  - by edestruct Hne; [exact H|done|].
  - by rewrite <-(Hsp l), <-(Hsp l'), E.
Qed.
