(* ===== verification/SockAddr.v ===== *)
(** * SockAddr: the addresses a server listens on
    ([BindSocket::from_str] of [queue-runner/src/config.rs])

    An address is read the way the standard library reads a [SocketAddr]; what
    is no address is the path of a socket, and a dash the socket that the
    service manager passes on. *)

From Stdlib Require Import Ascii String.
From S2P Require Import Prelude RustStr.
Local Open Scope string_scope.
Local Open Scope list_scope.
Local Open Scope Z_scope.

(** Four octets, or eight groups and a scope; and a port. *)
Inductive SocketAddr :=
| V4 (ip : list Z) (port : Z)
| V6 (groups : list Z) (scope_id port : Z).
#[export] Instance SocketAddr_eq_dec : EqDecision SocketAddr.
Proof. solve_decision. Defined.

(** ** The reader *)

Abbreviation Reader A := (string → option (A * string)).

(** [char::to_digit] *)
Definition to_digit (radix : Z) (c : ascii) : option Z :=
  let n := Z.of_N (N_of_ascii c) in
  let d := if (48 <=? n) && (n <=? 57) then n - 48
           else if (97 <=? n) && (n <=? 102) then n - 87
           else if (65 <=? n) && (n <=? 70) then n - 55 else radix in
  if d <? radix then Some d else None.

Definition read_given_char (c : ascii) : Reader unit := λ s,
  match s with String c' s' => if Ascii.eqb c c' then Some (tt, s') else None | EmptyString => None end.

(** The digits at the front: their value and number. A value above [limit], or
    more than [max_digits], is no number. *)
Fixpoint read_digits (radix : Z) (max_digits : option nat) (limit : Z) (result : Z) (count : nat) (s : string)
  : option (Z * nat * string) :=
  match s with
  | EmptyString => Some (result, count, s)
  | String c s' =>
      match to_digit radix c with
      | None => Some (result, count, s)
      | Some d =>
          let result := result * radix + d in
          if match max_digits with Some m => (m <? S count)%nat | None => limit <? result end then None
          else read_digits radix max_digits limit result (S count) s'
      end
  end.

Definition read_number (radix : Z) (max_digits : option nat) (allow_zero_prefix : bool) (limit : Z) : Reader Z := λ s,
  '(result, count, rest) ← read_digits radix max_digits limit 0 0 s;
  let has_leading_zero := match s with String "0" _ => true | _ => false end in
  if (count =? 0)%nat then None
  else if negb allow_zero_prefix && has_leading_zero && (1 <? count)%nat then None
  else if limit <? result then None
  else Some (result, rest).

(** [read_separator]: not before the first. *)
Definition read_separator {A} (sep : ascii) (first : bool) (inner : Reader A) : Reader A := λ s,
  if first then inner s else '(_, s) ← read_given_char sep s; inner s.

Definition read_octet (first : bool) : Reader Z := read_separator "." first (read_number 10 (Some 3%nat) false 255).

Definition read_ipv4_addr : Reader (list Z) := λ s,
  '(a, s) ← read_octet true s;
  '(b, s) ← read_octet false s;
  '(c, s) ← read_octet false s;
  '(d, s) ← read_octet false s;
  Some ([a; b; c; d], s).

(** [read_groups]: the groups that could be read, at most [limit], and whether
    they end with an address of the other kind. *)
Fixpoint read_groups (limit : nat) (first : bool) (s : string) : list Z * bool * string :=
  match limit with
  | O => ([], false, s)
  | S limit' =>
      match (if (limit' =? 0)%nat then None else read_separator ":" first read_ipv4_addr s) with
      | Some ([a; b; c; d], s') => ([a * 256 + b; c * 256 + d], true, s')
      | _ =>
          match read_separator ":" first (read_number 16 (Some 4%nat) true 65535) s with
          | Some (g, s') =>
              let '(gs, ipv4, s'') := read_groups limit' false s' in (g :: gs, ipv4, s'')
          | None => ([], false, s)
          end
      end
  end.

Definition read_ipv6_addr : Reader (list Z) := λ s,
  let '(head, head_ipv4, s) := read_groups 8 true s in
  if (length head =? 8)%nat then Some (head, s)
  else if head_ipv4 : bool then None
  else
    '(_, s) ← read_given_char ":" s;
    '(_, s) ← read_given_char ":" s;
    let '(tail, _, s) := read_groups (7 - length head) true s in
    Some (head ++ replicate (8 - length head - length tail) 0 ++ tail, s).

Definition read_port : Reader Z := λ s, '(_, s) ← read_given_char ":" s; read_number 10 None true 65535 s.
Definition read_scope_id : Reader Z := λ s, '(_, s) ← read_given_char "%" s; read_number 10 None true (2 ^ 32 - 1) s.

Definition read_socket_addr_v4 : Reader SocketAddr := λ s,
  '(ip, s) ← read_ipv4_addr s; '(port, s) ← read_port s; Some (V4 ip port, s).
Definition read_socket_addr_v6 : Reader SocketAddr := λ s,
  '(_, s) ← read_given_char "[" s;
  '(ip, s) ← read_ipv6_addr s;
  let '(scope_id, s) := match read_scope_id s with Some (n, s') => (n, s') | None => (0, s) end in
  '(_, s) ← read_given_char "]" s;
  '(port, s) ← read_port s;
  Some (V6 ip scope_id port, s).

(** [s.parse::<SocketAddr>()]: all of the text is the address. *)
Definition parse_socket_addr (s : string) : option SocketAddr :=
  match (match read_socket_addr_v4 s with Some r => Some r | None => read_socket_addr_v6 s end) with
  | Some (a, EmptyString) => Some a
  | _ => None
  end.

(** ** Where to listen *)

Inductive BindSocket := Tcp (addr : SocketAddr) | Unix (path : string) | ListenFd.

Definition BindSocket_from_str (s : string) : result string BindSocket :=
  match parse_socket_addr s with
  | Some a => Ok (Tcp a)
  | None => if bool_decide (s = "-") then Ok ListenFd else Ok (Unix s)
  end.

(** ** What is read is an address *)

Definition upto (n : Z) (l : list Z) : Prop := Forall (λ z, 0 ≤ z ≤ n) l.
Definition addr_ok (a : SocketAddr) : Prop :=
  match a with
  | V4 ip port => length ip = 4%nat ∧ upto 255 ip ∧ 0 ≤ port ≤ 65535
  | V6 groups scope port => length groups = 8%nat ∧ upto 65535 groups ∧ 0 ≤ scope < 2 ^ 32 ∧ 0 ≤ port ≤ 65535
  end.

Lemma to_digit_range radix c d : 0 < radix → to_digit radix c = Some d → 0 ≤ d < radix.
Proof. unfold to_digit. intros Hr. repeat case_match; intros [= <-]; bool_prop; lia. Qed.

Lemma read_digits_nonneg radix m limit result count s z n rest :
  0 < radix → 0 ≤ result → read_digits radix m limit result count s = Some (z, n, rest) → 0 ≤ z.
Proof.
  intros Hr. revert result count. induction s as [|c s IH]; intros result count H0; cbn [read_digits]; [by intros [= <- _ _]|].
  destruct (to_digit radix c) as [d|] eqn:E; [|by intros [= <- _ _]]. apply to_digit_range in E; [|done].
  destruct (match m with Some _ => _ | None => _ end); [done|]. intros H. eapply IH; [|done]. nia.
Qed.

Lemma read_number_range radix m azp limit s z rest : 0 < radix → read_number radix m azp limit s = Some (z, rest) → 0 ≤ z ≤ limit.
Proof.
  intros Hr. unfold read_number. intros ([[r c] t] & Hd & H)%bind_Some. apply read_digits_nonneg in Hd; [|done|done].
  destruct (c =? 0)%nat; [done|]. destruct (_ && _); [done|]. destruct (limit <? r) eqn:E; [done|]. injection H as <- _. lia.
Qed.

Lemma read_separator_inner {A} sep first (inner : Reader A) s r : read_separator sep first inner s = Some r → ∃ s', inner s' = Some r.
Proof. unfold read_separator. destruct first; [by eexists|]. intros ([[] s'] & _ & H)%bind_Some. by exists s'. Qed.

Lemma read_octet_range first s z rest : read_octet first s = Some (z, rest) → 0 ≤ z ≤ 255.
Proof. unfold read_octet. intros (s' & H)%read_separator_inner. by apply read_number_range in H. Qed.

Lemma read_ipv4_ok s ip rest : read_ipv4_addr s = Some (ip, rest) → ∃ a b c d, ip = [a; b; c; d] ∧ upto 255 ip.
Proof.
  unfold read_ipv4_addr.
  intros ([a s1] & Ha & ([b s2] & Hb & ([c s3] & Hc & ([d s4] & Hd & [= <- _])%bind_Some)%bind_Some)%bind_Some)%bind_Some.
  exists a, b, c, d. split; [done|]. apply read_octet_range in Ha, Hb, Hc, Hd.
  unfold upto. rewrite !Forall_cons. auto using Forall_nil_2.
Qed.

Lemma read_groups_ok limit first s gs v4 rest :
  read_groups limit first s = (gs, v4, rest) → (length gs ≤ limit)%nat ∧ upto 65535 gs.
Proof.
  revert first s gs v4 rest. induction limit as [|limit IH]; intros first s gs v4 rest; cbn [read_groups].
  { intros [= <- _ _]. split; [done|constructor]. }
  assert (∀ r, match read_separator ":" first (read_number 16 (Some 4%nat) true 65535) s with
    | Some (g, s') => let '(gs, ipv4, s'') := read_groups limit false s' in (g :: gs, ipv4, s'')
    | None => ([], false, s) end = r → (length r.1.1 ≤ S limit)%nat ∧ upto 65535 r.1.1) as Hg.
  { intros r <-. destruct (read_separator ":" first _ s) as [[g s']|] eqn:E; [|split; [cbn; lia|constructor]].
    apply read_separator_inner in E as (s0 & E). apply read_number_range in E; [|done].
    destruct (read_groups limit false s') as [[gs' v'] r'] eqn:E'. apply IH in E' as [Hl Hu]. cbn. split; [lia|by constructor]. }
  destruct (if (limit =? 0)%nat then None else _) as [[ip s']|] eqn:E; [|intros H; by apply Hg in H].
  destruct (Nat.eqb_spec limit 0) as [|Hz]; [done|]. apply read_separator_inner in E as (s0 & E).
  apply read_ipv4_ok in E as (a & b & c & d & -> & Hu). intros [= <- _ _]. cbn. split; [lia|].
  unfold upto in *. rewrite !Forall_cons in Hu. destruct Hu as (? & ? & ? & ? & _). rewrite !Forall_cons.
  split_and!; [lia..|constructor].
Qed.

Lemma read_ipv6_ok s ip rest : read_ipv6_addr s = Some (ip, rest) → length ip = 8%nat ∧ upto 65535 ip.
Proof.
  unfold read_ipv6_addr. destruct (read_groups 8 true s) as [[hd v4] s1] eqn:E. apply read_groups_ok in E as [Hl Hu].
  destruct (Nat.eqb_spec (length hd) 8) as [H8|H8]; [by intros [= <- _]|]. destruct v4; [done|].
  intros ([[] s2] & _ & ([[] s3] & _ & H)%bind_Some)%bind_Some.
  destruct (read_groups (7 - length hd) true s3) as [[tl v] s4] eqn:E'. apply read_groups_ok in E' as [Hl' Hu'].
  injection H as <- _. split; [rewrite !length_app, length_replicate; lia|].
  apply Forall_app. split; [done|]. apply Forall_app. split; [|done]. apply Forall_replicate. lia.
Qed.

Lemma read_port_range s p rest : read_port s = Some (p, rest) → 0 ≤ p ≤ 65535.
Proof. unfold read_port. intros ([[] s'] & _ & H)%bind_Some. by apply read_number_range in H. Qed.

(** ** Addresses can be written and read *)

Definition show_addr_v4 (ip : list Z) (port : Z) : string :=
  String.concat "." (show_Z <$> ip) +:+ ":" +:+ show_Z port.

(** No digit follows. *)
Definition ends_number (rest : string) : bool :=
  match rest with EmptyString => true | String c _ => bool_decide (to_digit 10 c = None) end.

Lemma read_digits_app m limit p rest result count z n :
  ends_number rest = true → read_digits 10 m limit result count p = Some (z, n, "") →
  read_digits 10 m limit result count (p +:+ rest) = Some (z, n, rest).
Proof.
  intros Hr. revert result count. induction p as [|c p IH]; intros result count; cbn [read_digits].
  { intros [= <- <-]. change ("" +:+ rest) with rest. destruct rest as [|c rest]; [done|]. cbn in *.
    apply bool_decide_eq_true in Hr. by rewrite Hr. }
  change (String c p +:+ rest) with (String c (p +:+ rest)). cbn [read_digits].
  destruct (to_digit 10 c); [|done]. destruct (match m with Some _ => _ | None => _ end); [done|]. apply IH.
Qed.

Lemma read_number_app m azp limit p rest z :
  ends_number rest = true → read_number 10 m azp limit p = Some (z, "") →
  read_number 10 m azp limit (p +:+ rest) = Some (z, rest).
Proof.
  intros Hr. unfold read_number. intros ([[r c] t] & Hd & H)%bind_Some.
  assert (t = "") as -> by (repeat case_match; congruence).
  rewrite (read_digits_app _ _ _ _ _ _ _ _ Hr Hd). cbn [mbind option_bind].
  assert (p ≠ "") as Hp by (intros ->; cbn in Hd; by injection Hd as <- <-; cbn in H).
  destruct p as [|a p]; [done|]. change (String a p +:+ rest) with (String a (p +:+ rest)).
  destruct (c =? 0)%nat; [done|]. destruct (_ && _); [done|]. destruct (limit <? r); [done|]. by injection H as ->.
Qed.

Definition reads_back (m : option nat) (azp : bool) (limit z : Z) : bool :=
  bool_decide (read_number 10 m azp limit (show_Z z) = Some (z, "")).

Lemma octets_read_back z : 0 ≤ z ≤ 255 → reads_back (Some 3%nat) false 255 z = true.
Proof.
  intros Hz. assert (forallb (λ n, reads_back (Some 3%nat) false 255 (Z.of_nat n)) (seq 0 256) = true) as H by (vm_compute; reflexivity).
  rewrite forallb_forall in H. specialize (H (Z.to_nat z)). rewrite Z2Nat.id in H by lia. apply H, in_seq. lia.
Qed.

(** A port, digit by digit. *)
Lemma ports_read_back z : 0 ≤ z ≤ 65535 → reads_back None true 65535 z = true.
Proof.
  intros Hz. assert (forallb (λ n, reads_back None true 65535 (Z.of_N n)) (N.recursion [0%N] (λ n l, N.succ n :: l) 65535%N) = true) as H
    by (vm_compute; reflexivity).
  rewrite forallb_forall in H. specialize (H (Z.to_N z)). rewrite Z2N.id in H by lia. apply H.
  assert (∀ n m, (m ≤ n)%N → In m (N.recursion [0%N] (λ n l, N.succ n :: l) n)) as Hin; [|apply Hin; lia].
  intros n. induction n as [|n IH] using N.peano_ind; intros m Hm; [cbn; lia|].
  rewrite N.recursion_succ; [|done|by intros ?? -> ?? ->]. destruct (decide (m = N.succ n)) as [->|]; [by left|]. right. apply IH. lia.
Qed.

Lemma read_given_char_self c s : read_given_char c (String c s) = Some (tt, s).
Proof. cbn. by rewrite Ascii.eqb_refl. Qed.

Lemma read_first_octet z rest : 0 ≤ z ≤ 255 → ends_number rest = true → read_octet true (show_Z z +:+ rest) = Some (z, rest).
Proof. intros Hz%octets_read_back Hr. apply bool_decide_eq_true in Hz. by apply read_number_app. Qed.
Lemma read_next_octet z rest : 0 ≤ z ≤ 255 → ends_number rest = true →
  read_octet false ("." +:+ (show_Z z +:+ rest)) = Some (z, rest).
Proof.
  intros Hz Hr. unfold read_octet, read_separator. change ("." +:+ ?s) with (String "." s). rewrite read_given_char_self.
  cbn [mbind option_bind]. by apply read_first_octet.
Qed.
Lemma read_port_back z : 0 ≤ z ≤ 65535 → read_port (":" +:+ show_Z z) = Some (z, "").
Proof.
  intros Hz%ports_read_back. unfold read_port. change (":" +:+ ?s) with (String ":" s). rewrite read_given_char_self.
  cbn [mbind option_bind]. by apply bool_decide_eq_true in Hz.
Qed.

(** ** Properties *)

(** Whatever is read as an address is one: four octets or eight groups, and a
    port, all of their size. *)
Theorem parsed_addr_is_ok s a : parse_socket_addr s = Some a → addr_ok a.
Proof.
  unfold parse_socket_addr. destruct (read_socket_addr_v4 s) as [[a' r]|] eqn:E4.
  - intros H. assert (a' = a) as -> by (destruct r; congruence). revert E4. unfold read_socket_addr_v4.
    intros ([ip s1] & Hi & ([p s2] & Hp & [= <- _])%bind_Some)%bind_Some. apply read_port_range in Hp.
    apply read_ipv4_ok in Hi as (b1 & b2 & b3 & b4 & -> & Hu). done.
  - clear E4. destruct (read_socket_addr_v6 s) as [[a' r]|] eqn:E6; [|done]. intros H.
    assert (a' = a) as -> by (destruct r; congruence). revert E6. unfold read_socket_addr_v6.
    intros ([[] s1] & _ & ([ip s2] & Hi & H6)%bind_Some)%bind_Some. apply read_ipv6_ok in Hi as [Hl Hu].
    assert (∃ sc s3, match read_scope_id s2 with Some (n, s') => (n, s') | None => (0, s2) end = (sc, s3) ∧ 0 ≤ sc < 2 ^ 32) as (sc & s3 & Hsc & Hr).
    { destruct (read_scope_id s2) as [[n s']|] eqn:Es; [|by exists 0, s2]. exists n, s'. split; [done|].
      unfold read_scope_id in Es. apply bind_Some in Es as ([[] s4] & _ & Es). apply read_number_range in Es; lia. }
    rewrite Hsc in H6. apply bind_Some in H6 as ([[] s5] & _ & ([p s6] & Hp & [= <- _])%bind_Some).
    apply read_port_range in Hp. done.
Qed.

(** An address with four octets that is written is read as itself. *)
Theorem v4_roundtrip a b c d port :
  upto 255 [a; b; c; d] → 0 ≤ port ≤ 65535 →
  BindSocket_from_str (show_addr_v4 [a; b; c; d] port) = Ok (Tcp (V4 [a; b; c; d] port)).
Proof.
  unfold upto. rewrite !Forall_cons. intros (Ha & Hb & Hc & Hd & _) Hp.
  assert (show_addr_v4 [a; b; c; d] port =
    show_Z a +:+ ("." +:+ (show_Z b +:+ ("." +:+ (show_Z c +:+ ("." +:+ (show_Z d +:+ (":" +:+ show_Z port)))))))) as ->.
  { unfold show_addr_v4. cbn [fmap list_fmap String.concat]. by rewrite !str_app_assoc. }
  unfold BindSocket_from_str, parse_socket_addr, read_socket_addr_v4, read_ipv4_addr.
  rewrite read_first_octet by done. cbn [mbind option_bind]. do 3 (rewrite read_next_octet by done; cbn [mbind option_bind]).
  by rewrite read_port_back.
Qed.

(** Nothing is refused: a name with a port, which is no address, is taken for
    the path of a socket. *)
Theorem host_names_are_paths : BindSocket_from_str "localhost:50051" = Ok (Unix "localhost:50051").
Proof. reflexivity. Qed.
Theorem bind_socket_total s : ∃ b, BindSocket_from_str s = Ok b.
Proof. unfold BindSocket_from_str. destruct (parse_socket_addr s); [by eexists|]. case_bool_decide; by eexists. Qed.
