(* ===== verification/Nix.v ===== *)
(** * Nix: store paths, derivations and the local store

    [crates/nix-utils/src/store_path.rs], [drv.rs], [realise.rs], [hash.rs]
    and the parts of [lib.rs] the queue runner calls. The C++ bindings and the
    derivation parser are not part of the repository: they are the fields of
    the class [NixEnv]. *)

From Stdlib Require Import Ascii String.
From S2P Require Import Prelude RustStr.
Local Open Scope string_scope.

Module StorePath.

Definition HASH_LEN : nat := 32.

Record t := mk { base_name : string }.

#[global] Instance eq_dec : EqDecision t.
Proof. solve_decision. Defined.
#[global] Instance countable : Countable t.
Proof. by apply (inj_countable' base_name mk); intros []. Defined.

(** [STORE_DIR]: the store directory with a final slash. *)
Definition STORE_DIR (get_store_dir : string) : string :=
  if ends_with "/" get_store_dir then get_store_dir else get_store_dir +:+ "/".

Definition new (get_store_dir p : string) : t :=
  match strip_prefix (STORE_DIR get_store_dir) p with
  | None => mk (default p (strip_prefix "/" p))
  | Some postfix => mk (default postfix (strip_prefix "/" postfix))
  end.

(** [name] and [hash_part] slice the base name and panic when it is too short. *)
Definition name (p : t) : option string :=
  if decide (HASH_LEN + 1 ≤ String.length (base_name p))%nat
  then Some (String.substring (HASH_LEN + 1) (String.length (base_name p)) (base_name p))
  else None.

Definition hash_part (p : t) : option string :=
  if decide (HASH_LEN ≤ String.length (base_name p))%nat
  then Some (String.substring 0 HASH_LEN (base_name p))
  else None.

(** [std::path::Path::file_name]: the last component, unless it is [..]. *)
Definition path_file_name (s : string) : option string :=
  c ← last (filter (λ c, c ≠ "" ∧ c ≠ ".") (split_char "/" s));
  if decide (c = "..") then None else Some c.

(** [std::path::Path::extension]: after the last dot, when something precedes it. *)
Definition path_extension (s : string) : option string :=
  f ← path_file_name s;
  let ps := split_char "." f in
  ext ← last ps;
  if decide (join "." (take (length ps - 1) ps) = "") then None else Some ext.

Definition is_drv (p : t) : bool :=
  match path_extension (base_name p) with
  | Some ext => bool_decide (to_ascii_lowercase ext = "drv")
  | None => false
  end.

End StorePath.

Abbreviation StorePath := StorePath.t.

(** ** Derivations *)

Record Output := mkOutput {
  o_name : string;
  o_path : option StorePath;
  o_hash : option string;
  o_hash_algo : option string
}.
#[global] Instance Output_eq_dec : EqDecision Output.
Proof. solve_decision. Defined.

Record CAOutput := mkCAOutput {
  ca_name : string;
  ca_path : StorePath;
  ca_hash : string;
  ca_hash_algo : string
}.

Abbreviation DerivationEnv := (gmap string string).

Module DerivationEnv.

(** An empty value counts as absent. *)
Definition get (env : DerivationEnv) (k : string) : option string :=
  v ← env !! k; if decide (v = "") then None else Some v.

Definition get_name (env : DerivationEnv) : option string := get env "name".

Definition get_required_system_features (env : DerivationEnv) : list string :=
  filter (λ v, v ≠ "") (split_char " " (default "" (get env "requiredSystemFeatures"))).

Definition get_output_hash (env : DerivationEnv) : option string := get env "outputHash".
Definition get_output_hash_algo (env : DerivationEnv) : option string := get env "outputHashAlgo".
Definition get_output_hash_mode (env : DerivationEnv) : option string := get env "outputHashMode".

End DerivationEnv.

Record Derivation := mkDerivation {
  drv_env : DerivationEnv;
  drv_input_drvs : list string;
  drv_outputs : list Output;
  drv_name : StorePath;
  drv_system : string
}.

Definition is_ca (d : Derivation) : bool :=
  existsb (λ o, bool_decide (is_Some (o_hash o)) && bool_decide (is_Some (o_hash_algo o)))
    (drv_outputs d).

Definition to_ca_output (o : Output) : option CAOutput :=
  p ← o_path o; h ← o_hash o; a ← o_hash_algo o; Some (mkCAOutput (o_name o) p h a).

Fixpoint find_map {A B} (f : A → option B) (l : list A) : option B :=
  match l with
  | [] => None
  | x :: l' => match f x with Some y => Some y | None => find_map f l' end
  end.

Definition get_ca_output (d : Derivation) : option CAOutput :=
  find_map to_ca_output (drv_outputs d).

(** ** Hash algorithms ([hash.rs]) *)

Inductive HashAlgorithm := MD5 | SHA1 | SHA256 | SHA512 | BLAKE3.
Inductive ParseError := InvalidAlgorithm (s : string).

Definition hash_algorithm_from_str (s : string) : result ParseError HashAlgorithm :=
  if decide (s = "md5") then Ok MD5
  else if decide (s = "sha1") then Ok SHA1
  else if decide (s = "sha256") then Ok SHA256
  else if decide (s = "sha512") then Ok SHA512
  else if decide (s = "blake3") then Ok BLAKE3
  else Err (InvalidAlgorithm s).

Definition hash_algorithm_name (a : HashAlgorithm) : string :=
  match a with
  | MD5 => "md5" | SHA1 => "sha1" | SHA256 => "sha256"
  | SHA512 => "sha512" | BLAKE3 => "blake3"
  end.

(** The algorithm of [CAOutput::get_sri_hash], before the conversion itself,
    which the C++ library does. *)
Definition sri_algo (o : CAOutput) : result ParseError HashAlgorithm :=
  hash_algorithm_from_str (default (ca_hash_algo o) (strip_prefix "r:" (ca_hash_algo o))).

(** ** Build options ([realise.rs]) *)

Module BuildOptions.

Record t := mk {
  max_log_size : Z;
  max_silent_time : Z;
  build_timeout : Z;
  check : bool
}.
#[global] Instance eta_t : Eta t := λ r,
  mk (max_log_size r) (max_silent_time r) (build_timeout r) (check r).

#[global] Instance set_max_silent_time_field : Setter max_silent_time := ltac:(mk_setter max_silent_time).
#[global] Instance set_build_timeout_field : Setter build_timeout := ltac:(mk_setter build_timeout).
#[global] Instance set_check_field : Setter check := ltac:(mk_setter check).

Definition new (log_size : option Z) : t :=
  mk (default (Z.shiftl 64 20) log_size) 0 0 false.
Definition complete (log_size silent timeout : Z) : t := mk log_size silent timeout false.
Definition set_max_silent_time (v : Z) (o : t) : t := o <| max_silent_time := v |>.
Definition set_build_timeout (v : Z) (o : t) : t := o <| build_timeout := v |>.
Definition enable_check_build (o : t) : t := o <| check := true |>.

End BuildOptions.

(** ** The environment

    What the C++ bindings, the file system and the derivation parser answer.
    [is_valid_path], [ensure_path], ... depend on a store that changes while
    the program runs: they take the number of the query. *)

Record PathInfo := mkPathInfo {
  pi_deriver : option StorePath;
  pi_nar_hash : string;
  pi_registration_time : Z;
  pi_nar_size : Z;
  pi_refs : list StorePath;
  pi_sigs : list string;
  pi_ca : option string
}.

(** The struct of the bindings, with full paths and empty strings. *)
Record InternalPathInfo := mkInternalPathInfo {
  ipi_deriver : string;
  ipi_nar_hash : string;
  ipi_registration_time : Z;
  ipi_nar_size : Z;
  ipi_refs : list string;
  ipi_sigs : list string;
  ipi_ca : string
}.

Class NixEnv : Type := {
  get_store_dir : string;
  ffi_is_valid_path : nat → string → bool;
  (** [None]: an exception *)
  ffi_try_resolve_drv : nat → string → option string;
  (** The paths; whether to go backwards, over outputs, over derivers; whether
      to sort. *)
  ffi_compute_fs_closures : nat → list string → bool → bool → bool → bool → result string (list string);
  ffi_query_drv : nat → StorePath → result string (option Derivation);
  ffi_ensure_path : nat → string → bool;
  ffi_query_path_info : nat → string → option InternalPathInfo;
  ffi_compute_closure_size : nat → string → Z
}.

Section Store.
Context `{NE : NixEnv}.

Definition store_path_new (p : string) : StorePath := StorePath.new get_store_dir p.

Definition print_store_path (p : StorePath) : string :=
  get_store_dir +:+ "/" +:+ StorePath.base_name p.

Definition is_valid_path (q : nat) (p : StorePath) : bool :=
  ffi_is_valid_path q (print_store_path p).

Definition path_info_from (val : InternalPathInfo) : PathInfo :=
  mkPathInfo
    (if decide (ipi_deriver val = "") then None else Some (store_path_new (ipi_deriver val)))
    (ipi_nar_hash val) (ipi_registration_time val) (ipi_nar_size val)
    (store_path_new <$> ipi_refs val) (ipi_sigs val)
    (if decide (ipi_ca val = "") then None else Some (ipi_ca val)).

Definition query_path_info (q : nat) (p : StorePath) : option PathInfo :=
  path_info_from <$> ffi_query_path_info q (print_store_path p).

Definition query_path_infos (q : nat) (paths : list StorePath) : gmap StorePath PathInfo :=
  foldl (λ m p, match query_path_info q p with
                | Some info => <[p := info]> m
                | None => m
                end) ∅ paths.

(** The empty string is taken for a resolved derivation, all others are
    dropped. *)
Definition try_resolve_drv (q : nat) (p : StorePath) : option StorePath :=
  v ← ffi_try_resolve_drv q (print_store_path p);
  if decide (v = "") then Some (store_path_new v) else None.

Definition compute_fs_closures (q : nat) (paths : list StorePath)
    (flip_direction include_outputs include_derivers toposort : bool) : result string (list StorePath) :=
  r ← ffi_compute_fs_closures q (map print_store_path paths) flip_direction include_outputs include_derivers toposort;
  Ok (map store_path_new r).

(** Sorted, with references first. *)
Definition query_requisites (q : nat) (drvs : list StorePath) (include_outputs : bool)
  : result string (list StorePath) :=
  out ← compute_fs_closures q drvs false include_outputs false true; Ok (reverse out).

(** [query_drv]: nothing for a path that is not a derivation. *)
Definition query_drv (q : nat) (p : StorePath) : result string (option Derivation) :=
  if StorePath.is_drv p then ffi_query_drv q p else Ok None.

(** [query_missing_outputs]: the outputs with a path that is not valid, in
    order; each check is one query. *)
Fixpoint query_missing_outputs (q : nat) (outputs : list Output)
  : list Output :=
  match outputs with
  | [] => []
  | o :: os =>
      match o_path o with
      | None => query_missing_outputs (S q) os
      | Some p => if is_valid_path q p then query_missing_outputs (S q) os
                  else o :: query_missing_outputs (S q) os
      end
  end.

End Store.

(** ** Lemmas *)

Lemma find_map_Some {A B} (f : A → option B) l y :
  find_map f l = Some y → ∃ x, x ∈ l ∧ f x = Some y.
Proof.
  induction l as [|x l IH]; cbn; [done|].
  destruct (f x) eqn:E; [intros [= ->]; exists x; split; [left|done]|].
  intros (x' & ? & ?)%IH. exists x'. split; [by right|done].
Qed.

Lemma find_map_None {A B} (f : A → option B) l x :
  find_map f l = None → x ∈ l → f x = None.
Proof.
  induction l as [|y l IH]; cbn; [by intros _ ?%not_elem_of_nil|].
  destruct (f y) eqn:E; [done|]. intros H [->|Hx]%elem_of_cons; eauto.
Qed.

(** A path printed by the store is read back, when its base name does not
    start with a slash and the store directory has no final slash. *)
Lemma store_path_print_new `{NixEnv} p :
  ends_with "/" get_store_dir = false →
  strip_prefix "/" (StorePath.base_name p) = None →
  store_path_new (print_store_path p) = p.
Proof.
  intros Hd Hs. unfold store_path_new, StorePath.new, print_store_path, StorePath.STORE_DIR.
  rewrite Hd, <-str_app_assoc, strip_prefix_app, Hs. by destruct p.
Qed.

Lemma hash_algorithm_roundtrip a :
  hash_algorithm_from_str (hash_algorithm_name a) = Ok a.
Proof. by destruct a. Qed.

Lemma is_ca_of_get_ca_output d o : get_ca_output d = Some o → is_ca d = true.
Proof.
  intros (x & Hx & Hf)%find_map_Some. unfold is_ca. apply existsb_exists.
  exists x. rewrite <-list_elem_of_In. split; [done|].
  unfold to_ca_output in Hf.
  destruct (o_path x), (o_hash x), (o_hash_algo x); cbn in *; done.
Qed.

Lemma query_missing_outputs_spec `{NixEnv} (valid : StorePath → bool) q os o :
  (∀ q p, is_valid_path q p = valid p) →
  o ∈ query_missing_outputs q os ↔ o ∈ os ∧ ∃ p, o_path o = Some p ∧ valid p = false.
Proof.
  intros Hv. revert q. induction os as [|o' os IH]; intros q; cbn [query_missing_outputs].
  { split; [by intros ?%not_elem_of_nil|intros [?%not_elem_of_nil _]; done]. }
  destruct (o_path o') as [p|] eqn:E; [rewrite Hv; destruct (valid p) eqn:V|];
    rewrite ?elem_of_cons, IH; split;
    repeat (intros [? ?] || intros [?|?]); subst; eauto 6;
    destruct_and?; destruct_or?; subst; eauto 6; naive_solver congruence.
Qed.
