(* ===== verification/NarInfo.v ===== *)
(** * NarInfo: the description of a path in the binary cache
    ([crates/binary-cache/src/narinfo.rs], [compression.rs])

    A [NarInfo] is written as lines [Key: value] and read back. The hash
    conversion and the signature are the C++ library's: the class [SignLib].
    Slicing a string that is too short panics; such a result is [None]. *)

From Stdlib Require Import Ascii String.
From S2P Require Import Prelude RustStr Nix.
Local Open Scope string_scope.
Local Open Scope list_scope.
Local Open Scope Z_scope.
#[local] Arguments String.append : simpl nomatch.

(** ** Compression ([compression.rs]) *)

Inductive Compression := CNoCompression | Xz | Bzip2 | Brotli | Zstd.
#[global] Instance Compression_eq_dec : EqDecision Compression.
Proof. solve_decision. Defined.

Module Compression.

Definition ext (c : Compression) : string :=
  match c with
  | CNoCompression => "nar" | Xz => "nar.xz" | Bzip2 => "nar.bz2" | Brotli => "nar.br" | Zstd => "nar.zst"
  end.

Definition as_str (c : Compression) : string :=
  match c with
  | CNoCompression => "none" | Xz => "xz" | Bzip2 => "bz2" | Brotli => "br" | Zstd => "zstd"
  end.

Definition from_str (s : string) : result string Compression :=
  let s := to_ascii_lowercase (trim s) in
  if decide (s = "none") then Ok CNoCompression
  else if decide (s = "xz") then Ok Xz
  else if decide (s = "bz2") then Ok Bzip2
  else if decide (s = "br") then Ok Brotli
  else if decide (s = "zstd" ∨ s = "zst") then Ok Zstd
  else Err s.

End Compression.

(** ** The record *)

Record NarInfo := mkNarInfo {
  ni_store_path : StorePath;
  ni_url : string;
  ni_compression : Compression;
  ni_file_hash : option string;
  ni_file_size : option Z;
  ni_nar_hash : string;
  ni_nar_size : Z;
  ni_references : list StorePath;
  ni_deriver : option StorePath;
  ni_ca : option string;
  ni_sigs : list string
}.
#[export] Instance eta_NarInfo : Eta NarInfo := λ r,
  mkNarInfo (ni_store_path r) (ni_url r) (ni_compression r) (ni_file_hash r) (ni_file_size r)
    (ni_nar_hash r) (ni_nar_size r) (ni_references r) (ni_deriver r) (ni_ca r) (ni_sigs r).
#[export] Instance set_ni_store_path : Setter ni_store_path := ltac:(mk_setter ni_store_path).
#[export] Instance set_ni_url : Setter ni_url := ltac:(mk_setter ni_url).
#[export] Instance set_ni_compression : Setter ni_compression := ltac:(mk_setter ni_compression).
#[export] Instance set_ni_file_hash : Setter ni_file_hash := ltac:(mk_setter ni_file_hash).
#[export] Instance set_ni_file_size : Setter ni_file_size := ltac:(mk_setter ni_file_size).
#[export] Instance set_ni_nar_hash : Setter ni_nar_hash := ltac:(mk_setter ni_nar_hash).
#[export] Instance set_ni_nar_size : Setter ni_nar_size := ltac:(mk_setter ni_nar_size).
#[export] Instance set_ni_references : Setter ni_references := ltac:(mk_setter ni_references).
#[export] Instance set_ni_deriver : Setter ni_deriver := ltac:(mk_setter ni_deriver).
#[export] Instance set_ni_ca : Setter ni_ca := ltac:(mk_setter ni_ca).
#[export] Instance set_ni_sigs : Setter ni_sigs := ltac:(mk_setter ni_sigs).

(** [convert_hash] of a SHA-256 to the Nix base-32 format, and [sign_string]. *)
Class SignLib : Type := {
  convert_sha256_nix32 : string → option string;
  sign_string : string → string → string
}.

Inductive NarInfoError :=
| MissingField (field : string)
| InvalidField (field value : string)
| Line (line : nat) (reason : string)
| IntError (field : string) (err : IntErrorKind).

Module NarInfo.
Section Env.
Context `{NE : NixEnv} `{SL : SignLib}.

(** [nar_hash] in base 32, when it has the length of a hexadecimal SHA-256
    with its prefix. *)
Definition nix32_nar_hash (h : string) : string :=
  if (String.length h =? 71)%nat
  then default h (convert_sha256_nix32 (String.substring 7 (String.length h - 7) h))
  else h.

(** The part of the URL that names the archive. *)
Definition nar_hash_url (path : StorePath) (nar_hash : string) : option string :=
  match strip_prefix "sha256:" nar_hash with
  | Some h => Some h
  | None => StorePath.hash_part path
  end.

Definition simple (path : StorePath) (path_info : PathInfo) (compression : Compression) : option NarInfo :=
  let nar_hash := nix32_nar_hash (pi_nar_hash path_info) in
  url ← nar_hash_url path nar_hash;
  Some (mkNarInfo path ("nar/" +:+ url +:+ "." +:+ Compression.ext compression) compression None None
          nar_hash (pi_nar_size path_info) (pi_refs path_info) (pi_deriver path_info)
          (pi_ca path_info) []).

(** [s[0..n] != p] for a [p] of length [n]; the slice panics when [s] is
    shorter. *)
Definition slice_differs (s p : string) : option bool :=
  if (String.length s <? String.length p)%nat then None else Some (negb (starts_with p s)).

Fixpoint any_differs (l : list string) (p : string) : option bool :=
  match l with
  | [] => Some false
  | s :: l' => d ← slice_differs s p; if d : bool then Some true else any_differs l' p
  end.

Definition fingerprint_path (n : NarInfo) : option (option string) :=
  let abs_path := print_store_path (ni_store_path n) in
  d ← slice_differs abs_path get_store_dir;
  d ← (if d : bool then Some true else slice_differs (ni_nar_hash n) "sha256:");
  if d : bool then Some None
  else if negb (String.length (ni_nar_hash n) =? 59)%nat then Some None
  else
    let refs := print_store_path <$> ni_references n in
    d ← any_differs refs get_store_dir;
    Some (if d : bool then None
          else Some ("1;" +:+ abs_path +:+ ";" +:+ ni_nar_hash n +:+ ";" +:+ show_Z (ni_nar_size n)
                       +:+ ";" +:+ join "," refs)).

Definition clear_sigs_and_sign (signing_keys : list string) (n : NarInfo) : option NarInfo :=
  let n := n <| ni_sigs := [] |> in
  if decide (signing_keys = []) then Some n
  else
    fp ← fingerprint_path n;
    Some (match fp with
          | Some fp => n <| ni_sigs := (λ s, sign_string s fp) <$> signing_keys |>
          | None => n
          end).

Definition new (path : StorePath) (path_info : PathInfo) (compression : Compression)
    (signing_keys : list string) : option NarInfo :=
  narinfo ← simple path path_info compression;
  narinfo ← clear_sigs_and_sign signing_keys narinfo;
  Some (if bool_decide (ni_sigs narinfo = []) && negb (bool_decide (pi_sigs path_info = []))
        then narinfo <| ni_sigs := pi_sigs path_info |> else narinfo).

Definition get_ls_path (n : NarInfo) : option string :=
  h ← StorePath.hash_part (ni_store_path n); Some (h +:+ ".ls").

(** ** Writing *)

Definition field (key value : string) : string := key +:+ ": " +:+ value.

Definition render_lines (n : NarInfo) : list string :=
  [field "StorePath" (print_store_path (ni_store_path n));
   field "URL" (ni_url n);
   field "Compression" (Compression.as_str (ni_compression n))] ++
  option_list (field "FileHash" <$> ni_file_hash n) ++
  option_list ((λ s, field "FileSize" (show_Z s)) <$> ni_file_size n) ++
  [field "NarHash" (ni_nar_hash n);
   field "NarSize" (show_Z (ni_nar_size n));
   field "References" (join " " (StorePath.base_name <$> ni_references n))] ++
  option_list ((λ d, field "Deriver" (StorePath.base_name d)) <$> ni_deriver n) ++
  option_list (field "CA" <$> ni_ca n) ++
  (field "Sig" <$> ni_sigs n).

Definition render (n : NarInfo) : string := unlines (render_lines n).

(** ** Reading *)

(** What has been read, and which of the required fields were there. *)
Record Partial := mkPartial {
  pt_info : NarInfo;
  pt_store_path : bool; pt_url : bool; pt_compression : bool; pt_nar_hash : bool; pt_nar_size : bool
}.

Definition start : Partial :=
  mkPartial (mkNarInfo (store_path_new "aaaaaaaaaaaaaaaaaaaaaaaaaaaaaaaa-bla") "" CNoCompression None None
               "" 0 [] None None []) false false false false false.

(** A key and its value, after [split_once(':')]. *)
Definition key_value (kv : string * string) : string * string :=
  (trim kv.1, trim_end (default kv.2 (strip_prefix " " kv.2))).

Definition int_field (f val : string) : result NarInfoError Z := map_err (IntError f) (parse_u 64 val).

Definition add_field (key val : string) (p : Partial) : result NarInfoError Partial :=
  let '(mkPartial i sp ur co nh ns) := p in
  if decide (key = "StorePath") then Ok (mkPartial (i <| ni_store_path := store_path_new val |>) true ur co nh ns)
  else if decide (key = "URL") then Ok (mkPartial (i <| ni_url := val |>) sp true co nh ns)
  else if decide (key = "Compression") then
    c ← map_err (InvalidField "Compression") (Compression.from_str val);
    Ok (mkPartial (i <| ni_compression := c |>) sp ur true nh ns)
  else if decide (key = "FileHash") then Ok (mkPartial (i <| ni_file_hash := Some val |>) sp ur co nh ns)
  else if decide (key = "FileSize") then
    s ← int_field "FileSize" val;
    Ok (mkPartial (i <| ni_file_size := Some s |>) sp ur co nh ns)
  else if decide (key = "NarHash") then Ok (mkPartial (i <| ni_nar_hash := val |>) sp ur co true ns)
  else if decide (key = "NarSize") then
    s ← int_field "NarSize" val;
    Ok (mkPartial (i <| ni_nar_size := s |>) sp ur co nh true)
  else if decide (key = "References") then
    Ok (mkPartial (i <| ni_references := store_path_new <$> filter (λ s, s ≠ "") (split_whitespace val) |>)
          sp ur co nh ns)
  else if decide (key = "Deriver") then
    Ok (mkPartial (i <| ni_deriver := if decide (val = "") then None else Some (store_path_new val) |>)
          sp ur co nh ns)
  else if decide (key = "CA") then
    Ok (mkPartial (i <| ni_ca := if decide (val = "") then None else Some val |>) sp ur co nh ns)
  else if decide (key = "Sig") then
    Ok (mkPartial (if decide (val = "") then i else i <| ni_sigs ::= λ l, l ++ [val] |>) sp ur co nh ns)
  else Ok p.

Definition add_line (line_no : nat) (raw_line : string) (p : Partial) : result NarInfoError Partial :=
  let line := trim raw_line in
  if bool_decide (line = "") || starts_with "#" line then Ok p
  else
    match split_once ":" line with
    | None => Err (Line line_no "expected `Key: value`")
    | Some kv => let '(key, val) := key_value kv in add_field key val p
    end.

Fixpoint add_lines (line_no : nat) (ls : list string) (p : Partial) : result NarInfoError Partial :=
  match ls with
  | [] => Ok p
  | l :: ls' => p ← add_line line_no l p; add_lines (S line_no) ls' p
  end.

Definition validate (p : Partial) : result NarInfoError NarInfo :=
  if negb (pt_store_path p) then Err (MissingField "StorePath")
  else if negb (pt_url p) then Err (MissingField "URL")
  else if negb (pt_compression p) then Err (MissingField "Compression")
  else if negb (pt_nar_hash p) then Err (MissingField "NarHash")
  else if negb (pt_nar_size p) then Err (MissingField "NarSize")
  else Ok (pt_info p).

Definition from_str (input : string) : result NarInfoError NarInfo :=
  p ← add_lines 1 (lines input) start; validate p.

End Env.
End NarInfo.

(** ** Reading what was written *)

(** A value that a line keeps as it is. *)
Definition value_ok (v : string) : bool := line_ok v && bool_decide (trim_end v = v).

(** A key that is found again. *)
Definition key_ok (k : string) : bool :=
  match k with
  | "" => false
  | String a _ => negb (is_ws a) && negb (Ascii.eqb a "#")
  end && negb (contains_char ":" k) && bool_decide (trim k = k) && line_ok k.

Section Lemmas.
Context `{NE : NixEnv}.

(** A base name that is read as itself. *)
Definition base_ok (p : StorePath) : bool :=
  let s := StorePath.base_name p in
  negb (bool_decide (s = "")) && str_forall non_ws s && bool_decide (strip_prefix "/" s = None) &&
  bool_decide (strip_prefix (StorePath.STORE_DIR get_store_dir) s = None).

(** What can be written: the store directory has no final slash, values have
    no line break and no blank at the end, optional values and signatures are
    not empty, and numbers have 64 bits. *)
Definition writable (n : NarInfo) : bool :=
  negb (ends_with "/" get_store_dir) && line_ok get_store_dir &&
  base_ok (ni_store_path n) && value_ok (ni_url n) &&
  forallb value_ok (option_list (ni_file_hash n)) &&
  forallb (in_u 64) (option_list (ni_file_size n)) &&
  value_ok (ni_nar_hash n) && in_u 64 (ni_nar_size n) && forallb base_ok (ni_references n) &&
  forallb base_ok (option_list (ni_deriver n)) &&
  forallb (λ v, value_ok v && negb (bool_decide (v = ""))) (option_list (ni_ca n)) &&
  forallb (λ v, value_ok v && negb (bool_decide (v = ""))) (ni_sigs n).

Lemma value_ok_non_ws v : str_forall non_ws v = true → value_ok v = true.
Proof.
  intros H. unfold value_ok. rewrite non_ws_line by done.
  by rewrite bool_decide_true by (by apply trim_end_non_ws).
Qed.

Lemma base_ok_spec p : base_ok p = true →
  StorePath.base_name p ≠ "" ∧ str_forall non_ws (StorePath.base_name p) = true ∧
  strip_prefix "/" (StorePath.base_name p) = None ∧ store_path_new (StorePath.base_name p) = p.
Proof.
  unfold base_ok. intros [[[H1%negb_true_iff H2]%andb_true_iff H3]%andb_true_iff H4]%andb_true_iff.
  apply bool_decide_eq_false in H1. apply bool_decide_eq_true in H3, H4.
  split_and!; [done..|]. unfold store_path_new, StorePath.new. rewrite H4, H3. by destruct p.
Qed.

(** A line that was written is read as its key and value. *)
Lemma add_line_field i k v p : key_ok k = true → value_ok v = true →
  NarInfo.add_line i (NarInfo.field k v) p = NarInfo.add_field k v p.
Proof.
  unfold key_ok, value_ok. destruct k as [|a k]; [done|]. set (K := String a k).
  intros [[[[Ha%negb_true_iff Hh%negb_true_iff]%andb_true_iff Hc%negb_true_iff]%andb_true_iff Ht]%andb_true_iff _]%andb_true_iff.
  intros [_ Hv]%andb_true_iff. apply bool_decide_eq_true in Ht, Hv.
  assert (trim (NarInfo.field K v) = K +:+ String ":" (trim_end (String " " v))) as Hl.
  { unfold trim, NarInfo.field. change (K +:+ ": " +:+ v) with (K +:+ String ":" (String " " v)).
    subst K. cbn [String.append]. rewrite trim_start_app by done.
    change (String a (k +:+ String ":" (String " " v))) with (String a k +:+ String ":" (String " " v)).
    by rewrite trim_end_app_char. }
  unfold NarInfo.add_line. rewrite Hl. subst K. rewrite bool_decide_false by done.
  replace (starts_with "#" _) with false; [|symmetry; unfold starts_with; cbn [String.append strip_prefix]].
  2:{ rewrite Ascii.eqb_sym, Hh. by apply bool_decide_false; intros []. }
  cbn [orb]. rewrite split_once_app by done. unfold NarInfo.key_value. cbn [fst snd]. rewrite Ht.
  f_equal. destruct (decide (v = "")) as [->|Hne]; [done|].
  rewrite trim_end_cons by (right; by rewrite Hv). cbn [strip_prefix].
  by rewrite Ascii.eqb_refl, !Hv.
Qed.

Lemma add_lines_app i l1 l2 p : 
  NarInfo.add_lines i (l1 ++ l2) p =
  (q ← NarInfo.add_lines i l1 p; NarInfo.add_lines (length l1 + i) l2 q).
Proof.
  revert i p. induction l1 as [|l l1 IH]; intros i p; [done|]. cbn.
  destruct (NarInfo.add_line i l p); cbn; [|done]. by rewrite IH, Nat.add_succ_r.
Qed.

Lemma field_line k v : key_ok k = true → value_ok v = true → line_ok (NarInfo.field k v) = true.
Proof.
  intros [_ Hk]%andb_true_iff [Hv _]%andb_true_iff. unfold NarInfo.field.
  by rewrite !line_ok_app, Hk, Hv.
Qed.

(** The lines [ls] take what was read so far from [p] to [q], and break no
    line. *)
Definition reads (ls : list string) (p q : NarInfo.Partial) : Prop :=
  (∀ i, NarInfo.add_lines i ls p = Ok q) ∧ Forall (λ l, line_ok l = true) ls.

Lemma reads_field k v p q : key_ok k = true → value_ok v = true →
  NarInfo.add_field k v p = Ok q → reads [NarInfo.field k v] p q.
Proof.
  intros Hk Hv Hq. split; [intros i|by constructor; [apply field_line|]].
  cbn [NarInfo.add_lines]. by rewrite add_line_field, Hq.
Qed.

Lemma reads_app l1 l2 p q r : reads l1 p q → reads l2 q r → reads (l1 ++ l2) p r.
Proof.
  intros [H1 F1] [H2 F2]. split; [|by apply Forall_app].
  intros i. rewrite add_lines_app, H1. cbn. apply H2.
Qed.

Lemma reads_cons k v ls p q r : key_ok k = true → value_ok v = true →
  NarInfo.add_field k v p = Ok q → reads ls q r → reads (NarInfo.field k v :: ls) p r.
Proof. intros. eapply (reads_app [_]); [by eapply reads_field|done]. Qed.

Definition with_info (f : NarInfo → NarInfo) (p : NarInfo.Partial) : NarInfo.Partial :=
  let '(NarInfo.mkPartial i sp ur co nh ns) := p in NarInfo.mkPartial (f i) sp ur co nh ns.

(** An optional line, of which the value is [show x] and which sets a field
    that was not set before. *)
Lemma reads_option {A} k (show : A → string) (o : option A) (f : option A → NarInfo → NarInfo) p :
  key_ok k = true → with_info (f None) p = p →
  (∀ x, o = Some x → value_ok (show x) = true ∧
                     NarInfo.add_field k (show x) p = Ok (with_info (f (Some x)) p)) →
  reads (option_list ((λ x, NarInfo.field k (show x)) <$> o)) p (with_info (f o) p).
Proof.
  intros Hk Hp H. destruct o as [x|]; cbn; [|by rewrite Hp; split].
  destruct (H x eq_refl). by apply reads_field.
Qed.

Lemma reads_sigs sigs p : forallb (λ v, value_ok v && negb (bool_decide (v = ""))) sigs = true →
  reads (NarInfo.field "Sig" <$> sigs) p
    (with_info (λ i, i <| ni_sigs ::= λ l, l ++ sigs |>) p).
Proof.
  revert p. induction sigs as [|s sigs IH]; intros [i sp ur co nh ns] H.
  { split; [|done]. intros ?. cbn. do 2 f_equal. by destruct i; cbn; rewrite app_nil_r. }
  cbn [forallb] in H. apply andb_true_iff in H as [[Hs Hne%negb_true_iff]%andb_true_iff H].
  apply bool_decide_eq_false in Hne. eapply reads_cons; [done|done| |].
  { cbn [NarInfo.add_field]. repeat rewrite decide_False by done.
    rewrite decide_True, decide_False by done. reflexivity. }
  eapply eq_ind; [apply (IH _ H)|]. cbn. f_equal. by destruct i; cbn; rewrite <-app_assoc.
Qed.

Lemma compression_roundtrip c : Compression.from_str (Compression.as_str c) = Ok c.
Proof. by destruct c. Qed.

Lemma references_roundtrip refs : forallb base_ok refs = true →
  store_path_new <$> filter (λ s, s ≠ "") (split_whitespace (join " " (StorePath.base_name <$> refs)))
  = refs ∧ value_ok (join " " (StorePath.base_name <$> refs)) = true.
Proof.
  intros H.
  assert (Forall (λ s, s ≠ "" ∧ str_forall non_ws s = true) (StorePath.base_name <$> refs)) as F.
  { apply Forall_fmap, Forall_forall. intros p Hp. rewrite forallb_forall in H.
    by destruct (base_ok_spec p) as (?&?&_); [apply H, list_elem_of_In|]. }
  split.
  - rewrite split_whitespace_join by done. rewrite filter_all_true.
    + induction refs as [|p refs IH]; [done|]. cbn in *. apply andb_true_iff in H as [Hp H].
      apply Forall_cons in F as [_ F]. rewrite IH by done.
      by destruct (base_ok_spec p) as (_&_&_&->).
    + eapply Forall_impl; [exact F|]. by intros ? [].
  - unfold value_ok. rewrite join_line by (eapply Forall_impl; [exact F|]; by intros ? []).
    by rewrite bool_decide_true by (by apply join_trim).
Qed.

Record can_write (n : NarInfo) : Prop := {
  cw_dir : ends_with "/" get_store_dir = false;
  cw_dir_line : line_ok get_store_dir = true;
  cw_path : base_ok (ni_store_path n) = true;
  cw_url : value_ok (ni_url n) = true;
  cw_file_hash x : ni_file_hash n = Some x → value_ok x = true;
  cw_file_size x : ni_file_size n = Some x → in_u 64 x = true;
  cw_nar_hash : value_ok (ni_nar_hash n) = true;
  cw_nar_size : in_u 64 (ni_nar_size n) = true;
  cw_references : forallb base_ok (ni_references n) = true;
  cw_deriver x : ni_deriver n = Some x → base_ok x = true;
  cw_ca x : ni_ca n = Some x → value_ok x = true ∧ x ≠ "";
  cw_sigs : forallb (λ v, value_ok v && negb (bool_decide (v = ""))) (ni_sigs n) = true
}.

Lemma writable_spec n : writable n = true → can_write n.
Proof.
  unfold writable. intros H.
  repeat match goal with H : _ && _ = true |- _ => apply andb_true_iff in H as [? ?] end.
  split; try done; try (by apply negb_true_iff);
    intros x Hx; rewrite Hx in *; cbn in *; rewrite ?andb_true_r in *; try done.
  match goal with H : value_ok x && _ = true |- _ => apply andb_true_iff in H as [? Hne] end.
  split; [done|]. by apply negb_true_iff, bool_decide_eq_false in Hne.
Qed.

Lemma reads_prefix n : can_write n →
  reads [NarInfo.field "StorePath" (print_store_path (ni_store_path n));
         NarInfo.field "URL" (ni_url n);
         NarInfo.field "Compression" (Compression.as_str (ni_compression n))]
    NarInfo.start
    (NarInfo.mkPartial (mkNarInfo (ni_store_path n) (ni_url n) (ni_compression n) None None "" 0 [] None None [])
       true true true false false).
Proof.
  intros [Hd Hl Hp Hu _ _ _ _ _ _ _ _]. apply base_ok_spec in Hp as (Hn & Hw & Hs & _).
  assert (value_ok (print_store_path (ni_store_path n)) = true).
  { unfold value_ok, print_store_path. rewrite !line_ok_app, Hl, (non_ws_line _ Hw).
    rewrite bool_decide_true; [done|].
    by rewrite <-str_app_assoc, trim_end_app; rewrite trim_end_non_ws. }
  eapply reads_cons; [done|done| |].
  { cbn. rewrite store_path_print_new by done. reflexivity. }
  eapply reads_cons; [done|done|cbn; reflexivity|].
  apply reads_field; [done|by destruct (ni_compression n)|]. cbn -[Compression.from_str].
  by rewrite compression_roundtrip.
Qed.

(** The branch of [add_field] for a given key. *)
Ltac pick_field :=
  cbn [NarInfo.add_field with_info]; repeat rewrite decide_False by done; rewrite decide_True by done.

(** The field of a number is read as the number. *)
Lemma int_field_show f z : in_u 64 z = true → NarInfo.int_field f (show_Z z) = Ok z.
Proof. intros H. unfold NarInfo.int_field. by rewrite parse_u_show_Z. Qed.

Lemma show_Z_value z : in_u 64 z = true → value_ok (show_Z z) = true.
Proof. intros H. apply value_ok_non_ws, show_Z_non_ws. unfold in_u in H. lia. Qed.

Lemma render_reads n : can_write n →
  reads (NarInfo.render_lines n) NarInfo.start (NarInfo.mkPartial n true true true true true).
Proof.
  intros Hn. pose proof (references_roundtrip _ (cw_references _ Hn)) as [Hr Hrv].
  unfold NarInfo.render_lines. eapply reads_app; [by apply reads_prefix|].
  eapply reads_app.
  { eapply (reads_option _ id _ (λ o i, i <| ni_file_hash := o |>));
      [done|reflexivity|]. intros x Hx. split; [by apply (cw_file_hash _ Hn)|cbn; reflexivity]. }
  eapply reads_app.
  { eapply (reads_option _ _ _ (λ o i, i <| ni_file_size := o |>));
      [done|reflexivity|]. intros x Hx. pose proof (cw_file_size _ Hn x Hx).
    split; [by apply show_Z_value|]. pick_field. by rewrite int_field_show. }
  eapply reads_app.
  { eapply reads_cons; [done|apply (cw_nar_hash _ Hn)|cbn; reflexivity|].
    pose proof (cw_nar_size _ Hn). eapply reads_cons; [done|by apply show_Z_value| |].
    { pick_field. rewrite int_field_show by done. reflexivity. }
    apply reads_field; [done..|]. pick_field. rewrite Hr. reflexivity. }
  eapply reads_app.
  { eapply (reads_option _ _ _ (λ o i, i <| ni_deriver := o |>));
      [done|reflexivity|]. intros x Hx.
    destruct (base_ok_spec x (cw_deriver _ Hn x Hx)) as (Hne & Hw & _ & He).
    split; [by apply value_ok_non_ws|]. pick_field. by rewrite decide_False, He. }
  eapply reads_app.
  { eapply (reads_option _ id _ (λ o i, i <| ni_ca := o |>));
      [done|reflexivity|]. intros x Hx. destruct (cw_ca _ Hn x Hx).
    split; [done|]. pick_field. by rewrite decide_False. }
  eapply eq_ind; [apply reads_sigs, (cw_sigs _ Hn)|]. cbn. by destruct n.
Qed.

Lemma starts_with_app p s : starts_with p (p +:+ s) = true.
Proof. unfold starts_with. by rewrite strip_prefix_app, bool_decide_true. Qed.

Lemma slice_same p s : NarInfo.slice_differs (p +:+ s) p = Some false.
Proof.
  unfold NarInfo.slice_differs. rewrite starts_with_app.
  by rewrite (proj2 (Nat.ltb_ge _ _)) by (rewrite str_length_app; lia).
Qed.

Lemma slice_store p : NarInfo.slice_differs (print_store_path p) get_store_dir = Some false.
Proof. apply slice_same. Qed.

Lemma refs_same l : NarInfo.any_differs (print_store_path <$> l) get_store_dir = Some false.
Proof.
  induction l as [|p l IH]; [done|]. rewrite fmap_cons. cbn [NarInfo.any_differs].
  by rewrite slice_store.
Qed.

(** A base-32 hash with its prefix. *)
Definition nix32 (h : string) : bool := starts_with "sha256:" h && (String.length h =? 59)%nat.

Lemma fingerprint_nix32 n : nix32 (ni_nar_hash n) = true →
  NarInfo.fingerprint_path n =
  Some (Some ("1;" +:+ print_store_path (ni_store_path n) +:+ ";" +:+ ni_nar_hash n +:+ ";" +:+
        show_Z (ni_nar_size n) +:+ ";" +:+ join "," (print_store_path <$> ni_references n))).
Proof.
  unfold nix32. intros [Hp Hl]%andb_true_iff. unfold NarInfo.fingerprint_path.
  rewrite slice_store. cbn [mbind option_bind].
  assert (NarInfo.slice_differs (ni_nar_hash n) "sha256:" = Some false) as ->.
  { unfold starts_with in Hp. apply bool_decide_eq_true in Hp as [h Hh%strip_prefix_Some].
    rewrite Hh. apply slice_same. }
  rewrite Hl, refs_same. done.
Qed.

(** Another hash is not signed: nothing is, or the slice panics. *)
Lemma fingerprint_other n : nix32 (ni_nar_hash n) = false → NarInfo.fingerprint_path n ∈ [None; Some None].
Proof.
  unfold nix32. intros H. unfold NarInfo.fingerprint_path.
  rewrite slice_store. cbn [mbind option_bind].
  destruct (NarInfo.slice_differs (ni_nar_hash n) "sha256:") as [[]|] eqn:E; cbn; [set_solver| |set_solver].
  unfold NarInfo.slice_differs in E. case_match; [done|]. injection E as E%negb_false_iff.
  rewrite E in H. cbn in H. rewrite H. set_solver.
Qed.

(** Printed paths and the hash have no separator of the fingerprint in them. *)
Definition separable (n : NarInfo) : bool :=
  negb (contains_char ";" (print_store_path (ni_store_path n))) &&
  negb (contains_char ";" (ni_nar_hash n)) && in_u 64 (ni_nar_size n) &&
  forallb (λ r, negb (contains_char "," (print_store_path r))) (ni_references n).

Lemma print_store_path_inj p p' : print_store_path p = print_store_path p' → p = p'.
Proof.
  unfold print_store_path. intros H. apply (f_equal (strip_prefix (get_store_dir +:+ "/"))) in H.
  rewrite <-!str_app_assoc, !strip_prefix_app in H. injection H. destruct p, p'. cbn. by intros ->.
Qed.

#[export] Instance print_store_path_Inj : Inj (=) (=) print_store_path := print_store_path_inj.

Lemma refs_separable refs :
  forallb (λ r, negb (contains_char "," (print_store_path r))) refs = true →
  Forall (λ s, s ≠ "" ∧ contains_char "," s = false) (print_store_path <$> refs).
Proof.
  rewrite forallb_forall. intros H. apply Forall_fmap, Forall_forall. intros r Hr.
  split; [unfold print_store_path; by destruct get_store_dir|].
  by apply negb_true_iff, H, list_elem_of_In.
Qed.

Lemma show_Z_semi z : in_u 64 z = true → contains_char ";" (show_Z z) = false.
Proof.
  intros H. assert (0 ≤ z) as Hz by (unfold in_u in H; lia).
  unfold show_Z. rewrite (proj2 (Z.ltb_ge z 0)) by done.
  pose proof (show_N_digits (Z.to_N z)) as Hd. revert Hd. generalize (show_N (Z.to_N z)).
  intros s. induction s as [|a s IH]; [done|]. cbn [str_forall contains_char].
  intros [Ha Hs]%andb_true_iff. rewrite IH by done.
  by destruct (Ascii.eqb_spec a ";") as [->|].
Qed.

(** The text of a description is read as the description. *)
Lemma from_str_render n : writable n = true → NarInfo.from_str (NarInfo.render n) = Ok n.
Proof.
  intros [Hr Hl]%writable_spec%render_reads. unfold NarInfo.from_str, NarInfo.render.
  by rewrite lines_unlines, Hr.
Qed.

(** ** Signatures *)

Context `{SL : SignLib}.

Lemma fingerprint_sigs n l :
  NarInfo.fingerprint_path (n <| ni_sigs := l |>) = NarInfo.fingerprint_path n.
Proof. done. Qed.

Lemma clear_sigs_and_sign_spec keys n : keys ≠ [] → nix32 (ni_nar_hash n) = true →
  ∃ fp, NarInfo.fingerprint_path n = Some (Some fp) ∧
    NarInfo.clear_sigs_and_sign keys n = Some (n <| ni_sigs := (λ s, sign_string s fp) <$> keys |>).
Proof.
  intros Hk Hh. eexists. split; [by apply fingerprint_nix32|].
  unfold NarInfo.clear_sigs_and_sign. rewrite decide_False by done.
  rewrite fingerprint_nix32 by done. by destruct n.
Qed.
End Lemmas.

Section Claims.
Context `{NE : NixEnv} `{SL : SignLib}.

(** C26: what is written for a path in the binary cache is read back as it
    was: every field, the references in order, the signatures in order. *)
Theorem narinfo_roundtrip n : writable n = true → NarInfo.from_str (NarInfo.render n) = Ok n.
Proof. apply from_str_render. Qed.

(** A signature binds a path to its contents: two descriptions with the
    same fingerprint are of the same store path, with the same archive hash,
    the same size and the same references. *)
Theorem fingerprint_binds n m fp :
  NarInfo.fingerprint_path n = Some (Some fp) → NarInfo.fingerprint_path m = Some (Some fp) →
  separable n = true → separable m = true →
  ni_store_path n = ni_store_path m ∧ ni_nar_hash n = ni_nar_hash m ∧
  ni_nar_size n = ni_nar_size m ∧ ni_references n = ni_references m.
Proof.
  assert (∀ k, NarInfo.fingerprint_path k = Some (Some fp) → nix32 (ni_nar_hash k) = true) as Hnix.
  { intros k Hk. apply not_false_iff_true. intros E%fingerprint_other. rewrite Hk in E. set_solver. }
  intros Hn Hm. pose proof (Hnix _ Hn) as Hn'. pose proof (Hnix _ Hm) as Hm'.
  rewrite fingerprint_nix32 in Hn, Hm by done. rewrite <-Hm in Hn. clear Hm. injection Hn as Hn.
  unfold separable. intros S1 S2.
  repeat match goal with H : _ && _ = true |- _ => apply andb_true_iff in H as [? ?] end.
  repeat match goal with H : negb _ = true |- _ => apply negb_true_iff in H end.
  apply split_once_inj in Hn as [Hp Hn]; [|done..].
  apply split_once_inj in Hn as [Hh Hn]; [|done..].
  apply split_once_inj in Hn as [Hs Hn]; [|by apply show_Z_semi..].
  split_and!; [by apply print_store_path_inj|done| |].
  - apply (f_equal (parse_u 64)) in Hs. rewrite !parse_u_show_Z in Hs by done. by injection Hs.
  - apply join_inj in Hn.
    + by apply (inj (fmap print_store_path)) in Hn.
    + by apply refs_separable.
    + by apply refs_separable.
Qed.

(** With signing keys, a path whose hash is in base 32 is signed with each
    of them, over the fingerprint of what is written, and with nothing else;
    without keys, the signatures of the local store are kept. *)
Theorem new_signs_with_every_key path info c keys n :
  nix32 (pi_nar_hash info) = true → NarInfo.new path info c keys = Some n →
  ni_store_path n = path ∧ ni_nar_hash n = pi_nar_hash info ∧
  ni_sigs n = if decide (keys = []) then pi_sigs info
              else match NarInfo.fingerprint_path n with
                   | Some (Some fp) => (λ k, sign_string k fp) <$> keys
                   | _ => []
                   end.
Proof.
  intros Hh. unfold NarInfo.new, NarInfo.simple.
  assert (NarInfo.nix32_nar_hash (pi_nar_hash info) = pi_nar_hash info) as ->.
  { unfold nix32 in Hh. apply andb_true_iff in Hh as [_ Hl%Nat.eqb_eq].
    unfold NarInfo.nix32_nar_hash. by rewrite Hl. }
  destruct (NarInfo.nar_hash_url _ _) as [u|]; cbn [mbind option_bind]; [|done].
  set (n0 := mkNarInfo _ _ _ _ _ _ _ _ _ _ _). destruct (decide (keys = [])) as [->|Hk].
  { cbn. destruct (decide (pi_sigs info = [])) as [E|E];
      [rewrite (bool_decide_true _ E)|rewrite (bool_decide_false _ E)]; intros [= <-]; cbn; by rewrite ?E. }
  destruct (clear_sigs_and_sign_spec keys n0 Hk Hh) as (fp & Hfp & ->). cbn [mbind option_bind].
  rewrite bool_decide_false by (by destruct keys). cbn [andb]. intros H%(inj Some). subst n.
  split_and!; [done..|]. by rewrite fingerprint_sigs, Hfp.
Qed.

(** A hexadecimal hash loses its prefix in the conversion, and a
    description with it is not signed: the signatures of the local store are
    published instead, whatever the keys. *)
Theorem hex_hash_is_not_signed path info c keys h n :
  String.length (pi_nar_hash info) = 71%nat →
  convert_sha256_nix32 (String.substring 7 64 (pi_nar_hash info)) = Some h →
  strip_prefix "sha256:" h = None →
  NarInfo.new path info c keys = Some n →
  ni_nar_hash n = h ∧ ni_sigs n = pi_sigs info.
Proof.
  intros Hl Hc Hp. unfold NarInfo.new, NarInfo.simple, NarInfo.nix32_nar_hash.
  rewrite Hl. cbn [Nat.eqb Nat.sub]. rewrite Hc. cbn [default].
  destruct (NarInfo.nar_hash_url _ _) as [u|]; cbn [mbind option_bind]; [|done].
  set (n0 := mkNarInfo _ _ _ _ _ _ _ _ _ _ _).
  destruct (NarInfo.clear_sigs_and_sign keys n0) as [n1|] eqn:E; [|done]. cbn [mbind option_bind].
  assert (n1 = n0) as ->.
  { unfold NarInfo.clear_sigs_and_sign in E. case_decide; [by injection E as <-|].
    rewrite fingerprint_sigs in E.
    assert (nix32 (ni_nar_hash n0) = false) as [Hf|Hf%list_elem_of_singleton]%fingerprint_other%elem_of_cons
      by (change (ni_nar_hash n0) with h; unfold nix32, starts_with; by rewrite Hp).
    - by rewrite Hf in E.
    - rewrite Hf in E. by injection E as <-. }
  destruct (decide (pi_sigs info = [])) as [Es|Es];
    [rewrite (bool_decide_true _ Es)|rewrite (bool_decide_false _ Es)]; intros [= <-]; cbn; by rewrite ?Es.
Qed.
End Claims.
