(* ===== verification/CacheCfg.v ===== *)
(** * CacheCfg: the configuration of a binary cache ([crates/binary-cache/src/cfg.rs])

    A cache is given by a URI [s3://bucket?option=value&...]. The URI parser
    and the reader of INI files are external: the class [UrlLib], and a map of
    sections as argument. *)

From Stdlib Require Import Ascii String.
From S2P Require Import Prelude RustStr Nix NarInfo.
Local Open Scope string_scope.
Local Open Scope list_scope.
Local Open Scope Z_scope.

Definition MIN_PRESIGNED_URL_EXPIRY_SECS : Z := 60.
Definition MAX_PRESIGNED_URL_EXPIRY_SECS : Z := 24 * 60 * 60.

(** [url::Url]: the scheme, the authority and the pairs of the query, in
    order. *)
Record Url := mkUrl { u_scheme : string; u_authority : string; u_query_pairs : list (string * string) }.
Class UrlLib : Type := { url_parse : string → result string Url }.

(** ** The client ([S3ClientConfig]) *)

Inductive S3Scheme := HTTP | HTTPS.

Definition S3Scheme_from_str (s : string) : result string S3Scheme :=
  let s := to_ascii_lowercase (trim s) in
  if decide (s = "http") then Ok HTTP else if decide (s = "https") then Ok HTTPS else Err s.

Record S3CredentialsConfig := mkS3CredentialsConfig { cr_access_key_id : string; cr_secret_access_key : string }.

Record S3ClientConfig := mkS3ClientConfig {
  sc_region : string;
  sc_scheme : S3Scheme;
  sc_endpoint : option string;
  sc_bucket : string;
  sc_profile : option string;
  sc_credentials : option S3CredentialsConfig
}.
#[export] Instance eta_S3ClientConfig : Eta S3ClientConfig := λ r,
  mkS3ClientConfig (sc_region r) (sc_scheme r) (sc_endpoint r) (sc_bucket r) (sc_profile r) (sc_credentials r).
#[export] Instance set_sc_region : Setter sc_region := ltac:(mk_setter sc_region).
#[export] Instance set_sc_scheme : Setter sc_scheme := ltac:(mk_setter sc_scheme).
#[export] Instance set_sc_endpoint : Setter sc_endpoint := ltac:(mk_setter sc_endpoint).
#[export] Instance set_sc_profile : Setter sc_profile := ltac:(mk_setter sc_profile).
#[export] Instance set_sc_credentials : Setter sc_credentials := ltac:(mk_setter sc_credentials).

Module S3ClientConfig.

Definition new (bucket : string) : S3ClientConfig := mkS3ClientConfig "us-east-1" HTTPS None bucket None None.
Definition with_region (region : option string) (c : S3ClientConfig) : S3ClientConfig :=
  match region with Some r => c <| sc_region := r |> | None => c end.
Definition with_scheme (scheme : option S3Scheme) (c : S3ClientConfig) : S3ClientConfig :=
  match scheme with Some s => c <| sc_scheme := s |> | None => c end.
Definition with_endpoint (endpoint : option string) (c : S3ClientConfig) : S3ClientConfig :=
  c <| sc_endpoint := endpoint |>.
Definition with_profile (profile : option string) (c : S3ClientConfig) : S3ClientConfig :=
  c <| sc_profile := profile |>.
Definition with_credentials (cr : option S3CredentialsConfig) (c : S3ClientConfig) : S3ClientConfig :=
  c <| sc_credentials := cr |>.

End S3ClientConfig.

(** ** The cache ([S3CacheConfig]) *)

(** [async_compression::Level] *)
Inductive Level := Fastest | Best | DefaultLevel | Precise (n : Z).

Record S3CacheConfig := mkS3CacheConfig {
  cc_client_config : S3ClientConfig;
  cc_compression : Compression;
  cc_write_nar_listing : bool;
  cc_write_debug_info : bool;
  cc_write_realisation : bool;
  cc_secret_key_files : list string;
  cc_parallel_compression : bool;
  cc_compression_level : option Z;
  cc_narinfo_compression : Compression;
  cc_ls_compression : Compression;
  cc_log_compression : Compression;
  cc_buffer_size : Z;
  cc_presigned_url_expiry : Z
}.
#[export] Instance eta_S3CacheConfig : Eta S3CacheConfig := λ r,
  mkS3CacheConfig (cc_client_config r) (cc_compression r) (cc_write_nar_listing r) (cc_write_debug_info r)
    (cc_write_realisation r) (cc_secret_key_files r) (cc_parallel_compression r) (cc_compression_level r)
    (cc_narinfo_compression r) (cc_ls_compression r) (cc_log_compression r) (cc_buffer_size r)
    (cc_presigned_url_expiry r).
#[export] Instance set_cc_compression : Setter cc_compression := ltac:(mk_setter cc_compression).
#[export] Instance set_cc_nar_listing : Setter cc_write_nar_listing := ltac:(mk_setter cc_write_nar_listing).
#[export] Instance set_cc_debug_info : Setter cc_write_debug_info := ltac:(mk_setter cc_write_debug_info).
#[export] Instance set_cc_realisation : Setter cc_write_realisation := ltac:(mk_setter cc_write_realisation).
#[export] Instance set_cc_key_files : Setter cc_secret_key_files := ltac:(mk_setter cc_secret_key_files).
#[export] Instance set_cc_parallel : Setter cc_parallel_compression := ltac:(mk_setter cc_parallel_compression).
#[export] Instance set_cc_level : Setter cc_compression_level := ltac:(mk_setter cc_compression_level).
#[export] Instance set_cc_narinfo : Setter cc_narinfo_compression := ltac:(mk_setter cc_narinfo_compression).
#[export] Instance set_cc_ls : Setter cc_ls_compression := ltac:(mk_setter cc_ls_compression).
#[export] Instance set_cc_log : Setter cc_log_compression := ltac:(mk_setter cc_log_compression).
#[export] Instance set_cc_buffer : Setter cc_buffer_size := ltac:(mk_setter cc_buffer_size).
#[export] Instance set_cc_expiry : Setter cc_presigned_url_expiry := ltac:(mk_setter cc_presigned_url_expiry).

Inductive UrlParseError :=
| UriParseError (e : string)
| IntParseError (e : IntErrorKind)
| S3SchemeParseError (e : string)
| CompressionParseError (e : string)
| BadSchema (scheme : string)
| NoBucket
| InvalidPresignedUrlExpiry (secs min max : Z).

(** [Option::map(..).transpose()] of a parser of query values. *)
Definition transpose {E A} (parse : string → result E A) (v : option string) : result E (option A) :=
  match v with None => Ok None | Some x => Some <$> parse x end.

Module S3CacheConfig.

Definition new (client_config : S3ClientConfig) : S3CacheConfig :=
  mkS3CacheConfig client_config Xz false false false [] false None
    CNoCompression CNoCompression CNoCompression (8 * 1024 * 1024) 3600.

(** The flags of a query: [1] and [true], in any case. *)
Definition is_true (s : string) : bool :=
  let s := to_ascii_lowercase (trim s) in bool_decide (s = "1") || bool_decide (s = "true").

Definition with_compression (c : option Compression) (k : S3CacheConfig) : S3CacheConfig :=
  match c with Some c => k <| cc_compression := c |> | None => k end.
Definition with_write_nar_listing (v : option string) (k : S3CacheConfig) : S3CacheConfig :=
  match v with Some v => k <| cc_write_nar_listing := is_true v |> | None => k end.
Definition with_write_debug_info (v : option string) (k : S3CacheConfig) : S3CacheConfig :=
  match v with Some v => k <| cc_write_debug_info := is_true v |> | None => k end.
Definition with_write_realisation (v : option string) (k : S3CacheConfig) : S3CacheConfig :=
  match v with Some v => k <| cc_write_realisation := is_true v |> | None => k end.
Definition add_secret_key_files (keys : list string) (k : S3CacheConfig) : S3CacheConfig :=
  k <| cc_secret_key_files ::= λ l, l ++ keys |>.
Definition with_parallel_compression (v : option string) (k : S3CacheConfig) : S3CacheConfig :=
  match v with Some v => k <| cc_parallel_compression := is_true v |> | None => k end.
Definition with_compression_level (v : option Z) (k : S3CacheConfig) : S3CacheConfig :=
  match v with Some v => k <| cc_compression_level := Some v |> | None => k end.
Definition with_narinfo_compression (c : option Compression) (k : S3CacheConfig) : S3CacheConfig :=
  match c with Some c => k <| cc_narinfo_compression := c |> | None => k end.
Definition with_ls_compression (c : option Compression) (k : S3CacheConfig) : S3CacheConfig :=
  match c with Some c => k <| cc_ls_compression := c |> | None => k end.
Definition with_log_compression (c : option Compression) (k : S3CacheConfig) : S3CacheConfig :=
  match c with Some c => k <| cc_log_compression := c |> | None => k end.
Definition with_buffer_size (v : option Z) (k : S3CacheConfig) : S3CacheConfig :=
  match v with Some v => k <| cc_buffer_size := v |> | None => k end.

Definition with_presigned_url_expiry (v : option Z) (k : S3CacheConfig) : result UrlParseError S3CacheConfig :=
  match v with
  | None => Ok k
  | Some secs =>
      if (MIN_PRESIGNED_URL_EXPIRY_SECS <=? secs) && (secs <=? MAX_PRESIGNED_URL_EXPIRY_SECS)
      then Ok (k <| cc_presigned_url_expiry := secs |>)
      else Err (InvalidPresignedUrlExpiry secs MIN_PRESIGNED_URL_EXPIRY_SECS MAX_PRESIGNED_URL_EXPIRY_SECS)
  end.

Definition get_compression_level (k : S3CacheConfig) : Level :=
  match cc_compression_level k with Some l => Precise l | None => DefaultLevel end.

(** [collect] into a map: the last pair of a key counts. *)
Definition query_map (pairs : list (string * string)) : gmap string string := list_to_map (reverse pairs).

(** The files of the option [secret-key], one, and [secret-keys], a list. *)
Definition secret_key (v : option string) : list string :=
  match v with Some s => if decide (s = "") then [] else [s] | None => [] end.
Definition secret_keys (v : option string) : list string :=
  match v with Some s => filter (λ s, s ≠ "") (split_char "," s) | None => [] end.

Definition compression_of (v : option string) : result UrlParseError (option Compression) :=
  map_err CompressionParseError (transpose Compression.from_str v).

Definition from_str `{UrlLib} (s : string) : result UrlParseError S3CacheConfig :=
  uri ← map_err UriParseError (url_parse (to_ascii_lowercase (trim s)));
  if negb (bool_decide (u_scheme uri = "s3")) then Err (BadSchema (u_scheme uri))
  else if decide (u_authority uri = "") then Err NoBucket
  else
    let query := query_map (u_query_pairs uri) in
    scheme ← map_err S3SchemeParseError (transpose S3Scheme_from_str (query !! "scheme"));
    let cfg :=
      S3ClientConfig.with_profile (query !! "profile")
        (S3ClientConfig.with_endpoint (query !! "endpoint")
          (S3ClientConfig.with_scheme scheme
            (S3ClientConfig.with_region (query !! "region") (S3ClientConfig.new (u_authority uri))))) in
    compression ← compression_of (query !! "compression");
    level ← map_err IntParseError (transpose (parse_i 32) (query !! "compression-level"));
    narinfo ← compression_of (query !! "narinfo-compression");
    ls ← compression_of (query !! "ls-compression");
    log ← compression_of (query !! "log-compression");
    buffer ← map_err IntParseError (transpose (parse_u 64) (query !! "buffer-size"));
    expiry ← map_err IntParseError (transpose (parse_u 64) (query !! "presigned-url-expiry"));
    let k := with_write_debug_info (query !! "write-debug-info")
               (with_write_nar_listing (query !! "write-nar-listing")
                 (with_compression compression (new cfg))) in
    let k := add_secret_key_files (secret_keys (query !! "secret-keys"))
               (add_secret_key_files (secret_key (query !! "secret-key")) k) in
    let k := with_compression_level level (with_parallel_compression (query !! "parallel-compression") k) in
    let k := with_log_compression log (with_ls_compression ls (with_narinfo_compression narinfo k)) in
    with_presigned_url_expiry expiry (with_buffer_size buffer k).

End S3CacheConfig.

(** ** Credentials *)

Inductive ConfigReadError :=
| EnvVarNotFound
| ReadError (e : string)
| ProfileMissing (profile : string)
| ValueMissing (key : string).

Abbreviation Section_ := (gmap string (option string)).

(** A section whose trimmed name is the profile's, in the order of the map. *)
Definition matching_section `{HashIter} (config_map : gmap string Section_) (profile : string) : option Section_ :=
  snd <$> List.find (λ kv, let s := trim kv.1 in
    bool_decide (s = profile) || bool_decide (s = "profile " +:+ profile)) (iter config_map).

Definition find_profile `{HashIter} (config_map : gmap string Section_) (profile : string) : option Section_ :=
  match config_map !! profile with
  | Some m => Some m
  | None =>
      match config_map !! ("profile " +:+ profile) with
      | Some m => Some m
      | None => matching_section config_map profile
      end
  end.

Definition parse_aws_credentials_file `{HashIter} (config_map : gmap string Section_) (profile : string)
  : result ConfigReadError (string * string) :=
  profile_map ← ok_or (find_profile config_map profile) (ProfileMissing profile);
  access_key ← ok_or (mjoin (profile_map !! "aws_access_key_id")) (ValueMissing "aws_access_key_id");
  secret_key ← ok_or (mjoin (profile_map !! "aws_secret_access_key")) (ValueMissing "aws_secret_access_key");
  Ok (access_key, secret_key).

(** [HOME], or else [USERPROFILE], names the file. *)
Definition read_aws_credentials_file `{HashIter} (env_var : string → option string)
    (load_ini : string → result string (gmap string Section_)) (profile : string)
  : result ConfigReadError (string * string) :=
  home ← ok_or (match env_var "HOME" with Some h => Some h | None => env_var "USERPROFILE" end) EnvVarNotFound;
  config_map ← map_err ReadError (load_ini (home +:+ "/.aws/credentials"));
  parse_aws_credentials_file config_map profile.

(** ** Lemmas *)

Lemma lower_idemp a : lower (lower a) = lower a.
Proof. by destruct a as [[] [] [] [] [] [] [] []]. Qed.
Lemma lower_ws a : is_ws (lower a) = is_ws a.
Proof. by destruct a as [[] [] [] [] [] [] [] []]. Qed.

Lemma lowercase_idemp s : to_ascii_lowercase (to_ascii_lowercase s) = to_ascii_lowercase s.
Proof. induction s as [|a s IH]; cbn [to_ascii_lowercase]; [done|]. by rewrite lower_idemp, IH. Qed.

Lemma trim_start_lower s : trim_start (to_ascii_lowercase s) = to_ascii_lowercase (trim_start s).
Proof.
  induction s as [|a s IH]; cbn [to_ascii_lowercase trim_start]; [done|].
  rewrite lower_ws. by destruct (is_ws a).
Qed.

Lemma trim_end_lower s : trim_end (to_ascii_lowercase s) = to_ascii_lowercase (trim_end s).
Proof.
  induction s as [|a s IH]; cbn [to_ascii_lowercase trim_end]; [done|].
  rewrite IH, lower_ws. destruct (trim_end s); cbn [to_ascii_lowercase]; [by destruct (is_ws a)|done].
Qed.

Lemma trim_lower s : trim (to_ascii_lowercase s) = to_ascii_lowercase (trim s).
Proof. unfold trim. by rewrite trim_start_lower, trim_end_lower. Qed.

(** The name of a section that a profile may use. *)
Definition names_profile (profile name : string) : bool :=
  let ok s := bool_decide (s = profile) || bool_decide (s = "profile " +:+ profile) in
  ok name || ok (trim name).

Lemma find_profile_Some `{HashIter} config_map profile sec :
  find_profile config_map profile = Some sec →
  ∃ name, config_map !! name = Some sec ∧ names_profile profile name = true.
Proof.
  unfold find_profile, names_profile. destruct (config_map !! profile) eqn:E1.
  { intros [= <-]. exists profile. by rewrite bool_decide_true. }
  destruct (config_map !! ("profile " +:+ profile)) eqn:E2.
  { intros [= <-]. eexists. split; [done|]. by rewrite (bool_decide_true (_ = "profile " +:+ profile)), orb_true_r. }
  unfold matching_section. intros ([name sec'] & Hf & ->)%fmap_Some.
  apply find_Some_elem in Hf as [Hin Hn]. exists name. rewrite elem_of_iter in Hin.
  split; [done|]. cbn [fst] in Hn. by rewrite Hn, orb_true_r.
Qed.

Lemma find_profile_None `{HashIter} config_map profile name sec :
  find_profile config_map profile = None → config_map !! name = Some sec → names_profile profile name = false.
Proof.
  unfold find_profile, names_profile. destruct (config_map !! profile) eqn:E1; [done|].
  destruct (config_map !! ("profile " +:+ profile)) eqn:E2; [done|].
  unfold matching_section. intros Hf%fmap_None Hn.
  assert ((name, sec) ∈ iter config_map) as Hin by by rewrite elem_of_iter.
  pose proof (find_None_elem _ _ _ Hf Hin) as Hb. cbn [fst] in Hb. rewrite Hb, orb_false_r.
  by rewrite !bool_decide_false by congruence.
Qed.

Create Rewrite HintDb cache_config.

(** The parts of a configuration that no option but the last touches. *)
Definition fixed (k : S3CacheConfig) : S3ClientConfig * Z * bool :=
  (cc_client_config k, cc_presigned_url_expiry k, cc_write_realisation k).

Section Fixed.
Import S3CacheConfig.
Lemma fixed_compression o k : fixed (with_compression o k) = fixed k. Proof. by destruct o. Qed.
Lemma fixed_listing o k : fixed (with_write_nar_listing o k) = fixed k. Proof. by destruct o. Qed.
Lemma fixed_debug o k : fixed (with_write_debug_info o k) = fixed k. Proof. by destruct o. Qed.
Lemma fixed_keys l k : fixed (add_secret_key_files l k) = fixed k. Proof. done. Qed.
Lemma fixed_parallel o k : fixed (with_parallel_compression o k) = fixed k. Proof. by destruct o. Qed.
Lemma fixed_level o k : fixed (with_compression_level o k) = fixed k. Proof. by destruct o. Qed.
Lemma fixed_narinfo o k : fixed (with_narinfo_compression o k) = fixed k. Proof. by destruct o. Qed.
Lemma fixed_ls o k : fixed (with_ls_compression o k) = fixed k. Proof. by destruct o. Qed.
Lemma fixed_log o k : fixed (with_log_compression o k) = fixed k. Proof. by destruct o. Qed.
Lemma fixed_buffer o k : fixed (with_buffer_size o k) = fixed k. Proof. by destruct o. Qed.
End Fixed.
#[export] Hint Rewrite fixed_compression fixed_listing fixed_debug fixed_keys fixed_parallel fixed_level
  fixed_narinfo fixed_ls fixed_log fixed_buffer : cache_config.

Lemma client_bucket profile endpoint scheme region bucket :
  sc_bucket (S3ClientConfig.with_profile profile (S3ClientConfig.with_endpoint endpoint
    (S3ClientConfig.with_scheme scheme (S3ClientConfig.with_region region (S3ClientConfig.new bucket))))) = bucket.
Proof. by destruct scheme, region. Qed.

(** ** Results *)

(** A URI that is accepted names a bucket, and the validity of its
    presigned URLs lies between a minute and a day; realisations are never
    written, whatever the URI says. *)
Theorem cache_config_bounds `{UrlLib} s c :
  S3CacheConfig.from_str s = Ok c →
  sc_bucket (cc_client_config c) ≠ "" ∧
  MIN_PRESIGNED_URL_EXPIRY_SECS ≤ cc_presigned_url_expiry c ≤ MAX_PRESIGNED_URL_EXPIRY_SECS ∧
  cc_write_realisation c = false.
Proof.
  unfold S3CacheConfig.from_str. intros (uri & _ & Hc)%bind_Ok_inv.
  case_match; [done|]. case_decide as Hb; [done|].
  do 8 apply bind_Ok_inv in Hc as (? & _ & Hc).
  set (k := S3CacheConfig.with_buffer_size _ _) in Hc.
  assert (sc_bucket (cc_client_config k) = u_authority uri ∧ cc_presigned_url_expiry k = 3600 ∧
          cc_write_realisation k = false) as (Hk1 & Hk2 & Hk3).
  { change (sc_bucket (fixed k).1.1 = u_authority uri ∧ (fixed k).1.2 = 3600 ∧ (fixed k).2 = false).
    subst k. autorewrite with cache_config. cbn -[S3ClientConfig.with_profile S3ClientConfig.new].
    split_and!; [apply client_bucket|done..]. }
  unfold S3CacheConfig.with_presigned_url_expiry in Hc. clearbody k.
  repeat case_match; simplify_eq; cbn; rewrite ?Hk1, ?Hk2, ?Hk3; unfold MIN_PRESIGNED_URL_EXPIRY_SECS,
    MAX_PRESIGNED_URL_EXPIRY_SECS in *; split_and!; try done; lia.
Qed.

(** Upper and lower case make no difference anywhere in the URI, the
    names of key files and profiles included. *)
Theorem cache_config_ignores_case `{UrlLib} s :
  S3CacheConfig.from_str (to_ascii_lowercase s) = S3CacheConfig.from_str s.
Proof. unfold S3CacheConfig.from_str. by rewrite trim_lower, lowercase_idemp. Qed.

(** Credentials are the two values of one section that names the profile;
    a missing profile means that no section does. *)
Theorem credentials_of_profile `{HashIter} config_map profile :
  match parse_aws_credentials_file config_map profile with
  | Ok (access_key, secret_key) =>
      ∃ name sec, config_map !! name = Some sec ∧ names_profile profile name = true ∧
        sec !! "aws_access_key_id" = Some (Some access_key) ∧
        sec !! "aws_secret_access_key" = Some (Some secret_key)
  | Err (ProfileMissing p) =>
      p = profile ∧ ∀ name sec, config_map !! name = Some sec → names_profile profile name = false
  | Err (ValueMissing key) =>
      ∃ name sec, config_map !! name = Some sec ∧ names_profile profile name = true ∧ mjoin (sec !! key) = None
  | Err _ => False
  end.
Proof.
  unfold parse_aws_credentials_file. destruct (find_profile config_map profile) as [sec|] eqn:E.
  2:{ cbn. split; [done|]. intros name sec. by apply find_profile_None. }
  apply find_profile_Some in E as (name & Hn & Hp). cbn [ok_or mbind result_bind].
  destruct (sec !! "aws_access_key_id") as [[a|]|] eqn:Ea; [|by exists name, sec; rewrite Ea..].
  destruct (sec !! "aws_secret_access_key") as [[k|]|] eqn:Ek; [|by exists name, sec; rewrite Ek..].
  by exists name, sec.
Qed.
