(* ===== verification/Stream.v ===== *)
(** * Stream: reading bytes ([crates/binary-cache/src/streaming_hash.rs], and
    [read_chunk_async] of [lib.rs])

    A reader hands out its bytes piece by piece, up to the room in the buffer;
    a read of nothing is the end of the stream. The class [AsyncRead] is the
    interface of readers, with the bytes still to come, which bound the loops;
    [ReadLaws] states what a reader promises. Bytes are characters. *)

From Stdlib Require Import Ascii String.
From S2P Require Import Prelude RustStr.
Local Open Scope string_scope.
Local Open Scope list_scope.
Local Open Scope Z_scope.
#[local] Arguments String.append : simpl nomatch.

(** ** Prefixes of strings *)

Fixpoint str_take (n : nat) (s : string) : string :=
  match n, s with S n, String a s => String a (str_take n s) | _, _ => "" end.
Fixpoint str_drop (n : nat) (s : string) : string :=
  match n, s with S n, String _ s => str_drop n s | _, _ => s end.

(** The length, as a 64-bit number of bytes. *)
Definition len (s : string) : Z := Z.of_nat (String.length s).

(** The first [n] bytes; no number larger than the length is ever unary. *)
Definition take_bytes (n : Z) (s : string) : string := str_take (Z.to_nat (Z.min n (len s))) s.
Definition drop_bytes (n : Z) (s : string) : string := str_drop (Z.to_nat (Z.min n (len s))) s.

Lemma str_take_drop n s : str_take n s +:+ str_drop n s = s.
Proof. revert n. induction s as [|a s IH]; intros [|n]; cbn; [done..|]. by rewrite IH. Qed.
Lemma str_take_length n s : String.length (str_take n s) = Nat.min n (String.length s).
Proof. revert n. induction s as [|a s IH]; intros [|n]; cbn; [done..|]. by rewrite IH. Qed.

Lemma len_app s t : len (s +:+ t) = len s + len t.
Proof. unfold len. rewrite str_length_app. lia. Qed.
Lemma len_nonneg s : 0 ≤ len s. Proof. unfold len. lia. Qed.
Lemma len_zero s : len s = 0 ↔ s = "". Proof. by destruct s. Qed.
Lemma take_drop_bytes n s : take_bytes n s +:+ drop_bytes n s = s.
Proof. apply str_take_drop. Qed.
Lemma len_take_bytes n s : 0 ≤ n → len (take_bytes n s) = Z.min n (len s).
Proof. intros Hn. unfold take_bytes. pose proof (len_nonneg s). unfold len at 1. rewrite str_take_length. unfold len in *. lia. Qed.
Lemma str_app_cancel s t u : s +:+ t = s +:+ u → t = u.
Proof. induction s as [|a s IH]; cbn; [done|]. intros H. apply IH. by injection H. Qed.

(** Two ways to cut a string, with prefixes of the same length. *)
Lemma str_app_eq_length s1 s2 t1 t2 :
  s1 +:+ t1 = s2 +:+ t2 → String.length s1 = String.length s2 → s1 = s2 ∧ t1 = t2.
Proof.
  revert s2. induction s1 as [|a s1 IH]; intros [|b s2]; cbn; try done.
  intros [= -> H] [= Hl]. by destruct (IH s2 H Hl) as [-> ->].
Qed.

Lemma take_bytes_unique n s t u : 0 ≤ n → s = t +:+ u → len t ≤ n → (len t < n → u = "") →
  t = take_bytes n s ∧ u = drop_bytes n s.
Proof.
  intros Hn Hs Hl Hu. apply str_app_eq_length; [by rewrite take_drop_bytes|].
  pose proof (len_take_bytes n s Hn) as H. subst s. rewrite len_app in H.
  pose proof (len_nonneg u). unfold len in *.
  destruct (decide (Z.of_nat (String.length t) < n)) as [Hlt|]; [|lia].
  rewrite (Hu Hlt) in *. cbn in *. lia.
Qed.

(** ** Readers *)

(** An I/O error is its message. *)
Class AsyncRead (R : Type) : Type := {
  (** A read into a buffer with room for so many bytes. *)
  poll_read : Z → R → result string string * R;
  (** The bytes still to come. *)
  contents : R → string;
  (** Whether the stream breaks after them. *)
  breaks : R → bool
}.

Class ReadLaws (R : Type) `{AsyncRead R} : Prop := {
  poll_Ok cap r data r' : 0 < cap → poll_read cap r = (Ok data, r') →
    contents r = data +:+ contents r' ∧ len data ≤ cap ∧ breaks r' = breaks r ∧
    (data = "" → contents r' = "");
  poll_Err cap r e r' : poll_read cap r = (Err e, r') → breaks r = true
}.

(** The readers of the code: a cursor on a string has one piece, a channel
    the pieces that were sent, a compressor those it makes. Empty pieces are
    skipped. *)
Record Reader := mkReader { rd_pieces : list string; rd_error : option string }.

Fixpoint next_piece (ps : list string) : option (string * list string) :=
  match ps with
  | [] => None
  | p :: ps' => if decide (p = "") then next_piece ps' else Some (p, ps')
  end.

#[export] Instance Reader_AsyncRead : AsyncRead Reader := {|
  poll_read cap r :=
    match next_piece (rd_pieces r) with
    | Some (p, ps) => (Ok (take_bytes cap p), mkReader (drop_bytes cap p :: ps) (rd_error r))
    | None => match rd_error r with
              | Some e => (Err e, r)
              | None => (Ok "", mkReader [] None)
              end
    end;
  contents r := join "" (rd_pieces r);
  breaks r := bool_decide (is_Some (rd_error r))
|}.

Lemma join_empty_cons p ps : join "" (p :: ps) = p +:+ join "" ps.
Proof. destruct ps; [|done]. cbn. by rewrite str_app_nil_r. Qed.

Lemma next_piece_Some ps p ps' : next_piece ps = Some (p, ps') → join "" ps = p +:+ join "" ps' ∧ p ≠ "".
Proof.
  induction ps as [|q ps IH]; [done|]. rewrite join_empty_cons. cbn [next_piece]. case_decide as E.
  - subst q. apply IH.
  - by intros [= -> ->].
Qed.

Lemma next_piece_None ps : next_piece ps = None → join "" ps = "".
Proof.
  induction ps as [|q ps IH]; [done|]. rewrite join_empty_cons. cbn [next_piece].
  case_decide as E; [|done]. subst q. apply IH.
Qed.

#[export] Instance Reader_ReadLaws : ReadLaws Reader.
Proof.
  split.
  - intros cap [ps err] data r' Hcap. cbn. destruct (next_piece ps) as [[p ps']|] eqn:E.
    + intros [= <- <-]. apply next_piece_Some in E as [-> Hp].
      cbn [rd_pieces rd_error]. rewrite join_empty_cons, <-str_app_assoc, take_drop_bytes.
      split_and!; [done|rewrite len_take_bytes; lia|done|].
      intros Ht. apply len_zero in Ht. rewrite len_take_bytes in Ht by lia.
      assert (len p ≠ 0) by (by rewrite len_zero). pose proof (len_nonneg p). lia.
    + destruct err as [e|]; [done|]. intros [= <- <-]. rewrite (next_piece_None _ E).
      split_and!; [done|unfold len; cbn; lia|done..].
  - intros cap [ps err] e r'. cbn. by destruct (next_piece ps) as [[? ?]|], err; intros [= <- <-].
Qed.

(** A string as a stream ([std::io::Cursor]). *)
Definition cursor (s : string) : Reader := mkReader [s] None.

(** ** Reading a chunk ([read_chunk_async]) *)

Section Chunk.
Context {R : Type} `{!AsyncRead R}.

(** The buffer has room for [capacity] bytes; a turn of the loop reads at
    least one byte or ends it. *)
Fixpoint read_chunk_loop (fuel : nat) (capacity : Z) (chunk : string) (stream : R)
  : result string string * R :=
  if len chunk <? capacity then
    match fuel with
    | O => (Ok chunk, stream)
    | S fuel =>
        match poll_read (capacity - len chunk) stream with
        | (Err e, stream) => (Err e, stream)
        | (Ok data, stream) =>
            if len data =? 0 then (Ok chunk, stream)
            else read_chunk_loop fuel capacity (chunk +:+ data) stream
        end
    end
  else (Ok chunk, stream).

Definition read_chunk_async (capacity : Z) (stream : R) : result string string * R :=
  read_chunk_loop (S (String.length (contents stream))) capacity "" stream.

(** What every read keeps is kept; what the end of the stream brings about
    holds when the chunk is not full. *)
Lemma read_chunk_inv (P Q : R → Prop) fuel capacity chunk r :
  (∀ cap r, 0 < cap → P r → P (poll_read cap r).2) →
  (∀ cap r r', 0 < cap → P r → poll_read cap r = (Ok "", r') → Q r') →
  ReadLaws R → (String.length (contents r) < fuel)%nat → P r →
  P (read_chunk_loop fuel capacity chunk r).2 ∧
  ∀ c r', read_chunk_loop fuel capacity chunk r = (Ok c, r') → len c < capacity → Q r'.
Proof.
  intros HP HQ HL. revert chunk r. induction fuel as [|fuel IH]; intros chunk r Hf Hr; [lia|].
  cbn [read_chunk_loop]. destruct (Z.ltb_spec (len chunk) capacity) as [Hl|Hl].
  2:{ split; [done|]. intros c r' [= -> ->]. lia. }
  assert (0 < capacity - len chunk) as Hpos by lia.
  pose proof (HP _ r Hpos Hr) as Hr1.
  destruct (poll_read (capacity - len chunk) r) as [[data|e] r1] eqn:E; [|done]. cbn in Hr1.
  destruct (poll_Ok _ _ _ _ Hpos E) as (Hc & _ & _ & _).
  destruct (Z.eqb_spec (len data) 0) as [Hd|Hd].
  { apply len_zero in Hd. subst data. split; [done|]. intros c r' [= <- <-] _.
    exact (HQ _ _ _ Hpos Hr E). }
  apply IH; [|done]. rewrite Hc, str_length_app in Hf. unfold len in Hd. lia.
Qed.

(** A chunk is the start of what was to come, as long as the buffer allows,
    and the rest is still to come. *)
Lemma read_chunk_loop_Ok fuel capacity chunk r c r' :
  ReadLaws R → (String.length (contents r) < fuel)%nat → len chunk ≤ capacity →
  read_chunk_loop fuel capacity chunk r = (Ok c, r') →
  chunk +:+ contents r = c +:+ contents r' ∧ len c ≤ capacity ∧ (len c < capacity → contents r' = "") ∧
  breaks r' = breaks r.
Proof.
  intros HL. revert chunk r. induction fuel as [|fuel IH]; intros chunk r Hf Hcap; [lia|].
  cbn [read_chunk_loop]. destruct (Z.ltb_spec (len chunk) capacity) as [Hl|Hl].
  2:{ intros [= <- <-]. split_and!; [done|lia|lia|done]. }
  assert (0 < capacity - len chunk) as Hpos by lia.
  destruct (poll_read (capacity - len chunk) r) as [[data|e] r1] eqn:E; [|done].
  destruct (poll_Ok _ _ _ _ Hpos E) as (Hc & Hd & Hb & He).
  destruct (Z.eqb_spec (len data) 0) as [H0|H0].
  { apply len_zero in H0. subst data. intros [= <- <-]. rewrite Hc. by split_and!; [|lia|auto|]. }
  intros H. destruct (IH (chunk +:+ data) r1) as (H1 & H2 & H3 & H4); [|rewrite len_app; lia|done|].
  { rewrite Hc, str_length_app in Hf. unfold len in H0. lia. }
  split_and!; [|done|done|congruence]. by rewrite <-H1, Hc, str_app_assoc.
Qed.

Lemma read_chunk_loop_unbroken fuel capacity chunk r :
  ReadLaws R → breaks r = false → ∃ c r', read_chunk_loop fuel capacity chunk r = (Ok c, r').
Proof.
  intros HL. revert chunk r. induction fuel as [|fuel IH]; intros chunk r Hb; cbn [read_chunk_loop].
  { case_match; eauto. }
  case_match eqn:Hl; [|eauto]. apply Z.ltb_lt in Hl.
  assert (0 < capacity - len chunk) as Hpos by lia.
  destruct (poll_read (capacity - len chunk) r) as [[data|e] r1] eqn:E.
  2:{ apply poll_Err in E. congruence. }
  destruct (poll_Ok _ _ _ _ Hpos E) as (_ & _ & Hb' & _).
  case_match; [eauto|]. apply IH. congruence.
Qed.

(** A stream that does not break: the chunk and what is left. *)
Lemma read_chunk_async_spec capacity r : ReadLaws R → 0 ≤ capacity → breaks r = false →
  ∃ r', read_chunk_async capacity r = (Ok (take_bytes capacity (contents r)), r') ∧
    contents r' = drop_bytes capacity (contents r) ∧ breaks r' = false.
Proof.
  intros HL Hc Hb. unfold read_chunk_async.
  destruct (read_chunk_loop_unbroken (S (String.length (contents r))) capacity "" r HL Hb)
    as (c & r' & H). exists r'.
  apply read_chunk_loop_Ok in H as H'; [|done|lia|done]. destruct H' as (H1 & H2 & H3 & H4).
  destruct (take_bytes_unique capacity (contents r) c (contents r')) as [<- <-]; [done..|].
  by rewrite H, H4.
Qed.
End Chunk.

(** ** [HashingReader] *)

(** The SHA-256 of bytes, in hexadecimal. *)
Class Sha256Lib : Type := { sha256_digest : string → string }.

(** The hasher holds the bytes it was given; [hr_hash_result] is set once. *)
Record HashingReader (R : Type) := mkHashingReader {
  hr_inner : R;
  hr_hasher : option string;
  hr_size : Z;
  hr_hash_result : option (string * Z)
}.
Arguments mkHashingReader {R}.
Arguments hr_inner {R}.
Arguments hr_hasher {R}.
Arguments hr_size {R}.
Arguments hr_hash_result {R}.

Module HashingReader.
Section HashingReader.
Context {R : Type} `{!AsyncRead R} `{SHA : Sha256Lib}.

Definition new (reader : R) : HashingReader R := mkHashingReader reader (Some "") 0 None.

(** [None]: the stream has not been read to its end. *)
Definition finalize (h : HashingReader R) : option (string * Z) := hr_hash_result h.

Definition set_result (v : string * Z) (h : HashingReader R) : option (string * Z) :=
  match hr_hash_result h with Some old => Some old | None => Some v end.

Definition poll_read (cap : Z) (h : HashingReader R) : result string string * HashingReader R :=
  match Stream.poll_read cap (hr_inner h) with
  | (Err e, r) => (Err e, mkHashingReader r (hr_hasher h) (hr_size h) (hr_hash_result h))
  | (Ok new_data, r) =>
      if decide (new_data = "") then
        match hr_hasher h with
        | Some hasher =>
            (Ok new_data, mkHashingReader r None (hr_size h) (set_result (sha256_digest hasher, hr_size h) h))
        | None => (Ok new_data, mkHashingReader r None (hr_size h) (hr_hash_result h))
        end
      else
        (Ok new_data, mkHashingReader r ((λ hasher, hasher +:+ new_data) <$> hr_hasher h)
                        (u64_wrap (hr_size h + len new_data)) (hr_hash_result h))
  end.

End HashingReader.
End HashingReader.

#[export] Instance HashingReader_AsyncRead {R} `{!AsyncRead R} `{Sha256Lib} : AsyncRead (HashingReader R) := {|
  poll_read := HashingReader.poll_read;
  contents h := contents (hr_inner h);
  breaks h := breaks (hr_inner h)
|}.

Section Hashing.
Context {R : Type} `{!AsyncRead R} `{!ReadLaws R} `{SHA : Sha256Lib}.

#[export] Instance HashingReader_ReadLaws : ReadLaws (HashingReader R).
Proof.
  split.
  - intros cap h data h' Hcap. cbn. unfold HashingReader.poll_read.
    destruct (poll_read cap (hr_inner h)) as [[d|e] r] eqn:E; [|done].
    destruct (poll_Ok _ _ _ _ Hcap E) as (H1 & H2 & H3 & H4).
    repeat case_match; intros [= <- <-]; by split_and!.
  - intros cap h e h'. cbn. unfold HashingReader.poll_read.
    destruct (poll_read cap (hr_inner h)) as [[d|e'] r] eqn:E.
    + by repeat case_match.
    + intros _. by eapply poll_Err.
Qed.

(** The bytes [total] were there at first: those that were read are in the
    hasher and counted, or all were and the result is set. *)
Definition hashes (total : string) (h : HashingReader R) : Prop :=
  match hr_hasher h with
  | Some seen => total = seen +:+ contents (hr_inner h) ∧ hr_size h = u64_wrap (len seen) ∧ hr_hash_result h = None
  | None => contents (hr_inner h) = "" ∧ hr_hash_result h = Some (sha256_digest total, u64_wrap (len total))
  end.

Lemma hashes_new r : hashes (contents r) (HashingReader.new r).
Proof. done. Qed.

Lemma hashes_poll total cap h data h' : 0 < cap → hashes total h →
  poll_read cap h = (Ok data, h') →
  hashes total h' ∧ (data = "" → hr_hash_result h' = Some (sha256_digest total, u64_wrap (len total))).
Proof.
  intros Hcap Hh. cbn. unfold HashingReader.poll_read.
  destruct (poll_read cap (hr_inner h)) as [[d|e] r] eqn:E; [|done].
  destruct (poll_Ok _ _ _ _ Hcap E) as (H1 & H2 & H3 & H4). unfold hashes in Hh.
  case_decide as Hd.
  - subst d. destruct (hr_hasher h) as [seen|].
    + destruct Hh as (Ht & Hs & Hr). intros [= <- <-].
      assert (total = seen) as -> by (by rewrite Ht, H1, H4, !str_app_nil_r).
      unfold hashes, HashingReader.set_result. cbn. rewrite Hr, Hs. by rewrite H4.
    + destruct Hh as (Ht & Hr). intros [= <- <-]. unfold hashes. cbn. by rewrite H4.
  - destruct (hr_hasher h) as [seen|].
    + destruct Hh as (Ht & Hs & Hr). intros [= <- <-]. unfold hashes. cbn. split; [|done].
      split_and!; [by rewrite Ht, H1, str_app_assoc| |done].
      rewrite Hs, len_app. unfold u_wrap. by rewrite Zplus_mod_idemp_l.
    + destruct Hh as (Ht & Hr). rewrite Ht in H1. by destruct d.
Qed.
End Hashing.

(** ** Bytes as text ([String::from_utf8_lossy]) *)

Definition byte_in (lo hi : N) (a : ascii) : bool := ((lo <=? N_of_ascii a) && (N_of_ascii a <=? hi))%N.
Definition is_cont (a : ascii) : bool := byte_in 128 191 a.

(** The range of the second byte after the first of three, and of four. *)
Definition second_of_3 (a b : ascii) : bool :=
  if byte_in 224 224 a then byte_in 160 191 b
  else if byte_in 237 237 a then byte_in 128 159 b
  else byte_in 225 239 a && is_cont b.
Definition second_of_4 (a b : ascii) : bool :=
  if byte_in 240 240 a then byte_in 144 191 b
  else if byte_in 244 244 a then byte_in 128 143 b
  else byte_in 241 243 a && is_cont b.

(** The encoding of U+FFFD. *)
Definition replacement : string := String "239" (String "191" (String "189" "")).

(** The longest start of a character that breaks off is replaced as one. *)
Fixpoint from_utf8_lossy (s : string) : string :=
  match s with
  | "" => ""
  | String a s1 =>
      if byte_in 0 127 a then String a (from_utf8_lossy s1)
      else
        match s1 with
        | String b s2 =>
            if byte_in 194 223 a && is_cont b then String a (String b (from_utf8_lossy s2))
            else if second_of_3 a b then
              match s2 with
              | String c s3 =>
                  if is_cont c then String a (String b (String c (from_utf8_lossy s3)))
                  else replacement +:+ from_utf8_lossy s2
              | "" => replacement
              end
            else if second_of_4 a b then
              match s2 with
              | String c s3 =>
                  if is_cont c then
                    match s3 with
                    | String d s4 =>
                        if is_cont d then String a (String b (String c (String d (from_utf8_lossy s4))))
                        else replacement +:+ from_utf8_lossy s3
                    | "" => replacement
                    end
                  else replacement +:+ from_utf8_lossy s2
              | "" => replacement
              end
            else replacement +:+ from_utf8_lossy s1
        | "" => replacement
        end
  end.

(** What a Rust string holds: text. *)
Definition is_text (s : string) : bool := bool_decide (from_utf8_lossy s = s).

Lemma ascii_is_text s : str_forall (byte_in 0 127) s = true → is_text s = true.
Proof.
  intros H. apply bool_decide_eq_true. induction s as [|a s IH]; [done|].
  cbn [str_forall] in H. apply andb_true_iff in H as [Ha Hs].
  cbn [from_utf8_lossy]. by rewrite Ha, IH.
Qed.
