(* ===== verification/BinaryCache.v ===== *)
(** * BinaryCache: the client of the S3 bucket ([crates/binary-cache/src/lib.rs],
    [debug_info.rs])

    A bucket maps the paths of objects to their bytes. Each request to the
    service may fail: [s3_error] gives the error of the request with a given
    number. The service, the compressors, the C++ store and the file system
    are the class [CacheEnv]; [Panicked] stands for a panic of the task.
    Streams with [buffered] are processed in their order. *)

From Stdlib Require Import Ascii String.
From S2P Require Import Prelude RustStr Nix NarInfo CacheCfg Stream.
Local Open Scope string_scope.
Local Open Scope list_scope.
Local Open Scope Z_scope.

(** ** State *)

Record Object := mkObject { ob_bytes : string; ob_content_type : string; ob_content_encoding : string }.

(** The objects of a bucket, and the number of answers from outside so far. *)
Record Bucket := mkBucket { bk_objects : gmap string Object; bk_clock : nat }.
#[export] Instance eta_Bucket : Eta Bucket := λ r, mkBucket (bk_objects r) (bk_clock r).
#[export] Instance set_bk_objects : Setter bk_objects := ltac:(mk_setter bk_objects).
#[export] Instance set_bk_clock : Setter bk_clock := ltac:(mk_setter bk_clock).

Record S3Stats := mkS3Stats {
  st_put : Z; st_put_bytes : Z; st_put_time_ms : Z;
  st_get : Z; st_get_bytes : Z; st_get_time_ms : Z; st_head : Z
}.
#[export] Instance eta_S3Stats : Eta S3Stats := λ r,
  mkS3Stats (st_put r) (st_put_bytes r) (st_put_time_ms r) (st_get r) (st_get_bytes r) (st_get_time_ms r) (st_head r).
#[export] Instance set_st_put : Setter st_put := ltac:(mk_setter st_put).
#[export] Instance set_st_put_bytes : Setter st_put_bytes := ltac:(mk_setter st_put_bytes).
#[export] Instance set_st_put_time_ms : Setter st_put_time_ms := ltac:(mk_setter st_put_time_ms).
#[export] Instance set_st_get : Setter st_get := ltac:(mk_setter st_get).
#[export] Instance set_st_get_bytes : Setter st_get_bytes := ltac:(mk_setter st_get_bytes).
#[export] Instance set_st_get_time_ms : Setter st_get_time_ms := ltac:(mk_setter st_get_time_ms).
#[export] Instance set_st_head : Setter st_head := ltac:(mk_setter st_head).

Record S3BinaryCacheClient := mkS3BinaryCacheClient {
  cl_cfg : S3CacheConfig;
  cl_s3_stats : S3Stats;
  cl_signing_keys : list string;
  cl_narinfo_cache : gmap StorePath NarInfo;
  cl_bucket : Bucket
}.
#[export] Instance eta_S3BinaryCacheClient : Eta S3BinaryCacheClient := λ r,
  mkS3BinaryCacheClient (cl_cfg r) (cl_s3_stats r) (cl_signing_keys r) (cl_narinfo_cache r) (cl_bucket r).
#[export] Instance set_cl_s3_stats : Setter cl_s3_stats := ltac:(mk_setter cl_s3_stats).
#[export] Instance set_cl_narinfo_cache : Setter cl_narinfo_cache := ltac:(mk_setter cl_narinfo_cache).
#[export] Instance set_cl_bucket : Setter cl_bucket := ltac:(mk_setter cl_bucket).

Inductive CacheError :=
| ObjectStore (e : string)
| Io (e : string)
| Serde (e : string)
| Signing (e : string)
| NarInfoParseError (e : NarInfoError)
| NixStoreError (e : string)
| ReferenceVerifyError (path reference : StorePath)
| HashingError
| RenderError
| HttpRequestError (e : string)
| UploadError (path reason : string)
| PresignedUrlError (path reason : string)
| RequestCloneError
| PathNotFound (path : string)
| ConfigurationError (message : string)
| Panicked.

Record DrvOutput := mkDrvOutput { do_drv_hash : string; do_output_name : string }.
Definition show_DrvOutput (id : DrvOutput) : string := do_drv_hash id +:+ "!" +:+ do_output_name id.

(** What [std::fs] says of an entry of a directory. *)
Inductive FileType := IsDir | IsFile | IsOther.
Record DirEntry := mkDirEntry { de_file_name : string; de_file_type : result string FileType }.

Record DebugInfoLink := mkDebugInfoLink { dl_archive : string; dl_member : string }.

Class CacheEnv : Type := {
  (** [object_store]: the normal form of a key, the error of a request, a
      signed URL. *)
  object_path : string → string;
  s3_error : nat → option string;
  sign_url : nat → string → Z → result string string;
  (** [async_compression], with the number of cores of a parallel encoder. *)
  encode : Compression → Level → option nat → Reader → Reader;
  (** [moka]: whether a cached entry is still there. *)
  cache_keeps : nat → StorePath → bool;
  elapsed_ms : nat → Z;
  (** The pieces of an archive, and the error that ends it. *)
  nar_from_path : nat → StorePath → list string * option string;
  list_nar_deep : nat → StorePath → result string string;
  static_output_hashes : nat → StorePath → result string (list (string * string));
  FfiRealisation : Type;
  query_raw_realisation : nat → string → result string FfiRealisation;
  realisation_id : FfiRealisation → DrvOutput;
  realisation_json : FfiRealisation → string;
  realisation_sign : string → FfiRealisation → result string FfiRealisation;
  realisation_clear_signatures : FfiRealisation → FfiRealisation;
  path_exists : nat → string → bool;
  read_dir : nat → string → result string (list (result string DirEntry));
  json_link : DebugInfoLink → result string string
}.

(** ** Compression functions ([compression.rs]) *)

Definition content_type (c : Compression) : string := "application/x-nix-nar".
Definition content_encoding (c : Compression) : string := "".

Definition get_compression_fn `{CacheEnv} (c : Compression) (level : Level) (parallel : bool) (r : Reader) : Reader :=
  match c with
  | CNoCompression => r
  | Xz => encode Xz level (if parallel then Some 4%nat else None) r
  | _ => encode c level None r
  end.

(** ** Requests *)

(** An error counts as not there. *)
Definition unwrap_or_default {E} (r : result E bool) : bool := match r with Ok b => b | Err _ => false end.

Abbreviation CM := (M S3BinaryCacheClient CacheError).

Section Env.
Context `{NE : NixEnv} `{SL : SignLib} `{SHA : Sha256Lib} `{CE : CacheEnv}.

(** The number of an answer from outside. *)
Definition tick_bucket : M Bucket CacheError nat := λ b, (Ok (bk_clock b), b <| bk_clock ::= S |>).
Definition tick : CM nat := zoom cl_bucket tick_bucket.

Definition request : M Bucket CacheError unit :=
  n ← tick_bucket; match s3_error n with Some e => throw (ObjectStore e) | None => mret tt end.

Definition put_object (name : string) (o : Object) : M Bucket CacheError unit :=
  modify (λ b, b <| bk_objects ::= <[object_path name := o]> |>).

Definition lookup_object (key : string) (b : Bucket) : option Object := bk_objects b !! object_path key.

(** Counters are atomic 64-bit integers. *)
Definition fetch_add (n : Z) (v : Z) : Z := u64_wrap (v + n).

Definition head_object (key : string) : CM bool :=
  res ← attempt (zoom cl_bucket (request;; gets (lookup_object key)));
  modify (λ c, c <| cl_s3_stats ::= λ st, st <| st_head ::= fetch_add 1 |> |>);;
  o ← lift_result res; mret (bool_decide (is_Some o)).

(** The answer, and then its bytes. *)
Definition get_object (key : string) : CM (option string) :=
  get_result ← zoom cl_bucket (request;; gets (lookup_object key));
  match get_result with
  | None => mret None
  | Some o =>
      zoom cl_bucket request;;
      t ← tick;
      modify (λ c, c <| cl_s3_stats ::= λ st, st <| st_get ::= fetch_add 1 |>
        <| st_get_bytes ::= fetch_add (len (ob_bytes o)) |> <| st_get_time_ms ::= fetch_add (elapsed_ms t) |> |>);;
      mret (Some (ob_bytes o))
  end.

(** ** Uploads *)

Section Upload.
Context {R : Type} `{!AsyncRead R}.

(** The parts of an upload, in order, until a chunk is empty. A turn uploads
    at least one byte or ends the loop. [parts] holds what was uploaded. *)
Fixpoint multipart_loop (fuel : nat) (first_chunk : option string) (buffer_size file_size : Z)
    (parts : string) (stream : R) (b : Bucket) : result CacheError (Z * string) * R * Bucket :=
  match fuel with
  | O => (Ok (file_size, parts), stream, b)
  | S fuel =>
      let '(chunk, stream) :=
        match first_chunk with
        | Some c => (Ok c, stream)
        | None => read_chunk_async buffer_size stream
        end in
      match chunk with
      | Err e => (Err (Io e), stream, b)
      | Ok chunk =>
          let file_size := u64_wrap (file_size + len chunk) in
          if len chunk =? 0 then (Ok (file_size, parts), stream, b)
          else
            match request b with
            | (Err e, b) => (Err e, stream, b)
            | (Ok _, b) => multipart_loop fuel None buffer_size file_size (parts +:+ chunk) stream b
            end
      end
  end.

(** The object is there when the upload is completed. *)
Definition run_multipart_upload (name : string) (attrs : string * string) (first_chunk : string)
    (stream : R) (buffer_size : Z) (b : Bucket) : result CacheError Z * R * Bucket :=
  let fuel := S (S (String.length (contents stream))) in
  match multipart_loop fuel (Some first_chunk) buffer_size 0 "" stream b with
  | (Err e, stream, b) => (Err e, stream, b)
  | (Ok (file_size, parts), stream, b) =>
      let '(res, b) := (request;; put_object name (mkObject parts attrs.1 attrs.2)) b in
      ((λ _, file_size) <$> res, stream, b)
  end.

Definition count_put (elapsed size : Z) (c : S3BinaryCacheClient) : S3BinaryCacheClient :=
  c <| cl_s3_stats ::= λ st, st <| st_put_time_ms ::= fetch_add elapsed |>
    <| st_put ::= fetch_add 1 |> <| st_put_bytes ::= fetch_add size |> |>.

(** An upload in parts that failed is aborted, and its error is logged. *)
Definition after_multipart (res : result CacheError Z) (stream : R) : CM R :=
  match res with
  | Ok file_size => t ← tick; modify (count_put (elapsed_ms t) file_size);; mret stream
  | Err _ => attempt (zoom cl_bucket request);; mret stream
  end.

Definition finish_multipart (name : string) (attrs : string * string) (first_chunk : string) (stream : R)
    (buffer_size : Z) : CM R := λ c,
  let '(res, stream, b) := run_multipart_upload name attrs first_chunk stream buffer_size (cl_bucket c) in
  after_multipart res stream (c <| cl_bucket := b |>).

(** The reader is returned as it is afterwards. *)
Definition upload_file (name : string) (stream : R) (content_type content_encoding : string) : CM R :=
  buffer_size ← gets (λ c, cc_buffer_size (cl_cfg c));
  let '(first, stream) := read_chunk_async buffer_size stream in
  first_chunk ← lift_result (map_err Io first);
  if len first_chunk <? buffer_size then
    zoom cl_bucket (request;; put_object name (mkObject first_chunk content_type content_encoding));;
    t ← tick;
    modify (count_put (elapsed_ms t) (len first_chunk));;
    mret stream
  else
    zoom cl_bucket request;;
    finish_multipart name (content_type, content_encoding) first_chunk stream buffer_size.
End Upload.

Definition has_extension (name ext : string) : bool :=
  match StorePath.path_extension name with
  | Some e => bool_decide (to_ascii_lowercase e = ext)
  | None => false
  end.

(** The compression of an object depends on its name. *)
Definition name_compression (cfg : S3CacheConfig) (name : string) : option Compression :=
  if starts_with "log/" name then Some (cc_log_compression cfg)
  else if has_extension name "ls" then Some (cc_ls_compression cfg)
  else if has_extension name "narinfo" then Some (cc_narinfo_compression cfg)
  else None.

Definition upsert_file_stream (name : string) (stream : Reader) (ct : string) : CM unit :=
  cfg ← gets cl_cfg;
  match name_compression cfg name with
  | Some c =>
      upload_file name
        (get_compression_fn c (S3CacheConfig.get_compression_level cfg) (cc_parallel_compression cfg) stream)
        ct (content_encoding c);; mret tt
  | None => upload_file name stream ct "";; mret tt
  end.

Definition upsert_file (name content ct : string) : CM unit := upsert_file_stream name (cursor content) ct.

Definition upload_listing (path listing : string) : CM unit := upsert_file path listing "application/json".

Definition narinfo_key (path : StorePath) : option string :=
  h ← StorePath.hash_part path; Some (h +:+ ".narinfo").

Definition upload_narinfo (narinfo : NarInfo) : CM string :=
  info_key ← lift_opt Panicked (narinfo_key (ni_store_path narinfo));
  upsert_file info_key (NarInfo.render narinfo) "text/x-nix-narinfo";;
  mret info_key.

(** ** Descriptions of local paths *)

Fixpoint verify_references (store_path : StorePath) (queried : gmap StorePath PathInfo) (refs : list StorePath)
  : result CacheError unit :=
  match refs with
  | [] => Ok tt
  | r :: refs' =>
      if decide (is_Some (queried !! r)) then verify_references store_path queried refs'
      else Err (ReferenceVerifyError store_path r)
  end.

(** The free function, for builders: not compressed and not signed. [q] and
    [q'] are the two queries of the local store. *)
Definition simple_path_to_narinfo (q q' : nat) (path : StorePath) : result CacheError NarInfo :=
  path_info ← ok_or (query_path_info q path) (PathNotFound (StorePath.base_name path));
  narinfo ← ok_or (NarInfo.simple path path_info CNoCompression) Panicked;
  verify_references (ni_store_path narinfo) (query_path_infos q' (ni_references narinfo)) (ni_references narinfo);;
  Ok narinfo.

Definition path_to_narinfo (path : StorePath) : CM NarInfo :=
  q ← tick;
  path_info ← lift_opt (PathNotFound (StorePath.base_name path)) (query_path_info q path);
  cfg ← gets cl_cfg;
  keys ← gets cl_signing_keys;
  narinfo ← lift_opt Panicked (NarInfo.new path path_info (cc_compression cfg) keys);
  q' ← tick;
  lift_result (verify_references (ni_store_path narinfo)
    (query_path_infos q' (ni_references narinfo)) (ni_references narinfo));;
  mret narinfo.

(** ** Downloads *)

Definition download_narinfo (store_path : StorePath) : CM (option NarInfo) :=
  t ← tick;
  cached ← gets (λ c, if cache_keeps t store_path then cl_narinfo_cache c !! store_path else None);
  match cached with
  | Some narinfo => mret (Some narinfo)
  | None =>
      key ← lift_opt Panicked (narinfo_key store_path);
      v ← get_object key;
      match v with
      | Some v =>
          narinfo ← lift_result (map_err NarInfoParseError (NarInfo.from_str (from_utf8_lossy v)));
          modify (λ c, c <| cl_narinfo_cache ::= <[store_path := narinfo]> |>);;
          mret (Some narinfo)
      | None => mret None
      end
  end.

Definition download_nar (nar_url : string) : CM (option string) := get_object nar_url.

Definition has_narinfo (store_path : StorePath) : CM bool :=
  t ← tick;
  contains ← gets (λ c, cache_keeps t store_path && bool_decide (is_Some (cl_narinfo_cache c !! store_path)));
  if contains : bool then mret true
  else n ← download_narinfo store_path; mret (bool_decide (is_Some n)).

Definition realisation_key (id : DrvOutput) : string := "realisations/" +:+ show_DrvOutput id +:+ ".doi".

Definition download_realisation (id : DrvOutput) : CM (option string) :=
  v ← get_object (realisation_key id); mret (from_utf8_lossy <$> v).

Definition has_realisation (id : DrvOutput) : CM bool :=
  r ← download_realisation id; mret (bool_decide (is_Some r)).

(** ** Realisations *)

Fixpoint sign_all (keys : list string) (r : FfiRealisation) : result CacheError FfiRealisation :=
  match keys with
  | [] => Ok r
  | s :: keys' => r ← map_err NixStoreError (realisation_sign s r); sign_all keys' r
  end.

Definition copy_realisation (id : DrvOutput) (repair : bool) : CM unit :=
  skip ← (if repair then mret false else has_realisation id);
  if skip : bool then mret tt
  else
    q ← tick;
    raw ← lift_result (map_err NixStoreError (query_raw_realisation q (show_DrvOutput id)));
    keys ← gets cl_signing_keys;
    raw ← lift_result (sign_all keys raw);
    upsert_file (realisation_key id) (realisation_json raw) "application/json".

Definition upload_realisation (realisation : FfiRealisation) (repair : bool) : CM unit :=
  let id := realisation_id realisation in
  skip ← (if repair then mret false else has_realisation id);
  if skip : bool then mret tt
  else
    keys ← gets cl_signing_keys;
    r ← lift_result (sign_all keys (realisation_clear_signatures realisation));
    upsert_file (realisation_key id) (realisation_json r) "application/json".

(** ** Debug information ([debug_info.rs]) *)

Section DebugInfo.
Context {S : Type} (tick : M S CacheError nat).

Definition is_hex (s : string) : bool := str_forall is_ascii_hexdigit s.

(** A name of two hexadecimal digits, of a directory. *)
Definition is_id_dir (e : DirEntry) : result CacheError bool :=
  if negb (String.length (de_file_name e) =? 2)%nat || negb (is_hex (de_file_name e)) then Ok false
  else (λ t, match t with IsDir => true | _ => false end) <$> map_err Io (de_file_type e).

(** A name of 38 hexadecimal digits and [.debug], of a file. *)
Definition is_id_file (e : DirEntry) : result CacheError bool :=
  let s2 := de_file_name e in
  if (String.length s2 =? 44)%nat && ends_with ".debug" s2 && is_hex (str_take 38 s2)
  then (λ t, match t with IsFile => true | _ => false end) <$> map_err Io (de_file_type e)
  else Ok false.

Definition debug_file (s1 s2 : string) : string * string :=
  (s1 +:+ str_take 38 s2, "lib/debug/.build-id/" +:+ s1 +:+ "/" +:+ s2).

Fixpoint scan_subdir (s1 : string) (entries : list (result string DirEntry)) : result CacheError (list (string * string)) :=
  match entries with
  | [] => Ok []
  | entry :: entries' =>
      e ← map_err Io entry;
      b ← is_id_file e;
      rest ← scan_subdir s1 entries';
      Ok (if b : bool then debug_file s1 (de_file_name e) :: rest else rest)
  end.

Fixpoint scan_build_ids (build_id_path : string) (entries : list (result string DirEntry))
  : M S CacheError (list (string * string)) :=
  match entries with
  | [] => mret []
  | entry :: entries' =>
      e ← lift_result (map_err Io entry);
      b ← lift_result (is_id_dir e);
      if b : bool then
        q ← tick;
        sub ← lift_result (map_err Io (read_dir q (build_id_path +:+ "/" +:+ de_file_name e)));
        files ← lift_result (scan_subdir (de_file_name e) sub);
        rest ← scan_build_ids build_id_path entries';
        mret (files ++ rest)
      else scan_build_ids build_id_path entries'
  end.

Definition find_debug_files (build_id_path : string) : M S CacheError (list (string * string)) :=
  q ← tick;
  entries ← lift_result (map_err Io (read_dir q build_id_path));
  scan_build_ids build_id_path entries.

Definition build_id_path (store_path : StorePath) : string :=
  print_store_path store_path +:+ "/lib/debug/.build-id".

Definition get_debug_info_build_ids (store_path : StorePath) : M S CacheError (list string) :=
  q ← tick;
  if negb (path_exists q (build_id_path store_path)) then mret []
  else files ← find_debug_files (build_id_path store_path); mret files.*1.

(** [create_debug_info_link] is the operation of the trait [DebugInfoClient]:
    the archive, the build id and the path of the file. *)
Definition process_debug_info (create_debug_info_link : string → string → string → M S CacheError unit)
    (nar_url : string) (store_path : StorePath) : M S CacheError unit :=
  q ← tick;
  if negb (path_exists q (build_id_path store_path)) then mret tt
  else
    debug_files ← find_debug_files (build_id_path store_path);
    for_each debug_files (λ f, create_debug_info_link nar_url f.1 f.2).
End DebugInfo.

Definition debug_key (build_id : string) : string := "debuginfo/" +:+ build_id.

Definition create_debug_info_link (nar_url build_id debug_path : string) : CM unit :=
  let key := debug_key build_id in
  there ← head_object key;
  if there : bool then mret tt
  else
    json ← lift_result (map_err Serde (json_link (mkDebugInfoLink ("../" +:+ nar_url) debug_path)));
    upsert_file key json "application/json".

(** ** Copying paths *)

Definition upload_optional (b : bool) (m : CM unit) : CM unit := if b then m else mret tt.

(** The listing of the archive, if it is asked for. *)
Definition copy_listing (narinfo : NarInfo) : CM unit :=
  q ← tick;
  ls ← lift_result (map_err NixStoreError (list_nar_deep q (ni_store_path narinfo)));
  ls_path ← lift_opt Panicked (NarInfo.get_ls_path narinfo);
  upload_listing ls_path ls.

(** The archive, compressed and hashed on the way; an error that ends the
    archive early is not seen. *)
Definition copy_nar (narinfo : NarInfo) : CM NarInfo :=
  cfg ← gets cl_cfg;
  q ← tick;
  let stream := mkReader (nar_from_path q (ni_store_path narinfo)).1 None in
  let compressed_stream :=
    get_compression_fn (ni_compression narinfo) (S3CacheConfig.get_compression_level cfg)
      (cc_parallel_compression cfg) stream in
  hashing_reader ← upload_file (ni_url narinfo) (HashingReader.new compressed_stream)
    (content_type (ni_compression narinfo)) (content_encoding (ni_compression narinfo));
  '(file_hash, file_size) ← lift_opt HashingError (HashingReader.finalize hashing_reader);
  mret (match convert_sha256_nix32 file_hash with
        | Some h => narinfo <| ni_file_hash := Some ("sha256:" +:+ h) |> <| ni_file_size := Some file_size |>
        | None => narinfo
        end).

(** The realisations of the outputs of the deriver. *)
Definition copy_realisations (narinfo : NarInfo) (repair : bool) : CM unit :=
  match ni_deriver narinfo with
  | None => mret tt
  | Some deriver =>
      q ← tick;
      match static_output_hashes q deriver with
      | Err _ => mret tt
      | Ok hashes =>
          for_each hashes (λ '(output_name, drv_hash), copy_realisation (mkDrvOutput drv_hash output_name) repair)
      end
  end.

Definition copy_path (path : StorePath) (repair : bool) : CM unit :=
  skip ← (if repair then mret false else has_narinfo path);
  if skip : bool then mret tt
  else
    narinfo ← path_to_narinfo path;
    cfg ← gets cl_cfg;
    upload_optional (cc_write_nar_listing cfg) (copy_listing narinfo);;
    upload_optional (cc_write_debug_info cfg)
      (process_debug_info tick create_debug_info_link (ni_url narinfo) (ni_store_path narinfo));;
    narinfo ← copy_nar narinfo;
    upload_optional (cc_write_realisation cfg) (copy_realisations narinfo repair);;
    upload_narinfo narinfo;;
    mret tt.

Definition copy_paths (paths : list StorePath) (repair : bool) : CM unit :=
  for_each paths (λ p, copy_path p repair).

(** [unwrap_or_default] of an error; a panic goes on. *)
Definition has_narinfo_or_default (path : StorePath) : CM bool :=
  r ← attempt (has_narinfo path);
  match r with Err Panicked => throw Panicked | r => mret (unwrap_or_default r) end.

Fixpoint query_missing_paths (paths : list StorePath) : CM (list StorePath) :=
  match paths with
  | [] => mret []
  | p :: ps => b ← has_narinfo_or_default p; rest ← query_missing_paths ps; mret (if b : bool then rest else p :: rest)
  end.

Fixpoint query_missing_remote_outputs (outputs : list Output) : CM (list Output) :=
  match outputs with
  | [] => mret []
  | o :: os =>
      match o_path o with
      | None => query_missing_remote_outputs os
      | Some p =>
          b ← has_narinfo_or_default p;
          rest ← query_missing_remote_outputs os;
          mret (if b : bool then rest else o :: rest)
      end
  end.

(** ** Uploads by builders *)

Record PresignedUpload := mkPresignedUpload {
  pu_path : string; pu_url : string; pu_compression : Compression; pu_compression_level : Level }.

Record PresignedUploadResponse := mkPresignedUploadResponse {
  pr_nar_url : string;
  pr_nar_upload : PresignedUpload;
  pr_ls_upload : option PresignedUpload;
  pr_debug_info_upload : list PresignedUpload
}.

Definition signed_url (path : string) : CM (result string string) :=
  n ← tick; cfg ← gets cl_cfg; mret (sign_url n (object_path path) (cc_presigned_url_expiry cfg)).

Fixpoint presign_debug_info (build_ids : list string) : CM (list PresignedUpload) :=
  match build_ids with
  | [] => mret []
  | build_id :: ids =>
      let s3_file_path := debug_key build_id in
      there ← attempt (head_object s3_file_path);
      if unwrap_or_default there then presign_debug_info ids
      else
        url ← signed_url s3_file_path;
        url ← lift_result (map_err ObjectStore url);
        rest ← presign_debug_info ids;
        mret (mkPresignedUpload s3_file_path url CNoCompression DefaultLevel :: rest)
  end.

Definition generate_nar_upload_presigned_url (path : StorePath) (nix32_nar_hash : string)
    (debug_info_build_ids : list string) : CM PresignedUploadResponse :=
  cfg ← gets cl_cfg;
  nar_hash_url ← lift_opt Panicked (NarInfo.nar_hash_url path nix32_nar_hash);
  let nar_url := "nar/" +:+ nar_hash_url +:+ "." +:+ Compression.ext (cc_compression cfg) in
  url ← signed_url nar_url;
  url ← lift_result (map_err (PresignedUrlError (StorePath.base_name path)) url);
  ls_upload ←
    (if cc_write_nar_listing cfg then
       h ← lift_opt Panicked (StorePath.hash_part path);
       let s3_file_path := h +:+ ".ls" in
       u ← signed_url s3_file_path;
       u ← lift_result (map_err (PresignedUrlError s3_file_path) u);
       mret (Some (mkPresignedUpload s3_file_path u (cc_ls_compression cfg) (S3CacheConfig.get_compression_level cfg)))
     else mret None);
  debug_info_upload ←
    (if cc_write_debug_info cfg && negb (bool_decide (debug_info_build_ids = []))
     then presign_debug_info debug_info_build_ids else mret []);
  mret (mkPresignedUploadResponse nar_url
    (mkPresignedUpload nar_url url (cc_compression cfg) (S3CacheConfig.get_compression_level cfg))
    ls_upload debug_info_upload).

(** [head_object(key)?.then_some(()).ok_or(PathNotFound)?] *)
Definition require_object (key : string) : CM unit :=
  there ← head_object key; if there : bool then mret tt else throw (PathNotFound key).

Definition upload_narinfo_after_presigned_upload (narinfo : NarInfo) : CM string :=
  cfg ← gets cl_cfg;
  upload_optional (cc_write_nar_listing cfg)
    (ls_path ← lift_opt Panicked (NarInfo.get_ls_path narinfo); require_object ls_path);;
  require_object (ni_url narinfo);;
  keys ← gets cl_signing_keys;
  narinfo ← lift_opt Panicked (NarInfo.clear_sigs_and_sign keys narinfo);
  upload_narinfo narinfo.

(** A new client, with the contents of the key files. *)
Fixpoint read_keys (read_to_string : string → result string string) (files : list string)
  : result CacheError (list string) :=
  match files with
  | [] => Ok []
  | p :: ps => k ← map_err Io (read_to_string p); ks ← read_keys read_to_string ps; Ok (k :: ks)
  end.

Definition new_client (read_to_string : string → result string string) (build : result string unit)
    (cfg : S3CacheConfig) (b : Bucket) : result CacheError S3BinaryCacheClient :=
  signing_keys ← read_keys read_to_string (cc_secret_key_files cfg);
  map_err ObjectStore build;;
  Ok (mkS3BinaryCacheClient cfg (mkS3Stats 0 0 0 0 0 0 0) signing_keys ∅ b).

End Env.
