(* ===== verification/CacheInv.v ===== *)
(** * CacheInv: what uploads leave in the bucket

    The lemmas follow an upload from the reader to the object. [answers] says
    that the service answers every request; without it, an upload may leave
    the bucket as it was. *)

From Stdlib Require Import Ascii String.
From S2P Require Import Prelude RustStr Nix NarInfo CacheCfg Stream BinaryCache.
Local Open Scope string_scope.
Local Open Scope list_scope.
Local Open Scope Z_scope.

(** What a sequence of reads keeps, and what the end of the stream brings. *)
Definition keeps_reading {R} `{!AsyncRead R} (P Q : R → Prop) : Prop :=
  (∀ cap r, 0 < cap → P r → P (poll_read cap r).2) ∧
  (∀ cap r r', 0 < cap → P r → poll_read cap r = (Ok "", r') → Q r').

Lemma keeps_hashing {R} `{!AsyncRead R} `{!ReadLaws R} `{Sha256Lib} total :
  keeps_reading (λ h : HashingReader R, hashes total h ∧ breaks h = false)
    (λ h, hr_hash_result h = Some (sha256_digest total, u64_wrap (len total))).
Proof.
  split.
  - intros cap h Hcap [Hh Hb]. destruct (poll_read cap h) as [[data|e] h'] eqn:E.
    + cbn [snd]. split; [by eapply hashes_poll|]. apply poll_Ok in E; [|done]. destruct E as (_ & _ & ? & _). congruence.
    + apply poll_Err in E. congruence.
  - intros cap h h' Hcap [Hh _] E. by eapply hashes_poll in E as [_ E]; [apply E| |].
Qed.

Section Env.
Context `{NE : NixEnv} `{SL : SignLib} `{SHA : Sha256Lib} `{CE : CacheEnv}.

Definition answers : Prop := ∀ n, s3_error n = None.

Lemma request_answers b : answers → request b = (Ok tt, b <| bk_clock ::= S |>).
Proof. intros Ha. unfold request, tick_bucket. rewrite bind_run. by rewrite Ha. Qed.

(** A client after an upload: only the bucket and the statistics differ. *)
Definition same_setup (c c' : S3BinaryCacheClient) : Prop :=
  cl_cfg c' = cl_cfg c ∧ cl_signing_keys c' = cl_signing_keys c ∧ cl_narinfo_cache c' = cl_narinfo_cache c.

#[export] Instance same_setup_refl : Reflexive same_setup.
Proof. done. Qed.
#[export] Instance same_setup_trans : Transitive same_setup.
Proof. intros a b c (?&?&?) (?&?&?). split_and!; congruence. Qed.

Section Upload.
Context {R : Type} `{!AsyncRead R} `{!ReadLaws R} (P Q : R → Prop) (HPQ : keeps_reading P Q).

Lemma read_chunk_keeps cap r : P r →
  P (read_chunk_async cap r).2 ∧
  ∀ c r', read_chunk_async cap r = (Ok c, r') → len c < cap → Q r'.
Proof. intros HP. destruct HPQ as [H1 H2]. apply read_chunk_inv; [done|done|done|lia|done]. Qed.

(** The parts are the whole stream, in order. *)
Lemma multipart_loop_spec fuel first bs fs parts r b :
  answers → 0 < bs → breaks r = false → P r → first ≠ Some "" →
  (match first with Some _ => 1 | None => 0 end + String.length (contents r) < fuel)%nat →
  ∃ r' n, multipart_loop fuel first bs (u64_wrap fs) parts r b =
    (Ok (u64_wrap (fs + len (default "" first +:+ contents r)), parts +:+ default "" first +:+ contents r), r',
      b <| bk_clock := n |>) ∧ Q r'.
Proof.
  intros Ha Hbs. revert first fs parts r b. induction fuel as [|fuel IH]; intros first fs parts r b Hb HP Hne Hf; [lia|].
  cbn [multipart_loop].
  assert (∃ chunk r1, (match first with Some c => (Ok c, r) | None => read_chunk_async bs r end) = (Ok chunk, r1) ∧
    default "" first +:+ contents r = chunk +:+ contents r1 ∧ breaks r1 = false ∧ P r1 ∧
    (chunk = "" → contents r1 = "" ∧ Q r1) ∧
    (chunk ≠ "" → String.length (contents r1) < fuel)%nat) as (chunk & r1 & -> & Hc & Hb1 & HP1 & Hend & Hless).
  { destruct first as [c|].
    { exists c, r. split_and!; [done..| |lia]. by intros ->. }
    destruct (read_chunk_async_spec bs r) as (r1 & E & Hd & Hb1); [done|lia|done|].
    exists (take_bytes bs (contents r)), r1. destruct (read_chunk_keeps bs r HP) as [HP1 HQ]. rewrite E in HP1.
    split_and!; [done|by rewrite Hd, take_drop_bytes|done..| |].
    2:{ intros Hn. rewrite <-len_zero in Hn. rewrite Hd. rewrite <-(take_drop_bytes bs (contents r)), str_length_app in Hf.
        unfold len in Hn. lia. }
    intros H0. split.
    - rewrite Hd. pose proof (take_drop_bytes bs (contents r)) as Ht. rewrite H0 in Ht. change ("" +:+ ?x) with x in Ht. rewrite Ht.
      apply len_zero in H0. rewrite len_take_bytes in H0 by lia. apply len_zero.
      pose proof (len_nonneg (contents r)). lia.
    - eapply HQ; [exact E|]. rewrite H0. done. }
  rewrite Hc. destruct (Z.eqb_spec (len chunk) 0) as [H0|H0].
  { apply len_zero in H0. destruct (Hend H0) as [He HQ]. subst chunk. exists r1, (bk_clock b).
    split; [|done]. rewrite He. change (len ("" +:+ "")) with 0. rewrite !str_app_nil_r, !Z.add_0_r.
    unfold u_wrap. rewrite Zmod_mod. by destruct b. }
  rewrite request_answers by done.
  destruct (IH None (fs + len chunk) (parts +:+ chunk) r1 (b <| bk_clock ::= S |>)) as (r' & n & IHr & HQ); [done..| |].
  { cbn. apply Hless. by rewrite <-len_zero. }
  exists r', n. split; [|done]. unfold u_wrap in *. rewrite Zplus_mod_idemp_l, IHr. cbn [default].
  change ("" +:+ contents r1) with (contents r1). by rewrite str_app_assoc, len_app, Z.add_assoc.
Qed.

(** An upload to a service that answers makes the object of the bytes of the
    stream, and reads the stream to its end. *)
Lemma upload_file_spec name r ct ce c :
  answers → 0 < cc_buffer_size (cl_cfg c) → breaks r = false → P r →
  ∃ r' c', upload_file name r ct ce c = (Ok r', c') ∧ Q r' ∧ same_setup c c' ∧
    bk_objects (cl_bucket c') = <[object_path name := mkObject (contents r) ct ce]> (bk_objects (cl_bucket c)).
Proof.
  intros Ha Hbs Hb HP. unfold upload_file. rewrite bind_run. cbn [gets].
  set (bs := cc_buffer_size (cl_cfg c)) in *.
  destruct (read_chunk_async_spec bs r) as (r1 & E & Hd & Hb1); [done|lia|done|].
  destruct (read_chunk_keeps bs r HP) as [HP1 HQ1]. rewrite E in *. cbn [snd] in HP1.
  pose proof (take_drop_bytes bs (contents r)) as Ht. pose proof (len_nonneg (contents r)).
  cbn [map_err]. rewrite bind_run. cbn [lift_result].
  destruct (Z.ltb_spec (len (take_bytes bs (contents r))) bs) as [Hl|Hl].
  - rewrite bind_run. unfold zoom at 1. rewrite bind_run, request_answers by done. cbn.
    eexists _, _. split; [reflexivity|]. split; [by eapply HQ1|]. split; [done|]. cbn.
    rewrite len_take_bytes in Hl by lia. unfold take_bytes, len in *. rewrite Z.min_r by lia.
    rewrite Nat2Z.id. do 2 f_equal. clear. induction (contents r) as [|a s IH]; [done|]. cbn. by rewrite IH.
  - rewrite bind_run. unfold zoom at 1. rewrite request_answers by done. cbn [fst snd].
    unfold finish_multipart, run_multipart_upload.
    destruct (multipart_loop_spec (S (S (String.length (contents r1)))) (Some (take_bytes bs (contents r))) bs 0 ""
      r1 ((cl_bucket c) <| bk_clock ::= S |>)) as (r' & n & Hm & HQ); [done..| |lia|].
    { intros [= E0]. rewrite E0 in Hl. change (len "") with 0 in Hl. lia. }
    change (default "" (Some ?x)) with x in Hm. change ("" +:+ ?x) with x in Hm. 
    change (u64_wrap 0) with 0 in Hm. cbn [cl_bucket upd set_cl_bucket].
    rewrite Hm, Hd, Ht. rewrite bind_run, request_answers by done. cbn.
    eexists _, _. split; [reflexivity|]. by split_and!.
Qed.
End Upload.

(** Reading a chunk of a stream that breaks or not keeps what reads keep. *)
Lemma keeps_nothing {R} `{!AsyncRead R} : keeps_reading (λ _ : R, True) (λ _, True).
Proof. done. Qed.

(** ** Objects are never removed *)

(** Descriptions that are cached are in the bucket. *)
Definition known (c : S3BinaryCacheClient) : Prop :=
  ∀ p key, is_Some (cl_narinfo_cache c !! p) → narinfo_key p = Some key →
    object_path key ∈ dom (bk_objects (cl_bucket c)).

(** What no operation of a client changes: its configuration, that there are
    objects at certain paths and, where it is asked for, that cached
    descriptions are there. *)
Record Kept := mkKept { kp_cfg : S3CacheConfig; kp_objects : gset string; kp_known : bool }.
Definition holds_objects (X : Kept) (c : S3BinaryCacheClient) : Prop :=
  cl_cfg c = kp_cfg X ∧ kp_objects X ⊆ dom (bk_objects (cl_bucket c)) ∧ (kp_known X = true → known c).
Definition bucket_holds (X : gset string) (b : Bucket) : Prop := X ⊆ dom (bk_objects b).

(** The bucket grows, the rest stays. *)
Lemma holds_grow X c c' : holds_objects X c → cl_cfg c' = cl_cfg c → cl_narinfo_cache c' = cl_narinfo_cache c →
  dom (bk_objects (cl_bucket c)) ⊆ dom (bk_objects (cl_bucket c')) → holds_objects X c'.
Proof.
  intros (H1 & H2 & H3) Hc Hn Hd. split_and!; [congruence|by etrans|]. intros Hk p key. rewrite Hn. intros Hp Hkey.
  apply Hd. by eapply H3.
Qed.

Lemma zoom_holds {A} X (m : M Bucket CacheError A) :
  (∀ Y, preserves (bucket_holds Y) m) → preserves (holds_objects X) (zoom cl_bucket m).
Proof.
  intros Hm c Hc. unfold zoom. specialize (Hm (dom (bk_objects (cl_bucket c))) (cl_bucket c)).
  destruct (m (cl_bucket c)) as [r b]. apply (holds_grow _ c); [done|done|done|].
  apply Hm. unfold bucket_holds. done.
Qed.

Lemma tick_bucket_holds X : preserves (bucket_holds X) tick_bucket.
Proof. by intros b. Qed.
Lemma tick_holds X : preserves (holds_objects X) tick.
Proof. apply zoom_holds, tick_bucket_holds. Qed.
Lemma throw_holds {S E A} (P : S → Prop) (e : E) : preserves P (throw e : M S E A).
Proof. by intros s. Qed.
Lemma request_holds X : preserves (bucket_holds X) request.
Proof.
  apply preserves_bind; [apply tick_bucket_holds|]. intros n. case_match; [apply throw_holds|apply preserves_ret].
Qed.
Lemma put_object_holds X name o : preserves (bucket_holds X) (put_object name o).
Proof. intros b Hb. unfold bucket_holds in *. cbn. rewrite dom_insert_L. set_solver. Qed.
Lemma modify_holds X f :
  (∀ c, cl_bucket (f c) = cl_bucket c ∧ cl_cfg (f c) = cl_cfg c ∧ cl_narinfo_cache (f c) = cl_narinfo_cache c) →
  preserves (holds_objects X) (modify f : CM unit).
Proof. intros Hf c Hc. destruct (Hf c) as (Hb & Hg & Hn). apply (holds_grow _ c); cbn; [done|done|done|]. by rewrite Hb. Qed.

Create HintDb holds.
#[local] Hint Resolve zoom_holds tick_bucket_holds tick_holds throw_holds request_holds put_object_holds
  preserves_ret preserves_gets preserves_lift preserves_attempt : holds.
#[local] Hint Extern 2 (preserves (holds_objects _) (modify _)) => apply modify_holds; done : holds.
#[local] Hint Extern 1 (preserves _ (lift_opt _ _)) => apply preserves_lift : holds.

(** A computation made of operations that remove nothing. *)
Ltac holds :=
  repeat first
    [ progress auto with holds | apply preserves_bind; [|intros ?] | apply preserves_for_each; intros ? _
    | apply zoom_holds; intros ? | apply preserves_attempt | case_match | case_decide ].

Lemma head_object_holds X key : preserves (holds_objects X) (head_object key).
Proof. unfold head_object. holds. Qed.
Lemma get_object_holds X key : preserves (holds_objects X) (get_object key).
Proof. unfold get_object. holds. Qed.

Lemma multipart_holds {R} `{!AsyncRead R} X fuel first bs fs parts (r : R) b :
  bucket_holds X b → bucket_holds X (multipart_loop fuel first bs fs parts r b).2.
Proof.
  revert first fs parts r b. induction fuel as [|fuel IH]; intros first fs parts r b Hb; [done|].
  cbn [multipart_loop]. pose proof (request_holds X b Hb) as Hr.
  destruct (match first with Some _ => _ | None => _ end) as [[chunk|e] r1]; [|done].
  case_match; [done|]. destruct (request b) as [[u|e] b1]; [by apply IH|done].
Qed.

Lemma run_multipart_holds {R} `{!AsyncRead R} X name attrs first (r : R) bs b :
  bucket_holds X b → bucket_holds X (run_multipart_upload name attrs first r bs b).2.
Proof.
  intros Hb. unfold run_multipart_upload.
  pose proof (multipart_holds X (S (S (String.length (contents r)))) (Some first) bs 0 "" r b Hb) as Hm.
  destruct (multipart_loop _ _ _ _ _ _ _) as [[[[fs parts]|e] r'] b1]; [|done]. cbn [snd] in Hm.
  assert (preserves (bucket_holds X) (request;; put_object name (mkObject parts attrs.1 attrs.2))) as Hp by holds.
  specialize (Hp b1 Hm). by destruct ((request;; put_object _ _) b1).
Qed.

Lemma finish_multipart_holds {R} `{!AsyncRead R} X name attrs first (r : R) bs :
  preserves (holds_objects X) (finish_multipart name attrs first r bs).
Proof.
  intros c Hc. unfold finish_multipart.
  pose proof (run_multipart_holds (dom (bk_objects (cl_bucket c))) name attrs first r bs (cl_bucket c)) as Hm.
  destruct (run_multipart_upload _ _ _ _ _ _) as [[res r'] b].
  assert (preserves (holds_objects X) (after_multipart res r')) as Ha by (unfold after_multipart; holds).
  apply Ha, (holds_grow _ c); [done|done|done|]. apply Hm. unfold bucket_holds. done.
Qed.

Lemma upload_file_holds {R} `{!AsyncRead R} X name (r : R) ct ce : preserves (holds_objects X) (upload_file name r ct ce).
Proof.
  unfold upload_file. apply preserves_bind; [holds|]. intros bs. destruct (read_chunk_async bs r) as [first r'].
  apply preserves_bind; [holds|]. intros chunk. case_match; [holds|].
  apply preserves_bind; [holds|]. intros _. apply finish_multipart_holds.
Qed.
#[local] Hint Resolve head_object_holds get_object_holds upload_file_holds : holds.

Lemma upsert_stream_holds X name r ct : preserves (holds_objects X) (upsert_file_stream name r ct).
Proof. unfold upsert_file_stream. holds. Qed.
Lemma upsert_file_holds X name content ct : preserves (holds_objects X) (upsert_file name content ct).
Proof. apply upsert_stream_holds. Qed.
#[local] Hint Resolve upsert_file_holds : holds.

Lemma get_object_Some key c v c' : get_object key c = (Ok (Some v), c') →
  object_path key ∈ dom (bk_objects (cl_bucket c')).
Proof.
  unfold get_object. intros (o & c1 & H1 & H)%bind_Ok. destruct o as [o|]; [|done].
  assert (object_path key ∈ dom (bk_objects (cl_bucket c1))) as Hk.
  { revert H1. unfold zoom, request, tick_bucket. rewrite bind_run, bind_run. destruct (s3_error _); [done|]. cbn.
    intros [= Ho <-]. cbn. apply elem_of_dom. by exists o. }
  apply bind_Ok in H as (? & c2 & H2 & (? & c3 & H3 & (? & c4 & H4 & [= _ <-])%bind_Ok)%bind_Ok).
  injection H4 as _ <-. injection H3 as _ <-. revert H2. unfold zoom, request, tick_bucket. rewrite bind_run.
  destruct (s3_error _); [done|]. by intros [= _ <-].
Qed.

Lemma download_narinfo_holds X p : preserves (holds_objects X) (download_narinfo p).
Proof.
  unfold download_narinfo. apply preserves_bind; [holds|intros t]. apply preserves_bind; [holds|intros cached].
  case_match; [holds|]. destruct (narinfo_key p) as [key|] eqn:Hkey; [|by intros c].
  intros c Hc. rewrite bind_run. cbn [lift_opt ok_or lift_result]. rewrite bind_run.
  pose proof (get_object_holds X key c Hc) as H1.
  destruct (get_object key c) as [[[v|]|e] c1] eqn:E; [|done..]. apply get_object_Some in E. rewrite bind_run.
  destruct (NarInfo.from_str _) as [n|e]; [|done]. destruct H1 as (Hc1 & Ho & Hk).
  change (holds_objects X (c1 <| cl_narinfo_cache ::= <[p := n]> |>)). split_and!; [done..|].
  intros Hkn q key' Hq Hkey'. cbn in *. apply lookup_insert_is_Some in Hq as [<-|[_ Hq]]; [|by eapply Hk].
  assert (key' = key) as -> by congruence. done.
Qed.
#[local] Hint Resolve download_narinfo_holds : holds.
Lemma has_narinfo_holds X p : preserves (holds_objects X) (has_narinfo p).
Proof. unfold has_narinfo. holds. Qed.
Lemma has_realisation_holds X id : preserves (holds_objects X) (has_realisation id).
Proof. unfold has_realisation, download_realisation. holds. Qed.
Lemma upload_narinfo_holds X n : preserves (holds_objects X) (upload_narinfo n).
Proof. unfold upload_narinfo. holds. Qed.
#[local] Hint Resolve has_narinfo_holds has_realisation_holds upload_narinfo_holds : holds.

Lemma path_to_narinfo_holds X p : preserves (holds_objects X) (path_to_narinfo p).
Proof. unfold path_to_narinfo. holds. Qed.
Lemma copy_realisation_holds X id repair : preserves (holds_objects X) (copy_realisation id repair).
Proof. unfold copy_realisation. holds. Qed.
Lemma upload_realisation_holds X r repair : preserves (holds_objects X) (upload_realisation r repair).
Proof. unfold upload_realisation. holds. Qed.
Lemma create_link_holds X u i d : preserves (holds_objects X) (create_debug_info_link u i d).
Proof. unfold create_debug_info_link. holds. Qed.
#[local] Hint Resolve path_to_narinfo_holds copy_realisation_holds upload_realisation_holds create_link_holds : holds.

Lemma scan_build_ids_holds X path l : preserves (holds_objects X) (scan_build_ids tick path l).
Proof. induction l as [|e l IH]; cbn [scan_build_ids]; holds. Qed.
#[local] Hint Resolve scan_build_ids_holds : holds.
Lemma process_debug_info_holds X u p : preserves (holds_objects X) (process_debug_info tick create_debug_info_link u p).
Proof. unfold process_debug_info, find_debug_files. holds. Qed.
#[local] Hint Resolve process_debug_info_holds : holds.

Lemma copy_nar_holds X n : preserves (holds_objects X) (copy_nar n).
Proof. unfold copy_nar. holds. Qed.
Lemma copy_listing_holds X n : preserves (holds_objects X) (copy_listing n).
Proof. unfold copy_listing, upload_listing. holds. Qed.
Lemma copy_realisations_holds X n r : preserves (holds_objects X) (copy_realisations n r).
Proof. unfold copy_realisations. holds. Qed.
#[local] Hint Resolve copy_nar_holds copy_listing_holds copy_realisations_holds : holds.
Lemma copy_path_holds X p r : preserves (holds_objects X) (copy_path p r).
Proof. unfold copy_path, upload_optional. holds. Qed.

(** The configuration stays. *)
Lemma preserves_cfg {A} (m : CM A) c r c' : (∀ X, preserves (holds_objects X) m) → m c = (r, c') → cl_cfg c' = cl_cfg c.
Proof.
  intros Hm E. specialize (Hm (mkKept (cl_cfg c) ∅ false) c). rewrite E in Hm. by apply Hm.
Qed.
Lemma preserves_known {A} (m : CM A) c r c' : (∀ X, preserves (holds_objects X) m) → m c = (r, c') → known c → known c'.
Proof.
  intros Hm E Hk. specialize (Hm (mkKept (cl_cfg c) ∅ true) c). rewrite E in Hm. by apply Hm.
Qed.

(** Every object that is there stays there. *)
Lemma preserves_lookup {A} (m : CM A) key c r c' : (∀ X, preserves (holds_objects X) m) → m c = (r, c') →
  is_Some (lookup_object key (cl_bucket c)) → is_Some (lookup_object key (cl_bucket c')).
Proof.
  intros Hm E Hk. specialize (Hm (mkKept (cl_cfg c) {[object_path key]} false) c). rewrite E in Hm.
  unfold holds_objects in Hm. cbn in Hm. rewrite !singleton_subseteq_l, !elem_of_dom in Hm. by apply Hm.
Qed.

(** ** What a client knows of the bucket *)

(** The description of a path that the bucket holds and that can be read. *)
Definition published (b : Bucket) (p : StorePath) : option NarInfo :=
  key ← narinfo_key p; o ← lookup_object key b; ok (NarInfo.from_str (from_utf8_lossy (ob_bytes o))).

(** What is cached was read from the bucket. *)
Definition cache_sound (c : S3BinaryCacheClient) : Prop :=
  ∀ p n, cl_narinfo_cache c !! p = Some n → is_Some (published (cl_bucket c) p).

(** A client after a query: the bucket has the same objects. *)
Definition only_read (c c' : S3BinaryCacheClient) : Prop :=
  cl_cfg c' = cl_cfg c ∧ cl_signing_keys c' = cl_signing_keys c ∧
  bk_objects (cl_bucket c') = bk_objects (cl_bucket c).

#[export] Instance only_read_refl : Reflexive only_read.
Proof. done. Qed.
#[export] Instance only_read_trans : Transitive only_read.
Proof. intros a b c (?&?&?) (?&?&?). split_and!; congruence. Qed.

Lemma published_only_read c c' p : only_read c c' → published (cl_bucket c') p = published (cl_bucket c) p.
Proof. intros (_&_&H). unfold published, lookup_object. by rewrite H. Qed.

Lemma get_object_answers key c : answers →
  ∃ c', get_object key c = (Ok (ob_bytes <$> lookup_object key (cl_bucket c)), c') ∧
    only_read c c' ∧ cl_narinfo_cache c' = cl_narinfo_cache c.
Proof.
  intros Ha. unfold get_object. rewrite bind_run. unfold zoom at 1. rewrite bind_run, request_answers by done.
  cbn [gets]. change (lookup_object key ((cl_bucket c) <| bk_clock ::= S |>)) with (lookup_object key (cl_bucket c)).
  destruct (lookup_object key (cl_bucket c)) as [o|]; [|by eexists].
  rewrite bind_run. unfold zoom at 1. rewrite request_answers by done. by eexists.
Qed.

Lemma download_narinfo_answers p key c : answers → cache_sound c → narinfo_key p = Some key →
  ∃ r c', download_narinfo p c = (r, c') ∧ r ≠ Err Panicked ∧ only_read c c' ∧ cache_sound c' ∧
    ((∃ n, r = Ok (Some n)) ↔ is_Some (published (cl_bucket c) p)).
Proof.
  intros Ha Hs Hk. unfold download_narinfo. rewrite bind_run. unfold tick at 1, zoom at 1. cbn [tick_bucket].
  rewrite bind_run. cbn [gets]. set (c1 := c <| cl_bucket := _ |>).
  assert (only_read c c1) as H1 by done. assert (cache_sound c1) as Hs1.
  { intros q n Hq. rewrite (published_only_read c) by done. by eapply Hs. }
  destruct (if cache_keeps _ _ then _ else _) as [n|] eqn:Hc.
  { eexists _, c1. split_and!; [done..|]. split; [|by eauto]. intros _.
    destruct (cache_keeps _ _); [|done]. by eapply Hs. }
  rewrite bind_run, Hk. cbn [lift_opt ok_or lift_result]. rewrite bind_run.
  destruct (get_object_answers key c1 Ha) as (c2 & -> & H2 & Hc2).
  assert (cache_sound c2) as Hs2.
  { intros q n Hq. rewrite (published_only_read c1) by done. rewrite Hc2 in Hq. by eapply Hs1. }
  unfold published. rewrite Hk. cbn [mbind option_bind].
  change (lookup_object key (cl_bucket c1)) with (lookup_object key (cl_bucket c)).
  destruct (lookup_object key (cl_bucket c)) as [o|] eqn:Ho; cbn [fmap option_fmap option_map mbind option_bind].
  2:{ eexists _, c2. split_and!; [done|done|by etrans|done|]. split; [by intros [? ?]|by intros [? ?]]. }
  destruct (NarInfo.from_str _) as [n|e] eqn:Hn; rewrite bind_run; cbn.
  2:{ eexists _, c2. split_and!; [done|done|by etrans|done|]. split; [by intros [? ?]|by intros [? ?]]. }
  eexists _, _. split_and!; [done|done|by etrans| |].
  - intros q m. cbn. intros [[-> ->]|[? Hq]]%lookup_insert_Some; [|by eapply Hs2].
    rewrite (published_only_read c) by (by etrans). unfold published. rewrite Hk.
    cbn [mbind option_bind]. rewrite Ho. cbn [mbind option_bind]. by rewrite Hn.
  - by split; eauto.
Qed.

Lemma has_narinfo_answers p key c : answers → cache_sound c → narinfo_key p = Some key →
  ∃ c', has_narinfo_or_default p c = (Ok (bool_decide (is_Some (published (cl_bucket c) p))), c') ∧
    only_read c c' ∧ cache_sound c'.
Proof.
  intros Ha Hs Hk. unfold has_narinfo_or_default, has_narinfo. rewrite bind_run. unfold attempt. rewrite bind_run.
  unfold tick at 1, zoom at 1. cbn [tick_bucket]. rewrite bind_run. cbn [gets]. set (c1 := c <| cl_bucket := _ |>).
  assert (only_read c c1) as H1 by done. assert (cache_sound c1) as Hs1.
  { intros q n Hq. rewrite (published_only_read c) by done. by eapply Hs. }
  destruct (_ && _) eqn:Hc.
  { apply andb_true_iff in Hc as [_ [n Hc]%bool_decide_eq_true]. exists c1.
    rewrite bool_decide_true by (by eapply Hs). done. }
  rewrite bind_run. destruct (download_narinfo_answers p key c1 Ha Hs1 Hk) as (r & c2 & -> & Hp & H2 & Hs2 & Hr).
  exists c2. rewrite (published_only_read c) in Hr by done.
  split_and!; [|by etrans|done]. destruct r as [[n|]|e]; cbn.
  - by rewrite bool_decide_true by naive_solver.
  - by rewrite bool_decide_false by naive_solver.
  - destruct e; try done; cbn; by rewrite bool_decide_false by naive_solver.
Qed.

(** ** Copying a path *)

(** The client after an answer from outside. *)
Definition ticked (c : S3BinaryCacheClient) : S3BinaryCacheClient := c <| cl_bucket ::= λ b, b <| bk_clock ::= S |> |>.

Lemma bind_tick {A} (f : nat → CM A) c : (tick ≫= f) c = f (bk_clock (cl_bucket c)) (ticked c).
Proof. done. Qed.
Lemma bind_gets {A B} (g : S3BinaryCacheClient → A) (f : A → CM B) c : (gets g ≫= f) c = f (g c) c.
Proof. done. Qed.
Lemma bind_lift_Ok {A B} (a : A) (f : A → CM B) c : (lift_result (Ok a) ≫= f) c = f a c.
Proof. done. Qed.
Lemma bind_lift_Some {A B} (a : A) e (f : A → CM B) c : (lift_opt e (Some a) ≫= f) c = f a c.
Proof. done. Qed.

(** The client goes on with the objects [objs]. *)
Definition goes_on (c : S3BinaryCacheClient) (objs : gmap string Object) (c' : S3BinaryCacheClient) : Prop :=
  same_setup c c' ∧ bk_objects (cl_bucket c') = objs.

Lemma goes_on_trans c objs c1 objs' c2 : goes_on c objs c1 → goes_on c1 objs' c2 → goes_on c objs' c2.
Proof. intros [? ?] [? ?]. split; [by etrans|done]. Qed.

(** The encoders do not break a stream that does not break. *)
Definition encoders_keep : Prop := ∀ comp level cores r, breaks r = false → breaks (encode comp level cores r) = false.

Lemma compression_fn_keeps comp level parallel r : encoders_keep → breaks r = false →
  breaks (get_compression_fn comp level parallel r) = false.
Proof. intros He Hr. destruct comp; [done|by apply He..]. Qed.

(** The bytes of a text that is uploaded under a name. *)
Definition text_bytes (cfg : S3CacheConfig) (name content : string) : string :=
  match name_compression cfg name with
  | Some comp => contents (get_compression_fn comp (S3CacheConfig.get_compression_level cfg)
                             (cc_parallel_compression cfg) (cursor content))
  | None => content
  end.

Lemma upsert_file_spec name content ct c : answers → encoders_keep → 0 < cc_buffer_size (cl_cfg c) →
  ∃ c', upsert_file name content ct c = (Ok tt, c') ∧
    goes_on c (<[object_path name := mkObject (text_bytes (cl_cfg c) name content) ct ""]> (bk_objects (cl_bucket c))) c'.
Proof.
  intros Ha He Hb. unfold upsert_file, upsert_file_stream, text_bytes. rewrite bind_run. cbn [gets].
  destruct (name_compression _ _) as [comp|]; rewrite bind_run.
  - destruct (upload_file_spec _ _ keeps_nothing name (get_compression_fn comp
      (S3CacheConfig.get_compression_level (cl_cfg c)) (cc_parallel_compression (cl_cfg c)) (cursor content)) ct
      (content_encoding comp) c) as (r & c' & -> & _ & Hs & Ho); [done..|by apply compression_fn_keeps|done|].
    by exists c'.
  - destruct (upload_file_spec _ _ keeps_nothing name (cursor content) ct "" c) as (r & c' & -> & _ & Hs & Ho); [done..|].
    by exists c'.
Qed.

(** The bytes of the archive as they are uploaded, for a local store whose
    archives do not change. *)
Definition nar_bytes (cfg : S3CacheConfig) (comp : Compression) (pieces : list string) : string :=
  contents (get_compression_fn comp (S3CacheConfig.get_compression_level cfg)
              (cc_parallel_compression cfg) (mkReader pieces None)).

(** What is recorded about the uploaded file. *)
Definition with_file (bytes : string) (n : NarInfo) : NarInfo :=
  match convert_sha256_nix32 (sha256_digest bytes) with
  | Some h => n <| ni_file_hash := Some ("sha256:" +:+ h) |> <| ni_file_size := Some (u64_wrap (len bytes)) |>
  | None => n
  end.

Lemma copy_nar_spec n pieces c : answers → encoders_keep → 0 < cc_buffer_size (cl_cfg c) →
  (∀ q, (nar_from_path q (ni_store_path n)).1 = pieces) →
  let bytes := nar_bytes (cl_cfg c) (ni_compression n) pieces in
  ∃ c', copy_nar n c = (Ok (with_file bytes n), c') ∧
    goes_on c (<[object_path (ni_url n) := mkObject bytes "application/x-nix-nar" ""]> (bk_objects (cl_bucket c))) c'.
Proof.
  intros Ha He Hb Hp bytes. unfold copy_nar. rewrite bind_run. cbn [gets]. rewrite bind_run.
  unfold tick at 1, zoom at 1. cbn [tick_bucket]. set (c1 := c <| cl_bucket := _ |>). rewrite Hp, bind_run.
  set (r := get_compression_fn _ _ _ _).
  assert (breaks r = false) as Hr by (by apply compression_fn_keeps).
  destruct (upload_file_spec _ _ (keeps_hashing (R := Reader) (contents r)) (ni_url n) (HashingReader.new r)
    (content_type (ni_compression n)) (content_encoding (ni_compression n)) c1)
    as (h & c2 & -> & Hh & Hs & Ho); [done..|split; [apply hashes_new|done]|].
  rewrite bind_run. unfold HashingReader.finalize. rewrite Hh. cbn [lift_opt ok_or lift_result].
  exists c2. split; [|by split]. unfold with_file. subst bytes. unfold nar_bytes. fold r. by case_match.
Qed.

Lemma new_fields path info comp keys n : NarInfo.new path info comp keys = Some n →
  ni_store_path n = path ∧ ni_references n = pi_refs info ∧ ni_compression n = comp.
Proof.
  unfold NarInfo.new, NarInfo.simple. intros (n0 & H0 & H1)%bind_Some.
  apply bind_Some in H0 as (url & _ & [= <-]). apply bind_Some in H1 as (n1 & H1 & [= <-]).
  assert (ni_store_path n1 = path ∧ ni_references n1 = pi_refs info ∧ ni_compression n1 = comp) as Hf.
  { unfold NarInfo.clear_sigs_and_sign in H1. case_decide; [by injection H1 as <-|].
    apply bind_Some in H1 as (fp & _ & [= <-]). by destruct fp. }
  by case_match.
Qed.

Lemma query_path_infos_some q refs r : r ∈ refs → is_Some (query_path_info q r) → is_Some (query_path_infos q refs !! r).
Proof.
  intros Hr Hq. unfold query_path_infos.
  assert (∀ m, r ∈ refs ∨ is_Some (m !! r) → is_Some (foldl (λ (m : gmap StorePath PathInfo) p,
    match query_path_info q p with Some info => <[p := info]> m | None => m end) m refs !! r)) as H; [|by apply H; left].
  clear Hr. induction refs as [|p refs IH]; intros m [Hr|Hr]; cbn [foldl]; [by apply not_elem_of_nil in Hr|done|..].
  - apply elem_of_cons in Hr as [->|Hr]; apply IH; [right|by left].
    destruct Hq as [info ->]. by rewrite lookup_insert_eq.
  - apply IH. right. case_match; [|done]. destruct (decide (p = r)) as [->|]; [by rewrite lookup_insert_eq|].
    by rewrite lookup_insert_ne.
Qed.

Lemma verify_references_ok path m refs : (∀ r, r ∈ refs → is_Some (m !! r)) → verify_references path m refs = Ok tt.
Proof.
  induction refs as [|r refs IH]; intros H; cbn; [done|]. rewrite decide_True by (apply H; left).
  apply IH. intros r' Hr'. apply H. by right.
Qed.

(** A path that can be copied by a client: the local store knows it and its
    references and does not change, the name has a hash, and the listing and
    the debug information, when they are wanted, are no obstacle. *)
Record copyable (c : S3BinaryCacheClient) (path : StorePath) (info : PathInfo) (pieces : list string) (n : NarInfo)
    (key : string) : Prop := {
  cp_info q : query_path_info q path = Some info;
  cp_refs q r : r ∈ pi_refs info → is_Some (query_path_info q r);
  cp_pieces q : (nar_from_path q path).1 = pieces;
  cp_narinfo : NarInfo.new path info (cc_compression (cl_cfg c)) (cl_signing_keys c) = Some n;
  cp_key : narinfo_key path = Some key;
  cp_listing : cc_write_nar_listing (cl_cfg c) = true → ∃ ls, ∀ q, list_nar_deep q path = Ok ls;
  cp_debug q : cc_write_debug_info (cl_cfg c) = true → path_exists q (build_id_path path) = false;
  cp_buffer : 0 < cc_buffer_size (cl_cfg c);
  cp_realisation : cc_write_realisation (cl_cfg c) = false
}.

Lemma copyable_same c c' path info pieces n key : same_setup c c' →
  copyable c path info pieces n key → copyable c' path info pieces n key.
Proof. intros (Hcfg & Hkeys & _) []. by split; rewrite ?Hcfg, ?Hkeys. Qed.

Lemma path_to_narinfo_spec c path info pieces n key : copyable c path info pieces n key →
  ∃ c', path_to_narinfo path c = (Ok n, c') ∧ goes_on c (bk_objects (cl_bucket c)) c'.
Proof.
  intros H. pose proof (new_fields _ _ _ _ _ (cp_narinfo _ _ _ _ _ _ H)) as (_ & Hr & _).
  unfold path_to_narinfo. rewrite bind_tick, (cp_info _ _ _ _ _ _ H), bind_lift_Some, !bind_gets.
  rewrite (cp_narinfo _ _ _ _ _ _ H : NarInfo.new path info (cc_compression (cl_cfg (ticked c)))
    (cl_signing_keys (ticked c)) = Some n), bind_lift_Some, bind_tick.
  rewrite verify_references_ok; [by eexists|].
  intros r Hin. apply query_path_infos_some; [done|]. eapply cp_refs; [exact H|]. by rewrite <-Hr.
Qed.

(** The path is not known to be in the bucket, or is to be replaced. *)
Definition to_copy (repair : bool) (c : S3BinaryCacheClient) (path : StorePath) (key : string) : Prop :=
  repair = true ∨ (lookup_object key (cl_bucket c) = None ∧ cl_narinfo_cache c !! path = None).

Lemma skip_check repair c path key : answers → narinfo_key path = Some key → to_copy repair c path key →
  ∃ c', (if repair then mret false else has_narinfo path) c = (Ok false, c') ∧ goes_on c (bk_objects (cl_bucket c)) c'.
Proof.
  intros Ha Hk [->|[Ho Hc]]; [by exists c|]. destruct repair; [by exists c|].
  unfold has_narinfo, download_narinfo. rewrite bind_tick, bind_gets.
  assert (cl_narinfo_cache (ticked c) !! path = None) as Hc' by done. rewrite Hc', bool_decide_false by (by intros []).
  rewrite andb_false_r, bind_run, bind_tick, bind_gets.
  change (cl_narinfo_cache (ticked (ticked c))) with (cl_narinfo_cache c). rewrite Hc.
  replace (if cache_keeps _ path then None else None) with (@None NarInfo) by (by case_match).
  rewrite Hk, bind_lift_Some, bind_run.
  destruct (get_object_answers key (ticked (ticked c)) Ha) as (c' & -> & (H1 & H2 & H3) & H4).
  change (lookup_object key (cl_bucket (ticked (ticked c)))) with (lookup_object key (cl_bucket c)). rewrite Ho.
  by exists c'.
Qed.

Lemma copy_listing_spec c path info pieces n key : answers → encoders_keep → copyable c path info pieces n key →
  ∃ objs c', upload_optional (cc_write_nar_listing (cl_cfg c)) (copy_listing n) c = (Ok tt, c') ∧ goes_on c objs c'.
Proof.
  intros Ha He H. unfold upload_optional. destruct (cc_write_nar_listing (cl_cfg c)) eqn:E; [|by eexists _, c].
  destruct (cp_listing _ _ _ _ _ _ H E) as [ls Hls].
  pose proof (new_fields _ _ _ _ _ (cp_narinfo _ _ _ _ _ _ H)) as (Hp & _ & _).
  unfold copy_listing, NarInfo.get_ls_path, upload_listing. rewrite bind_tick, Hp, Hls. cbn [map_err]. rewrite bind_lift_Ok.
  pose proof (cp_key _ _ _ _ _ _ H) as Hk. unfold narinfo_key in Hk.
  destruct (StorePath.hash_part path) as [h|]; [|done]. cbn [mbind option_bind]. rewrite bind_lift_Some.
  destruct (upsert_file_spec (h +:+ ".ls") ls "application/json" (ticked c)) as (c' & -> & Hc'); [done..|apply (cp_buffer _ _ _ _ _ _ H)|].
  by exists (<[object_path (h +:+ ".ls") := mkObject (text_bytes (cl_cfg (ticked c)) (h +:+ ".ls") ls) "application/json" ""]>
    (bk_objects (cl_bucket (ticked c)))), c'.
Qed.

Lemma copy_debug_spec c path info pieces n key c1 objs : copyable c path info pieces n key → goes_on c objs c1 →
  ∃ c', upload_optional (cc_write_debug_info (cl_cfg c))
    (process_debug_info tick create_debug_info_link (ni_url n) (ni_store_path n)) c1 = (Ok tt, c') ∧ goes_on c objs c'.
Proof.
  intros H Hc1. unfold upload_optional. destruct (cc_write_debug_info (cl_cfg c)) eqn:E; [|by exists c1].
  pose proof (new_fields _ _ _ _ _ (cp_narinfo _ _ _ _ _ _ H)) as (Hp & _ & _).
  unfold process_debug_info. rewrite Hp, bind_tick, (cp_debug _ _ _ _ _ _ H) by done. by exists (ticked c1).
Qed.

Lemma upload_narinfo_spec c n key : answers → encoders_keep → 0 < cc_buffer_size (cl_cfg c) →
  narinfo_key (ni_store_path n) = Some key →
  ∃ c', upload_narinfo n c = (Ok key, c') ∧
    goes_on c (<[object_path key := mkObject (text_bytes (cl_cfg c) key (NarInfo.render n)) "text/x-nix-narinfo" ""]>
      (bk_objects (cl_bucket c))) c'.
Proof.
  intros Ha He Hb Hk. unfold upload_narinfo. rewrite Hk, bind_lift_Some, bind_run.
  destruct (upsert_file_spec key (NarInfo.render n) "text/x-nix-narinfo" c) as (c' & -> & Hc'); [done..|]. by exists c'.
Qed.

(** ** What a copy leaves behind, when it succeeds *)

Lemma has_narinfo_true p key c c' : known c → narinfo_key p = Some key → has_narinfo p c = (Ok true, c') →
  is_Some (lookup_object key (cl_bucket c')).
Proof.
  intros Hk Hkey. unfold has_narinfo, download_narinfo. rewrite bind_tick, bind_gets.
  set (c1 := ticked c). assert (known c1) as Hk1 by done. clearbody c1.
  destruct (cache_keeps _ p && _) eqn:E.
  { intros [= <-]. apply andb_true_iff in E as [_ E%bool_decide_eq_true]. apply elem_of_dom. by eapply Hk1. }
  rewrite bind_run, bind_tick, bind_gets. set (c2 := ticked c1). assert (known c2) as Hk2 by done. clearbody c2.
  destruct (if cache_keeps _ p then _ else _) as [n|] eqn:Ec.
  { intros [= <-]. case_match; [|done]. apply elem_of_dom. eapply Hk2; [by eexists|done]. }
  rewrite Hkey, bind_lift_Some, bind_run. destruct (get_object key c2) as [[[v|]|e] c3] eqn:Eg; [|done..].
  apply get_object_Some in Eg. rewrite bind_run. destruct (NarInfo.from_str _); [|done]. intros [= <-].
  by apply elem_of_dom.
Qed.

Lemma path_to_narinfo_path p c n c' : path_to_narinfo p c = (Ok n, c') → ni_store_path n = p.
Proof.
  unfold path_to_narinfo. rewrite bind_tick. intros (info & c1 & _ & H)%bind_Ok.
  rewrite !bind_gets in H. apply bind_Ok in H as (n' & c2 & Hn & H). unfold lift_opt in Hn.
  destruct (NarInfo.new _ _ _ _) as [n0|] eqn:E; [|done]. injection Hn as -> ->. apply new_fields in E as (Hp & _).
  apply bind_Ok in H as (q & c3 & _ & (? & c4 & _ & [= -> _])%bind_Ok). done.
Qed.

Lemma copy_nar_path n c n' c' : copy_nar n c = (Ok n', c') → ni_store_path n' = ni_store_path n.
Proof.
  unfold copy_nar. rewrite bind_gets, bind_tick. intros (r & c1 & _ & ([h s] & c2 & _ & [= <- _])%bind_Ok)%bind_Ok.
  by case_match.
Qed.

Lemma upload_optional_holds X b m : preserves (holds_objects X) m → preserves (holds_objects X) (upload_optional b m).
Proof. intros Hm. destruct b; [done|apply preserves_ret]. Qed.

Lemma copy_path_described p key repair c c' : answers → encoders_keep → 0 < cc_buffer_size (cl_cfg c) → known c →
  narinfo_key p = Some key → copy_path p repair c = (Ok tt, c') → is_Some (lookup_object key (cl_bucket c')).
Proof.
  intros Ha He Hb Hk Hkey. unfold copy_path. intros (skip & c1 & Hs & H)%bind_Ok.
  destruct skip. { injection H as <-. destruct repair; [done|]. by eapply has_narinfo_true. }
  assert (cl_cfg c1 = cl_cfg c) as Hc1.
  { destruct repair; [by injection Hs as <-|]. eapply preserves_cfg; [|exact Hs]. intros X. apply has_narinfo_holds. }
  apply bind_Ok in H as (n & c2 & Hn & H). rewrite bind_gets in H.
  apply path_to_narinfo_path in Hn as Hp.
  assert (cl_cfg c2 = cl_cfg c1) as Hc2 by (eapply preserves_cfg; [|exact Hn]; intros X; apply path_to_narinfo_holds).
  apply bind_Ok in H as (u & c3 & H3 & (u' & c4 & H4 & (n' & c5 & H5 & (u'' & c6 & H6 & (k & c7 & H7 & [= <-])%bind_Ok)%bind_Ok)%bind_Ok)%bind_Ok).
  assert (cl_cfg c6 = cl_cfg c2) as Hc6.
  { etrans; [eapply preserves_cfg; [|exact H6]; intros X; apply upload_optional_holds; holds|].
    etrans; [eapply preserves_cfg; [|exact H5]; intros X; holds|].
    etrans; [eapply preserves_cfg; [|exact H4]; intros X; apply upload_optional_holds; holds|].
    eapply preserves_cfg; [|exact H3]. intros X. apply upload_optional_holds. holds. }
  apply copy_nar_path in H5 as Hp'.
  destruct (upload_narinfo_spec c6 n' key Ha He) as (c8 & E & _ & Ho); [by rewrite Hc6, Hc2, Hc1|by rewrite Hp', Hp|].
  rewrite E in H7. injection H7 as _ <-. unfold lookup_object. rewrite Ho, lookup_insert_eq. by eexists.
Qed.

Lemma copy_paths_holds X ps r : preserves (holds_objects X) (copy_paths ps r).
Proof. unfold copy_paths. apply preserves_for_each. intros p _. apply copy_path_holds. Qed.

Lemma copy_paths_described ps repair c c' : answers → encoders_keep → 0 < cc_buffer_size (cl_cfg c) → known c →
  copy_paths ps repair c = (Ok tt, c') →
  ∀ p key, p ∈ ps → narinfo_key p = Some key → is_Some (lookup_object key (cl_bucket c')).
Proof.
  intros Ha He. unfold copy_paths. revert c. induction ps as [|p ps IH]; intros c Hb Hk; [by intros _ q k ?%not_elem_of_nil|].
  cbn [for_each]. intros ([] & c1 & H1 & H)%bind_Ok q key Hq Hkey.
  assert (cl_cfg c1 = cl_cfg c) as Hc1 by (eapply preserves_cfg; [|exact H1]; intros X; apply copy_path_holds).
  assert (known c1) as Hk1 by (eapply preserves_known; [|exact H1|done]; intros X; apply copy_path_holds).
  apply elem_of_cons in Hq as [->|Hq]; [|apply (IH c1) with q; rewrite ?Hc1; done].
  eapply preserves_lookup; [intros X; apply copy_paths_holds|exact H|]. by eapply copy_path_described.
Qed.

Lemma with_file_path bytes n : ni_store_path (with_file bytes n) = ni_store_path n.
Proof. unfold with_file. by case_match. Qed.

(** Texts are uploaded as they are. *)
Definition plain_texts (cfg : S3CacheConfig) : bool :=
  bool_decide (cc_log_compression cfg = CNoCompression) && bool_decide (cc_ls_compression cfg = CNoCompression) &&
  bool_decide (cc_narinfo_compression cfg = CNoCompression).

Lemma text_bytes_plain cfg name content : plain_texts cfg = true → text_bytes cfg name content = content.
Proof.
  unfold plain_texts, text_bytes, name_compression. intros [[H1 H2]%andb_true_iff H3]%andb_true_iff.
  apply bool_decide_eq_true in H1, H2, H3. rewrite H1, H2, H3. by repeat case_match; simplify_eq.
Qed.

Lemma published_render c n key : narinfo_key (ni_store_path n) = Some key →
  (ob_bytes <$> lookup_object key (cl_bucket c)) = Some (NarInfo.render n) →
  writable n = true → is_text (NarInfo.render n) = true →
  published (cl_bucket c) (ni_store_path n) = Some n.
Proof.
  intros Hk (o & Ho & Hr)%fmap_Some Hw Ht%bool_decide_eq_true. unfold published. rewrite Hk. cbn [mbind option_bind].
  rewrite Ho. cbn [mbind option_bind]. rewrite <-Hr, Ht. by rewrite from_str_render.
Qed.
(** The uploads of a copy: the listing perhaps, the archive, the description. *)
Lemma copy_path_run c path info pieces n key repair :
  answers → encoders_keep → copyable c path info pieces n key → to_copy repair c path key →
  let bytes := nar_bytes (cl_cfg c) (cc_compression (cl_cfg c)) pieces in
  let n' := with_file bytes n in
  ∃ c', copy_path path repair c = (Ok tt, c') ∧ ∃ objs, goes_on c (
    <[object_path key := mkObject (text_bytes (cl_cfg c) key (NarInfo.render n')) "text/x-nix-narinfo" ""]>
      (<[object_path (ni_url n) := mkObject bytes "application/x-nix-nar" ""]> objs)) c'.
Proof.
  intros Ha He H Hc bytes n'.
  pose proof (new_fields _ _ _ _ _ (cp_narinfo _ _ _ _ _ _ H)) as (Hp & _ & Hcomp).
  pose proof (cp_key _ _ _ _ _ _ H) as Hk.
  unfold copy_path. rewrite bind_run. destruct (skip_check repair c path key) as (c1 & -> & H1); [done..|].
  assert (copyable c1 path info pieces n key) as Hcp1 by (eapply copyable_same; [apply H1|done]).
  rewrite bind_run. destruct (path_to_narinfo_spec c1 path info pieces n key Hcp1) as (c2 & -> & H2).
  pose proof (goes_on_trans _ _ _ _ _ H1 H2) as H12. clear H1 H2 Hcp1.
  assert (copyable c2 path info pieces n key) as Hcp2 by (eapply copyable_same; [apply H12|done]).
  assert (cl_cfg c2 = cl_cfg c) as Hcfg2 by apply H12.
  rewrite bind_gets, bind_run.
  destruct (copy_listing_spec c2 path info pieces n key Ha He Hcp2) as (objs & c3 & -> & H3).
  rewrite bind_run. destruct (copy_debug_spec c2 path info pieces n key c3 objs Hcp2 H3) as (c4 & -> & H4).
  assert (cl_cfg c4 = cl_cfg c) as Hcfg4 by (rewrite <-Hcfg2; apply H4).
  rewrite bind_run. destruct (copy_nar_spec n pieces c4) as (c5 & -> & H5); [done..| |rewrite Hp; apply (cp_pieces _ _ _ _ _ _ H)|].
  { rewrite Hcfg4. apply (cp_buffer _ _ _ _ _ _ H). }
  rewrite bind_run, (cp_realisation _ _ _ _ _ _ Hcp2). cbn [upload_optional mret M_ret].
  rewrite Hcomp, Hcfg4 in *. fold bytes in H5. fold n' in H5 |- *.
  assert (cl_cfg c5 = cl_cfg c) as Hcfg5 by (rewrite <-Hcfg4; apply H5).
  rewrite bind_run. destruct (upload_narinfo_spec c5 n' key) as (c6 & Hu & H6); [done..| | |].
  { rewrite Hcfg5. apply (cp_buffer _ _ _ _ _ _ H). }
  { unfold n'. by rewrite with_file_path, Hp. }
  fold bytes. fold n'. rewrite Hu. rewrite Hcfg5 in H6. exists c6. split; [done|]. exists objs.
  destruct H12 as [S12 _], H4 as [S4 O4], H5 as [S5 O5], H6 as [S6 O6]. split.
  - etrans; [exact S12|]. etrans; [exact S4|]. by etrans.
  - by rewrite O6, O5, O4.
Qed.
(** ** Checks before the description of an archive a builder uploaded *)

Lemma head_object_true key c c' : head_object key c = (Ok true, c') → is_Some (lookup_object key (cl_bucket c')).
Proof.
  unfold head_object. rewrite bind_run. unfold attempt, zoom, request, tick_bucket. rewrite bind_run, bind_run.
  destruct (s3_error _); cbn; [done|]. intros [= Hb <-]. by apply bool_decide_eq_true in Hb.
Qed.

Lemma require_object_Ok key c c' : require_object key c = (Ok tt, c') → is_Some (lookup_object key (cl_bucket c')).
Proof. intros ([] & c1 & H1 & H2)%bind_Ok; [|done]. injection H2 as <-. by apply head_object_true in H1. Qed.

Lemma require_object_holds X key : preserves (holds_objects X) (require_object key).
Proof. unfold require_object. holds. Qed.

(** ** Uploads that fail *)

(** The first part is refused, and so are the abort and all that follows. *)
Lemma multipart_refused {R} `{!AsyncRead R} fuel first bs fs parts (r : R) b e :
  s3_error (bk_clock b) = Some e → first ≠ "" → fuel ≠ O →
  multipart_loop fuel (Some first) bs fs parts r b = (Err (ObjectStore e), r, b <| bk_clock ::= S |>).
Proof.
  intros He Hf Hn. destruct fuel as [|fuel]; [done|]. cbn [multipart_loop].
  destruct (Z.eqb_spec (len first) 0) as [H0|_]; [by apply len_zero in H0|].
  unfold request, tick_bucket. rewrite bind_run. by rewrite He.
Qed.
(** ** Names of debug information *)

(** A build id of 40 hexadecimal digits and the path of its file. *)
Definition debug_name (f : string * string) : Prop :=
  String.length f.1 = 40%nat ∧ is_hex f.1 = true ∧
  f.2 = "lib/debug/.build-id/" +:+ str_take 2 f.1 +:+ "/" +:+ str_drop 2 f.1 +:+ ".debug".

Lemma str_take_app n s t : String.length s = n → str_take n (s +:+ t) = s ∧ str_drop n (s +:+ t) = t.
Proof.
  intros <-. induction s as [|a s [IH1 IH2]]; [by destruct t|].
  change (String a s +:+ t) with (String a (s +:+ t)). cbn. by rewrite IH1, IH2.
Qed.

Lemma debug_file_name s1 s2 : String.length s1 = 2%nat → is_hex s1 = true →
  String.length s2 = 44%nat → ends_with ".debug" s2 = true → is_hex (str_take 38 s2) = true →
  debug_name (debug_file s1 s2).
Proof.
  intros Hl1 Hh1 Hl2 He Hh2.
  assert (∃ t, s2 = t +:+ ".debug") as [t ->].
  { unfold ends_with, starts_with in He. apply bool_decide_eq_true in He as [r Hr%strip_prefix_Some].
    exists (str_rev "" r). rewrite <-(str_rev_involutive s2), Hr, str_rev_app. done. }
  assert (String.length t = 38%nat) as Ht by (rewrite str_length_app in Hl2; cbn in Hl2; lia).
  destruct (str_take_app 38 t ".debug" Ht) as [Hta _]. unfold debug_file, debug_name. cbn [fst snd]. rewrite Hta in *.
  destruct (str_take_app 2 s1 t Hl1) as [-> ->]. split_and!.
  - rewrite str_length_app. lia.
  - unfold is_hex in *. by rewrite str_forall_app, Hh1, Hh2.
  - done.
Qed.

Lemma scan_subdir_names s1 entries l : String.length s1 = 2%nat → is_hex s1 = true →
  scan_subdir s1 entries = Ok l → Forall debug_name l.
Proof.
  intros H1 H2. revert l. induction entries as [|e entries IH]; intros l; cbn [scan_subdir]; [by intros [= <-]|].
  intros (en & _ & (b & Hb & (rest & Hr & [= <-])%bind_Ok_inv)%bind_Ok_inv)%bind_Ok_inv.
  destruct b; [|by apply IH]. constructor; [|by apply IH]. unfold is_id_file in Hb.
  destruct (_ && _ && _) eqn:E; [|done]. apply andb_true_iff in E as [[E1%Nat.eqb_eq E2]%andb_true_iff E3].
  by apply debug_file_name.
Qed.

Lemma scan_build_ids_names {S} (tick : M S CacheError nat) path entries s l s' :
  scan_build_ids tick path entries s = (Ok l, s') → Forall debug_name l.
Proof.
  revert s l s'. induction entries as [|e entries IH]; intros s l s'; cbn [scan_build_ids]; [by intros [= <- _]|].
  intros (en & s1 & _ & (b & s2 & Hb & H)%bind_Ok)%bind_Ok. destruct b; [|by eapply IH].
  apply bind_Ok in H as (q & s3 & _ & (sub & s4 & _ & (files & s5 & Hf & (rest & s6 & Hr & [= <- _])%bind_Ok)%bind_Ok)%bind_Ok).
  apply Forall_app. split; [|by eapply IH]. injection Hb as Hb <-. unfold is_id_dir in Hb.
  destruct (_ || _) eqn:E; [done|]. apply orb_false_iff in E as [E1%negb_false_iff%Nat.eqb_eq E2%negb_false_iff].
  injection Hf as Hf <-. by eapply scan_subdir_names.
Qed.
End Env.

Section Claims.
Context `{NE : NixEnv} `{SL : SignLib} `{SHA : Sha256Lib} `{CE : CacheEnv}.

(** C18: with a service that answers, copying a path puts the compressed
    archive under its URL and the description, with the hash and the size of
    the bytes that were uploaded, under the name of the path; uncompressed,
    the description is read back from the bucket. *)
Theorem copy_path_publishes c path info pieces n key repair :
  answers → encoders_keep → copyable c path info pieces n key → to_copy repair c path key →
  object_path (ni_url n) ≠ object_path key →
  let bytes := nar_bytes (cl_cfg c) (cc_compression (cl_cfg c)) pieces in
  let n' := with_file bytes n in
  ∃ c', copy_path path repair c = (Ok tt, c') ∧
    lookup_object (ni_url n) (cl_bucket c') = Some (mkObject bytes "application/x-nix-nar" "") ∧
    lookup_object key (cl_bucket c') =
      Some (mkObject (text_bytes (cl_cfg c) key (NarInfo.render n')) "text/x-nix-narinfo" "") ∧
    (plain_texts (cl_cfg c) = true → writable n' = true → is_text (NarInfo.render n') = true →
     published (cl_bucket c') path = Some n').
Proof.
  intros Ha He H Hc Hne bytes n'.
  pose proof (new_fields _ _ _ _ _ (cp_narinfo _ _ _ _ _ _ H)) as (Hp & _ & Hcomp).
  pose proof (cp_key _ _ _ _ _ _ H) as Hk.
  destruct (copy_path_run c path info pieces n key repair Ha He H Hc) as (c' & -> & objs & Hs & Ho).
  fold bytes in Ho. fold n' in Ho.
  exists c'. split; [done|].
  assert (lookup_object key (cl_bucket c') =
    Some (mkObject (text_bytes (cl_cfg c) key (NarInfo.render n')) "text/x-nix-narinfo" "")) as Hkey.
  { unfold lookup_object. by rewrite Ho, lookup_insert_eq. }
  split_and!; [|done|].
  - unfold lookup_object. by rewrite Ho, lookup_insert_ne, lookup_insert_eq.
  - intros Hpl Hw Ht. rewrite <-Hp, <-(with_file_path bytes n). apply (published_render _ _ key).
    + by rewrite with_file_path, Hp.
    + by rewrite Hkey, text_bytes_plain.
    + done.
    + done.
Qed.
(** The description of an archive that a builder says it uploaded is
    published only when the archive is in the bucket, and the listing too when
    listings are kept, whatever requests fail. *)
Theorem narinfo_needs_archive n c key c' :
  upload_narinfo_after_presigned_upload n c = (Ok key, c') →
  is_Some (lookup_object (ni_url n) (cl_bucket c')) ∧
  (cc_write_nar_listing (cl_cfg c) = true →
   ∃ ls, NarInfo.get_ls_path n = Some ls ∧ is_Some (lookup_object ls (cl_bucket c'))).
Proof.
  unfold upload_narinfo_after_presigned_upload. rewrite bind_gets.
  intros ([] & c1 & H1 & ([] & c2 & H2 & H3)%bind_Ok)%bind_Ok.
  assert (∀ k, is_Some (lookup_object k (cl_bucket c2)) → is_Some (lookup_object k (cl_bucket c'))) as Hstay.
  { intros k. eapply preserves_lookup; [|exact H3]. intros X.
    apply preserves_bind; [apply preserves_gets|intros keys].
    apply preserves_bind; [apply preserves_lift|intros m]. apply upload_narinfo_holds. }
  apply require_object_Ok in H2 as Hu. split; [by apply Hstay|]. intros Hl. rewrite Hl in H1. cbn in H1.
  apply bind_Ok in H1 as (ls & c3 & Hls & H1). exists ls. unfold lift_opt in Hls.
  destruct (NarInfo.get_ls_path n) as [ls'|]; [|done]. injection Hls as -> ->. split; [done|].
  apply Hstay. apply require_object_Ok in H1. revert H1. eapply preserves_lookup; [|exact H2].
  intros X. apply require_object_holds.
Qed.

(** With a service that answers, the paths reported missing are exactly
    those without a description in the bucket that can be read, in order; the
    bucket is not changed, and what is cached still was read from it. *)
Theorem query_missing_paths_exact ps c :
  answers → cache_sound c → Forall (λ p, is_Some (narinfo_key p)) ps →
  ∃ c', query_missing_paths ps c = (Ok (filter (λ p, published (cl_bucket c) p = None) ps), c') ∧
    only_read c c' ∧ cache_sound c'.
Proof.
  intros Ha. revert c. induction ps as [|p ps IH]; intros c Hs Hk; [by exists c|].
  apply Forall_cons in Hk as [[key Hk] Hks]. cbn [query_missing_paths]. rewrite bind_run.
  destruct (has_narinfo_answers p key c Ha Hs Hk) as (c1 & -> & H1 & Hs1). rewrite bind_run.
  destruct (IH c1 Hs1 Hks) as (c2 & -> & H2 & Hs2). exists c2. split_and!; [|by etrans|done]. cbn [mret M_ret].
  rewrite filter_cons. assert (only_read c c1) as H1' by done.
  assert (filter (λ q, published (cl_bucket c1) q = None) ps = filter (λ q, published (cl_bucket c) q = None) ps) as ->.
  { apply list_filter_iff. intros q. by rewrite (published_only_read c c1). }
  destruct (published (cl_bucket c) p) as [n|]; [by rewrite bool_decide_true, decide_False|].
  rewrite (bool_decide_false (is_Some None)) by (by intros []). by rewrite decide_True.
Qed.

(** An upload in parts that the service refuses is reported as done: the
    call returns without an error and the bucket has the same objects. *)
Theorem refused_multipart_is_reported_done {R} `{!AsyncRead R} `{!ReadLaws R} name (r : R) ct ce c :
  0 < cc_buffer_size (cl_cfg c) ≤ len (contents r) → breaks r = false →
  s3_error (bk_clock (cl_bucket c)) = None → is_Some (s3_error (S (bk_clock (cl_bucket c)))) →
  ∃ r' c', upload_file name r ct ce c = (Ok r', c') ∧
    bk_objects (cl_bucket c') = bk_objects (cl_bucket c) ∧ cl_s3_stats c' = cl_s3_stats c.
Proof.
  intros Hb Hr H0 [e H1]. unfold upload_file. rewrite bind_gets. set (bs := cc_buffer_size (cl_cfg c)) in *.
  destruct (read_chunk_async_spec bs r) as (r1 & -> & _ & _); [done|lia|done|]. cbn [map_err]. rewrite bind_lift_Ok.
  assert (len (take_bytes bs (contents r)) = bs) as Hl by (rewrite len_take_bytes; lia).
  destruct (Z.ltb_spec (len (take_bytes bs (contents r))) bs) as [?|_]; [lia|].
  rewrite bind_run. unfold zoom at 1, request at 1, tick_bucket at 1. rewrite bind_run, H0. cbn [mret M_ret].
  unfold finish_multipart, run_multipart_upload. rewrite (multipart_refused _ _ _ _ _ _ _ e); [|done| |done].
  2:{ intros E. rewrite E in Hl. change (len "") with 0 in Hl. lia. }
  unfold after_multipart. rewrite bind_run. unfold attempt, zoom, request, tick_bucket. rewrite bind_run.
  match goal with |- context [match s3_error ?n with _ => _ end] => destruct (s3_error n) end;
    by eexists r1, _.
Qed.

(** A description in the bucket that cannot be read stops every later copy
    of the path that is not a repair. *)
Theorem unreadable_narinfo_blocks path key o e c :
  answers → narinfo_key path = Some key → lookup_object key (cl_bucket c) = Some o →
  cl_narinfo_cache c !! path = None → NarInfo.from_str (from_utf8_lossy (ob_bytes o)) = Err e →
  (copy_path path false c).1 = Err (NarInfoParseError e).
Proof.
  intros Ha Hk Ho Hc He. unfold copy_path. rewrite bind_run. unfold has_narinfo, download_narinfo.
  rewrite bind_tick, bind_gets. change (cl_narinfo_cache (ticked c)) with (cl_narinfo_cache c).
  rewrite Hc, bool_decide_false, andb_false_r by (by intros []). rewrite bind_run, bind_tick, bind_gets.
  change (cl_narinfo_cache (ticked (ticked c))) with (cl_narinfo_cache c). rewrite Hc.
  replace (if cache_keeps _ path then None else None) with (@None NarInfo) by (by case_match).
  rewrite Hk, bind_lift_Some, bind_run.
  destruct (get_object_answers key (ticked (ticked c)) Ha) as (c' & -> & _).
  change (lookup_object key (cl_bucket (ticked (ticked c)))) with (lookup_object key (cl_bucket c)). rewrite Ho.
  cbn [fmap option_fmap option_map]. by rewrite He.
Qed.

(** A build id found in a store path has 40 hexadecimal digits, and its
    file lies where debuggers look for it: the first two digits name the
    directory, the others the file. *)
Theorem debug_files_named {S} (tick : M S CacheError nat) path s l s' :
  find_debug_files tick path s = (Ok l, s') → Forall debug_name l.
Proof.
  unfold find_debug_files. intros (q & s1 & _ & (entries & s2 & _ & H)%bind_Ok)%bind_Ok.
  by eapply scan_build_ids_names.
Qed.
End Claims.
