(* ===== verification/CacheRefine.v ===== *)
(** * CacheRefine: the binary cache as a map of descriptions

    Seen from outside, a cache is a catalogue: the descriptions of paths, by
    the name of their object. Whatever a client does, and whatever the service
    refuses meanwhile, the catalogue only changes by whole descriptions being
    entered, one after the other ([publish]); archives, listings, realisations
    and links of debug information are beside it. *)

From Stdlib Require Import Ascii String.
From S2P Require Import NarInfo CacheCfg Stream BinaryCache.
From S2P Require Import Prelude RustStr Nix CacheInv.
Local Open Scope string_scope.
Local Open Scope list_scope.
Local Open Scope Z_scope.

(** [object_store::path::Path]: the normal form of a key keeps its end, unless
    that is a slash. *)
Class KeyLaws `{CacheEnv} : Prop := {
  object_path_suffix name : ends_with "/" name = false →
    ends_with ".narinfo" (object_path name) = ends_with ".narinfo" name
}.

(** Names of objects that are not descriptions. *)
Definition beside (name : string) : bool := negb (ends_with "/" name) && negb (ends_with ".narinfo" name).

(** A suffix whose last letter decides. *)
Lemma beside_app a s : (match str_rev "" s with String z _ => negb (Ascii.eqb z "/") && negb (Ascii.eqb z "o") | "" => false end) = true →
  beside (a +:+ s) = true.
Proof.
  unfold beside, ends_with, starts_with. rewrite str_rev_app. destruct (str_rev "" s) as [|z t]; [done|].
  intros [H1%negb_true_iff H2%negb_true_iff]%andb_true_iff. change (String z t +:+ str_rev "" a) with (String z (t +:+ str_rev "" a)).
  apply andb_true_iff. split; apply negb_true_iff, bool_decide_eq_false; intros [x Hx]; cbn [str_rev strip_prefix] in Hx;
    [rewrite Ascii.eqb_sym, H1 in Hx|rewrite Ascii.eqb_sym, H2 in Hx]; done.
Qed.

Section Catalogue.
Context `{NE : NixEnv} `{SL : SignLib} `{SHA : Sha256Lib} `{CE : CacheEnv} `{KL : !KeyLaws}.

Definition catalogue (objects : gmap string Object) : gmap string Object :=
  filter (λ kv, ends_with ".narinfo" kv.1 = true) objects.
Definition catalogue_of (c : S3BinaryCacheClient) : gmap string Object := catalogue (bk_objects (cl_bucket c)).

(** The object of a description. *)
Definition description (cfg : S3CacheConfig) (key : string) (n : NarInfo) : Object :=
  mkObject (text_bytes cfg key (NarInfo.render n)) "text/x-nix-narinfo" "".

(** The step of the catalogue: a description out of [source] is entered, for
    the path that it describes. *)
Definition publish (cfg : S3CacheConfig) (source : NarInfo → Prop) (m m' : gmap string Object) : Prop :=
  ∃ n key, source n ∧ narinfo_key (ni_store_path n) = Some key ∧ m' = <[object_path key := description cfg key n]> m.

Lemma catalogue_beside name o objects : beside name = true →
  catalogue (<[object_path name := o]> objects) = catalogue objects.
Proof using KL.
  intros [H1%negb_true_iff H2%negb_true_iff]%andb_true_iff. unfold catalogue.
  assert (ends_with ".narinfo" (object_path name) = false) as Hs by by rewrite object_path_suffix.
  apply map_eq. intros k. destruct (decide (k = object_path name)) as [->|Hk].
  - rewrite !(proj2 (map_lookup_filter_None _ _ _)); [done|right; intros x _; cbn; congruence..].
  - apply option_eq. intros x. rewrite !map_lookup_filter_Some. by rewrite lookup_insert_ne.
Qed.

Lemma catalogue_narinfo h o objects : ends_with "/" (h +:+ ".narinfo") = false →
  catalogue (<[object_path (h +:+ ".narinfo") := o]> objects) = <[object_path (h +:+ ".narinfo") := o]> (catalogue objects).
Proof using KL.
  intros H. unfold catalogue. apply map_filter_insert_True. cbn. rewrite object_path_suffix by done.
  apply bool_decide_eq_true. rewrite str_rev_app, strip_prefix_app. by eexists.
Qed.

Lemma narinfo_key_narinfo p key : narinfo_key p = Some key →
  ∃ h, key = h +:+ ".narinfo" ∧ ends_with "/" key = false.
Proof.
  unfold narinfo_key. destruct (StorePath.hash_part p) as [h|]; [|done]. intros [= <-]. exists h. split; [done|].
  unfold ends_with, starts_with. apply bool_decide_eq_false. rewrite str_rev_app. by intros [x Hx].
Qed.

Lemma request_still b : bk_objects (request b).2 = bk_objects b.
Proof. unfold request, tick_bucket. rewrite bind_run. by case_match. Qed.

(** ** Uploads *)

Section Upload.
Context {R : Type} `{!AsyncRead R} `{!ReadLaws R}.

(** Parts are not in the bucket; when the loop ends well they are the whole
    stream. *)
Lemma multipart_loop_still fuel first bs fs parts (r : R) b res r' b' :
  multipart_loop fuel first bs fs parts r b = (res, r', b') →
  bk_objects b' = bk_objects b ∧
  (0 < bs → (match first with Some _ => 1 | None => 0 end + String.length (contents r) < fuel)%nat → first ≠ Some "" →
   ∀ size parts', res = Ok (size, parts') → parts' = parts +:+ default "" first +:+ contents r).
Proof.
  revert first fs parts r b. induction fuel as [|fuel IH]; intros first fs parts r b.
  { intros [= <- <- <-]. split; [done|lia]. }
  cbn [multipart_loop]. destruct (match first with Some _ => _ | None => _ end) as [[chunk|e] r1] eqn:Ec.
  2:{ by intros [= <- <- <-]. }
  assert (0 < bs → first ≠ Some "" → default "" first +:+ contents r = chunk +:+ contents r1 ∧ (chunk = "" → contents r1 = "")) as Hchunk.
  { destruct first as [c|]; [injection Ec as -> ->; intros _ Hne; split; [done|congruence]|]. intros Hbs _.
    apply read_chunk_loop_Ok in Ec as (H1 & _ & H3 & _); [|done|lia|change (len "") with 0; lia]. split; [done|].
    intros ->. apply H3. change (len "") with 0. lia. }
  destruct (Z.eqb_spec (len chunk) 0) as [H0|H0].
  { intros [= <- <- <-]. split; [done|]. intros Hbs _ Hne size parts' [= _ <-]. apply len_zero in H0. subst chunk.
    destruct (Hchunk Hbs Hne) as [-> H1]. rewrite H1 by done. by rewrite str_app_nil_r. }
  pose proof (request_still b) as Hb1. destruct (request b) as [[u|e] b1] eqn:Er; cbn in Hb1.
  2:{ by intros [= <- <- <-]. }
  intros H. destruct (IH None _ _ _ _ H) as [H1 H2]. split; [congruence|]. intros Hbs Hf Hne size parts' Hok.
  destruct (Hchunk Hbs Hne) as [Hc _]. rewrite Hc. rewrite (H2 Hbs) with size parts'; [|cbn|done|done].
  - cbn [default]. change ("" +:+ contents r1) with (contents r1). by rewrite str_app_assoc.
  - enough (String.length (contents r1) < fuel)%nat by lia. destruct first as [c|]; [injection Ec as -> ->; lia|].
    apply (f_equal String.length) in Hc. cbn [default] in Hc. change ("" +:+ contents r) with (contents r) in Hc.
    rewrite str_length_app in Hc. unfold len in H0. lia.
Qed.

(** An upload, whatever comes of it, leaves the bucket as it was or makes one
    object; of a buffer with room, the object is the whole stream. *)
Lemma upload_file_effect name (r : R) ct ce c res c' :
  upload_file name r ct ce c = (res, c') →
  cl_cfg c' = cl_cfg c ∧ cl_signing_keys c' = cl_signing_keys c ∧
  (bk_objects (cl_bucket c') = bk_objects (cl_bucket c) ∨
   ∃ o, bk_objects (cl_bucket c') = <[object_path name := o]> (bk_objects (cl_bucket c)) ∧
     (0 < cc_buffer_size (cl_cfg c) → o = mkObject (contents r) ct ce)).
Proof.
  unfold upload_file. rewrite bind_gets. set (bs := cc_buffer_size (cl_cfg c)).
  destruct (read_chunk_async bs r) as [[first|e] r1] eqn:Ec; [|by intros [= <- <-]; auto].
  cbn [map_err]. rewrite bind_lift_Ok. destruct (Z.ltb_spec (len first) bs) as [Hl|Hl].
  - rewrite bind_run. unfold zoom at 1, request, tick_bucket. rewrite bind_run, bind_run.
    destruct (s3_error _); [intros [= <- <-]; auto|]. cbn. intros [= <- <-]. split; [done|]. split; [done|]. right.
    eexists. split; [done|]. intros Hbs. unfold read_chunk_async in Ec.
    apply read_chunk_loop_Ok in Ec as (H1 & _ & H3 & _); [|done|lia|change (len "") with 0; lia].
    change ("" +:+ contents r) with (contents r) in H1. by rewrite H1, H3, str_app_nil_r.
  - rewrite bind_run. unfold zoom at 1. pose proof (request_still (cl_bucket c)) as Hobj.
    destruct (request (cl_bucket c)) as [[u|e] b0]; cbn in Hobj; [|intros [= <- <-]; auto].
    unfold finish_multipart, run_multipart_upload.
    destruct (multipart_loop _ _ _ _ _ _ _) as [[[[size parts]|e] r2] b1] eqn:Em.
    + destruct (multipart_loop_still _ _ _ _ _ _ _ _ _ _ Em) as [Hb1 Hp]. unfold request, tick_bucket. rewrite bind_run, bind_run.
      destruct (s3_error _).
      * cbn. pose proof (request_still (b1 <| bk_clock ::= S |>)) as Hr. unfold attempt, zoom. rewrite bind_run. cbn.
        cbn in Hr, Hb1. destruct (request _) as [u' b2]. cbn in *. intros [= <- <-]. cbn. rewrite Hr, Hb1, Hobj. auto.
      * cbn. intros [= <- <-]. cbn. split; [done|]. split; [done|]. right. cbn in Hb1. rewrite Hb1, Hobj. eexists. split; [done|].
        intros Hbs. rewrite (Hp Hbs) with size parts; [|lia| |done].
        -- unfold read_chunk_async in Ec. apply read_chunk_loop_Ok in Ec as (H1 & _ & _ & _); [|done|lia|change (len "") with 0; lia].
           change ("" +:+ contents r) with (contents r) in H1. rewrite H1. done.
        -- intros [= ->]. change (len "") with 0 in Hl. lia.
    + destruct (multipart_loop_still _ _ _ _ _ _ _ _ _ _ Em) as [Hb1 _]. cbn.
      pose proof (request_still b1) as Hr. unfold attempt, zoom. rewrite bind_run. cbn.
      cbn in Hr, Hb1. destruct (request _) as [u' b2]. cbn in *. intros [= <- <-]. cbn. rewrite Hr, Hb1, Hobj. auto.
Qed.
End Upload.

(** ** Computations of a client *)

Section Moves.
Context (cfg : S3CacheConfig) (keys : list string) (source : NarInfo → Prop).

(** A client with the configuration [cfg] and the keys [keys] keeps them, its
    catalogue moves by steps, and a result satisfies [Q]. *)
Definition moves {A} (Q : A → Prop) (m : CM A) : Prop :=
  ∀ c, cl_cfg c = cfg → cl_signing_keys c = keys →
    cl_cfg (m c).2 = cfg ∧ cl_signing_keys (m c).2 = keys ∧
    rtc (publish cfg source) (catalogue_of c) (catalogue_of (m c).2) ∧ ∀ a, (m c).1 = Ok a → Q a.

Lemma moves_ret {A} (Q : A → Prop) a : Q a → moves Q (mret a).
Proof. intros Ha c Hc Hk. split_and!; [done..|]. by intros a' [= <-]. Qed.
Lemma moves_throw {A} (Q : A → Prop) e : moves Q (throw e : CM A).
Proof. by intros c Hc Hk. Qed.
Lemma moves_bind {A B} (Q : A → Prop) (Q' : B → Prop) (m : CM A) f :
  moves Q m → (∀ a, Q a → moves Q' (f a)) → moves Q' (m ≫= f).
Proof.
  intros Hm Hf c Hc Hk. destruct (Hm c Hc Hk) as (H1 & H2 & H3 & H4). rewrite bind_run.
  destruct (m c) as [[a|e] c1]; cbn in *; [|by split_and!].
  destruct (Hf a (H4 a eq_refl) c1 H1 H2) as (H5 & H6 & H7 & H8). split_and!; [done..| |done]. by etrans.
Qed.
Lemma moves_weaken {A} (Q Q' : A → Prop) m : (∀ a, Q a → Q' a) → moves Q m → moves Q' m.
Proof. intros HQ Hm c Hc Hk. destruct (Hm c Hc Hk) as (?&?&?&?). split_and!; auto. Qed.
Lemma moves_seq {A B} (Q : B → Prop) (m : CM A) f : moves (λ _, True) m → (∀ a, moves Q (f a)) → moves Q (m ≫= f).
Proof. intros Hm Hf. eapply moves_bind; [exact Hm|auto]. Qed.
Lemma moves_lift {A} (Q : A → Prop) r : (∀ a, r = Ok a → Q a) → moves Q (lift_result r).
Proof. intros HQ c Hc Hk. by split_and!. Qed.
Lemma moves_lift_opt {A} (Q : A → Prop) e o : (∀ a, o = Some a → Q a) → moves Q (lift_opt e o).
Proof. intros HQ. apply moves_lift. destruct o; [|done]. intros a' [= <-]. by apply HQ. Qed.
Lemma moves_gets {A} (Q : A → Prop) (f : S3BinaryCacheClient → A) :
  (∀ c, cl_cfg c = cfg → cl_signing_keys c = keys → Q (f c)) → moves Q (gets f).
Proof. intros HQ c Hc Hk. split_and!; [done..|]. intros a [= <-]. auto. Qed.
Lemma moves_attempt {A} (m : CM A) : moves (λ _, True) m → moves (λ _, True) (attempt m).
Proof. intros Hm c Hc Hk. destruct (Hm c Hc Hk) as (?&?&?&_). unfold attempt. destruct (m c). by split_and!. Qed.
Lemma moves_for_each {A} (l : list A) f : (∀ x, x ∈ l → moves (λ _, True) (f x)) → moves (λ _, True) (for_each l f).
Proof.
  induction l as [|x l IH]; intros Hf; [by apply moves_ret|]. cbn. apply moves_seq; [apply Hf; left|].
  intros _. apply IH. intros y Hy. apply Hf. by right.
Qed.
(** What only looks at the bucket, or changes the rest. *)
Lemma moves_zoom {A} (m : M Bucket CacheError A) :
  (∀ b, bk_objects (m b).2 = bk_objects b) → moves (λ _, True) (zoom cl_bucket m).
Proof.
  intros Hm c Hc Hk. unfold zoom. specialize (Hm (cl_bucket c)). destruct (m (cl_bucket c)) as [r b]. cbn in *.
  split_and!; [done..| |done]. unfold catalogue_of. cbn. by rewrite Hm.
Qed.
Lemma moves_modify f :
  (∀ c, cl_bucket (f c) = cl_bucket c ∧ cl_cfg (f c) = cl_cfg c ∧ cl_signing_keys (f c) = cl_signing_keys c) →
  moves (λ _, True) (modify f : CM unit).
Proof.
  intros Hf c Hc Hk. destruct (Hf c) as (H1 & H2 & H3). cbn. split_and!; [congruence..| |done].
  unfold catalogue_of. by rewrite H1.
Qed.
Lemma moves_tick : moves (λ _, True) tick.
Proof. by apply moves_zoom. Qed.

Lemma moves_upload {R} `{!AsyncRead R} `{!ReadLaws R} name (r : R) ct ce :
  beside name = true → moves (λ _, True) (upload_file name r ct ce).
Proof using KL.
  intros Hb c Hc Hk. destruct (upload_file name r ct ce c) as [res c'] eqn:E.
  destruct (upload_file_effect _ _ _ _ _ _ _ E) as (H1 & H2 & H3). split_and!; [cbn; congruence..| |done].
  cbn. unfold catalogue_of. destruct H3 as [->|(o & -> & _)]; [done|]. by rewrite catalogue_beside.
Qed.

Create HintDb moves.
Hint Resolve moves_ret moves_throw moves_tick moves_attempt moves_lift moves_lift_opt moves_gets : moves.
Hint Extern 2 (moves _ (modify _)) => apply moves_modify; done : moves.
Hint Extern 2 (moves _ (zoom _ _)) => apply moves_zoom : moves.

(** The steps of a computation whose results do not matter. *)
Ltac moving := repeat first
  [ progress auto with moves | apply moves_seq; [|intros ?] | apply moves_for_each; intros ? _ | case_match | case_decide ].

Lemma request_looks {A} (f : Bucket → A) b : bk_objects ((request;; gets f) b).2 = bk_objects b.
Proof. rewrite bind_run. pose proof (request_still b) as H. by destruct (request b) as [[]]. Qed.
Hint Resolve request_still request_looks : moves.

Lemma moves_head key : moves (λ _, True) (head_object key).
Proof. unfold head_object. moving. Qed.
Lemma moves_get key : moves (λ _, True) (get_object key).
Proof. unfold get_object. moving. Qed.
Hint Resolve moves_head moves_get : moves.

Lemma moves_upsert_stream name r ct : beside name = true → moves (λ _, True) (upsert_file_stream name r ct).
Proof using KL.
  intros Hb. unfold upsert_file_stream. apply moves_seq; [auto with moves|intros cfg']. case_match; (apply moves_seq; [by apply moves_upload|auto with moves]).
Qed.
Lemma moves_upsert name content ct : beside name = true → moves (λ _, True) (upsert_file name content ct).
Proof using KL. apply moves_upsert_stream. Qed.

Lemma moves_download p : moves (λ _, True) (download_narinfo p).
Proof. unfold download_narinfo. moving. Qed.
Hint Resolve moves_download : moves.
Lemma moves_has p : moves (λ _, True) (has_narinfo p).
Proof. unfold has_narinfo. moving. Qed.
Lemma moves_has_realisation id : moves (λ _, True) (has_realisation id).
Proof. unfold has_realisation, download_realisation. moving. Qed.
Hint Resolve moves_has moves_has_realisation : moves.
Lemma moves_has_or_default p : moves (λ _, True) (has_narinfo_or_default p).
Proof. unfold has_narinfo_or_default. moving. Qed.
Hint Resolve moves_has_or_default : moves.
Lemma moves_missing ps : moves (λ _, True) (query_missing_paths ps).
Proof. induction ps as [|p ps IH]; cbn; moving. Qed.
Lemma moves_missing_outputs os : moves (λ _, True) (query_missing_remote_outputs os).
Proof. induction os as [|o os IH]; cbn; moving. Qed.

(** Names beside the catalogue. *)
Lemma realisation_beside id : beside (realisation_key id) = true.
Proof. unfold realisation_key. rewrite <-str_app_assoc. by apply beside_app. Qed.
Lemma ls_beside n ls : NarInfo.get_ls_path n = Some ls → beside ls = true.
Proof. unfold NarInfo.get_ls_path. destruct (StorePath.hash_part _); [|done]. intros [= <-]. by apply beside_app. Qed.
Lemma str_rev_hex t : t ≠ "" → is_hex t = true → ∃ z u, str_rev "" t = String z u ∧ is_ascii_hexdigit z = true.
Proof.
  intros Hne Hh. assert (str_forall is_ascii_hexdigit (str_rev "" t) = true) as Hr.
  { unfold is_hex in Hh. clear Hne. induction t as [|a t IH]; [done|]. cbn in *. apply andb_true_iff in Hh as [H1 H2].
    rewrite str_rev_spec, str_forall_app, IH by done. cbn. by rewrite H1. }
  destruct (str_rev "" t) as [|z u] eqn:E.
  - rewrite <-(str_rev_involutive t), E in Hne. done.
  - exists z, u. split; [done|]. cbn in Hr. by apply andb_true_iff in Hr as [? _].
Qed.
Lemma debug_beside id : id ≠ "" → is_hex id = true → beside (debug_key id) = true.
Proof.
  intros Hne Hh. apply beside_app. destruct (str_rev_hex id Hne Hh) as (z & u & -> & Hz).
  destruct (Ascii.eqb_spec z "/") as [->|_]; [done|]. by destruct (Ascii.eqb_spec z "o") as [->|_].
Qed.

Lemma new_url path info comp n : NarInfo.new path info comp keys = Some n → beside (ni_url n) = true.
Proof.
  unfold NarInfo.new, NarInfo.simple. intros (n0 & H0 & H1)%bind_Some.
  apply bind_Some in H0 as (url & _ & [= <-]). apply bind_Some in H1 as (n1 & H1 & [= <-]).
  assert (ni_url n1 = ("nar/" +:+ url +:+ ".") +:+ Compression.ext comp) as Hu.
  { unfold NarInfo.clear_sigs_and_sign in H1. case_decide; [injection H1 as <-|apply bind_Some in H1 as (fp & _ & [= <-]); destruct fp].
    all: cbn. all: by rewrite <-!str_app_assoc. }
  case_match; cbn; rewrite Hu; apply beside_app; by destruct comp.
Qed.

(** ** The parts of a copy *)

Hint Resolve moves_upsert realisation_beside : moves.
Lemma moves_copy_realisation id repair : moves (λ _, True) (copy_realisation id repair).
Proof using KL. unfold copy_realisation. moving. Qed.
Lemma moves_upload_realisation r repair : moves (λ _, True) (upload_realisation r repair).
Proof using KL. unfold upload_realisation. moving. Qed.

Lemma moves_scan path l : moves (Forall debug_name) (scan_build_ids tick path l).
Proof.
  induction l as [|e l IH]; cbn [scan_build_ids]; [by apply moves_ret|].
  apply moves_seq; [auto with moves|intros en]. apply moves_bind with (λ b, is_id_dir en = Ok b); [by apply moves_lift|].
  intros b Hb. destruct b; [|done]. apply moves_seq; [auto with moves|intros q]. apply moves_seq; [auto with moves|intros sub].
  apply moves_bind with (λ files, scan_subdir (de_file_name en) sub = Ok files); [by apply moves_lift|]. intros files Hf.
  apply moves_bind with (Forall debug_name); [done|]. intros rest Hr. apply moves_ret, Forall_app. split; [|done].
  unfold is_id_dir in Hb. destruct (_ || _) eqn:E; [done|].
  apply orb_false_iff in E as [E1%negb_false_iff%Nat.eqb_eq E2%negb_false_iff]. by eapply scan_subdir_names.
Qed.
Lemma moves_link u id d : beside (debug_key id) = true → moves (λ _, True) (create_debug_info_link u id d).
Proof using KL. intros Hb. unfold create_debug_info_link. moving. Qed.
Lemma moves_debug_info u p : moves (λ _, True) (process_debug_info tick create_debug_info_link u p).
Proof using KL.
  unfold process_debug_info, find_debug_files. apply moves_seq; [auto with moves|intros q]. case_match; [auto with moves|].
  apply moves_bind with (Forall debug_name).
  - apply moves_seq; [auto with moves|intros q']. apply moves_seq; [auto with moves|intros l]. apply moves_scan.
  - intros files Hf. apply moves_for_each. intros f Hin. apply moves_link. rewrite Forall_forall in Hf.
    destruct (Hf f Hin) as (Hl & Hh & _). apply debug_beside; [|done]. by intros E; rewrite E in Hl.
Qed.
Lemma moves_listing n : moves (λ _, True) (copy_listing n).
Proof using KL.
  unfold copy_listing, upload_listing. apply moves_seq; [auto with moves|intros q]. apply moves_seq; [auto with moves|intros ls].
  apply moves_bind with (λ path, NarInfo.get_ls_path n = Some path); [by apply moves_lift_opt|].
  intros path Hp. apply moves_upsert. by eapply ls_beside.
Qed.
Lemma moves_realisations n repair : moves (λ _, True) (copy_realisations n repair).
Proof using KL. unfold copy_realisations. moving. Qed.
Hint Resolve moves_listing moves_debug_info moves_realisations : moves.

(** What a client makes of a path of the local store. *)
Definition made (p : StorePath) (n : NarInfo) : Prop :=
  ∃ q info, query_path_info q p = Some info ∧ NarInfo.new p info (cc_compression cfg) keys = Some n.
Definition with_upload (n n' : NarInfo) : Prop :=
  n' = n ∨ ∃ h s, n' = n <| ni_file_hash := Some h |> <| ni_file_size := Some s |>.

Lemma moves_path_to_narinfo p : moves (made p) (path_to_narinfo p).
Proof.
  unfold path_to_narinfo. apply moves_seq; [auto with moves|intros q].
  apply moves_bind with (λ info, query_path_info q p = Some info); [by apply moves_lift_opt|]. intros info Hi.
  apply moves_bind with (eq cfg); [by apply moves_gets|]. intros ? <-.
  apply moves_bind with (eq keys); [by apply moves_gets|]. intros ? <-.
  apply moves_bind with (λ n, NarInfo.new p info (cc_compression cfg) keys = Some n); [by apply moves_lift_opt|].
  intros n Hn. apply moves_seq; [auto with moves|intros q']. apply moves_seq; [auto with moves|intros _].
  apply moves_ret. by exists q, info.
Qed.
Lemma moves_copy_nar n : beside (ni_url n) = true → moves (with_upload n) (copy_nar n).
Proof using KL.
  intros Hb. unfold copy_nar. apply moves_seq; [auto with moves|intros cfg']. apply moves_seq; [auto with moves|intros q].
  apply moves_seq; [by apply moves_upload|intros r]. apply moves_seq; [auto with moves|intros [h sz]]. apply moves_ret.
  case_match; [|by left]. right. by eexists _, _.
Qed.
Lemma moves_upload_narinfo n : 0 < cc_buffer_size cfg → source n → moves (λ _, True) (upload_narinfo n).
Proof using KL.
  intros Hbs Hn. unfold upload_narinfo.
  apply moves_bind with (λ key, narinfo_key (ni_store_path n) = Some key); [by apply moves_lift_opt|]. intros key Hkey.
  apply moves_seq; [|auto with moves]. intros c Hc Hk. unfold upsert_file, upsert_file_stream. rewrite bind_gets, Hc.
  assert (∀ (r : Reader) c', contents r = text_bytes cfg key (NarInfo.render n) →
    cl_cfg c' = cfg ∧ cl_signing_keys c' = keys ∧ (bk_objects (cl_bucket c') = bk_objects (cl_bucket c) ∨
      ∃ o, bk_objects (cl_bucket c') = <[object_path key := o]> (bk_objects (cl_bucket c)) ∧
        (0 < cc_buffer_size (cl_cfg c) → o = mkObject (contents r) "text/x-nix-narinfo" "")) →
    cl_cfg c' = cfg ∧ cl_signing_keys c' = keys ∧ rtc (publish cfg source) (catalogue_of c) (catalogue_of c')) as Hstep.
  { intros r c' Hr (H1 & H2 & H3). split_and!; [done..|]. unfold catalogue_of. destruct H3 as [->|(o & -> & Ho)]; [done|].
    rewrite Ho by (by rewrite Hc). rewrite Hr. apply rtc_once. exists n, key. split; [done|]. split; [done|].
    destruct (narinfo_key_narinfo _ _ Hkey) as (h & -> & Hs). by apply catalogue_narinfo. }
  unfold text_bytes in Hstep.
  destruct (name_compression cfg key) as [comp|] eqn:En; rewrite bind_run.
  - set (r := get_compression_fn _ _ _ _). destruct (upload_file key r _ _ c) as [res c'] eqn:E.
    destruct (upload_file_effect _ _ _ _ _ _ _ E) as (H1 & H2 & H3).
    destruct (Hstep r c' eq_refl) as (?&?&?); [split_and!; [congruence..|done]|]. by destruct res; split_and!.
  - destruct (upload_file key (cursor (NarInfo.render n)) _ _ c) as [res c'] eqn:E.
    destruct (upload_file_effect _ _ _ _ _ _ _ E) as (H1 & H2 & H3).
    destruct (Hstep (cursor (NarInfo.render n)) c') as (?&?&?); [done|split_and!; [congruence..|done]|]. by destruct res; split_and!.
Qed.

Lemma moves_optional b m : moves (λ _, True) m → moves (λ _, True) (upload_optional b m).
Proof. intros Hm. destruct b; [done|by apply moves_ret]. Qed.

Lemma moves_copy_path p repair : 0 < cc_buffer_size cfg →
  (∀ n n', made p n → with_upload n n' → source n') → moves (λ _, True) (copy_path p repair).
Proof using KL.
  intros Hbs Hsrc. unfold copy_path. apply moves_seq; [destruct repair; auto with moves|intros skip].
  destruct skip; [auto with moves|]. apply moves_bind with (made p); [apply moves_path_to_narinfo|]. intros n Hn.
  apply moves_seq; [auto with moves|intros cfg'].
  apply moves_seq; [apply moves_optional; auto with moves|intros _].
  apply moves_seq; [apply moves_optional; auto with moves|intros _].
  apply moves_bind with (with_upload n).
  { apply moves_copy_nar. destruct Hn as (q & info & _ & Hn). by eapply new_url. }
  intros n' Hn'. apply moves_seq; [apply moves_optional; auto with moves|intros _].
  apply moves_seq; [|auto with moves]. apply moves_upload_narinfo; [done|]. by apply (Hsrc n).
Qed.

Lemma moves_describe n : 0 < cc_buffer_size cfg → (∀ n', NarInfo.clear_sigs_and_sign keys n = Some n' → source n') →
  moves (λ _, True) (upload_narinfo_after_presigned_upload n).
Proof using KL.
  intros Hbs Hsrc. unfold upload_narinfo_after_presigned_upload. apply moves_seq; [auto with moves|intros cfg'].
  apply moves_seq; [apply moves_optional; unfold require_object; moving|intros _].
  apply moves_seq; [unfold require_object; moving|intros _].
  apply moves_bind with (eq keys); [by apply moves_gets|]. intros ? <-.
  apply moves_bind with (λ n', NarInfo.clear_sigs_and_sign keys n = Some n'); [by apply moves_lift_opt|].
  intros n' Hn'. apply moves_upload_narinfo; auto.
Qed.

Lemma moves_presign_debug ids : moves (λ _, True) (presign_debug_info ids).
Proof. induction ids as [|id ids IH]; cbn [presign_debug_info]; [auto with moves|]. unfold signed_url. moving. Qed.
Lemma moves_presign path hash ids : moves (λ _, True) (generate_nar_upload_presigned_url path hash ids).
Proof.
  unfold generate_nar_upload_presigned_url, signed_url. moving. apply moves_presign_debug.
Qed.
End Moves.

(** ** Whatever a client does *)

(** The operations of a client that its users call. *)
Inductive CacheOp :=
| CopyPaths (paths : list StorePath) (repair : bool)
| QueryMissingPaths (paths : list StorePath)
| QueryMissingOutputs (outputs : list Output)
| UploadRealisation (r : FfiRealisation) (repair : bool)
| UpsertFileStream (name : string) (stream : Reader) (ct : string)
| Presign (path : StorePath) (nar_hash : string) (build_ids : list string)
| Describe (n : NarInfo).

Definition run_op (op : CacheOp) : CM unit :=
  match op with
  | CopyPaths paths repair => copy_paths paths repair
  | QueryMissingPaths paths => query_missing_paths paths;; mret tt
  | QueryMissingOutputs outputs => query_missing_remote_outputs outputs;; mret tt
  | UploadRealisation r repair => upload_realisation r repair
  | UpsertFileStream name stream ct => upsert_file_stream name stream ct
  | Presign path nar_hash build_ids => generate_nar_upload_presigned_url path nar_hash build_ids;; mret tt
  | Describe n => upload_narinfo_after_presigned_upload n;; mret tt
  end.

(** Other files than descriptions are uploaded by name. *)
Definition op_beside (op : CacheOp) : Prop :=
  match op with UpsertFileStream name _ _ => beside name = true | _ => True end.

(** The descriptions an operation may enter: of a path it copies, as the local
    store knows it, signed with the keys; or the one it is given, signed. *)
Definition entered (cfg : S3CacheConfig) (keys : list string) (op : CacheOp) (n : NarInfo) : Prop :=
  match op with
  | CopyPaths paths _ => ∃ p n0, p ∈ paths ∧ made cfg keys p n0 ∧ with_upload n0 n
  | Describe n0 => NarInfo.clear_sigs_and_sign keys n0 = Some n
  | _ => False
  end.

Lemma moves_op cfg keys op : 0 < cc_buffer_size cfg → op_beside op → moves cfg keys (entered cfg keys op) (λ _, True) (run_op op).
Proof using KL.
  intros Hbs Hop. destruct op as [paths repair|paths|outputs|r repair|name stream ct|path nar_hash ids|n]; cbn [run_op].
  - apply moves_for_each. intros p Hp. apply moves_copy_path; [done|]. intros n n' Hn Hn'. by exists p, n.
  - apply moves_seq; [apply moves_missing|intros _; by apply moves_ret].
  - apply moves_seq; [apply moves_missing_outputs|intros _; by apply moves_ret].
  - apply moves_upload_realisation.
  - by apply moves_upsert_stream.
  - apply moves_seq; [apply moves_presign|intros _; by apply moves_ret].
  - apply moves_seq; [apply moves_describe; [done|auto]|intros _; by apply moves_ret].
Qed.

(** The state after a sequence of operations, each of which may fail. *)
Definition run_ops (ops : list CacheOp) (c : S3BinaryCacheClient) : S3BinaryCacheClient :=
  foldl (λ c op, (run_op op c).2) c ops.

Lemma run_ops_setup ops c : 0 < cc_buffer_size (cl_cfg c) → Forall op_beside ops →
  cl_cfg (run_ops ops c) = cl_cfg c ∧ cl_signing_keys (run_ops ops c) = cl_signing_keys c ∧
  rtc (λ m m', ∃ op, op ∈ ops ∧ publish (cl_cfg c) (entered (cl_cfg c) (cl_signing_keys c) op) m m')
    (catalogue_of c) (catalogue_of (run_ops ops c)).
Proof using KL.
  intros Hbs Hops. revert c Hbs. induction Hops as [|op ops Hop _ IH]; intros c Hbs; [done|]. cbn [run_ops foldl].
  destruct (moves_op (cl_cfg c) (cl_signing_keys c) op Hbs Hop c eq_refl eq_refl) as (H1 & H2 & H3 & _).
  destruct (IH (run_op op c).2) as (H4 & H5 & H6); [by rewrite H1|]. fold (run_ops ops (run_op op c).2).
  rewrite H1 in H4, H6. rewrite H2 in H5, H6. split_and!; [done..|]. etrans.
  - eapply rtc_subrel; [|exact H3]. intros m m' Hm. exists op. split; [left|done].
  - eapply rtc_subrel; [|exact H6]. intros m m' (op' & Hin & Hm). exists op'. split; [by right|done].
Qed.
End Catalogue.

Section Claim.
Context `{NE : NixEnv} `{SL : SignLib} `{SHA : Sha256Lib} `{CE : CacheEnv} `{KL : !KeyLaws}.

(** What steps of the catalogue do to it: entries stay or are replaced by
    descriptions that were entered. *)
Lemma publish_entries cfg (sources : (NarInfo → Prop) → Prop) m m' :
  rtc (λ m m', ∃ source, sources source ∧ publish cfg source m m') m m' →
  dom m ⊆ dom m' ∧
  ∀ x o, m' !! x = Some o → m !! x = Some o ∨
    ∃ source n key, sources source ∧ source n ∧ narinfo_key (ni_store_path n) = Some key ∧
      x = object_path key ∧ o = description cfg key n.
Proof.
  induction 1 as [m|m m1 m' (source & Hs & n & key & Hn & Hkey & ->) _ [IH1 IH2]]; [split; [done|by left]|]. split.
  - etrans; [|exact IH1]. rewrite dom_insert_L. set_solver.
  - intros x o Hx. destruct (IH2 x o Hx) as [H|H]; [|by right].
    apply lookup_insert_Some in H as [[<- <-]|[_ H]]; [|by left]. right. by exists source, n, key.
Qed.

(** C17: The binary cache implements a catalogue of descriptions: whatever
    operations a client performs, and whatever requests fail meanwhile, the
    catalogue moves only by whole descriptions being entered under the names
    of their paths: of a path that is copied, as the local store knows it and
    signed, or the one that is handed over, signed. No entry disappears, and
    an entry that is new or different is one of those. *)
Theorem client_refines_catalogue ops c :
  0 < cc_buffer_size (cl_cfg c) → Forall op_beside ops →
  let entered_by op := entered (cl_cfg c) (cl_signing_keys c) op in
  rtc (λ m m', ∃ op, op ∈ ops ∧ publish (cl_cfg c) (entered_by op) m m') (catalogue_of c) (catalogue_of (run_ops ops c)) ∧
  dom (catalogue_of c) ⊆ dom (catalogue_of (run_ops ops c)) ∧
  ∀ x o, catalogue_of (run_ops ops c) !! x = Some o → catalogue_of c !! x = Some o ∨
    ∃ op n key, op ∈ ops ∧ entered_by op n ∧ narinfo_key (ni_store_path n) = Some key ∧
      x = object_path key ∧ o = description (cl_cfg c) key n.
Proof using KL.
  intros Hbs Hops entered_by. destruct (run_ops_setup ops c Hbs Hops) as (_ & _ & Hrun). split; [done|].
  destruct (publish_entries (cl_cfg c) (λ s, ∃ op, op ∈ ops ∧ s = entered_by op) (catalogue_of c) (catalogue_of (run_ops ops c)))
    as [H1 H2].
  { eapply rtc_subrel; [|exact Hrun]. intros m m' (op & Hop & Hm). exists (entered_by op). split; [by exists op|done]. }
  split; [done|]. intros x o Hx. destruct (H2 x o Hx) as [H|(source & n & key & (op & Hop & ->) & H)]; [by left|].
  right. exists op, n, key. by split.
Qed.
End Claim.
