(* ===== verification/S3Client.v ===== *)
(** * S3Client: making the client of the object store
    ([construct_client] and [s3_stats] of [binary-cache/src/lib.rs])

    The client is made by [object_store]'s [AmazonS3Builder], whose settings
    are a record here; filling it from the environment and building the client
    are that library's. *)

From Stdlib Require Import Ascii String.
From S2P Require Import Prelude RustStr Nix CacheCfg NarInfo Stream BinaryCache.
Local Open Scope string_scope.
Local Open Scope list_scope.

(** The settings [construct_client] touches. *)
Record AmazonS3Builder := mkAmazonS3Builder {
  ab_region : option string;
  ab_bucket_name : option string;
  ab_imdsv1_fallback : bool;
  ab_access_key_id : option string;
  ab_secret_access_key : option string;
  ab_endpoint : option string;
  ab_virtual_hosted_style_request : bool;
  ab_allow_http : bool
}.
#[export] Instance eta_AmazonS3Builder : Eta AmazonS3Builder := λ r,
  mkAmazonS3Builder (ab_region r) (ab_bucket_name r) (ab_imdsv1_fallback r) (ab_access_key_id r)
    (ab_secret_access_key r) (ab_endpoint r) (ab_virtual_hosted_style_request r) (ab_allow_http r).
#[export] Instance set_ab_region : Setter ab_region := ltac:(mk_setter ab_region).
#[export] Instance set_ab_bucket_name : Setter ab_bucket_name := ltac:(mk_setter ab_bucket_name).
#[export] Instance set_ab_imdsv1_fallback : Setter ab_imdsv1_fallback := ltac:(mk_setter ab_imdsv1_fallback).
#[export] Instance set_ab_access_key_id : Setter ab_access_key_id := ltac:(mk_setter ab_access_key_id).
#[export] Instance set_ab_secret_access_key : Setter ab_secret_access_key := ltac:(mk_setter ab_secret_access_key).
#[export] Instance set_ab_endpoint : Setter ab_endpoint := ltac:(mk_setter ab_endpoint).
#[export] Instance set_ab_virtual_hosted : Setter ab_virtual_hosted_style_request := ltac:(mk_setter ab_virtual_hosted_style_request).
#[export] Instance set_ab_allow_http : Setter ab_allow_http := ltac:(mk_setter ab_allow_http).

(** The library, the environment and the reader of INI files. *)
Class AwsLib : Type := {
  aws_env_var : string → option string;
  load_ini : string → result string (gmap string Section_);
  from_env : AmazonS3Builder;
  build : AmazonS3Builder → result string unit
}.

(** [from_env] is documented to take the keys from these variables. *)
Class AwsLaws `{AwsLib} : Prop := {
  from_env_access_key : ab_access_key_id from_env = aws_env_var "AWS_ACCESS_KEY_ID";
  from_env_secret_key : ab_secret_access_key from_env = aws_env_var "AWS_SECRET_ACCESS_KEY"
}.

Section Client.
Context `{HI : HashIter} `{AL : AwsLib}.

Definition with_keys (access_key secret_key : string) (b : AmazonS3Builder) : AmazonS3Builder :=
  b <| ab_access_key_id := Some access_key |> <| ab_secret_access_key := Some secret_key |>.

(** The settings of the client that is built. *)
Definition construct_client (cfg : S3ClientConfig) : result string AmazonS3Builder :=
  let builder := from_env <| ab_region := Some (sc_region cfg) |> <| ab_bucket_name := Some (sc_bucket cfg) |>
                          <| ab_imdsv1_fallback := true |> in
  let builder :=
    match sc_credentials cfg with
    | Some credentials => with_keys (cr_access_key_id credentials) (cr_secret_access_key credentials) builder
    | None =>
        match aws_env_var "AWS_ACCESS_KEY_ID", aws_env_var "AWS_SECRET_ACCESS_KEY" with
        | None, None =>
            let profile := default "default" (sc_profile cfg) in
            match read_aws_credentials_file aws_env_var load_ini profile with
            | Ok (access_key, secret_key) => with_keys access_key secret_key builder
            | Err _ => builder
            end
        | _, _ => builder
        end
    end in
  let builder :=
    match sc_endpoint cfg with
    | Some endpoint => builder <| ab_endpoint := Some endpoint |> <| ab_virtual_hosted_style_request := false |>
    | None => builder
    end in
  let builder := match sc_scheme cfg with HTTP => builder <| ab_allow_http := true |> | _ => builder end in
  build builder;; Ok builder.

(** A reading of the counters. *)
Definition s3_stats (c : S3BinaryCacheClient) : S3Stats :=
  let s := cl_s3_stats c in
  mkS3Stats (st_put s) (st_put_bytes s) (st_put_time_ms s) (st_get s) (st_get_bytes s) (st_get_time_ms s) (st_head s).

(** Where the keys come from, in this order. *)
Definition credentials (cfg : S3ClientConfig) : option string * option string :=
  match sc_credentials cfg with
  | Some c => (Some (cr_access_key_id c), Some (cr_secret_access_key c))
  | None =>
      let env := (aws_env_var "AWS_ACCESS_KEY_ID", aws_env_var "AWS_SECRET_ACCESS_KEY") in
      if decide (env = (None, None)) then
        match read_aws_credentials_file aws_env_var load_ini (default "default" (sc_profile cfg)) with
        | Ok (a, s) => (Some a, Some s)
        | Err _ => (None, None)
        end
      else env
  end.

(** The client is for the configured bucket and region, at the configured
    endpoint if there is one and without TLS only when the scheme says so; its
    keys are those of the configuration, or else those of the environment, or
    else those of the profile in the credentials file. *)
Theorem client_is_configured `{!AwsLaws} cfg b : construct_client cfg = Ok b →
  ab_bucket_name b = Some (sc_bucket cfg) ∧ ab_region b = Some (sc_region cfg) ∧
  (∀ e, sc_endpoint cfg = Some e → ab_endpoint b = Some e ∧ ab_virtual_hosted_style_request b = false) ∧
  (ab_allow_http b = true ↔ sc_scheme cfg = HTTP ∨ ab_allow_http from_env = true) ∧
  (ab_access_key_id b, ab_secret_access_key b) = credentials cfg.
Proof.
  unfold construct_client. intros ([] & _ & [= <-])%bind_Ok_inv. unfold credentials.
  pose proof from_env_access_key as Ha. pose proof from_env_secret_key as Hs.
  split_and!.
  all: destruct (sc_credentials cfg); [|destruct (aws_env_var "AWS_ACCESS_KEY_ID") as [a|] eqn:Ea, (aws_env_var "AWS_SECRET_ACCESS_KEY") as [s|] eqn:Es;
    [..|destruct (read_aws_credentials_file _ _ _) as [[a' s']|]]].
  all: destruct (sc_endpoint cfg), (sc_scheme cfg); cbn; rewrite ?Ha, ?Hs; try done; try intuition congruence.
Qed.

(** Half of the keys in the environment hides the credentials file. *)
Theorem half_an_environment_hides_the_file `{!AwsLaws} cfg b a :
  sc_credentials cfg = None → aws_env_var "AWS_ACCESS_KEY_ID" = Some a → aws_env_var "AWS_SECRET_ACCESS_KEY" = None →
  construct_client cfg = Ok b → ab_access_key_id b = Some a ∧ ab_secret_access_key b = None.
Proof.
  intros Hc Ha Hs. unfold construct_client. rewrite Hc, Ha. intros ([] & _ & [= <-])%bind_Ok_inv.
  pose proof from_env_access_key as Ea. pose proof from_env_secret_key as Es. rewrite Ha in Ea. rewrite Hs in Es.
  by destruct (sc_endpoint cfg), (sc_scheme cfg).
Qed.
End Client.
