(* ===== verification/Presigned.v ===== *)
(** * Presigned: uploads to presigned URLs ([crates/binary-cache/src/presigned.rs])

    A builder puts archives into the bucket with URLs the queue runner signed.
    The class [HttpEnv] gives the error of a request, and the object a URL
    stands for. *)

From Stdlib Require Import Ascii String.
From S2P Require Import Prelude RustStr Nix NarInfo CacheCfg Stream BinaryCache.
Local Open Scope string_scope.
Local Open Scope list_scope.
Local Open Scope Z_scope.

(** [max_times]: the number of retries after the first attempt. *)
Definition RETRY_MAX_ATTEMPTS : nat := 3.

Module PresignedUpload.

Definition new (path url : string) (compression : Compression) (compression_level : Z) : PresignedUpload :=
  mkPresignedUpload path url compression
    (if compression_level =? 1 then Fastest
     else if (2 <=? compression_level) && (compression_level <=? 8) then Precise compression_level
     else if compression_level =? 9 then Best
     else DefaultLevel).

Definition get_compression_level_as_i32 (p : PresignedUpload) : Z :=
  match pu_compression_level p with Fastest => 1 | Precise n => n | Best => 9 | DefaultLevel => 0 end.

End PresignedUpload.

Record PresignedUploadResult := mkPresignedUploadResult { ur_file_hash : string; ur_file_size : Z }.

Record PresignedUploadMetrics := mkPresignedUploadMetrics { pm_put : Z; pm_put_bytes : Z; pm_put_time_ms : Z }.

Record PresignedUploadClient := mkPresignedUploadClient { pc_metrics : PresignedUploadMetrics; pc_bucket : Bucket }.
#[export] Instance eta_PresignedUploadClient : Eta PresignedUploadClient := λ r,
  mkPresignedUploadClient (pc_metrics r) (pc_bucket r).
#[export] Instance set_pc_metrics : Setter pc_metrics := ltac:(mk_setter pc_metrics).
#[export] Instance set_pc_bucket : Setter pc_bucket := ltac:(mk_setter pc_bucket).

Class HttpEnv : Type := {
  http_error : nat → option string;
  url_object : string → option string
}.

Abbreviation PM := (M PresignedUploadClient CacheError).

Module PresignedUploadClient.
Section Env.
Context `{NE : NixEnv} `{SL : SignLib} `{SHA : Sha256Lib} `{CE : CacheEnv} `{HE : HttpEnv}.

Definition tick : PM nat := zoom pc_bucket tick_bucket.

(** One [PUT]: the object is there when the service says so. *)
Definition put_once (url : string) (o : Object) : M Bucket CacheError unit :=
  n ← tick_bucket;
  match http_error n with
  | Some e => throw (HttpRequestError e)
  | None => modify (λ b, match url_object url with
                         | Some key => b <| bk_objects ::= <[key := o]> |>
                         | None => b
                         end)
  end.

Fixpoint put_retry (times : nat) (url : string) (o : Object) : M Bucket CacheError unit :=
  r ← attempt (put_once url o);
  match r, times with
  | Ok tt, _ => mret tt
  | Err _, S times => put_retry times url o
  | Err e, O => throw e
  end.

(** [read_to_end]: a read has room for 32 bytes at least. *)
Fixpoint read_to_end_loop {R} `{!AsyncRead R} (fuel : nat) (buffer : string) (r : R) : result string string * R :=
  match fuel with
  | O => (Ok buffer, r)
  | S fuel =>
      match poll_read 32 r with
      | (Err e, r) => (Err e, r)
      | (Ok data, r) => if len data =? 0 then (Ok buffer, r) else read_to_end_loop fuel (buffer +:+ data) r
      end
  end.
Definition read_to_end {R} `{!AsyncRead R} (r : R) : result string string * R :=
  read_to_end_loop (S (String.length (contents r))) "" r.

Definition upload_any (upload : PresignedUpload) (reader : HashingReader Reader) (ct : option string)
  : PM PresignedUploadResult :=
  let attrs := (default (content_type (pu_compression upload)) ct, content_encoding (pu_compression upload)) in
  let '(buffer, reader) := read_to_end reader in
  buffer ← lift_result (map_err Io buffer);
  zoom pc_bucket (put_retry RETRY_MAX_ATTEMPTS (pu_url upload) (mkObject buffer attrs.1 attrs.2));;
  elapsed ← tick;
  '(file_hash, file_size) ← lift_opt HashingError (HashingReader.finalize reader);
  modify (λ c, c <| pc_metrics ::= λ m, mkPresignedUploadMetrics (fetch_add 1 (pm_put m))
    (fetch_add file_size (pm_put_bytes m)) (fetch_add (elapsed_ms elapsed) (pm_put_time_ms m)) |>);;
  mret (mkPresignedUploadResult ("sha256:" +:+ default file_hash (convert_sha256_nix32 file_hash)) file_size).

(** The upload comes first; an error of the archive is reported after it. *)
Definition upload_nar (store_path : StorePath) (upload : PresignedUpload) : PM PresignedUploadResult :=
  q ← tick;
  let '(pieces, err) := nar_from_path q store_path in
  let compressed_stream :=
    get_compression_fn (pu_compression upload) (pu_compression_level upload) false (mkReader pieces None) in
  upload_result ← attempt (upload_any upload (HashingReader.new compressed_stream) None);
  match err with
  | None => lift_result upload_result
  | Some e => throw (UploadError (pu_path upload) ("NAR reading failed: " +:+ e))
  end.

(** Text, compressed and put as JSON. *)
Definition upload_json (content : string) (upload : PresignedUpload) : PM PresignedUploadResult :=
  let compressed_stream :=
    get_compression_fn (pu_compression upload) (pu_compression_level upload) false (cursor content) in
  upload_any upload (HashingReader.new compressed_stream) (Some "application/json").

Definition upload_ls (store_path : StorePath) (upload : PresignedUpload) : PM PresignedUploadResult :=
  q ← tick;
  ls ← lift_result (map_err NixStoreError (list_nar_deep q store_path));
  let compressed_stream :=
    get_compression_fn (pu_compression upload) (pu_compression_level upload) false (cursor ls) in
  upload_any upload (HashingReader.new compressed_stream) (Some "application/json").

Definition create_debug_info_link (debug_info_urls : list PresignedUpload) (nar_url build_id debug_path : string)
  : PM unit :=
  let key := debug_key build_id in
  upload ← lift_opt (UploadError key ("Presigned URL not found for build ID: " +:+ build_id))
    (List.find (λ p, bool_decide (pu_path p = key)) debug_info_urls);
  json ← lift_result (map_err Serde (json_link (mkDebugInfoLink ("../" +:+ nar_url) debug_path)));
  upload_json json upload;;
  mret tt.

Definition process_presigned_request (narinfo : NarInfo) (req : PresignedUploadResponse) : PM NarInfo :=
  let narinfo := narinfo <| ni_url := pr_nar_url req |> <| ni_compression := pu_compression (pr_nar_upload req) |> in
  match pr_ls_upload req with
  | Some ls_upload => upload_ls (ni_store_path narinfo) ls_upload;; mret tt
  | None => mret tt
  end;;
  (if decide (pr_debug_info_upload req = []) then mret tt
   else process_debug_info tick (create_debug_info_link (pr_debug_info_upload req)) (ni_url narinfo)
          (ni_store_path narinfo));;
  upload_res ← upload_nar (ni_store_path narinfo) (pr_nar_upload req);
  mret (narinfo <| ni_file_hash := Some (ur_file_hash upload_res) |>
                <| ni_file_size := Some (ur_file_size upload_res) |>).

End Env.
End PresignedUploadClient.
