(* ===== verification/Db.v ===== *)
(** * Db: the database layer

    [crates/db/src/models.rs] and [crates/db/src/connection.rs]. A statement is
    the function its SQL text denotes on the tables it names; a transaction is
    a copy of the tables that [commit] puts in place of the database's. The
    server itself is not part of the repository: a statement may fail at any
    point (the fault script), and the schema's unique constraints and the
    unspecified row orders are the fields of the class [DbEnv]. *)

From Stdlib Require Import Ascii String.
From S2P Require Import Prelude Floats RustStr.
Local Open Scope string_scope.
Local Open Scope list_scope.
Local Open Scope Z_scope.

Inductive Error :=
| Sqlx
| TryFromInt
| Fuel
| Anyhow (msg : string).
#[export] Instance Error_eq_dec : EqDecision Error.
Proof. solve_decision. Defined.

Abbreviation BuildID := Z.

(** ** Models *)

Inductive BuildStatus :=
| Success | Failed | DepFailed | Aborted | Cancelled | FailedWithOutput | TimedOut
| CachedFailure | Unsupported | LogLimitExceeded | NarSizeLimitExceeded
| NotDeterministic | Busy.
#[export] Instance BuildStatus_eq_dec : EqDecision BuildStatus.
Proof. solve_decision. Defined.

(** [status as i32] *)
Definition BuildStatus_as_i32 (s : BuildStatus) : Z :=
  match s with
  | Success => 0 | Failed => 1 | DepFailed => 2 | Aborted => 3 | Cancelled => 4
  | FailedWithOutput => 6 | TimedOut => 7 | CachedFailure => 8 | Unsupported => 9
  | LogLimitExceeded => 10 | NarSizeLimitExceeded => 11 | NotDeterministic => 12
  | Busy => 100
  end.

Definition BuildStatus_from_i32 (v : Z) : option BuildStatus :=
  match v with
  | 0 => Some Success
  | 1 => Some Failed
  | 2 => Some DepFailed
  | 3 => Some Aborted
  | 4 => Some Cancelled
  | 6 => Some FailedWithOutput
  | 7 => Some TimedOut
  | 8 => Some CachedFailure
  | 9 => Some Unsupported
  | 10 => Some LogLimitExceeded
  | 11 => Some NarSizeLimitExceeded
  | 12 => Some NotDeterministic
  | 100 => Some Busy
  | _ => None
  end.

Inductive StepStatus :=
| Preparing | Connecting | SendingInputs | Building | WaitingForLocalSlot
| ReceivingOutputs | PostProcessing.
Definition StepStatus_as_i32 (s : StepStatus) : Z :=
  match s with
  | Preparing => 1 | Connecting => 10 | SendingInputs => 20 | Building => 30
  | WaitingForLocalSlot => 35 | ReceivingOutputs => 40 | PostProcessing => 50
  end.

Inductive BuildType := TBuild | TSubstitution.
Definition BuildType_as_i32 (t : BuildType) : Z :=
  match t with TBuild => 0 | TSubstitution => 1 end.

Record JobsetModel := mkJobsetModel { jm_project : string; jm_name : string; jm_schedulingshares : Z }.
Record BuildSmall := mkBuildSmall { bs_id : BuildID; bs_globalpriority : Z }.
Record BuildModel := mkBuildModel {
  bm_id : BuildID; bm_jobset_id : Z; bm_project : string; bm_jobset : string;
  bm_job : string; bm_drvpath : string; bm_maxsilent : option Z; bm_timeout : option Z;
  bm_timestamp : Z; bm_globalpriority : Z; bm_priority : Z }.
Record BuildSteps := mkBuildSteps { bst_starttime : option Z; bst_stoptime : option Z }.

Record UpdateBuild := mkUpdateBuild {
  ub_status : BuildStatus; ub_start_time : Z; ub_stop_time : Z; ub_size : Z;
  ub_closure_size : Z; ub_release_name : option string; ub_is_cached_build : bool }.

Record InsertBuildStep := mkInsertBuildStep {
  ibs_build_id : BuildID; ibs_step_nr : Z; ibs_type : BuildType; ibs_drv_path : string;
  ibs_status : BuildStatus; ibs_busy : bool; ibs_start_time : option Z;
  ibs_stop_time : option Z; ibs_platform : option string; ibs_propagated_from : option Z;
  ibs_error_msg : option string; ibs_machine : string }.

Record InsertBuildStepOutput := mkInsertBuildStepOutput {
  ibo_build_id : BuildID; ibo_step_nr : Z; ibo_name : string; ibo_path : option string }.

Record UpdateBuildStep := mkUpdateBuildStep {
  ubs_build_id : BuildID; ubs_step_nr : Z; ubs_status : StepStatus }.

Record UpdateBuildStepInFinish := mkUpdateBuildStepInFinish {
  uf_build_id : BuildID; uf_step_nr : Z; uf_status : BuildStatus; uf_error_msg : option string;
  uf_start_time : Z; uf_stop_time : Z; uf_machine : option string; uf_overhead : option Z;
  uf_times_built : option Z; uf_is_non_deterministic : option bool }.

Record InsertBuildProduct := mkInsertBuildProduct {
  ip_build_id : BuildID; ip_product_nr : Z; ip_type : string; ip_subtype : string;
  ip_file_size : option Z; ip_sha256hash : option string; ip_path : string; ip_name : string;
  ip_default_path : string }.

Record InsertBuildMetric := mkInsertBuildMetric {
  im_build_id : BuildID; im_name : string; im_unit : option string; im_value : f64;
  im_project : string; im_jobset : string; im_job : string; im_timestamp : Z }.

Record BuildOutputModel := mkBuildOutputModel {
  bo_id : Z; bo_buildstatus : option Z; bo_releasename : option string;
  bo_closuresize : option Z; bo_size : option Z }.

(** [OwnedBuildProduct] and [BuildProduct] have the same fields, as have
    [OwnedBuildMetric] and [BuildMetric]. *)
Record BuildProductModel := mkBuildProductModel {
  bp_type : string; bp_subtype : string; bp_filesize : option Z; bp_sha256hash : option string;
  bp_path : option string; bp_name : string; bp_defaultpath : option string }.
Record BuildMetricModel := mkBuildMetricModel {
  bmt_name : string; bmt_unit : option string; bmt_value : f64 }.

Record MarkBuildSuccessData := mkMarkBuildSuccessData {
  mb_id : BuildID; mb_name : string; mb_project_name : string; mb_jobset_name : string;
  mb_finished_in_db : bool; mb_timestamp : Z; mb_failed : bool; mb_closure_size : Z;
  mb_size : Z; mb_release_name : option string; mb_outputs : gmap string string;
  mb_products : list BuildProductModel; mb_metrics : list BuildMetricModel }.

(** ** Tables *)

Record BuildRow := mkBuildRow {
  r_id : Z; r_finished : Z; r_timestamp : Z; r_jobset_id : Z; r_job : string;
  r_nixname : string; r_drvpath : string; r_system : string; r_maxsilent : option Z;
  r_timeout : option Z; r_ischannel : Z; r_iscurrent : Z; r_priority : Z;
  r_globalpriority : Z; r_keep : Z;
  r_buildstatus : option Z; r_starttime : option Z; r_stoptime : option Z;
  r_size : option Z; r_closuresize : option Z; r_releasename : option string;
  r_iscachedbuild : option Z; r_notificationpendingsince : option Z }.
#[global] Instance eta_BuildRow : Eta BuildRow := λ r,
  mkBuildRow (r_id r) (r_finished r) (r_timestamp r) (r_jobset_id r) (r_job r) (r_nixname r)
    (r_drvpath r) (r_system r) (r_maxsilent r) (r_timeout r) (r_ischannel r)
    (r_iscurrent r) (r_priority r) (r_globalpriority r) (r_keep r)
    (r_buildstatus r) (r_starttime r) (r_stoptime r) (r_size r) (r_closuresize r)
    (r_releasename r) (r_iscachedbuild r) (r_notificationpendingsince r).

Record JobsetRow := mkJobsetRow {
  j_id : Z; j_project : string; j_name : string; j_schedulingshares : Z }.

Record StepRow := mkStepRow {
  s_build : Z; s_stepnr : Z; s_type : Z; s_drvpath : option string; s_busy : Z;
  s_starttime : option Z; s_stoptime : option Z; s_system : option string;
  s_status : option Z; s_propagatedfrom : option Z; s_errormsg : option string;
  s_machine : option string; s_overhead : option Z; s_timesbuilt : option Z;
  s_isnondeterministic : option bool }.
#[global] Instance eta_StepRow : Eta StepRow := λ r,
  mkStepRow (s_build r) (s_stepnr r) (s_type r) (s_drvpath r) (s_busy r) (s_starttime r)
    (s_stoptime r) (s_system r) (s_status r) (s_propagatedfrom r) (s_errormsg r)
    (s_machine r) (s_overhead r) (s_timesbuilt r) (s_isnondeterministic r).

Record StepOutputRow := mkStepOutputRow {
  so_build : Z; so_stepnr : Z; so_name : string; so_path : option string }.
#[global] Instance eta_StepOutputRow : Eta StepOutputRow := λ r,
  mkStepOutputRow (so_build r) (so_stepnr r) (so_name r) (so_path r).
Record OutputRow := mkOutputRow { or_build : Z; or_name : string; or_path : option string }.
#[global] Instance eta_OutputRow : Eta OutputRow := λ r,
  mkOutputRow (or_build r) (or_name r) (or_path r).

Record Tables := mkTables {
  t_builds : list BuildRow;
  t_jobsets : list JobsetRow;
  t_buildsteps : list StepRow;
  t_buildstepoutputs : list StepOutputRow;
  t_buildoutputs : list OutputRow;
  t_buildproducts : list InsertBuildProduct;
  t_buildmetrics : list InsertBuildMetric;
  t_failedpaths : list string;
  t_systemstatus : gmap string string;
  t_notifications : list (string * string)
}.
#[global] Instance eta_Tables : Eta Tables := λ r,
  mkTables (t_builds r) (t_jobsets r) (t_buildsteps r) (t_buildstepoutputs r)
    (t_buildoutputs r) (t_buildproducts r) (t_buildmetrics r) (t_failedpaths r)
    (t_systemstatus r) (t_notifications r).

#[export] Instance set_t_builds : Setter t_builds := ltac:(mk_setter t_builds).
#[export] Instance set_t_buildsteps : Setter t_buildsteps := ltac:(mk_setter t_buildsteps).
#[export] Instance set_t_buildstepoutputs : Setter t_buildstepoutputs := ltac:(mk_setter t_buildstepoutputs).
#[export] Instance set_t_buildoutputs : Setter t_buildoutputs := ltac:(mk_setter t_buildoutputs).
#[export] Instance set_t_buildproducts : Setter t_buildproducts := ltac:(mk_setter t_buildproducts).
#[export] Instance set_t_buildmetrics : Setter t_buildmetrics := ltac:(mk_setter t_buildmetrics).
#[export] Instance set_t_failedpaths : Setter t_failedpaths := ltac:(mk_setter t_failedpaths).
#[export] Instance set_t_systemstatus : Setter t_systemstatus := ltac:(mk_setter t_systemstatus).
#[export] Instance set_t_notifications : Setter t_notifications := ltac:(mk_setter t_notifications).

(** What the server decides: the order of rows a query leaves open, the
    identity of an inserted build, and which inserts violate a constraint.
    The schema's key of [buildsteps] is (build, stepnr). *)
Class DbEnv : Type := {
  row_order : ∀ {A : Type}, list A → list A;
  row_order_perm : ∀ {A : Type} (l : list A), row_order l ≡ₚ l;
  fresh_build_id : list BuildRow → Z;
  fresh_build_id_fresh : ∀ t, fresh_build_id t ∉ map r_id t;
  step_conflict : list StepRow → Z → Z → bool;
  step_conflict_key : ∀ t b n, step_conflict t b n = true ↔
    Exists (λ r, s_build r = b ∧ s_stepnr r = n) t;
  failedpath_conflict : list string → string → bool
}.

(** ** Connections and transactions

    The fault script says which of the coming requests to the server fail; it
    is shared by all connections, and a script that is used up means success. *)

Record Database := mkDatabase { db_tables : Tables; db_faults : list bool }.
#[global] Instance eta_Database : Eta Database := λ r,
  mkDatabase (db_tables r) (db_faults r).
#[export] Instance set_db_tables : Setter db_tables := ltac:(mk_setter db_tables).
#[export] Instance set_db_faults : Setter db_faults := ltac:(mk_setter db_faults).
Abbreviation DbM := (M Database Error).

Record Transaction := mkTransaction {
  tx_tables : Tables; tx_aborted : bool; tx_faults : list bool }.
Abbreviation TxM := (M Transaction Error).

Definition next_fault (fs : list bool) : bool * list bool :=
  match fs with [] => (false, []) | b :: fs' => (b, fs') end.

(** A statement on a connection: its own transaction. A statement that
    returns no tables violates a constraint. *)
Definition conn_exec {A} (f : Tables → option (A * Tables)) : DbM A := λ db,
  let '(fault, fs) := next_fault (db_faults db) in
  if fault then (Err Sqlx, mkDatabase (db_tables db) fs)
  else match f (db_tables db) with
       | None => (Err Sqlx, mkDatabase (db_tables db) fs)
       | Some (a, t) => (Ok a, mkDatabase t fs)
       end.
Definition conn_query {A} (f : Tables → A) : DbM A := conn_exec (λ t, Some (f t, t)).
Definition conn_update (f : Tables → Tables) : DbM unit := conn_exec (λ t, Some (tt, f t)).

(** A statement of a transaction: after a failed one the transaction is
    aborted and accepts no further statement. *)
Definition tx_exec {A} (f : Tables → option (A * Tables)) : TxM A := λ tx,
  if tx_aborted tx then (Err Sqlx, tx)
  else let '(fault, fs) := next_fault (tx_faults tx) in
       if fault then (Err Sqlx, mkTransaction (tx_tables tx) true fs)
       else match f (tx_tables tx) with
            | None => (Err Sqlx, mkTransaction (tx_tables tx) true fs)
            | Some (a, t) => (Ok a, mkTransaction t false fs)
            end.
Definition tx_query {A} (f : Tables → A) : TxM A := tx_exec (λ t, Some (f t, t)).
Definition tx_update (f : Tables → Tables) : TxM unit := tx_exec (λ t, Some (tt, f t)).

(** [Database::get] *)
Definition get : DbM unit := conn_query (λ _, tt).

(** [begin_transaction], the statements, [commit]: an error drops the
    transaction, which rolls it back; [COMMIT] of an aborted transaction is a
    rollback that the server reports as a success. *)
Definition run_tx {A} (body : TxM A) : DbM A := λ db,
  let '(fault, fs) := next_fault (db_faults db) in
  if fault then (Err Sqlx, mkDatabase (db_tables db) fs)
  else match body (mkTransaction (db_tables db) false fs) with
       | (Err e, tx) => (Err e, mkDatabase (db_tables db) (tx_faults tx))
       | (Ok a, tx) =>
           let '(fault, fs') := next_fault (tx_faults tx) in
           if fault then (Err Sqlx, mkDatabase (db_tables db) fs')
           else (Ok a, mkDatabase (if tx_aborted tx then db_tables db else tx_tables tx) fs')
       end.

(** ** Statements *)

Definition map_if {A} (p : A → bool) (f : A → A) (l : list A) : list A :=
  map (λ x, if p x then f x else x) l.

(** [col <> 0] is not true of a NULL. *)
Definition ne0 (c : option Z) : bool :=
  match c with Some z => negb (z =? 0) | None => false end.
Definition eq_col (c : option Z) (v : Z) : bool :=
  match c with Some z => z =? v | None => false end.
Definition str_eqb (a b : string) : bool := bool_decide (a = b).
Definition opt_str_eqb (a : option string) (b : string) : bool := bool_decide (a = Some b).

Definition max_col (l : list Z) : option Z :=
  match l with [] => None | z :: l' => Some (foldl Z.max z l') end.

Definition b2z (b : bool) : Z := if b then 1 else 0.

#[export] Instance set_s_busy : Setter s_busy := ltac:(mk_setter s_busy).
#[export] Instance set_s_status : Setter s_status := ltac:(mk_setter s_status).
#[export] Instance set_s_stoptime : Setter s_stoptime := ltac:(mk_setter s_stoptime).
#[export] Instance set_s_starttime : Setter s_starttime := ltac:(mk_setter s_starttime).
#[export] Instance set_s_errormsg : Setter s_errormsg := ltac:(mk_setter s_errormsg).
#[export] Instance set_s_machine : Setter s_machine := ltac:(mk_setter s_machine).
#[export] Instance set_s_overhead : Setter s_overhead := ltac:(mk_setter s_overhead).
#[export] Instance set_s_timesbuilt : Setter s_timesbuilt := ltac:(mk_setter s_timesbuilt).
#[export] Instance set_s_isnondeterministic : Setter s_isnondeterministic := ltac:(mk_setter s_isnondeterministic).
#[export] Instance set_r_finished : Setter r_finished := ltac:(mk_setter r_finished).
#[export] Instance set_r_buildstatus : Setter r_buildstatus := ltac:(mk_setter r_buildstatus).
#[export] Instance set_r_starttime : Setter r_starttime := ltac:(mk_setter r_starttime).
#[export] Instance set_r_stoptime : Setter r_stoptime := ltac:(mk_setter r_stoptime).
#[export] Instance set_r_size : Setter r_size := ltac:(mk_setter r_size).
#[export] Instance set_r_closuresize : Setter r_closuresize := ltac:(mk_setter r_closuresize).
#[export] Instance set_r_releasename : Setter r_releasename := ltac:(mk_setter r_releasename).
#[export] Instance set_r_iscachedbuild : Setter r_iscachedbuild := ltac:(mk_setter r_iscachedbuild).
#[export] Instance set_r_notificationpendingsince : Setter r_notificationpendingsince := ltac:(mk_setter r_notificationpendingsince).
#[export] Instance set_so_path : Setter so_path := ltac:(mk_setter so_path).
#[export] Instance set_or_path : Setter or_path := ltac:(mk_setter or_path).

Section Statements.
Context `{DE : DbEnv}.

Definition get_not_finished_builds_fast : DbM (list BuildSmall) :=
  conn_query (λ t, row_order (map (λ r, mkBuildSmall (r_id r) (r_globalpriority r))
    (filter (λ r, r_finished r = 0) (t_builds t)))).

Definition to_build_model (b : BuildRow) (j : JobsetRow) : BuildModel :=
  mkBuildModel (r_id b) (r_jobset_id b) (j_project j) (j_name j) (r_job b) (r_drvpath b)
    (r_maxsilent b) (r_timeout b) (r_timestamp b) (r_globalpriority b) (r_priority b).

(** [ORDER BY globalPriority desc, schedulingshares, random()] *)
Definition not_finished_order (x y : BuildRow * JobsetRow) : comparison :=
  cmp_then (r_globalpriority y.1 ?= r_globalpriority x.1)
           (j_schedulingshares x.2 ?= j_schedulingshares y.2).
Definition get_not_finished_builds : DbM (list BuildModel) :=
  conn_query (λ t,
    let joined := b ← t_builds t; j ← t_jobsets t;
      if (r_jobset_id b =? j_id j) && (r_finished b =? 0) then [(b, j)] else [] in
    map (λ bj, to_build_model bj.1 bj.2) (sort_by not_finished_order (row_order joined))).

Definition get_jobsets : DbM (list JobsetModel) :=
  conn_query (λ t, row_order (map (λ j,
    mkJobsetModel (j_project j) (j_name j) (j_schedulingshares j)) (t_jobsets t))).

Definition get_jobset_scheduling_shares (jobset_id : Z) : DbM (option Z) :=
  conn_query (λ t, j_schedulingshares <$>
    head (row_order (filter (λ j, j_id j = jobset_id) (t_jobsets t)))).

(** [now] is the server's clock, in nanoseconds. *)
Definition get_jobset_build_steps (now jobset_id scheduling_window : Z) : DbM (list BuildSteps) :=
  conn_query (λ t,
    row_order (s ← t_buildsteps t; b ← t_builds t;
      if (s_build s =? r_id b) && bool_decide (is_Some (s_starttime s)) &&
         match s_stoptime s with
         | Some stop => now - scheduling_window * 10 * 10 ^ 9 <? stop * 10 ^ 9
         | None => false
         end && (r_jobset_id b =? jobset_id)
      then [mkBuildSteps (s_starttime s) (s_stoptime s)] else [])).

Definition abort_build (now build_id : Z) : DbM unit :=
  conn_update (λ t, t <| t_builds ::= map_if
    (λ r, (r_id r =? build_id) && (r_finished r =? 0))
    (λ r, r <| r_finished := 1 |> <| r_buildstatus := Some (BuildStatus_as_i32 Aborted) |>
            <| r_starttime := Some (i32_wrap now) |> <| r_stoptime := Some (i32_wrap now) |>) |>).

Definition check_if_paths_failed (paths : list string) : DbM bool :=
  conn_query (λ t, negb (bool_decide (filter (λ p, p ∈ paths) (t_failedpaths t) = []))).

Definition clear_busy (stop_time : Z) : DbM unit :=
  conn_update (λ t, t <| t_buildsteps ::= map_if (λ s, negb (s_busy s =? 0))
    (λ s, s <| s_busy := 0 |> <| s_status := Some (BuildStatus_as_i32 Aborted) |>
            <| s_stoptime := Some stop_time |>) |>).

Definition update_build_step (step : UpdateBuildStep) : DbM unit :=
  conn_update (λ t, t <| t_buildsteps ::= map_if
    (λ s, (s_build s =? ubs_build_id step) && (s_stepnr s =? ubs_step_nr step)
          && negb (s_busy s =? 0) && negb (bool_decide (is_Some (s_status s))))
    (λ s, s <| s_busy := StepStatus_as_i32 (ubs_status step) |>) |>).

(** [EXTRACT(EPOCH FROM NOW())::INT4] rounds to the nearest second. *)
Definition insert_debug_build (now jobset_id : Z) (drv_path system : string) : DbM unit :=
  conn_update (λ t, t <| t_builds ::= λ bs, bs ++
    [mkBuildRow (fresh_build_id (t_builds t)) 0 ((now + 5 * 10 ^ 8) / 10 ^ 9) jobset_id
       "debug" "debug" drv_path system (Some 7200) (Some 36000) 0 0 100 0 0
       None None None None None None None None] |>).

Definition get_build_output_for_path (out_path : string) : DbM (option BuildOutputModel) :=
  conn_query (λ t, head (row_order (b ← t_builds t; o ← t_buildoutputs t;
    if (r_id b =? or_build o) && (r_finished b =? 1)
       && (eq_col (r_buildstatus b) 0 || eq_col (r_buildstatus b) 6)
       && opt_str_eqb (or_path o) out_path
    then [mkBuildOutputModel (r_id b) (r_buildstatus b) (r_releasename b)
            (r_closuresize b) (r_size b)] else []))).

Definition product_of_row (p : InsertBuildProduct) : BuildProductModel :=
  mkBuildProductModel (ip_type p) (ip_subtype p) (ip_file_size p) (ip_sha256hash p)
    (Some (ip_path p)) (ip_name p) (Some (ip_default_path p)).
Definition get_build_products_for_build_id (build_id : Z) : DbM (list BuildProductModel) :=
  conn_query (λ t, map product_of_row (sort_by (cmp_on ip_product_nr Z.compare)
    (row_order (filter (λ p, ip_build_id p = build_id) (t_buildproducts t))))).

Definition metric_of_row (m : InsertBuildMetric) : BuildMetricModel :=
  mkBuildMetricModel (im_name m) (im_unit m) (im_value m).
Definition get_build_metrics_for_build_id (build_id : Z) : DbM (list BuildMetricModel) :=
  conn_query (λ t, map metric_of_row
    (row_order (filter (λ m, im_build_id m = build_id) (t_buildmetrics t)))).

Definition get_status : DbM (option string) :=
  conn_query (λ t, t_systemstatus t !! "queue-runner").

(** *** Statements of a transaction *)

Definition update_build (build_id : Z) (v : UpdateBuild) : TxM unit :=
  tx_update (λ t, t <| t_builds ::= map_if (λ r, r_id r =? build_id)
    (λ r, r <| r_finished := 1 |> <| r_buildstatus := Some (BuildStatus_as_i32 (ub_status v)) |>
            <| r_starttime := Some (ub_start_time v) |> <| r_stoptime := Some (ub_stop_time v) |>
            <| r_size := Some (ub_size v) |> <| r_closuresize := Some (ub_closure_size v) |>
            <| r_releasename := ub_release_name v |>
            <| r_iscachedbuild := Some (b2z (ub_is_cached_build v)) |>
            <| r_notificationpendingsince := Some (ub_stop_time v) |>) |>).

Definition update_build_after_failure (build_id : Z) (status : BuildStatus)
    (start_time stop_time : Z) (is_cached_build : bool) : TxM unit :=
  tx_update (λ t, t <| t_builds ::= map_if
    (λ r, (r_id r =? build_id) && (r_finished r =? 0))
    (λ r, r <| r_finished := 1 |> <| r_buildstatus := Some (BuildStatus_as_i32 status) |>
            <| r_starttime := Some start_time |> <| r_stoptime := Some stop_time |>
            <| r_iscachedbuild := Some (b2z is_cached_build) |>
            <| r_notificationpendingsince := Some stop_time |>) |>).

(** [now] in seconds. *)
Definition update_build_after_previous_failure (now build_id : Z) (status : BuildStatus) : TxM unit :=
  tx_update (λ t, t <| t_builds ::= map_if
    (λ r, (r_id r =? build_id) && (r_finished r =? 0))
    (λ r, r <| r_finished := 1 |> <| r_buildstatus := Some (BuildStatus_as_i32 status) |>
            <| r_starttime := Some (i32_wrap now) |> <| r_stoptime := Some (i32_wrap now) |>
            <| r_iscachedbuild := Some 1 |>
            <| r_notificationpendingsince := Some (i32_wrap now) |>) |>).

Definition update_build_output (build_id : Z) (name path : string) : TxM unit :=
  tx_update (λ t, t <| t_buildoutputs ::= map_if
    (λ o, (or_build o =? build_id) && str_eqb (or_name o) name)
    (λ o, o <| or_path := Some path |>) |>).

(** The rows of a step that ran and failed. *)
Definition failed_step (s : StepRow) : bool :=
  ne0 (s_starttime s) && ne0 (s_stoptime s) && eq_col (s_status s) 1.

Definition get_last_build_step_id (path : string) : TxM (option Z) :=
  tx_query (λ t, max_col (map s_build
    (filter (λ s, opt_str_eqb (s_drvpath s) path && failed_step s) (t_buildsteps t)))).

Definition get_last_build_step_id_for_output_path (path : string) : TxM (option Z) :=
  tx_query (λ t, max_col (s ← t_buildsteps t; o ← t_buildstepoutputs t;
    if (s_build s =? so_build o) && failed_step s && opt_str_eqb (so_path o) path
    then [s_build s] else [])).

Definition get_last_build_step_id_for_output_with_drv (drv_path name : string) : TxM (option Z) :=
  tx_query (λ t, max_col (s ← t_buildsteps t; o ← t_buildstepoutputs t;
    if (s_build s =? so_build o) && failed_step s && opt_str_eqb (s_drvpath s) drv_path
       && str_eqb (so_name o) name
    then [s_build s] else [])).

Definition alloc_build_step (build_id : Z) : TxM Z :=
  tx_query (λ t, match max_col (map s_stepnr (filter (λ s, s_build s = build_id) (t_buildsteps t))) with
                 | None => 1
                 | Some v => i32_wrap (v + 1)
                 end).

Definition step_row_of (step : InsertBuildStep) : StepRow :=
  mkStepRow (ibs_build_id step) (ibs_step_nr step) (BuildType_as_i32 (ibs_type step))
    (Some (ibs_drv_path step)) (b2z (ibs_busy step)) (ibs_start_time step) (ibs_stop_time step)
    (ibs_platform step)
    (if decide (ibs_status step = Busy) then None
     else Some (BuildStatus_as_i32 (ibs_status step)))
    (ibs_propagated_from step) (ibs_error_msg step) (Some (ibs_machine step)) None None None.

(** [ON CONFLICT DO NOTHING]; the result says whether a row was inserted. *)
Definition insert_build_step (step : InsertBuildStep) : TxM bool :=
  tx_exec (λ t,
    if step_conflict (t_buildsteps t) (ibs_build_id step) (ibs_step_nr step) then Some (false, t)
    else Some (true, t <| t_buildsteps ::= λ l, l ++ [step_row_of step] |>)).

Definition insert_build_step_outputs (outputs : list InsertBuildStepOutput) : TxM unit :=
  match outputs with
  | [] => mret tt
  | _ => tx_update (λ t, t <| t_buildstepoutputs ::= λ l, l ++
           map (λ o, mkStepOutputRow (ibo_build_id o) (ibo_step_nr o) (ibo_name o) (ibo_path o))
             outputs |>)
  end.

Definition update_build_step_output (build_id step_nr : Z) (name path : string) : TxM unit :=
  tx_update (λ t, t <| t_buildstepoutputs ::= map_if
    (λ o, (so_build o =? build_id) && (so_stepnr o =? step_nr) && str_eqb (so_name o) name)
    (λ o, o <| so_path := Some path |>) |>).

Definition update_build_step_in_finish (res : UpdateBuildStepInFinish) : TxM unit :=
  tx_update (λ t, t <| t_buildsteps ::= map_if
    (λ s, (s_build s =? uf_build_id res) && (s_stepnr s =? uf_step_nr res))
    (λ s, s <| s_busy := 0 |> <| s_status := Some (BuildStatus_as_i32 (uf_status res)) |>
            <| s_errormsg := uf_error_msg res |> <| s_starttime := Some (uf_start_time res) |>
            <| s_stoptime := Some (uf_stop_time res) |> <| s_machine := uf_machine res |>
            <| s_overhead := uf_overhead res |> <| s_timesbuilt := uf_times_built res |>
            <| s_isnondeterministic := uf_is_non_deterministic res |>) |>).

Definition get_drv_path_from_build_step (build_id step_nr : Z) : TxM (option string) :=
  tx_query (λ t, head (row_order (filter
    (λ s, s_build s = build_id ∧ s_stepnr s = step_nr) (t_buildsteps t))) ≫= s_drvpath).

Definition check_if_build_is_not_finished (build_id : Z) : TxM bool :=
  tx_query (λ t, bool_decide (is_Some (head (row_order (filter
    (λ r, r_id r = build_id ∧ r_finished r = 0) (t_builds t)))))).

Definition insert_build_product (p : InsertBuildProduct) : TxM unit :=
  tx_update (λ t, t <| t_buildproducts ::= λ l, l ++ [p] |>).
Definition delete_build_products_by_build_id (build_id : Z) : TxM unit :=
  tx_update (λ t, t <| t_buildproducts ::= filter (λ p, ip_build_id p ≠ build_id) |>).
Definition insert_build_metric (m : InsertBuildMetric) : TxM unit :=
  tx_update (λ t, t <| t_buildmetrics ::= λ l, l ++ [m] |>).
Definition delete_build_metrics_by_build_id (build_id : Z) : TxM unit :=
  tx_update (λ t, t <| t_buildmetrics ::= filter (λ m, im_build_id m ≠ build_id) |>).

Definition insert_failed_paths (path : string) : TxM unit :=
  tx_exec (λ t, if failedpath_conflict (t_failedpaths t) path then None
                else Some (tt, t <| t_failedpaths ::= λ l, l ++ [path] |>)).

Definition upsert_status (status : string) : TxM unit :=
  tx_update (λ t, t <| t_systemstatus ::= <["queue-runner" := status]> |>).

(** *** Notifications *)

Definition TAB : string := String "009"%char "".

Definition notify_any (channel msg : string) : TxM unit :=
  tx_update (λ t, t <| t_notifications ::= λ l, l ++ [(channel, msg)] |>).
Definition notify_builds_added : TxM unit := notify_any "builds_added" "?".
Definition notify_build_started (build_id : Z) : TxM unit :=
  notify_any "build_started" (show_Z build_id).
Definition notify_build_finished (build_id : Z) (dependent_ids : list Z) : TxM unit :=
  notify_any "build_finished" (join TAB (show_Z build_id :: map show_Z dependent_ids)).
Definition notify_step_started (build_id step_nr : Z) : TxM unit :=
  notify_any "step_started" (show_Z build_id +:+ TAB +:+ show_Z step_nr).
Definition notify_step_finished (build_id step_nr : Z) (log_file : string) : TxM unit :=
  notify_any "step_finished"
    (show_Z build_id +:+ TAB +:+ show_Z step_nr +:+ TAB +:+ log_file).
Definition notify_dump_status : TxM unit := notify_any "dump_status" "".
Definition notify_status_dumped : TxM unit := notify_any "status_dumped" "".

(** *** Composite operations *)

(** The loop that allocates a step number and tries to insert the row, until
    the insert does not conflict. *)
Fixpoint insert_step_loop (fuel : nat) (build_id : Z) (mk : Z → InsertBuildStep) : TxM Z :=
  match fuel with
  | O => throw Fuel
  | S fuel' =>
      step_nr ← alloc_build_step build_id;
      inserted ← insert_build_step (mk step_nr);
      if (inserted : bool) then mret step_nr else insert_step_loop fuel' build_id mk
  end.

Definition create_build_step (fuel : nat) (start_time : option Z) (build_id : BuildID)
    (drv_path : string) (platform : option string) (machine : string) (status : BuildStatus)
    (error_msg : option string) (propagated_from : option BuildID)
    (outputs : list (string * option string)) : TxM Z :=
  step_nr ← insert_step_loop fuel build_id (λ step_nr,
    mkInsertBuildStep build_id step_nr TBuild drv_path status (bool_decide (status = Busy))
      start_time (if decide (status = Busy) then None else start_time)
      platform propagated_from error_msg machine);
  insert_build_step_outputs
    (map (λ np, mkInsertBuildStepOutput build_id step_nr np.1 np.2) outputs);;
  (if decide (status = Busy) then notify_step_started build_id step_nr else mret tt);;
  mret step_nr.

Definition create_substitution_step (fuel : nat) (start_time stop_time : Z) (build_id : BuildID)
    (drv_path : string) (output : string * option string) : TxM Z :=
  step_nr ← insert_step_loop fuel build_id (λ step_nr,
    mkInsertBuildStep build_id step_nr TSubstitution drv_path Success false
      (Some start_time) (Some stop_time) None None None "");
  insert_build_step_outputs [mkInsertBuildStepOutput build_id step_nr output.1 output.2];;
  mret step_nr.

Context `{HI : HashIter}.

Definition try_i64 (z : Z) : TxM Z := lift_opt TryFromInt (try_i 64 z).
Definition try_i32 (z : Z) : TxM Z := lift_opt TryFromInt (try_i 32 z).

Definition insert_products (build_id : Z) : Z → list BuildProductModel → TxM unit :=
  fix go nr ps :=
    match ps with
    | [] => mret tt
    | p :: ps' =>
        n ← try_i32 (nr + 1);
        insert_build_product (mkInsertBuildProduct build_id n (bp_type p) (bp_subtype p)
          (bp_filesize p) (bp_sha256hash p) (default "" (bp_path p)) (bp_name p)
          (default "" (bp_defaultpath p)));;
        go (nr + 1) ps'
    end.

Definition mark_succeeded_build (build : MarkBuildSuccessData) (is_cached_build : bool)
    (start_time stop_time : Z) : TxM unit :=
  if mb_finished_in_db build then mret tt
  else
    not_finished ← check_if_build_is_not_finished (mb_id build);
    if negb not_finished then mret tt
    else
      size ← try_i64 (mb_size build);
      closure_size ← try_i64 (mb_closure_size build);
      update_build (mb_id build) (mkUpdateBuild
        (if mb_failed build then FailedWithOutput else Success)
        start_time stop_time size closure_size (mb_release_name build) is_cached_build);;
      for_each (iter (mb_outputs build))
        (λ np, update_build_output (mb_id build) np.1 np.2);;
      delete_build_products_by_build_id (mb_id build);;
      insert_products (mb_id build) 0 (mb_products build);;
      delete_build_metrics_by_build_id (mb_id build);;
      for_each (mb_metrics build) (λ m,
        ts ← try_i32 (mb_timestamp build);
        insert_build_metric (mkInsertBuildMetric (mb_id build) (bmt_name m) (bmt_unit m)
          (bmt_value m) (mb_project_name build) (mb_jobset_name build) (mb_name build) ts)).

End Statements.

(** ** Lemmas *)

Lemma BuildStatus_from_as s : BuildStatus_from_i32 (BuildStatus_as_i32 s) = Some s.
Proof. by destruct s. Qed.

Lemma BuildStatus_from_Some v s :
  BuildStatus_from_i32 v = Some s → v = BuildStatus_as_i32 s.
Proof. unfold BuildStatus_from_i32. intros H. repeat (case_match; simplify_eq; try done). Qed.

(** A healthy transaction on tables [t]: not aborted, no failure to come. *)
Definition tx_ok (t : Tables) : Transaction := mkTransaction t false [].
Definition db_ok (t : Tables) : Database := mkDatabase t [].

Section Run.
Context {A : Type}.

Lemma tx_exec_ok (f : Tables → option (A * Tables)) t a t' :
  f t = Some (a, t') → tx_exec f (tx_ok t) = (Ok a, tx_ok t').
Proof. intros H. unfold tx_exec, tx_ok. cbn. by rewrite H. Qed.

Lemma tx_query_ok (f : Tables → A) t : tx_query f (tx_ok t) = (Ok (f t), tx_ok t).
Proof. by apply tx_exec_ok. Qed.

Lemma tx_update_ok (f : Tables → Tables) t : tx_update f (tx_ok t) = (Ok tt, tx_ok (f t)).
Proof. done. Qed.

Lemma conn_query_ok (f : Tables → A) t : conn_query f (db_ok t) = (Ok (f t), db_ok t).
Proof. done. Qed.

Lemma run_tx_ok (body : TxM A) t a t' :
  body (tx_ok t) = (Ok a, tx_ok t') → run_tx body (db_ok t) = (Ok a, db_ok t').
Proof. unfold run_tx, db_ok, tx_ok. cbn. by intros ->. Qed.

(** A failed transaction leaves the tables as they were. *)
Lemma run_tx_Err (body : TxM A) db e db' :
  run_tx body db = (Err e, db') → db_tables db' = db_tables db.
Proof. unfold run_tx. intros H. repeat (case_match; simplify_eq/=; try done). Qed.

(** A property of the tables that holds before a transaction and that its
    statements keep, holds after. *)
Lemma run_tx_preserves (P : Tables → Prop) (body : TxM A) :
  preserves (λ tx, P (tx_tables tx)) body →
  preserves (λ db, P (db_tables db)) (run_tx body).
Proof.
  intros Hb db Hdb. unfold run_tx. destruct (next_fault (db_faults db)) as [[] fs]; [done|].
  specialize (Hb (mkTransaction (db_tables db) false fs) Hdb).
  destruct (body _) as [[a|e] tx]; [|done]. destruct (next_fault (tx_faults tx)) as [[] fs']; [done|].
  by destruct (tx_aborted tx).
Qed.

Lemma tx_exec_preserves (P : Tables → Prop) (f : Tables → option (A * Tables)) :
  (∀ t a t', P t → f t = Some (a, t') → P t') →
  preserves (λ tx, P (tx_tables tx)) (tx_exec f).
Proof.
  intros Hf tx Htx. unfold tx_exec. destruct (tx_aborted tx); [done|].
  destruct (next_fault (tx_faults tx)) as [[] fs]; [done|].
  destruct (f (tx_tables tx)) as [[a t]|] eqn:E; cbn; eauto.
Qed.

Lemma tx_query_preserves (P : Tables → Prop) (f : Tables → A) :
  preserves (λ tx, P (tx_tables tx)) (tx_query f).
Proof. apply tx_exec_preserves. by intros t a t' H [= <- <-]. Qed.
End Run.

Lemma tx_update_preserves (P : Tables → Prop) (f : Tables → Tables) :
  (∀ t, P t → P (f t)) → preserves (λ tx, P (tx_tables tx)) (tx_update f).
Proof. intros Hf. apply tx_exec_preserves. intros t a t' H [= <- <-]. auto. Qed.

#[export] Hint Resolve tx_query_preserves : runner.

(** Open the statements of a transaction, one [preserves] at a time. *)
Ltac tx_pres :=
  repeat first
    [ apply preserves_bind; [|intros ?]
    | apply preserves_for_each; intros ? ?
    | apply preserves_ret | apply preserves_lift | apply preserves_gets
    | apply tx_query_preserves
    | match goal with
      | |- preserves _ (if ?b then _ else _) => destruct b
      | |- preserves _ (match ?b with _ => _ end) => destruct b
      end ].

Lemma elem_of_map_if {A} (p : A → bool) f (l : list A) x :
  x ∈ l → p x = false → x ∈ map_if p f l.
Proof.
  intros Hx Hp. unfold map_if. apply list_elem_of_fmap. exists x. by rewrite Hp.
Qed.

Lemma map_if_nop {A} (p : A → bool) f (l : list A) :
  Forall (λ x, p x = false) l → map_if p f l = l.
Proof. unfold map_if. induction 1 as [|x l Hx _ IH]; cbn; [done|]. by rewrite Hx, IH. Qed.

Lemma map_map_if {A B} (g : A → B) (p : A → bool) f (l : list A) :
  (∀ x, g (f x) = g x) → map g (map_if p f l) = map g l.
Proof.
  intros H. unfold map_if. rewrite map_map. apply map_ext. intros x.
  destruct (p x); by rewrite ?H.
Qed.

Lemma foldl_max_le l z x : x ∈ z :: l → x ≤ foldl Z.max z l.
Proof.
  revert z x. induction l as [|y l IH]; intros z x; cbn.
  - intros ->%list_elem_of_singleton. lia.
  - intros [->|[->|Hx]%elem_of_cons]%elem_of_cons.
    + etransitivity; [apply (Z.le_max_l z y)|apply IH; left].
    + etransitivity; [apply (Z.le_max_r z y)|apply IH; left].
    + apply IH. by right.
Qed.

Lemma foldl_max_in l z : foldl Z.max z l ∈ z :: l.
Proof.
  revert z. induction l as [|y l IH]; intros z; cbn; [by left|].
  destruct (Z.max_spec z y) as [[_ ->]|[_ ->]].
  - right. apply IH.
  - pose proof (IH z) as [->|H]%elem_of_cons; [by left|by right; right].
Qed.

Lemma max_col_Some l m : max_col l = Some m ↔ m ∈ l ∧ Forall (λ x, x ≤ m) l.
Proof.
  destruct l as [|z l]; cbn.
  { split; [done|]. by intros [?%not_elem_of_nil _]. }
  split.
  - intros [= <-]. split; [apply foldl_max_in|]. apply Forall_forall. apply foldl_max_le.
  - intros [Hm Hall]. f_equal. rewrite Forall_forall in Hall.
    apply Z.le_antisymm; [apply Hall, foldl_max_in|by apply foldl_max_le].
Qed.

Lemma max_col_None l : max_col l = None ↔ l = [].
Proof. by destruct l. Qed.

Section Steps.
Context `{DE : DbEnv}.

(** The numbers a build's steps have. *)
Definition step_nrs (t : Tables) (b : Z) : list Z :=
  map s_stepnr (filter (λ s, s_build s = b) (t_buildsteps t)).

Definition next_step_nr (t : Tables) (b : Z) : Z :=
  match max_col (step_nrs t b) with None => 1 | Some v => v + 1 end.

(** Every build still has a step number to give: no counter is at the end of
    its 32 bits. *)
Definition nrs_room (t : Tables) (b : Z) : bool :=
  forallb (λ n, (- 2 ^ 31 - 1 <=? n) && (n <? 2 ^ 31 - 1)) (step_nrs t b).

Lemma elem_of_step_nrs t b n :
  n ∈ step_nrs t b ↔ Exists (λ r, s_build r = b ∧ s_stepnr r = n) (t_buildsteps t).
Proof.
  unfold step_nrs. rewrite list_elem_of_fmap, Exists_exists. split.
  - intros (r & -> & [Hb Hr]%list_elem_of_filter). eauto.
  - intros (r & Hr & Hb & <-). exists r. by rewrite list_elem_of_filter.
Qed.

Lemma next_step_nr_fresh t b : next_step_nr t b ∉ step_nrs t b.
Proof.
  unfold next_step_nr. destruct (max_col (step_nrs t b)) as [m|] eqn:E.
  - apply max_col_Some in E as [_ Hall]. rewrite Forall_forall in Hall.
    intros H%Hall. lia.
  - apply max_col_None in E as ->. apply not_elem_of_nil.
Qed.

Lemma alloc_next t b :
  nrs_room t b = true →
  match max_col (step_nrs t b) with None => 1 | Some v => i32_wrap (v + 1) end
  = next_step_nr t b.
Proof.
  unfold nrs_room, next_step_nr. intros H.
  destruct (max_col (step_nrs t b)) as [m|] eqn:E; [|done].
  apply max_col_Some in E as [Hm _]. rewrite forallb_forall in H.
  rewrite list_elem_of_In in Hm. specialize (H _ Hm). bool_prop.
  apply i_wrap_small; [lia|]. unfold in_i. cbn. apply andb_true_iff. rewrite Z.leb_le, Z.ltb_lt. lia.
Qed.

Lemma alloc_build_step_eq b :
  alloc_build_step b = tx_query (λ t,
    match max_col (step_nrs t b) with None => 1 | Some v => i32_wrap (v + 1) end).
Proof. done. Qed.

Lemma step_conflict_false t b n :
  n ∉ step_nrs t b → step_conflict (t_buildsteps t) b n = false.
Proof.
  intros Hn. apply not_true_is_false. intros H%step_conflict_key.
  by apply Hn, elem_of_step_nrs.
Qed.

(** One round of the loop is enough. *)
Lemma insert_step_loop_ok fuel t b mk :
  nrs_room t b = true →
  (∀ n, ibs_build_id (mk n) = b ∧ ibs_step_nr (mk n) = n) →
  insert_step_loop (S fuel) b mk (tx_ok t) =
  (Ok (next_step_nr t b),
   tx_ok (t <| t_buildsteps ::= λ l, l ++ [step_row_of (mk (next_step_nr t b))] |>)).
Proof.
  intros Hroom Hmk. cbn [insert_step_loop]. rewrite bind_run, alloc_build_step_eq, tx_query_ok.
  rewrite alloc_next by done. rewrite bind_run. unfold insert_build_step.
  destruct (Hmk (next_step_nr t b)) as [-> ->].
  erewrite tx_exec_ok; [|by rewrite step_conflict_false by apply next_step_nr_fresh]. done.
Qed.

(** Whatever fails, the loop does not run a second round. *)
Lemma insert_step_loop_Fuel fuel b mk tx :
  nrs_room (tx_tables tx) b = true →
  (∀ n, ibs_build_id (mk n) = b ∧ ibs_step_nr (mk n) = n) →
  (insert_step_loop (S fuel) b mk tx).1 ≠ Err Fuel.
Proof.
  intros Hroom Hmk. cbn [insert_step_loop]. rewrite bind_run, alloc_build_step_eq.
  unfold tx_query, tx_exec at 1. destruct (tx_aborted tx); [done|].
  destruct (next_fault (tx_faults tx)) as [[] fs]; [done|].
  rewrite alloc_next by done. rewrite bind_run. unfold insert_build_step, tx_exec. cbn [tx_aborted tx_faults tx_tables].
  destruct (next_fault fs) as [[] fs']; [done|].
  destruct (Hmk (next_step_nr (tx_tables tx) b)) as [-> ->].
  rewrite step_conflict_false by apply next_step_nr_fresh. done.
Qed.

(** *** (build, stepnr) is a key of the step table *)

Definition step_key (s : StepRow) : Z * Z := (s_build s, s_stepnr s).
Definition steps_keyed (t : Tables) : Prop := NoDup (map step_key (t_buildsteps t)).

Lemma insert_build_step_keyed step :
  preserves (λ tx, steps_keyed (tx_tables tx)) (insert_build_step step).
Proof.
  apply tx_exec_preserves. intros t a t' Ht H.
  destruct (step_conflict (t_buildsteps t) _ _) eqn:E; [by simplify_eq|].
  injection H as <- <-. unfold steps_keyed in *.
  change (t_buildsteps _) with (t_buildsteps t ++ [step_row_of step]).
  rewrite map_app. apply NoDup_app.
  split_and!; [done| |cbn; apply NoDup_singleton].
  intros k (r & -> & Hr)%list_elem_of_fmap Hk. cbn in Hk.
  apply list_elem_of_singleton in Hk. injection Hk as Hb Hn.
  assert (step_conflict (t_buildsteps t) (ibs_build_id step) (ibs_step_nr step) = true); [|congruence].
  apply step_conflict_key, Exists_exists. exists r. by split_and!.
Qed.

Lemma update_steps_keyed f :
  (∀ t, map step_key (t_buildsteps (f t)) = map step_key (t_buildsteps t)) →
  preserves (λ tx, steps_keyed (tx_tables tx)) (tx_update f).
Proof. intros Hf. apply tx_update_preserves. intros t. unfold steps_keyed. by rewrite Hf. Qed.

Lemma insert_step_loop_keyed fuel b mk :
  preserves (λ tx, steps_keyed (tx_tables tx)) (insert_step_loop fuel b mk).
Proof.
  induction fuel as [|fuel IH]; cbn; [by intros tx|].
  apply preserves_bind; [apply tx_query_preserves|intros n].
  apply preserves_bind; [apply insert_build_step_keyed|intros []]; [apply preserves_ret|done].
Qed.

Lemma create_build_step_keyed fuel st b d p m s e pf os :
  preserves (λ tx, steps_keyed (tx_tables tx)) (create_build_step fuel st b d p m s e pf os).
Proof.
  unfold create_build_step. apply preserves_bind; [apply insert_step_loop_keyed|intros n].
  apply preserves_bind; [|intros _; apply preserves_bind; [|intros _; apply preserves_ret]].
  - unfold insert_build_step_outputs. destruct os; [apply preserves_ret|by apply update_steps_keyed].
  - destruct (decide _); [by apply update_steps_keyed|apply preserves_ret].
Qed.
End Steps.

(** ** Finished builds are final *)

Definition ids_unique (t : Tables) : Prop := NoDup (map r_id (t_builds t)).

(** *** The life of a build

    What the table promises of a build: it is submitted once, and what was
    submitted is never changed; it is finished at most once, with one of the
    statuses the code has, and stays as it is from then on. *)

(** The columns a submission fixes. *)
Record Submission := mkSubmission {
  su_timestamp : Z; su_jobset_id : Z; su_job : string; su_nixname : string; su_drvpath : string;
  su_system : string; su_maxsilent : option Z; su_timeout : option Z; su_ischannel : Z;
  su_iscurrent : Z; su_priority : Z; su_globalpriority : Z; su_keep : Z }.

(** The columns a build gets when it finishes. *)
Record Outcome := mkOutcome {
  ou_finished : Z; ou_buildstatus : option Z; ou_starttime : option Z; ou_stoptime : option Z;
  ou_size : option Z; ou_closuresize : option Z; ou_releasename : option string;
  ou_iscachedbuild : option Z; ou_notificationpendingsince : option Z }.

Inductive Life :=
| Waiting (sub : Submission)
| Done (sub : Submission) (out : Outcome).

Definition submission (r : BuildRow) : Submission :=
  mkSubmission (r_timestamp r) (r_jobset_id r) (r_job r) (r_nixname r) (r_drvpath r) (r_system r)
    (r_maxsilent r) (r_timeout r) (r_ischannel r) (r_iscurrent r) (r_priority r)
    (r_globalpriority r) (r_keep r).
Definition outcome (r : BuildRow) : Outcome :=
  mkOutcome (r_finished r) (r_buildstatus r) (r_starttime r) (r_stoptime r) (r_size r)
    (r_closuresize r) (r_releasename r) (r_iscachedbuild r) (r_notificationpendingsince r).
Definition life (r : BuildRow) : Life :=
  if decide (r_finished r = 0) then Waiting (submission r) else Done (submission r) (outcome r).

(** The builds of the tables, by their ids. *)
Definition lives (t : Tables) : gmap Z Life :=
  list_to_map (map (λ r, (r_id r, life r)) (t_builds t)).

(** What may become of one id. *)
Inductive life_step : option Life → option Life → Prop :=
| life_submit s : life_step None (Some (Waiting s))
| life_finish s out st :
    ou_finished out = 1 → ou_buildstatus out = Some (BuildStatus_as_i32 st) →
    life_step (Some (Waiting s)) (Some (Done s out)).

(** What may become of all the builds, one at a time. *)
Inductive lives_step (m : gmap Z Life) : gmap Z Life → Prop :=
| lives_at id l : life_step (m !! id) (Some l) → lives_step m (<[id := l]> m).

Lemma life_inj r r' : r_id r = r_id r' → life r = life r' → r_finished r ≠ 0 → r = r'.
Proof.
  unfold life. intros Hid Hl Hf. rewrite decide_False in Hl by done.
  destruct (decide _); [done|]. destruct r, r'. cbn in Hid. subst. by injection Hl as <- <- <- <- <- <- <- <- <- <- <- <- <- <- <- <- <- <- <- <- <- <-.
Qed.

Lemma done_is_final s out o : rtc life_step (Some (Done s out)) o → o = Some (Done s out).
Proof. inversion 1 as [|? ? ? H1]; [done|]. inversion H1. Qed.

(** The steps of one id are steps of the table. *)
Lemma lives_step_at m id o :
  rtc life_step (m !! id) o → rtc lives_step m (partial_alter (λ _, o) id m).
Proof.
  intros H. remember (m !! id) as o0 eqn:E. revert m E.
  induction H as [o|o1 o2 o3 H1 H2 IH]; intros m ->.
  { by rewrite partial_alter_id. }
  assert (∃ l, o2 = Some l) as [l ->] by (inversion H1; eauto).
  eapply rtc_l; [apply lives_at, H1|]. specialize (IH (<[id := l]> m)).
  rewrite lookup_insert_eq in IH. specialize (IH eq_refl).
  by rewrite partial_alter_insert_eq in IH.
Qed.

Lemma lives_steps (m m' : gmap Z Life) :
  (∀ id, rtc life_step (m !! id) (m' !! id)) → rtc lives_step m m'.
Proof.
  intros H. assert (∀ id, id ∉ dom m ∪ dom m' → m !! id = m' !! id) as Hx.
  { intros id [?%not_elem_of_dom ?%not_elem_of_dom]%not_elem_of_union. congruence. }
  revert Hx. generalize (dom m ∪ dom m') as X. intros X. revert m H.
  induction X as [|x X Hn IH] using set_ind_L; intros m H Hx.
  { assert (m = m') as ->; [|done]. apply map_eq. intros id. apply Hx. set_solver. }
  etrans; [apply (lives_step_at m x (m' !! x)), H|]. apply IH; intros id.
  - destruct (decide (id = x)) as [->|]; [by rewrite lookup_partial_alter_eq|by rewrite lookup_partial_alter_ne].
  - destruct (decide (id = x)) as [->|]; [by rewrite lookup_partial_alter_eq|].
    rewrite lookup_partial_alter_ne by done. intros ?. apply Hx. set_solver.
Qed.

(** The builds of [t] are the builds of [t0] at a later point of their lives. *)
Definition keeps_lives (t0 t : Tables) : Prop :=
  ids_unique t ∧ ∀ id, rtc life_step (lives t0 !! id) (lives t !! id).

(** An assignment that finishes a build. *)
Definition finishes (f : BuildRow → BuildRow) : Prop :=
  ∀ r, r_id (f r) = r_id r ∧ submission (f r) = submission r ∧ r_finished (f r) = 1 ∧
    ∃ st, r_buildstatus (f r) = Some (BuildStatus_as_i32 st).

Ltac finishing := solve [intros ?; split_and!; [reflexivity..|eexists; reflexivity]].

Lemma finishes_life f r : finishes f → r_finished r = 0 → life_step (Some (life r)) (Some (life (f r))).
Proof.
  intros Hf Hr. destruct (Hf r) as (_ & Hs & H1 & st & Hst). unfold life.
  rewrite decide_True, decide_False by (done || congruence). rewrite Hs. by apply (life_finish _ _ st).
Qed.

Lemma lives_map_if (p : BuildRow → bool) f l id :
  finishes f → (∀ r, r ∈ l → p r = true → r_finished r = 0) →
  let row r := (r_id r, life r) in
  rtc life_step ((list_to_map (map row l) : gmap Z Life) !! id)
    ((list_to_map (map row (map_if p f l)) : gmap Z Life) !! id).
Proof.
  intros Hf Hp row. induction l as [|r l IH]; [done|]. cbn.
  assert (r_id (if p r then f r else r) = r_id r) as -> by (destruct (p r); [apply Hf|done]).
  destruct (decide (r_id r = id)) as [->|Hne].
  - rewrite !lookup_insert_eq. destruct (p r) eqn:E; [|done].
    apply rtc_once, finishes_life; [done|]. apply Hp; [left|done].
  - rewrite !lookup_insert_ne by done. apply IH. intros r' ?. apply Hp. by right.
Qed.

Lemma keeps_lives_update t0 (p : BuildRow → bool) (f : BuildRow → BuildRow) t :
  finishes f →
  (∀ r, r ∈ t_builds t → p r = true → r_finished r = 0) →
  keeps_lives t0 t → keeps_lives t0 (t <| t_builds ::= map_if p f |>).
Proof.
  intros Hf Hp [Hu Hk]. split.
  - unfold ids_unique in *. cbn [upd set_t_builds t_builds]. rewrite map_map_if; [done|]. intros r. apply Hf.
  - intros id. etrans; [apply Hk|]. by apply lives_map_if.
Qed.

Lemma keeps_lives_same t0 t t' :
  t_builds t' = t_builds t → keeps_lives t0 t → keeps_lives t0 t'.
Proof. unfold keeps_lives, ids_unique, lives. by intros ->. Qed.

(** A new row under a new id. *)
Lemma keeps_lives_submit t0 t r :
  r_id r ∉ map r_id (t_builds t) → r_finished r = 0 →
  keeps_lives t0 t → keeps_lives t0 (t <| t_builds ::= λ l, l ++ [r] |>).
Proof.
  intros Hn Hr [Hu Hk]. split.
  - unfold ids_unique in *. cbn. rewrite map_app. apply NoDup_app. split; [done|].
    split; [|apply NoDup_singleton]. intros x Hx Hin%list_elem_of_singleton. by subst x.
  - intros id. etrans; [apply Hk|]. unfold lives. cbn. rewrite map_app, list_to_map_app.
    set (m := list_to_map (map _ (t_builds t)) : gmap Z Life). cbn.
    destruct (m !! id) as [l|] eqn:E; [by rewrite (lookup_union_Some_l _ _ _ _ E)|].
    rewrite lookup_union_r by done. destruct (decide (r_id r = id)) as [->|].
    + rewrite lookup_insert_eq. unfold life. rewrite decide_True by done. apply rtc_once, life_submit.
    + by rewrite lookup_insert_ne.
Qed.

(** A finished build keeps its row. *)
Lemma keeps_lives_finished t0 t r :
  ids_unique t0 → keeps_lives t0 t → r ∈ t_builds t0 → r_finished r ≠ 0 → r ∈ t_builds t.
Proof.
  intros Hu [_ Hk] Hr Hf. specialize (Hk (r_id r)).
  assert (lives t0 !! r_id r = Some (life r)) as E.
  { apply elem_of_list_to_map_1; [|by apply (list_elem_of_fmap_2 (λ r, (r_id r, life r)))].
    rewrite <-list_fmap_compose. apply Hu. }
  rewrite E in Hk. assert (lives t !! r_id r = Some (life r)) as E'.
  { revert Hk. unfold life. rewrite decide_False by done. apply done_is_final. }
  apply elem_of_list_to_map_2, list_elem_of_fmap in E' as (r' & [= Hid Hl] & Hr').
  by rewrite (life_inj r r').
Qed.

Lemma unique_id t r r' :
  ids_unique t → r ∈ t_builds t → r' ∈ t_builds t → r_id r = r_id r' → r = r'.
Proof.
  unfold ids_unique. induction (t_builds t) as [|x l IH]; cbn.
  { by intros _ ?%not_elem_of_nil. }
  intros [Hx Hl]%NoDup_cons [->|Hr]%elem_of_cons [->|Hr']%elem_of_cons Hid; try done.
  - exfalso. apply Hx. rewrite Hid. by apply list_elem_of_fmap_2.
  - exfalso. apply Hx. rewrite <-Hid. by apply list_elem_of_fmap_2.
  - by apply IH.
Qed.

Section Finished.
Context `{DE : DbEnv} `{HI : HashIter} (t0 : Tables).
Abbreviation KF := (λ tx, keeps_lives t0 (tx_tables tx)).

Lemma update_other_keeps (f : Tables → Tables) :
  (∀ t, t_builds (f t) = t_builds t) → preserves KF (tx_update f).
Proof.
  intros Hf. apply tx_update_preserves. intros t. by apply keeps_lives_same.
Qed.

Lemma update_build_after_failure_keeps b s st sp c :
  preserves KF (update_build_after_failure b s st sp c).
Proof.
  apply tx_update_preserves. intros t. apply keeps_lives_update; [finishing|].
  intros r _ H. bool_prop. done.
Qed.

Lemma update_build_after_previous_failure_keeps now b s :
  preserves KF (update_build_after_previous_failure now b s).
Proof.
  apply tx_update_preserves. intros t. apply keeps_lives_update; [finishing|].
  intros r _ H. bool_prop. done.
Qed.

Lemma head_row_order {A} (l : list A) x : head (row_order l) = Some x → x ∈ l.
Proof.
  intros H. rewrite <-(row_order_perm l). destruct (row_order l); [done|].
  injection H as ->. left.
Qed.

(** [update_build] on a row the transaction has found unfinished. *)
Lemma update_build_keeps b v :
  hoare (λ tx, KF tx ∧ ∃ r, r ∈ t_builds (tx_tables tx) ∧ r_id r = b ∧ r_finished r = 0)
    (update_build b v) (λ _, KF) KF.
Proof.
  intros tx [Hk (r0 & Hr0 & Hid0 & Hf0)]. unfold update_build, tx_update, tx_exec.
  destruct (tx_aborted tx); [done|]. destruct (next_fault (tx_faults tx)) as [[] fs]; [done|].
  cbn [tx_tables]. apply keeps_lives_update; [finishing| |done].
  intros r Hr H. bool_prop. assert (r = r0) as ->; [|done].
  apply (unique_id (tx_tables tx)); [apply Hk|done|done|congruence].
Qed.

Lemma check_not_finished_spec b :
  hoare KF (check_if_build_is_not_finished b)
    (λ nf tx, KF tx ∧ (nf = true → ∃ r, r ∈ t_builds (tx_tables tx) ∧ r_id r = b ∧ r_finished r = 0))
    KF.
Proof.
  intros tx Hk. unfold check_if_build_is_not_finished, tx_query, tx_exec.
  destruct (tx_aborted tx); [done|]. destruct (next_fault (tx_faults tx)) as [[] fs]; [done|].
  cbn [tx_tables]. split; [done|]. intros H. bool_prop. destruct H as [r Hr%head_row_order].
  apply list_elem_of_filter in Hr as [[? ?] ?]. eauto.
Qed.

Lemma insert_products_keeps b nr ps : preserves KF (insert_products b nr ps).
Proof.
  revert nr. induction ps as [|p ps IH]; intros nr; cbn; [apply preserves_ret|].
  apply preserves_bind; [apply preserves_lift|intros n].
  apply preserves_bind; [by apply update_other_keeps|intros _; apply IH].
Qed.

Lemma mark_succeeded_build_keeps d c st sp :
  preserves KF (mark_succeeded_build d c st sp).
Proof.
  unfold mark_succeeded_build. destruct (mb_finished_in_db d); [apply preserves_ret|].
  apply hoare_preserves. eapply hoare_bind; [apply check_not_finished_spec|].
  intros [|]; cbn [negb]; [|by intros tx [Hk _]].
  do 2 (eapply hoare_bind; [apply hoare_lift_keep; by intros tx [Hk _]|intros ?]).
  eapply hoare_bind; [eapply hoare_pre; [|apply update_build_keeps]|intros ?].
  { intros tx [? ?]. auto. }
  apply hoare_preserves. tx_pres; try by apply update_other_keeps.
  apply insert_products_keeps.
Qed.
End Finished.

(** ** The healthy run of [mark_succeeded_build] *)

Section MarkSucceeded.
Context `{DE : DbEnv} `{HI : HashIter}.

Definition product_row (build_id nr : Z) (p : BuildProductModel) : InsertBuildProduct :=
  mkInsertBuildProduct build_id nr (bp_type p) (bp_subtype p) (bp_filesize p)
    (bp_sha256hash p) (default "" (bp_path p)) (bp_name p) (default "" (bp_defaultpath p)).

Fixpoint product_rows (build_id nr : Z) (ps : list BuildProductModel) : list InsertBuildProduct :=
  match ps with
  | [] => []
  | p :: ps' => product_row build_id (nr + 1) p :: product_rows build_id (nr + 1) ps'
  end.

Definition metric_row (d : MarkBuildSuccessData) (m : BuildMetricModel) : InsertBuildMetric :=
  mkInsertBuildMetric (mb_id d) (bmt_name m) (bmt_unit m) (bmt_value m) (mb_project_name d)
    (mb_jobset_name d) (mb_name d) (mb_timestamp d).

(** The numbers the build brings fit the columns they are written to. *)
Definition fits (d : MarkBuildSuccessData) : bool :=
  in_i 64 (mb_size d) && in_i 64 (mb_closure_size d) && in_i 32 (mb_timestamp d)
  && (Z.of_nat (length (mb_products d)) <? 2 ^ 31).

Lemma for_each_update {A} (g : A → Tables → Tables) l t :
  for_each l (λ x, tx_update (g x)) (tx_ok t) = (Ok tt, tx_ok (foldl (λ t x, g x t) t l)).
Proof. revert t. induction l as [|x l IH]; intros t; cbn; [done|]. apply IH. Qed.

Lemma insert_products_ok b nr ps t :
  0 ≤ nr → nr + Z.of_nat (length ps) < 2 ^ 31 →
  insert_products b nr ps (tx_ok t) =
  (Ok tt, tx_ok (t <| t_buildproducts ::= λ l, l ++ product_rows b nr ps |>)).
Proof.
  revert nr t. induction ps as [|p ps IH]; intros nr t H0 H.
  { destruct t. unfold upd. cbn. by rewrite app_nil_r. }
  cbn [insert_products]. rewrite bind_run. unfold try_i32, lift_opt, lift_result.
  cbn [length] in H. assert (try_i 32 (nr + 1) = Some (nr + 1)) as ->.
  { apply try_i_Some. split; [done|]. unfold in_i. cbn. rewrite andb_true_iff, Z.leb_le, Z.ltb_lt. lia. }
  cbn [ok_or]. rewrite bind_run. unfold insert_build_product. rewrite tx_update_ok.
  change (match _ with (Ok _, _) => _ | _ => _ end)
    with (insert_products b (nr + 1) ps
      (tx_ok (t <| t_buildproducts ::= λ l, l ++ [product_row b (nr + 1) p] |>))).
  rewrite IH by lia. cbn. by rewrite <-app_assoc.
Qed.

Lemma check_not_finished_ok t r :
  r ∈ t_builds t → r_finished r = 0 →
  check_if_build_is_not_finished (r_id r) (tx_ok t) = (Ok true, tx_ok t).
Proof.
  intros Hr Hf. unfold check_if_build_is_not_finished. rewrite tx_query_ok.
  do 2 f_equal. apply bool_decide_eq_true.
  assert (r ∈ row_order (filter (λ r', r_id r' = r_id r ∧ r_finished r' = 0) (t_builds t))) as H.
  { rewrite row_order_perm. by apply list_elem_of_filter. }
  destruct (row_order _) as [|x l]; [by apply not_elem_of_nil in H|by exists x].
Qed.

(** The tables after [mark_succeeded_build] of an unfinished build. *)
Definition marked (d : MarkBuildSuccessData) (cached : bool) (st sp : Z) (t : Tables) : Tables :=
  let t1 := t <| t_builds ::= map_if (λ r, r_id r =? mb_id d)
    (λ r, r <| r_finished := 1 |>
            <| r_buildstatus := Some (if mb_failed d then 6 else 0) |>
            <| r_starttime := Some st |> <| r_stoptime := Some sp |>
            <| r_size := Some (mb_size d) |> <| r_closuresize := Some (mb_closure_size d) |>
            <| r_releasename := mb_release_name d |> <| r_iscachedbuild := Some (b2z cached) |>
            <| r_notificationpendingsince := Some sp |>) |> in
  (foldl (λ t np, t <| t_buildoutputs ::= map_if
      (λ o, (or_build o =? mb_id d) && str_eqb (or_name o) np.1)
      (λ o, o <| or_path := Some np.2 |>) |>) t1 (iter (mb_outputs d)))
  <| t_buildproducts ::= λ l, filter (λ p, ip_build_id p ≠ mb_id d) l
       ++ product_rows (mb_id d) 0 (mb_products d) |>
  <| t_buildmetrics ::= λ l, filter (λ m, im_build_id m ≠ mb_id d) l
       ++ map (metric_row d) (mb_metrics d) |>.

Lemma for_each_metrics d ms t :
  in_i 32 (mb_timestamp d) = true →
  for_each ms (λ m, ts ← try_i32 (mb_timestamp d);
    insert_build_metric (mkInsertBuildMetric (mb_id d) (bmt_name m) (bmt_unit m)
      (bmt_value m) (mb_project_name d) (mb_jobset_name d) (mb_name d) ts)) (tx_ok t) =
  (Ok tt, tx_ok (t <| t_buildmetrics ::= λ l, l ++ map (metric_row d) ms |>)).
Proof.
  intros Hts. revert t. induction ms as [|m ms IH]; intros t.
  { destruct t. unfold upd. cbn. by rewrite app_nil_r. }
  cbn [for_each]. rewrite !bind_run. unfold try_i32, lift_opt, lift_result, try_i. rewrite Hts.
  cbn [ok_or]. unfold insert_build_metric. rewrite tx_update_ok.
  unfold try_i32, lift_opt, lift_result, try_i, insert_build_metric in IH. rewrite Hts in IH.
  rewrite IH. cbn. by rewrite <-app_assoc.
Qed.

Lemma mark_succeeded_build_run d cached st sp t r :
  mb_finished_in_db d = false → fits d = true →
  r ∈ t_builds t → r_id r = mb_id d → r_finished r = 0 →
  mark_succeeded_build d cached st sp (tx_ok t) = (Ok tt, tx_ok (marked d cached st sp t)).
Proof.
  intros Hd Hfits Hr Hid Hf. unfold fits in Hfits. bool_prop.
  unfold mark_succeeded_build. rewrite Hd, bind_run, <-Hid.
  rewrite (check_not_finished_ok t r) by done. cbn [negb]. rewrite Hid.
  rewrite !bind_run. unfold try_i64, lift_opt, lift_result, try_i.
  repeat match goal with H : in_i 64 _ = true |- _ => rewrite H; clear H end.
  cbn [ok_or]. rewrite !bind_run. unfold update_build. rewrite tx_update_ok.
  rewrite bind_run. unfold update_build_output. rewrite for_each_update.
  rewrite bind_run. unfold delete_build_products_by_build_id. rewrite tx_update_ok.
  rewrite bind_run, insert_products_ok by lia.
  rewrite bind_run. unfold delete_build_metrics_by_build_id. rewrite tx_update_ok.
  rewrite for_each_metrics by done. do 2 f_equal. unfold marked. cbn. by destruct (mb_failed d).
Qed.

(** *** Reading the products back *)

Lemma product_rows_sorted b nr ps :
  StronglySorted (λ x y, ip_product_nr x < ip_product_nr y) (product_rows b nr ps)
  ∧ Forall (λ x, nr < ip_product_nr x) (product_rows b nr ps).
Proof.
  revert nr. induction ps as [|p ps IH]; intros nr; cbn; [by split; constructor|].
  destruct (IH (nr + 1)) as [H1 H2]. split.
  - constructor; [done|]. done.
  - constructor; [cbn; lia|]. eapply Forall_impl; [exact H2|]. cbn. lia.
Qed.

Lemma sort_products b nr ps :
  sort_by (cmp_on ip_product_nr Z.compare) (row_order (product_rows b nr ps)) =
  product_rows b nr ps.
Proof.
  assert (TotalCmp (cmp_on ip_product_nr Z.compare)) by (apply total_cmp_on, _).
  destruct (product_rows_sorted b nr ps) as [Hs _]. set (l := product_rows b nr ps) in *.
  symmetry. apply (sorted_perm_eq (cmp_on ip_product_nr Z.compare)).
  - by rewrite sort_by_perm, row_order_perm.
  - clearbody l. induction Hs as [|x l Hl IH Hx]; constructor; [done|].
    eapply Forall_impl; [exact Hx|]. intros y Hy. unfold cmp_le, cmp_on.
    cbn in Hy. rewrite Z.compare_le_iff. lia.
  - apply sort_by_sorted. done.
  - clearbody l. intros x y Hx Hy [= Heq%Z.compare_eq_iff].
    induction Hs as [|z l Hl IH Hz]; [by apply not_elem_of_nil in Hx|].
    rewrite Forall_forall in Hz.
    apply elem_of_cons in Hx as [->|Hx], Hy as [->|Hy]; try done; auto.
    + specialize (Hz _ Hy). lia.
    + specialize (Hz _ Hx). lia.
Qed.

Lemma product_rows_filter b nr ps :
  filter (λ p, ip_build_id p = b) (product_rows b nr ps) = product_rows b nr ps.
Proof.
  apply filter_all_true. revert nr. induction ps as [|p ps IH]; intros nr; cbn; by constructor.
Qed.

(** A product as the table gives it back: absent paths come back empty. *)
Definition stored_product (p : BuildProductModel) : BuildProductModel :=
  mkBuildProductModel (bp_type p) (bp_subtype p) (bp_filesize p) (bp_sha256hash p)
    (Some (default "" (bp_path p))) (bp_name p) (Some (default "" (bp_defaultpath p))).

Lemma product_rows_map b nr ps :
  map product_of_row (product_rows b nr ps) = map stored_product ps.
Proof. revert nr. induction ps as [|p ps IH]; intros nr; cbn; [done|]. by rewrite IH. Qed.

Lemma filter_disjoint {A} (P Q : A → Prop) `{!∀ x, Decision (P x), !∀ x, Decision (Q x)} l :
  (∀ x, Q x → ¬ P x) → filter P (filter Q l) = [].
Proof.
  intros HPQ. induction l as [|x l IH]; [done|]. rewrite filter_cons.
  destruct (decide (Q x)); [|done]. rewrite filter_cons_False by auto. done.
Qed.

Lemma marked_products d cached st sp t :
  get_build_products_for_build_id (mb_id d) (db_ok (marked d cached st sp t)) =
  (Ok (map stored_product (mb_products d)), db_ok (marked d cached st sp t)).
Proof.
  unfold get_build_products_for_build_id. rewrite conn_query_ok. do 2 f_equal.
  assert (filter (λ p, ip_build_id p = mb_id d) (t_buildproducts (marked d cached st sp t))
    = product_rows (mb_id d) 0 (mb_products d)) as ->.
  { unfold marked. cbn [upd set_t_buildmetrics set_t_buildproducts t_buildproducts].
    rewrite filter_app, filter_disjoint, product_rows_filter by auto. done. }
  by rewrite sort_products, product_rows_map.
Qed.
End MarkSucceeded.
