(* ===== verification/Support.v ===== *)
(** * Support: what a build left in [nix-support] ([crates/shared/src/lib.rs])

    The parsers of metrics, release names and build products, and
    [parse_nix_support_from_outputs], which collects them over the outputs of
    a derivation. The file system and SHA-256 are the class [FsEnv]. The
    regular expressions are searched for, not anchored: a [+] class matches a
    string that has one character of the class. *)

From Stdlib Require Import Ascii String.
From S2P Require Import Prelude Floats RustStr Nix Db.
Local Open Scope string_scope.
Local Open Scope list_scope.
Local Open Scope Z_scope.
#[local] Arguments String.append : simpl nomatch.

(** ** The environment *)

Record Metadata := mkMetadata { md_is_file : bool; md_is_dir : bool; md_size : Z }.

(** [fs_lines p] are the lines read before the end of the file, and whether
    reading ended with an error instead; [None] when [p] cannot be opened. *)
Class FsEnv : Type := {
  fs_lines : string → option (list string * bool);
  fs_read_to_string : string → option string;
  fs_exists : string → bool;
  fs_metadata : string → option Metadata;
  fs_bytes : string → option string;
  sha256_hex : string → string
}.

(** ** Strings *)

Fixpoint str_exists (f : ascii → bool) (s : string) : bool :=
  match s with "" => false | String a s' => f a || str_exists f s' end.

(** The longest prefix in the class, and the rest. *)
Fixpoint span (f : ascii → bool) (s : string) : string * string :=
  match s with
  | "" => ("", "")
  | String a s' => if f a then let '(p, r) := span f s' in (String a p, r) else ("", s)
  end.

Fixpoint take_digits (acc n : Z) (s : string) : (Z * Z) * string :=
  match s with
  | "" => ((acc, n), "")
  | String a s' =>
      if is_digit a then take_digits (10 * acc + (Z.of_N (N_of_ascii a) - 48)) (n + 1) s'
      else ((acc, n), s)
  end.

Definition split_sign (s : string) : bool * string :=
  match s with
  | String "-" s' => (true, s')
  | String "+" s' => (false, s')
  | _ => (false, s)
  end.

(** The exponent part of a decimal, to the end of the string. *)
Definition parse_exponent (s : string) : option Z :=
  match s with
  | "" => Some 0
  | String e s' =>
      if Ascii.eqb (lower e) "e" then
        let '(neg, s') := split_sign s' in
        let '((v, n), rest) := take_digits 0 0 s' in
        if (0 <? n) && bool_decide (rest = "") then Some (if neg then - v else v) else None
      else None
  end.

(** [str::parse::<f64>] and [f32]. An exponent that decides the result by itself is cut
    off before the power of ten is computed. *)
Definition parse_float (F : format) (s : string) : option spec_float :=
  let '(neg, s) := split_sign s in
  let l := to_ascii_lowercase s in
  if decide (l = "inf" ∨ l = "infinity") then Some (S754_infinity neg)
  else if decide (l = "nan") then Some S754_nan
  else
    let '((m, n1), s) := take_digits 0 0 s in
    let '((m, n2), s) :=
      match s with String "." s' => take_digits m 0 s' | _ => ((m, 0), s) end in
    if n1 + n2 =? 0 then None
    else
      e ← parse_exponent s;
      let k := e - n2 in
      Some (if m =? 0 then S754_zero neg
            else if 400 <? k then S754_infinity neg
            else if k <? - 400 - (n1 + n2) then S754_zero neg
            else of_decimal F neg m k).
Definition parse_f64 : string → option f64 := parse_float f64_format.
Definition parse_f32 : string → option f32 := parse_float f32_format.

Example parse_f64_tenth : parse_f64 "0.1" = Some (S754_finite false 7205759403792794 (-56)).
Proof. vm_compute. reflexivity. Qed.
Example parse_f64_4 : parse_f64 "4" = Some (f64_of_Z 4).
Proof. vm_compute. reflexivity. Qed.
Example parse_f64_exp : parse_f64 "-12.5e1" = Some (f64_of_Z (-125)).
Proof. vm_compute. reflexivity. Qed.
Example parse_f64_bad : parse_f64 "4s" = None.
Proof. vm_compute. reflexivity. Qed.

(** [std::path::Path::components] of a path; the root is the first one of an
    absolute path. *)
Definition components (p : string) : list string :=
  (if starts_with "/" p then ["/"] else []) ++
  filter (λ c, c ≠ "" ∧ c ≠ ".") (split_char "/" p).

Fixpoint is_prefix (l l' : list string) : bool :=
  match l, l' with
  | [], _ => true
  | x :: l, y :: l' => bool_decide (x = y) && is_prefix l l'
  | _ :: _, [] => false
  end.

(** [nix_utils::is_subpath]: [path.starts_with(base)], by components. *)
Definition is_subpath (base path : string) : bool := is_prefix (components base) (components path).

(** ** The regular expressions *)

Definition is_alnum (a : ascii) : bool :=
  let n := N_of_ascii (lower a) in is_digit a || ((97 <=? n) && (n <=? 122))%N.
Definition one_of (cs : string) (a : ascii) : bool := contains_char a cs.

Definition VALIDATE_METRICS_NAME (s : string) : bool :=
  str_exists (λ a, is_alnum a || one_of "._-" a) s.
Definition VALIDATE_METRICS_UNIT (s : string) : bool :=
  str_exists (λ a, is_alnum a || one_of "._%-" a) s.
Definition VALIDATE_RELEASE_NAME (s : string) : bool :=
  str_exists (λ a, is_alnum a || one_of ".@:_-" a) s.
(** [[...]*] matches the empty string at the start of any string. *)
Definition VALIDATE_PRODUCT_NAME (s : string) : bool := true.

Definition word_char (a : ascii) : bool := is_alnum a || one_of "_-" a.
Definition QUOTE : ascii := "034"%char.
Definition path_char (a : ascii) : bool :=
  negb (Ascii.eqb a QUOTE || is_ws a || one_of "<>" a).

Record Captures := mkCaptures { cap1 : string; cap2 : string; cap3 : string; cap5 : option string }.

Definition non_empty (s : string) : option string := if decide (s = "") then None else Some s.

(** Group 3: a quoted string that is not empty, or a run of path characters. *)
Definition match_path (s : string) : option (string * string) :=
  match s with
  | String q s' =>
      if Ascii.eqb q QUOTE then
        let '(inner, rest) := span (λ a, negb (Ascii.eqb a QUOTE)) s' in
        match rest with
        | String _ rest' => inner ← non_empty inner; Some (String q (inner +:+ String q ""), rest')
        | "" => None
        end
      else let '(p, rest) := span path_char s in p ← non_empty p; Some (p, rest)
  | "" => None
  end.

(** A match of [BUILD_PRODUCT_PARSER] at the start of [s]. The classes of
    neighbouring items are disjoint, so that each item takes the longest run
    and backtracking finds nothing else. *)
Definition match_product (s : string) : option Captures :=
  let '(c1, s) := span word_char s in c1 ← non_empty c1;
  let '(w, s) := span is_ws s in _ ← non_empty w;
  let '(c2, s) := span word_char s in c2 ← non_empty c2;
  let '(w, s) := span is_ws s in _ ← non_empty w;
  '(c3, s) ← match_path s;
  let '(w, s) := span is_ws s in
  Some (mkCaptures c1 c2 c3 (_ ← non_empty w; non_empty (span path_char s).1)).

(** [BUILD_PRODUCT_PARSER.captures]: the leftmost match. *)
Fixpoint captures (s : string) : option Captures :=
  match match_product s with
  | Some c => Some c
  | None => match s with "" => None | String _ s' => captures s' end
  end.

(** ** Parsers *)

Record SBuildProduct := mkSBuildProduct {
  sp_path : string; sp_default_path : string; sp_type : string; sp_subtype : string;
  sp_name : string; sp_is_regular : bool; sp_sha256hash : option string;
  sp_file_size : option Z }.
Record SBuildMetric := mkSBuildMetric {
  sm_path : string; sm_name : string; sm_unit : option string; sm_value : f64 }.
Record NixSupport := mkNixSupport {
  ns_failed : bool; ns_hydra_release_name : option string;
  ns_metrics : list SBuildMetric; ns_products : list SBuildProduct }.

Definition parse_release_name (content : string) : option string :=
  let content := trim content in
  if negb (bool_decide (content = "")) && VALIDATE_RELEASE_NAME content then Some content else None.

Section Parse.
Context `{NE : NixEnv} `{FS : FsEnv}.

Definition parse_metric (line : string) (output : StorePath) : option SBuildMetric :=
  match split_whitespace line with
  | name :: value :: rest =>
      if negb (VALIDATE_METRICS_NAME name) then None
      else Some (mkSBuildMetric (print_store_path output) name
             match rest with
             | unit :: _ => if VALIDATE_METRICS_UNIT unit then Some unit else None
             | [] => None
             end
             (default (S754_zero false) (parse_f64 value)))
  | _ => None
  end.

(** The file operations of a build product: [is_inside_store],
    [get_metadata] and [get_file_hash]. *)
Definition is_inside_store (p : string) : bool := is_subpath get_store_dir p.
Definition get_metadata (p : string) : option (bool * Z) :=
  (λ m, (md_is_file m, md_size m)) <$> fs_metadata p.
Definition get_file_hash (p : string) : option string := sha256_hex <$> fs_bytes p.

(** The text between the quotes of a quoted path. *)
Definition unquote (s : string) : string :=
  if starts_with (String QUOTE "") s && ends_with (String QUOTE "") s
  then String.substring 1 (String.length s - 2) s else s.

Definition product_name (path : string) (output : StorePath) : string :=
  let name := if decide (path = print_store_path output) then ""
              else default "" (StorePath.path_file_name path) in
  if VALIDATE_PRODUCT_NAME name then name else "".

Definition parse_build_product (output : StorePath) (line : string) : option SBuildProduct :=
  c ← captures line;
  let path := unquote (cap3 c) in
  if bool_decide (path = "") || negb (starts_with "/" path) then None
  else if negb (is_inside_store path) then None
  else
    '(is_regular, size) ← get_metadata path;
    Some (mkSBuildProduct path (default "" (cap5 c)) (cap1 c) (cap2 c)
            (product_name path output) is_regular
            (if is_regular : bool then get_file_hash path else None)
            (if is_regular : bool then Some size else None)).

(** ** Collecting over the outputs *)

(** The lines of a file, or the error that ends the whole parse. *)
Definition read_lines (lf : list string * bool) : result Error (list string) :=
  if lf.2 then Err (Anyhow "io") else Ok lf.1.

Definition support_file (output : StorePath) (name : string) : string :=
  print_store_path output +:+ "/nix-support/" +:+ name.

Fixpoint collect_metrics (outputs : list StorePath) (acc : list SBuildMetric)
  : result Error (list SBuildMetric) :=
  match outputs with
  | [] => Ok acc
  | o :: os =>
      match fs_lines (support_file o "hydra-metrics") with
      | None => collect_metrics os acc
      | Some lf => ls ← read_lines lf; collect_metrics os (acc ++ omap (λ l, parse_metric l o) ls)
      end
  end.

(** The flag records that one of the files was there. *)
Fixpoint collect_products (outputs : list StorePath) (acc : bool * list SBuildProduct)
  : result Error (bool * list SBuildProduct) :=
  match outputs with
  | [] => Ok acc
  | o :: os =>
      match fs_lines (support_file o "hydra-build-products") with
      | None => collect_products os acc
      | Some lf => ls ← read_lines lf;
                   collect_products os (true, acc.2 ++ omap (parse_build_product o) ls)
      end
  end.

(** [path.name()] panics on a base name shorter than a hash: the fallback is
    not reached for the paths of a store. *)
Definition default_product (o : Output) : option SBuildProduct :=
  path ← o_path o;
  let full_path := print_store_path path in
  m ← fs_metadata full_path;
  if md_is_dir m then
    Some (mkSBuildProduct full_path "" "nix-build"
            (if decide (o_name o = "out") then "" else o_name o)
            (default "" (StorePath.name path)) false None None)
  else None.

Definition parse_nix_support_from_outputs (outs : list Output) : result Error NixSupport :=
  let outputs := omap o_path outs in
  metrics ← collect_metrics outputs [];
  let failed := existsb (λ o, fs_exists (support_file o "failed")) outputs in
  let release :=
    find_map (λ o, v ← fs_read_to_string (support_file o "hydra-release-name");
                   parse_release_name v) outputs in
  '(explicit, products) ← collect_products outputs (false, []);
  let products := if explicit : bool then products else products ++ omap default_product outs in
  Ok (mkNixSupport failed release metrics products).

End Parse.

(** ** Lemmas *)

Definition starts_outside (f : ascii → bool) (s : string) : bool :=
  match s with "" => true | String a _ => negb (f a) end.

Lemma span_app f p r :
  str_forall f p = true → starts_outside f r = true → span f (p +:+ r) = (p, r).
Proof.
  induction p as [|a p IH]; cbn; intros Hp Hr.
  - destruct r as [|b r]; cbn in *; [done|]. apply negb_true_iff in Hr. by rewrite Hr.
  - apply andb_true_iff in Hp as [-> Hp]. by rewrite IH.
Qed.

Lemma non_empty_Some s : s ≠ "" → non_empty s = Some s.
Proof. unfold non_empty. by destruct (decide (s = "")). Qed.

Lemma str_forall_head f s r : s ≠ "" → str_forall f s = true →
  (∀ a, f a = true → is_ws a = false) → starts_outside is_ws (s +:+ r) = true.
Proof.
  destruct s as [|a s]; [done|]. cbn. intros _ [Ha _]%andb_true_iff H. by rewrite (H a).
Qed.

Lemma word_char_not_ws a : word_char a = true → is_ws a = false.
Proof. by destruct a as [[] [] [] [] [] [] [] []]; vm_compute. Qed.
Lemma path_char_not_ws a : path_char a = true → is_ws a = false.
Proof. by destruct a as [[] [] [] [] [] [] [] []]; vm_compute. Qed.
Lemma path_char_not_quote a : path_char a = true → Ascii.eqb a QUOTE = false.
Proof. unfold path_char. by destruct (Ascii.eqb a QUOTE). Qed.

Lemma match_path_plain p r :
  p ≠ "" → str_forall path_char p = true → starts_outside path_char r = true →
  match_path (p +:+ r) = Some (p, r).
Proof.
  intros Hp Hc Hr. destruct p as [|a p]; [done|].
  assert (Ascii.eqb a QUOTE = false) as Hq.
  { cbn in Hc. apply andb_true_iff in Hc as [? _]. by apply path_char_not_quote. }
  unfold match_path. change (String a p +:+ r) with (String a (p +:+ r)).
  cbn -[span non_empty]. rewrite Hq.
  change (String a (p +:+ r)) with (String a p +:+ r).
  rewrite span_app by done. by rewrite non_empty_Some.
Qed.

Lemma match_path_quoted p r :
  p ≠ "" → contains_char QUOTE p = false →
  match_path (String QUOTE (p +:+ String QUOTE r)) = Some (String QUOTE (p +:+ String QUOTE ""), r).
Proof.
  intros Hp Hq. unfold match_path. rewrite Ascii.eqb_refl.
  rewrite span_app; [by rewrite non_empty_Some| |by cbn].
  clear Hp. induction p as [|a p IH]; cbn in *; [done|].
  apply orb_false_iff in Hq as [-> Hq]. by rewrite IH.
Qed.

(** A word, a word and a path part with single spaces between them. *)
Lemma match_product_line c1 c2 s c3 r :
  c1 ≠ "" → c2 ≠ "" → str_forall word_char c1 = true → str_forall word_char c2 = true →
  starts_outside is_ws s = true → match_path s = Some (c3, r) →
  captures (c1 +:+ " " +:+ c2 +:+ " " +:+ s) =
  Some (mkCaptures c1 c2 c3
          (_ ← non_empty (span is_ws r).1; non_empty (span path_char (span is_ws r).2).1)).
Proof.
  intros H1 H2 W1 W2 Hs Hm.
  assert (match_product (c1 +:+ " " +:+ c2 +:+ " " +:+ s) =
    Some (mkCaptures c1 c2 c3
      (_ ← non_empty (span is_ws r).1; non_empty (span path_char (span is_ws r).2).1))) as Hmp.
  { unfold match_product. rewrite span_app by done. rewrite non_empty_Some by done. cbn -[span match_path non_empty String.append].
    rewrite (span_app is_ws " ") by (done || by apply (str_forall_head word_char); auto using word_char_not_ws).
    cbn -[span match_path non_empty String.append].
    rewrite span_app by done. rewrite non_empty_Some by done. cbn -[span match_path non_empty String.append].
    rewrite (span_app is_ws " ") by done. cbn -[span match_path non_empty String.append].
    rewrite Hm. cbn -[span non_empty]. by destruct (span is_ws r). }
  destruct (c1 +:+ " " +:+ c2 +:+ " " +:+ s); cbn [captures]; by rewrite Hmp.
Qed.

Lemma parse_build_product_Some `{NixEnv} `{FsEnv} output line p :
  parse_build_product output line = Some p →
  starts_with "/" (sp_path p) = true ∧ is_inside_store (sp_path p) = true ∧
  (∃ size, get_metadata (sp_path p) = Some (sp_is_regular p, size) ∧
     sp_file_size p = if sp_is_regular p then Some size else None) ∧
  (sp_is_regular p = false → sp_sha256hash p = None).
Proof.
  unfold parse_build_product. intros Hp.
  destruct (captures line) as [c|]; [|done]. cbn -[starts_with] in Hp.
  destruct (bool_decide _ || _) eqn:E; [done|].
  apply orb_false_iff in E as [_ E%negb_false_iff].
  destruct (is_inside_store _) eqn:Ei; cbn in Hp; [|done].
  destruct (get_metadata _) as [[reg size]|] eqn:Em; cbn in Hp; [|done].
  inv Hp. cbn. repeat split; [done..|eauto|]. by intros ->.
Qed.

Lemma collect_products_explicit `{NixEnv} `{FsEnv} os acc r :
  collect_products os acc = Ok r →
  r.1 = acc.1 || existsb (λ o, bool_decide (is_Some (fs_lines (support_file o "hydra-build-products")))) os.
Proof.
  revert acc. induction os as [|o os IH]; intros acc; cbn -[support_file].
  { intros [= <-]. by rewrite orb_false_r. }
  destruct (fs_lines _) as [lf|]; [|intros ->%IH; by case_bool_decide].
  destruct (read_lines lf); cbn -[support_file]; [|done].
  intros ->%IH. by rewrite orb_true_r.
Qed.

(** The products a list of files adds are those of its lines, in order. *)
Lemma collect_products_spec `{NixEnv} `{FsEnv} os acc r :
  collect_products os acc = Ok r →
  r.2 = acc.2 ++ mjoin ((λ o, match fs_lines (support_file o "hydra-build-products") with
                              | Some lf => omap (parse_build_product o) lf.1
                              | None => []
                              end) <$> os).
Proof.
  revert acc. induction os as [|o os IH]; intros acc; cbn -[support_file].
  { intros [= <-]. by rewrite app_nil_r. }
  destruct (fs_lines _) as [[ls b]|]; [|by intros ->%IH].
  unfold read_lines. destruct b; cbn -[support_file]; [done|].
  intros ->%IH. cbn -[support_file]. by rewrite app_assoc.
Qed.

(** ** Properties *)

(** A line [type subtype path], with the path plain or in quotes, is
    parsed into exactly these parts, and a further word is the default path. *)
Theorem product_line_roundtrip c1 c2 p d :
  c1 ≠ "" → c2 ≠ "" → p ≠ "" → d ≠ "" →
  str_forall word_char c1 = true → str_forall word_char c2 = true →
  str_forall path_char d = true →
  (str_forall path_char p = true →
   captures (c1 +:+ " " +:+ c2 +:+ " " +:+ p) = Some (mkCaptures c1 c2 p None) ∧
   captures (c1 +:+ " " +:+ c2 +:+ " " +:+ p +:+ " " +:+ d) = Some (mkCaptures c1 c2 p (Some d))) ∧
  (contains_char QUOTE p = false →
   captures (c1 +:+ " " +:+ c2 +:+ " " +:+ String QUOTE (p +:+ String QUOTE "")) =
   Some (mkCaptures c1 c2 (String QUOTE (p +:+ String QUOTE "")) None)).
Proof.
  intros H1 H2 Hp Hd W1 W2 Wd.
  assert (∀ q r, q ≠ "" → str_forall path_char q = true → starts_outside is_ws (q +:+ r) = true) as Hw.
  { intros q r ? ?. by apply (str_forall_head path_char); auto using path_char_not_ws. }
  split; [intros Wp; split|intros Wq].
  - rewrite <-(str_app_nil_r p) at 1.
    rewrite (match_product_line c1 c2 _ p "") by auto using match_path_plain. done.
  - rewrite (match_product_line c1 c2 _ p (" " +:+ d)) by auto using match_path_plain.
    rewrite <-(str_app_nil_r d), (span_app is_ws " ") by (done || by apply Hw).
    cbn -[span String.append]. rewrite span_app, str_app_nil_r by done.
    cbn -[String.append]. by rewrite non_empty_Some.
  - by rewrite (match_product_line c1 c2 _ _ "") by auto using match_path_quoted.
Qed.

Lemma product_line_roundtrip_witness :
  captures "file iso /nix/store/x/a.iso index.html" =
  Some (mkCaptures "file" "iso" "/nix/store/x/a.iso" (Some "index.html")).
Proof.
  refine (proj2 (proj1 (product_line_roundtrip "file" "iso" "/nix/store/x/a.iso" "index.html" _ _ _ _ _ _ _) _));
    vm_compute; congruence.
Defined.

(** A build product is only taken from an existing absolute path inside
    the store; its size is recorded exactly for regular files, and only they
    are hashed. *)
Theorem parse_build_product_safe `{NixEnv} `{FsEnv} output line :
  match parse_build_product output line with
  | None => True
  | Some p =>
      starts_with "/" (sp_path p) = true ∧ is_inside_store (sp_path p) = true ∧
      (∃ size, get_metadata (sp_path p) = Some (sp_is_regular p, size) ∧
         sp_file_size p = if sp_is_regular p then Some size else None) ∧
      (sp_is_regular p = false → sp_sha256hash p = None)
  end.
Proof.
  destruct (parse_build_product output line) eqn:E; [|done].
  by eapply parse_build_product_Some.
Qed.

(** The products of a derivation are those of the product files of its
    outputs, in order; when no output has such a file, they are the outputs
    that are directories. The build counts as failed exactly when an output
    has the file [nix-support/failed]. *)
Theorem parse_nix_support_products `{NixEnv} `{FsEnv} outs :
  match parse_nix_support_from_outputs outs with
  | Err _ => True
  | Ok ns =>
      ns_failed ns = existsb (λ o, fs_exists (support_file o "failed")) (omap o_path outs) ∧
      ns_products ns =
        if existsb (λ o, bool_decide (is_Some (fs_lines (support_file o "hydra-build-products"))))
             (omap o_path outs)
        then mjoin ((λ o, match fs_lines (support_file o "hydra-build-products") with
                          | Some lf => omap (parse_build_product o) lf.1
                          | None => []
                          end) <$> omap o_path outs)
        else omap default_product outs
  end.
Proof.
  unfold parse_nix_support_from_outputs.
  destruct (collect_metrics _ _); cbn; [|done].
  destruct (collect_products _ _) as [[ex ps]|] eqn:E; cbn -[support_file]; [|done].
  pose proof (collect_products_explicit _ _ _ E) as Hex.
  pose proof (collect_products_spec _ _ _ E) as Hps. cbn -[support_file] in Hex, Hps.
  split; [done|]. rewrite <-Hex. destruct ex; [done|]. subst ps.
  replace (mjoin _) with (@nil SBuildProduct); [done|].
  symmetry. clear E. induction (omap o_path outs) as [|o os IH]; [done|]. cbn -[support_file] in *.
  symmetry in Hex. apply orb_false_iff in Hex as [Ho Hos].
  apply bool_decide_eq_false in Ho. destruct (fs_lines _); [exfalso; eauto|].
  apply IH. by rewrite Hos.
Qed.
