(* ===== verification/Jobset.v ===== *)
(** * Jobset: scheduling shares ([queue-runner/src/state/jobset.rs])

    A jobset remembers the build steps of the last day, as a map from start
    time to duration, and the sum of the durations in [seconds]; its share
    used, [seconds / shares], orders the queue. *)

From Stdlib Require Import Ascii String.
From S2P Require Import Prelude Floats RustStr Db.
Local Open Scope Z_scope.

Definition SCHEDULING_WINDOW : Z := 24 * 60 * 60.

(** [js_steps] is the [BTreeMap]. *)
Record Jobset := mkJobset {
  js_id : Z;
  js_project_name : string;
  js_name : string;
  js_seconds : Z;
  js_shares : Z;
  js_steps : gmap Z Z
}.
#[export] Instance eta_Jobset : Eta Jobset := λ r,
  mkJobset (js_id r) (js_project_name r) (js_name r) (js_seconds r) (js_shares r) (js_steps r).
#[export] Instance set_js_seconds : Setter js_seconds := ltac:(mk_setter js_seconds).
#[export] Instance set_js_shares : Setter js_shares := ltac:(mk_setter js_shares).
#[export] Instance set_js_steps : Setter js_steps := ltac:(mk_setter js_steps).

Module Jobset.

Definition new (id : Z) (project_name name : string) : Jobset :=
  mkJobset id project_name name 0 0 ∅.

Definition full_name (j : Jobset) : string :=
  (js_project_name j +:+ ":" +:+ js_name j)%string.

Definition share_used (j : Jobset) : f64 :=
  f64_div (f64_of_Z (js_seconds j)) (f64_of_Z (js_shares j)).

Definition set_shares (shares : Z) (j : Jobset) : result Error Jobset :=
  s ← ok_or (try_u 32 shares) TryFromInt; Ok (j <| js_shares := s |>).

Definition add_step (start_time duration : Z) (j : Jobset) : Jobset :=
  j <| js_steps ::= <[start_time := duration]> |>
    <| js_seconds ::= λ s, i64_wrap (s + duration) |>.

(** [BTreeMap::first_entry] *)
Definition first_entry (m : gmap Z Z) : option (Z * Z) :=
  head (sort_by (cmp_on fst Z.compare) (map_to_list m)).

Fixpoint prune_loop (fuel : nat) (now : Z) (j : Jobset) : Jobset :=
  match fuel with
  | O => j
  | S fuel' =>
      match first_entry (js_steps j) with
      | None => j
      | Some (start_time, d) =>
          if now - SCHEDULING_WINDOW <? start_time then j
          else prune_loop fuel' now
                 (j <| js_seconds ::= λ s, i64_wrap (s - d) |> <| js_steps ::= delete start_time |>)
      end
  end.

(** The loop removes an entry in every round: the number of entries is fuel
    enough. [now] is in seconds. *)
Definition prune_steps (now : Z) (j : Jobset) : Jobset :=
  prune_loop (S (size (js_steps j))) now j.

End Jobset.

(** ** The registry of jobsets *)

Abbreviation JobsetName := (string * string)%type.
Abbreviation Jobsets := (gmap JobsetName Jobset).

Module Jobsets.
Section Jobsets.
Context `{DE : DbEnv}.

Definition prune (now : JobsetName → Z) (js : Jobsets) : Jobsets :=
  map_imap (λ k j, Some (Jobset.prune_steps (now k) j)) js.

Fixpoint add_steps (steps : list BuildSteps) (j : Jobset) : Jobset :=
  match steps with
  | [] => j
  | step :: steps' =>
      match bst_starttime step, bst_stoptime step with
      | Some starttime, Some stoptime =>
          add_steps steps' (Jobset.add_step starttime (i32_wrap (stoptime - starttime)) j)
      | _, _ => add_steps steps' j
      end
  end.

(** The state is the registry and the database; the jobset is named by its
    key. [now] is the server's clock. *)
Definition create (now jobset_id : Z) (project_name jobset_name : string)
  : M (Jobsets * Database) Error JobsetName := λ s,
  let key := (project_name, jobset_name) in
  match s.1 !! key with
  | Some _ => (Ok key, s)
  | None =>
      let '(r, db) :=
        (shares ← get_jobset_scheduling_shares jobset_id;
         shares ← lift_opt (Anyhow "Scheduling Shares not found for jobset not found.") shares;
         jobset ← lift_result (Jobset.set_shares shares
                    (Jobset.new jobset_id project_name jobset_name));
         steps ← get_jobset_build_steps now jobset_id SCHEDULING_WINDOW;
         mret (add_steps steps jobset)) (s.2 : Database) in
      match r with
      | Ok jobset => (Ok key, (<[key := jobset]> s.1, db))
      | Err e => (Err e, (s.1, db))
      end
  end.

(** A row that does not fit is logged and skipped. *)
Definition apply_change (js : Jobsets) (row : JobsetModel) : Jobsets :=
  let key := (jm_project row, jm_name row) in
  match js !! key with
  | Some j => match Jobset.set_shares (jm_schedulingshares row) j with
              | Ok j' => <[key := j']> js
              | Err _ => js
              end
  | None => js
  end.

Definition handle_change : M (Jobsets * Database) Error unit := λ s,
  match get_jobsets s.2 with
  | (Ok rows, db) => (Ok tt, (foldl apply_change s.1 rows, db))
  | (Err e, db) => (Err e, (s.1, db))
  end.

End Jobsets.
End Jobsets.

(** ** Lemmas *)

(** The sum of the remembered durations. *)
Definition steps_sum (m : gmap Z Z) : Z := sum_list_Z (map_to_list m).*2.

Lemma steps_sum_insert m k v : m !! k = None → steps_sum (<[k := v]> m) = v + steps_sum m.
Proof. intros H. unfold steps_sum. by rewrite (map_to_list_insert m k v H). Qed.

Lemma steps_sum_delete m k v : m !! k = Some v → steps_sum (delete k m) = steps_sum m - v.
Proof.
  intros H. unfold steps_sum. rewrite <-(map_to_list_delete m k v H). cbn. unfold sum_list_Z. lia.
Qed.

Lemma first_entry_Some m k v :
  Jobset.first_entry m = Some (k, v) →
  m !! k = Some v ∧ ∀ k' v', m !! k' = Some v' → k ≤ k'.
Proof.
  unfold Jobset.first_entry. set (l := sort_by _ _). intros H.
  assert (TotalCmp (cmp_on fst Z.compare : Z * Z → Z * Z → _)) as Ht by (apply total_cmp_on, _).
  assert (l ≡ₚ map_to_list m) as Hp by apply sort_by_perm.
  pose proof (sort_by_sorted (cmp_on fst Z.compare) (map_to_list m)) as Hs. fold l in Hs.
  destruct l as [|x l']; [done|]. injection H as ->. inv Hs. split.
  - apply elem_of_map_to_list. rewrite <-Hp. left.
  - intros k' v' Hk'. apply elem_of_map_to_list in Hk'. rewrite <-Hp in Hk'.
    apply elem_of_cons in Hk' as [[= -> ->]|Hk']; [lia|].
    match goal with H : Forall _ l' |- _ => rewrite Forall_forall in H; specialize (H _ Hk') end.
    unfold cmp_le, cmp_on in *. cbn in *. by rewrite Z.compare_le_iff in *.
Qed.

Lemma first_entry_None m : Jobset.first_entry m = None → m = ∅.
Proof.
  unfold Jobset.first_entry. set (l := sort_by _ _). intros H.
  assert (l ≡ₚ map_to_list m) as Hp by apply sort_by_perm.
  destruct l; [|done]. apply Permutation_nil_l in Hp. by apply map_to_list_empty_iff.
Qed.

(** The entries a jobset keeps when it is pruned. *)
Definition recent (now : Z) (m : gmap Z Z) : gmap Z Z :=
  filter (λ kv, now - SCHEDULING_WINDOW < kv.1) m.

#[local] Arguments recent : simpl never.
#[local] Arguments steps_sum : simpl never.
#[local] Arguments i_wrap : simpl never.

Lemma recent_all now m :
  (∀ k v, m !! k = Some v → now - SCHEDULING_WINDOW < k) → recent now m = m.
Proof. intros H. apply map_filter_id. intros k v Hk. by apply (H k v). Qed.

Lemma recent_delete now m k :
  k ≤ now - SCHEDULING_WINDOW → recent now (delete k m) = recent now m.
Proof.
  intros Hk. unfold recent. apply map_filter_delete_not. intros v _. cbn. lia.
Qed.

Lemma i64_wrap_sub_sub a b c :
  i64_wrap (i64_wrap (a - b) - c) = i64_wrap (a - (b + c)).
Proof.
  apply i_wrap_cong; [lia|]. rewrite <-Zminus_mod_idemp_l, i_wrap_mod, Zminus_mod_idemp_l by lia.
  f_equal. lia.
Qed.

(** Pruning is a filter of the map, and subtracts what it removes. *)
Lemma prune_loop_spec fuel now j :
  (size (js_steps j) < fuel)%nat → js_seconds j = i64_wrap (js_seconds j) →
  Jobset.prune_loop fuel now j =
  j <| js_steps ::= recent now |>
    <| js_seconds ::= λ s, i64_wrap (s - (steps_sum (js_steps j) - steps_sum (recent now (js_steps j)))) |>.
Proof.
  revert j. induction fuel as [|fuel IH]; intros j Hfuel Hw; [lia|].
  cbn [Jobset.prune_loop].
  assert (∀ m, m = js_steps j → recent now m = m →
    j = j <| js_steps ::= recent now |>
      <| js_seconds ::= λ s, i64_wrap (s - (steps_sum (js_steps j) - steps_sum (recent now (js_steps j)))) |>)
    as Hdone.
  { intros m -> Hm. destruct j as [i p n s sh st]. cbn in *. unfold upd. cbn. by rewrite Hm, Z.sub_diag, Z.sub_0_r, <-Hw. }
  destruct (Jobset.first_entry (js_steps j)) as [[k d]|] eqn:E.
  2:{ apply first_entry_None in E. apply (Hdone ∅); [done|]. by apply map_filter_empty. }
  apply first_entry_Some in E as [Hk Hmin].
  destruct (Z.ltb_spec (now - SCHEDULING_WINDOW) k) as [Hlt|Hge].
  { apply (Hdone (js_steps j)); [done|]. apply recent_all. intros k' v' Hk'.
    specialize (Hmin _ _ Hk'). lia. }
  rewrite IH; cbn [upd set_js_steps set_js_seconds js_steps js_seconds].
  - destruct j as [i p n s sh st]. unfold upd. cbn in *.
    rewrite recent_delete by done. rewrite (steps_sum_delete st k d) by done.
    rewrite i64_wrap_sub_sub.
    by replace (d + (steps_sum st - d - steps_sum (recent now st)))
      with (steps_sum st - steps_sum (recent now st)) by lia.
  - assert (size (js_steps j) ≠ 0%nat) by (intros H0%map_size_empty_inv; by rewrite H0 in Hk).
    rewrite map_size_delete_Some by eauto. lia.
  - symmetry. apply i_wrap_cong; [lia|]. apply i_wrap_mod. lia.
Qed.

(** The seconds are the sum of the remembered durations, as far as 64 bits
    go: what [new], [add_step] of a new start time and [prune_steps] keep. *)
Definition seconds_ok (j : Jobset) : Prop := js_seconds j = i64_wrap (steps_sum (js_steps j)).

Lemma i64_wrap_idem z : i64_wrap (i64_wrap z) = i64_wrap z.
Proof. apply i_wrap_cong; [lia|]. apply i_wrap_mod. lia. Qed.

Lemma i64_wrap_add a b : i64_wrap (i64_wrap a + b) = i64_wrap (a + b).
Proof.
  apply i_wrap_cong; [lia|]. by rewrite <-Zplus_mod_idemp_l, i_wrap_mod, Zplus_mod_idemp_l by lia.
Qed.

Lemma seconds_ok_new id p n : seconds_ok (Jobset.new id p n).
Proof. done. Qed.

Lemma seconds_ok_add_step st d j :
  js_steps j !! st = None → seconds_ok j → seconds_ok (Jobset.add_step st d j).
Proof.
  intros Hst Hj. unfold seconds_ok, Jobset.add_step in *. cbn.
  rewrite steps_sum_insert by done. rewrite Hj, i64_wrap_add. f_equal. lia.
Qed.

Lemma prune_steps_eq now j :
  js_seconds j = i64_wrap (js_seconds j) →
  Jobset.prune_steps now j =
  j <| js_steps ::= recent now |>
    <| js_seconds ::= λ s, i64_wrap (s - (steps_sum (js_steps j) - steps_sum (recent now (js_steps j)))) |>.
Proof. intros H. apply prune_loop_spec; [lia|done]. Qed.

Lemma seconds_ok_prune now j : seconds_ok j → seconds_ok (Jobset.prune_steps now j).
Proof.
  intros Hj. rewrite prune_steps_eq by (rewrite Hj; by rewrite i64_wrap_idem).
  unfold seconds_ok in *. cbn. rewrite Hj. unfold Z.sub at 1. rewrite i64_wrap_add. f_equal. lia.
Qed.

Lemma recent_twice now now' m : now ≤ now' → recent now' (recent now m) = recent now' m.
Proof.
  intros Hle. unfold recent. rewrite map_filter_filter. apply map_filter_ext.
  intros k v _. cbn. lia.
Qed.

(** Adding two steps with the same start time counts both durations but keeps
    one: after that, [seconds] stays above the sum of the remembered steps. *)
Lemma add_step_same_start_drifts j st d1 d2 :
  js_steps j !! st = None → seconds_ok j →
  js_seconds (Jobset.add_step st d2 (Jobset.add_step st d1 j)) =
  i64_wrap (steps_sum (js_steps (Jobset.add_step st d2 (Jobset.add_step st d1 j))) + d1).
Proof.
  intros Hst Hj. unfold Jobset.add_step. cbn. rewrite insert_insert_eq.
  rewrite steps_sum_insert by done. rewrite Hj, i64_wrap_add, <-Z.add_assoc, i64_wrap_add.
  f_equal. lia.
Qed.

(** ** The registry *)

Section Registry.
Context `{DE : DbEnv}.

(** A jobset keeps the name it is registered under, and its shares fit. *)
Definition registry_ok (js : Jobsets) : Prop :=
  ∀ k j, js !! k = Some j → k = (js_project_name j, js_name j) ∧ in_u 32 (js_shares j) = true.

Lemma set_shares_Ok s j j' :
  Jobset.set_shares s j = Ok j' → in_u 32 s = true ∧ j' = j <| js_shares := s |>.
Proof.
  unfold Jobset.set_shares. intros (z & [-> H]%ok_or_Ok%try_u_Some & [= <-])%bind_Ok_inv. done.
Qed.

Lemma add_steps_same steps j :
  js_project_name (Jobsets.add_steps steps j) = js_project_name j ∧
  js_name (Jobsets.add_steps steps j) = js_name j ∧
  js_shares (Jobsets.add_steps steps j) = js_shares j.
Proof.
  revert j. induction steps as [|st steps IH]; intros j; cbn; [done|].
  destruct (bst_starttime st) as [a|], (bst_stoptime st) as [b|]; try apply IH.
  apply (IH (Jobset.add_step a (i32_wrap (b - a)) j)).
Qed.

Lemma create_registry now id p n : preserves (λ s, registry_ok s.1) (Jobsets.create now id p n).
Proof.
  intros s Hs. unfold Jobsets.create. destruct (s.1 !! (p, n)) as [j|] eqn:E; [done|].
  match goal with |- context [?m s.2] => destruct (m s.2) as [[j|e] db] eqn:Ej end; [|done].
  apply bind_Ok in Ej as (o & db1 & _ & Ej).
  apply bind_Ok in Ej as (sh & db2 & _ & Ej).
  apply bind_Ok in Ej as (j0 & db3 & Ej0 & Ej).
  apply bind_Ok in Ej as (steps & db4 & _ & [= <- <-]).
  injection Ej0 as Ej0 <-. apply set_shares_Ok in Ej0 as [Hin ->].
  cbn [fst snd]. intros k j' [[<- <-]|[_ Hk]]%lookup_insert_Some; [|by apply Hs].
  destruct (add_steps_same steps ((Jobset.new id p n) <| js_shares := sh |>)) as (-> & -> & ->).
  done.
Qed.

Lemma apply_change_registry js row : registry_ok js → registry_ok (Jobsets.apply_change js row).
Proof.
  intros Hjs. unfold Jobsets.apply_change.
  destruct (js !! _) as [j|] eqn:E; [|done].
  destruct (Jobset.set_shares _ j) as [j'|] eqn:Es; [|done].
  apply set_shares_Ok in Es as [Hin ->].
  intros k j' [[<- <-]|[_ Hk]]%lookup_insert_Some; [|by apply Hjs].
  split; [apply (Hjs _ _ E)|done].
Qed.

Lemma handle_change_registry : preserves (λ s, registry_ok s.1) Jobsets.handle_change.
Proof.
  intros s Hs. unfold Jobsets.handle_change.
  destruct (get_jobsets s.2) as [[rows|e] db]; [|done]. cbn.
  generalize dependent (s.1). induction rows as [|row rows IH]; intros js Hjs; cbn; [done|].
  by apply IH, apply_change_registry.
Qed.
End Registry.
