(* ===== verification/Graph.v ===== *)
(** * Graph: steps and builds ([queue-runner/src/state/step.rs], [build.rs], [atomic.rs])

    The build graph: steps refer to the steps they depend on ([deps], strong
    references) and to the steps that depend on them ([rdeps], weak ones), and
    to the builds they are the top-level step of ([builds], weak). Objects
    behind an [Arc] live in the heap under an address; [Weak::upgrade] is the
    lookup of the address, which fails once the object is gone. Hash sets of
    steps and of builds compare by derivation path, so they are maps from the
    derivation path to the address. *)

From Stdlib Require Import Ascii String.
From S2P Require Import Prelude Floats RustStr Nix Db Jobset.
Local Open Scope Z_scope.

(** ** Time

    A [jiff::Timestamp] is a number of nanoseconds; which ones it represents
    is the library's decision, and so is the float the span between two of
    them has as its total of milliseconds or of seconds ([Span::total], which
    may fail). *)
Class TimeLib : Type := {
  ts_valid : Z → bool;
  ts_valid_epoch : ts_valid 0 = true;
  total_ms : Z → Z → option f64;
  total_s : Z → Z → option f64
}.

Abbreviation Timestamp := Z.
Definition as_second (t : Timestamp) : Z := Z.quot t (10 ^ 9).
Definition subsec_nanosecond (t : Timestamp) : Z := Z.rem t (10 ^ 9).

Record AtomicDateTime := mkDateTime { dt_seconds : Z; dt_nanoseconds : Z }.
Module AtomicDateTime.
Definition new (t : Timestamp) : AtomicDateTime := mkDateTime (as_second t) (subsec_nanosecond t).
Definition load `{TimeLib} (d : AtomicDateTime) : Timestamp :=
  let t := dt_seconds d * 10 ^ 9 + dt_nanoseconds d in if ts_valid t then t else 0.
Definition store (t : Timestamp) (d : AtomicDateTime) : AtomicDateTime := new t.
End AtomicDateTime.

(** ** Data *)

Abbreviation addr := positive.
Definition BUILD_ID_MAX : Z := i32_max.

Record Step := mkStep {
  st_drv_path : StorePath;
  st_drv : option Derivation;
  st_runnable : bool;
  st_finished : bool;
  st_previous_failure : bool;
  st_created : bool;
  st_tries : Z;
  st_highest_global_priority : Z;
  st_highest_local_priority : Z;
  st_lowest_build_id : Z;
  st_after : AtomicDateTime;
  st_runnable_since : AtomicDateTime;
  st_last_supported : AtomicDateTime;
  st_deps_len : Z;
  st_rdeps_len : Z;
  st_deps : gmap StorePath addr;
  st_rdeps : list addr;
  st_builds : list addr;
  st_jobsets : gmap JobsetName ()
}.
#[export] Instance eta_Step : Eta Step := λ r,
  mkStep (st_drv_path r) (st_drv r) (st_runnable r) (st_finished r) (st_previous_failure r)
    (st_created r) (st_tries r) (st_highest_global_priority r) (st_highest_local_priority r)
    (st_lowest_build_id r) (st_after r) (st_runnable_since r) (st_last_supported r)
    (st_deps_len r) (st_rdeps_len r) (st_deps r) (st_rdeps r) (st_builds r) (st_jobsets r).
#[export] Instance set_st_drv : Setter st_drv := ltac:(mk_setter st_drv).
#[export] Instance set_st_runnable : Setter st_runnable := ltac:(mk_setter st_runnable).
#[export] Instance set_st_finished : Setter st_finished := ltac:(mk_setter st_finished).
#[export] Instance set_st_previous_failure : Setter st_previous_failure := ltac:(mk_setter st_previous_failure).
#[export] Instance set_st_created : Setter st_created := ltac:(mk_setter st_created).
#[export] Instance set_st_tries : Setter st_tries := ltac:(mk_setter st_tries).
#[export] Instance set_st_hgp : Setter st_highest_global_priority := ltac:(mk_setter st_highest_global_priority).
#[export] Instance set_st_hlp : Setter st_highest_local_priority := ltac:(mk_setter st_highest_local_priority).
#[export] Instance set_st_lbi : Setter st_lowest_build_id := ltac:(mk_setter st_lowest_build_id).
#[export] Instance set_st_after : Setter st_after := ltac:(mk_setter st_after).
#[export] Instance set_st_runnable_since : Setter st_runnable_since := ltac:(mk_setter st_runnable_since).
#[export] Instance set_st_last_supported : Setter st_last_supported := ltac:(mk_setter st_last_supported).
#[export] Instance set_st_deps_len : Setter st_deps_len := ltac:(mk_setter st_deps_len).
#[export] Instance set_st_rdeps_len : Setter st_rdeps_len := ltac:(mk_setter st_rdeps_len).
#[export] Instance set_st_deps : Setter st_deps := ltac:(mk_setter st_deps).
#[export] Instance set_st_rdeps : Setter st_rdeps := ltac:(mk_setter st_rdeps).
#[export] Instance set_st_builds : Setter st_builds := ltac:(mk_setter st_builds).
#[export] Instance set_st_jobsets : Setter st_jobsets := ltac:(mk_setter st_jobsets).

Record Build := mkBuild {
  b_id : BuildID;
  b_drv_path : StorePath;
  b_outputs : gmap string StorePath;
  b_jobset_id : Z;
  b_name : string;
  b_timestamp : Timestamp;
  b_max_silent_time : Z;
  b_timeout : Z;
  b_local_priority : Z;
  b_global_priority : Z;
  b_toplevel : option addr;
  b_jobset : JobsetName;
  b_finished_in_db : bool
}.
#[export] Instance eta_Build : Eta Build := λ r,
  mkBuild (b_id r) (b_drv_path r) (b_outputs r) (b_jobset_id r) (b_name r) (b_timestamp r)
    (b_max_silent_time r) (b_timeout r) (b_local_priority r) (b_global_priority r)
    (b_toplevel r) (b_jobset r) (b_finished_in_db r).
#[export] Instance set_b_global_priority : Setter b_global_priority := ltac:(mk_setter b_global_priority).
#[export] Instance set_b_toplevel : Setter b_toplevel := ltac:(mk_setter b_toplevel).
#[export] Instance set_b_finished_in_db : Setter b_finished_in_db := ltac:(mk_setter b_finished_in_db).

(** The heap. The clock is the sequence of the readings of
    [jiff::Timestamp::now]. *)
Record Heap := mkHeap {
  hp_steps : gmap addr Step;
  hp_builds : gmap addr Build;
  hp_jobsets : Jobsets;
  hp_next : addr;
  hp_clock : nat → Timestamp;
  hp_reads : nat
}.
#[export] Instance eta_Heap : Eta Heap := λ r,
  mkHeap (hp_steps r) (hp_builds r) (hp_jobsets r) (hp_next r) (hp_clock r) (hp_reads r).
#[export] Instance set_hp_steps : Setter hp_steps := ltac:(mk_setter hp_steps).
#[export] Instance set_hp_builds : Setter hp_builds := ltac:(mk_setter hp_builds).
#[export] Instance set_hp_jobsets : Setter hp_jobsets := ltac:(mk_setter hp_jobsets).
#[export] Instance set_hp_next : Setter hp_next := ltac:(mk_setter hp_next).
#[export] Instance set_hp_reads : Setter hp_reads := ltac:(mk_setter hp_reads).

(** [jiff::Timestamp::now()] *)
Definition now (h : Heap) : Timestamp * Heap := (hp_clock h (hp_reads h), h <| hp_reads ::= S |>).

(** [HashSet::insert]: an equal element that is there already stays. *)
Definition hset_insert {V} (k : StorePath) (v : V) (m : gmap StorePath V) : gmap StorePath V :=
  match m !! k with Some _ => m | None => <[k := v]> m end.

Definition upd_step (a : addr) (f : Step → Step) (h : Heap) : Heap := h <| hp_steps ::= alter f a |>.
Definition upd_build (a : addr) (f : Build → Build) (h : Heap) : Heap := h <| hp_builds ::= alter f a |>.

(** The build at [b] is alive and not finished in the database. *)
Definition unfinished (h : Heap) (b : addr) : bool :=
  match hp_builds h !! b with Some bd => negb (b_finished_in_db bd) | None => false end.

(** ** Steps *)

Module Step.

Definition new (drv_path : StorePath) : Step :=
  mkStep drv_path None false false false
    false 0 0 0 BUILD_ID_MAX (AtomicDateTime.new 0) (AtomicDateTime.new 0) (AtomicDateTime.new 0)
    0 0 ∅ [] [] ∅.

Definition get_system (s : Step) : option string := drv_system <$> st_drv s.
Definition get_input_drvs (s : Step) : option (list string) := drv_input_drvs <$> st_drv s.
Definition get_outputs (s : Step) : option (list Output) := drv_outputs <$> st_drv s.
Definition get_required_features (s : Step) : list string :=
  default [] ((λ d, DerivationEnv.get_required_system_features (drv_env d)) <$> st_drv s).
Definition set_drv (d : Derivation) (s : Step) : Step := s <| st_drv := Some d |>.
Definition set_finished (v : bool) (s : Step) : Step := s <| st_finished := v |>.
Definition set_previous_failure (v : bool) (s : Step) : Step := s <| st_previous_failure := v |>.
Definition set_created (v : bool) (s : Step) : Step := s <| st_created := v |>.
Definition set_after (t : Timestamp) (s : Step) : Step :=
  s <| st_after ::= AtomicDateTime.store t |>.
Definition set_last_supported (t : Timestamp) (s : Step) : Step :=
  s <| st_last_supported ::= AtomicDateTime.store t |>.

(** The builds of [b] that are alive and not finished join the set. *)
Definition add_unfinished (h : Heap) (bs : list addr) (builds : gmap StorePath addr)
  : gmap StorePath addr :=
  foldl (λ acc b, match hp_builds h !! b with
                  | None => acc
                  | Some bd => if b_finished_in_db bd then acc else hset_insert (b_drv_path bd) b acc
                  end) builds bs.

Abbreviation Found := (gmap StorePath addr * gmap StorePath addr)%type.

(** The sets of builds and steps collected so far are threaded through the
    recursion; [None] is a recursion deeper than the fuel. *)
Fixpoint get_dependents (fuel : nat) (h : Heap) (a : addr) (acc : Found) : option Found :=
  match fuel with
  | O => None
  | S fuel' =>
      match hp_steps h !! a with
      | None => Some acc
      | Some s =>
          match acc.2 !! st_drv_path s with
          | Some _ => Some acc
          | None =>
              let acc1 := (add_unfinished h (st_builds s) acc.1, <[st_drv_path s := a]> acc.2) in
              foldl (λ r rdep, acc ← r;
                match hp_steps h !! rdep with
                | None => Some acc
                | Some _ => get_dependents fuel' h rdep acc
                end) (Some acc1) (st_rdeps s)
          end
      end
  end.

(** Every nested call adds a step to the set: the number of steps is fuel
    enough. *)
Definition dependents (h : Heap) (a : addr) : option Found :=
  get_dependents (S (size (hp_steps h))) h a (∅, ∅).

Definition make_runnable (a : addr) (h : Heap) : Heap :=
  match hp_steps h !! a with
  | None => h
  | Some s =>
      if st_runnable s then h
      else let '(t, h) := now h in
           upd_step a (λ s, s <| st_runnable := true |>
             <| st_runnable_since ::= AtomicDateTime.store t |>
             <| st_last_supported ::= AtomicDateTime.store t |>) h
  end.

(** The body of the [retain] over the reverse dependencies of the step with
    derivation path [drv]; the flag says whether [rdep] is kept. *)
Definition release_rdep (drv : StorePath) (rdep : addr) (h : Heap) : bool * Heap :=
  match hp_steps h !! rdep with
  | None => (false, h)
  | Some r =>
      let deps := delete drv (st_deps r) in
      let h := upd_step rdep (λ r, r <| st_deps := deps |>
                                     <| st_deps_len := Z.of_nat (size deps) |>) h in
      (true, if bool_decide (deps = ∅) && st_created r then make_runnable rdep h else h)
  end.

Fixpoint release_rdeps (drv : StorePath) (rdeps : list addr) (h : Heap) : list addr * Heap :=
  match rdeps with
  | [] => ([], h)
  | r :: rs =>
      let '(keep, h1) := release_rdep drv r h in
      let '(rs', h2) := release_rdeps drv rs h1 in
      (if keep then r :: rs' else rs', h2)
  end.

Definition make_rdeps_runnable (a : addr) (h : Heap) : Heap :=
  match hp_steps h !! a with
  | None => h
  | Some s =>
      if negb (st_finished s) then h
      else let '(rdeps, h) := release_rdeps (st_drv_path s) (st_rdeps s) h in
           upd_step a (λ s, s <| st_rdeps := rdeps |>
                              <| st_rdeps_len := Z.of_nat (length rdeps) |>) h
  end.

Definition add_jobset (j : JobsetName) (s : Step) : Step := s <| st_jobsets ::= <[j := tt]> |>.

(** [dep] is the address of a step with derivation path [drv]. *)
Definition add_dep (drv : StorePath) (dep : addr) (s : Step) : Step :=
  let deps := hset_insert drv dep (st_deps s) in
  s <| st_deps := deps |> <| st_deps_len := Z.of_nat (size deps) |>.

Definition add_referring_data (referring_build referring_step : option addr) (s : Step) : Step :=
  let s := match referring_build with
           | Some b => s <| st_builds ::= λ l, l ++ [b] |>
           | None => s
           end in
  match referring_step with
  | Some r => let rdeps := st_rdeps s ++ [r] in
              s <| st_rdeps := rdeps |> <| st_rdeps_len := Z.of_nat (length rdeps) |>
  | None => s
  end.

Definition get_direct_builds (h : Heap) (s : Step) : list addr :=
  filter (λ b, unfinished h b = true) (st_builds s).

Section Iter.
Context `{HI : HashIter} `{FE : FloatEnv}.

Definition f64_1e9 : f64 := f64_of_Z 1000000000.

Definition get_lowest_share_used (h : Heap) (s : Step) : f64 :=
  default f64_1e9 (min_by_total f64_format
    (omap (λ k, Jobset.share_used <$> hp_jobsets h !! k) (iter_keys (st_jobsets s)))).

Definition get_all_deps_not_queued (queued : gmap StorePath addr) (s : Step)
  : list (StorePath * addr) :=
  filter (λ d, queued !! d.1 = None) (iter (st_deps s)).

End Iter.
End Step.

(** ** The registry of steps ([Steps]) *)

Abbreviation Steps := (gmap StorePath addr).

Module Steps.

Definition live (h : Heap) (steps : Steps) : Steps :=
  filter (λ ka, is_Some (hp_steps h !! ka.2)) steps.

(** [len], [is_empty] and [len_runnable] drop the entries of dead steps. *)
Definition len (h : Heap) (steps : Steps) : nat * Steps :=
  let steps := live h steps in (size steps, steps).
Definition is_empty (h : Heap) (steps : Steps) : bool * Steps :=
  let steps := live h steps in (bool_decide (steps = ∅), steps).

Definition is_runnable (h : Heap) (a : addr) : Prop :=
  match hp_steps h !! a with Some s => st_runnable s = true | None => False end.
#[global] Instance is_runnable_dec h a : Decision (is_runnable h a).
Proof. unfold is_runnable. destruct (hp_steps h !! a); apply _. Defined.

Section Iter.
Context `{HI : HashIter}.

Definition len_runnable (h : Heap) (steps : Steps) : nat * Steps :=
  let steps := live h steps in
  (length (filter (is_runnable h) (iter_values steps)), steps).

Definition clone_runnable (h : Heap) (steps : Steps) : list addr * Steps :=
  (filter (is_runnable h) (iter_values steps), live h steps).

Definition make_rdeps_runnable (steps : Steps) (h : Heap) : Heap :=
  foldl (λ h a, match hp_steps h !! a with
                | Some s => if st_finished s && negb (st_previous_failure s)
                            then Step.make_rdeps_runnable a h else h
                | None => h
                end) h (iter_values steps).
End Iter.

(** The result is the step's address and whether it is new. *)
Definition create (drv_path : StorePath) (referring_build referring_step : option addr)
    (steps : Steps) (h : Heap) : (addr * bool) * (Steps * Heap) :=
  let existing := a ← steps !! drv_path; s ← hp_steps h !! a; Some a in
  let '(a, is_new, h) :=
    match existing with
    | Some a => (a, false, h)
    | None => (hp_next h, true,
               h <| hp_steps ::= <[hp_next h := Step.new drv_path]> |> <| hp_next ::= Pos.succ |>)
    end in
  let h := upd_step a (Step.add_referring_data referring_build referring_step) h in
  ((a, is_new), (<[drv_path := a]> steps, h)).

Definition remove (drv_path : StorePath) (steps : Steps) : Steps := delete drv_path steps.

End Steps.

(** ** Builds *)

Module Build.

(** [from_second] fails outside the range of a timestamp. *)
Definition new `{NixEnv} `{TimeLib} (v : BuildModel) (jobset : JobsetName) : result Error Build :=
  if ts_valid (bm_timestamp v * 10 ^ 9) then
    Ok (mkBuild (bm_id v) (store_path_new (bm_drvpath v)) ∅ (bm_jobset_id v) (bm_job v)
          (bm_timestamp v * 10 ^ 9) (default 3600 (bm_maxsilent v)) (default 36000 (bm_timeout v))
          (bm_priority v) (bm_globalpriority v) None jobset false)
  else Err (Anyhow "timestamp").

Definition full_job_name (b : Build) : string :=
  ((b_jobset b).1 +:+ ":" +:+ (b_jobset b).2 +:+ ":" +:+ b_name b)%string.

Definition set_finished_in_db (v : bool) (b : Build) : Build := b <| b_finished_in_db := v |>.
Definition set_toplevel_step (a : addr) (b : Build) : Build := b <| b_toplevel := Some a |>.

(** What [propagate_priorities] writes to a step it visits. *)
Definition bump (b : Build) (s : Step) : Step :=
  Step.add_jobset (b_jobset b)
    (s <| st_highest_global_priority ::= λ p, Z.max p (b_global_priority b) |>
       <| st_highest_local_priority ::= λ p, Z.max p (b_local_priority b) |>
       <| st_lowest_build_id ::= λ i, Z.min i (b_id b) |>).

Section Iter.
Context `{HI : HashIter}.

Fixpoint propagate_loop (fuel : nat) (b : Build) (queued : gmap StorePath addr)
    (todo : list addr) (h : Heap) : option Heap :=
  match fuel with
  | O => None
  | S fuel' =>
      match todo with
      | [] => Some h
      | a :: todo' =>
          match hp_steps h !! a with
          | None => propagate_loop fuel' b queued todo' h
          | Some s =>
              let h := upd_step a (bump b) h in
              let new := Step.get_all_deps_not_queued queued s in
              propagate_loop fuel' b (foldl (λ q d, hset_insert d.1 d.2 q) queued new)
                (todo' ++ new.*2) h
          end
      end
  end.

(** A step is queued at most once, and the top-level step is the first. *)
Definition propagate_priorities (b : Build) (h : Heap) : option Heap :=
  propagate_loop (3 + size (hp_steps h)) b ∅ (option_list (b_toplevel b)) h.

End Iter.
End Build.

(** ** The registry of builds ([Builds]) *)

Abbreviation Builds := (gmap BuildID addr).

Module Builds.
Section Iter.
Context `{HI : HashIter}.

Definition update_priorities (curr_ids : gmap BuildID Z) (builds : Builds) (h : Heap)
  : option (Builds * Heap) :=
  let builds := filter (λ ka, is_Some (curr_ids !! ka.1)) builds in
  h ← foldl (λ r ka, h ← r;
        match curr_ids !! ka.1, hp_builds h !! ka.2 with
        | Some new_priority, Some b =>
            if b_global_priority b <? new_priority then
              let h := upd_build ka.2 (λ b, b <| b_global_priority := new_priority |>) h in
              Build.propagate_priorities (b <| b_global_priority := new_priority |>) h
            else Some h
        | _, _ => Some h
        end) (Some h) (iter builds);
  Some (builds, h).
End Iter.

Definition insert_new_build (id : BuildID) (a : addr) (builds : Builds) : Builds := <[id := a]> builds.
Definition remove_by_id (id : BuildID) (builds : Builds) : Builds := delete id builds.

End Builds.
