(* ===== verification/Dependents.v ===== *)
(** * Dependents: what [Step::get_dependents] finds

    The depth-first search over the reverse dependencies terminates, visits
    exactly the steps that can be reached, and collects the unfinished builds
    of these steps. *)

From Stdlib Require Import Ascii String.
From S2P Require Import Prelude Floats RustStr Nix Db Jobset Graph.

(** ** Time stamps *)

Lemma datetime_load_new `{TimeLib} t :
  ts_valid t = true → AtomicDateTime.load (AtomicDateTime.new t) = t.
Proof.
  intros Ht. unfold AtomicDateTime.load, AtomicDateTime.new, as_second, subsec_nanosecond.
  cbn [dt_seconds dt_nanoseconds].
  replace (t ÷ 10 ^ 9 * 10 ^ 9 + Z.rem t (10 ^ 9))%Z with t
    by (pose proof (Z.quot_rem' t (10 ^ 9)); lia).
  by rewrite Ht.
Qed.

(** ** Hash sets keyed by derivation path *)

Lemma hset_insert_is_Some {V} k v (m : gmap StorePath V) : is_Some (hset_insert k v m !! k).
Proof.
  unfold hset_insert. destruct (m !! k) eqn:E; [by rewrite E|].
  rewrite lookup_insert_eq. eauto.
Qed.

Lemma hset_insert_subseteq {V} k v (m : gmap StorePath V) : m ⊆ hset_insert k v m.
Proof. unfold hset_insert. destruct (m !! k) eqn:E; [done|]. by apply insert_subseteq. Qed.

Lemma hset_insert_Some {V} k v (m : gmap StorePath V) k' v' :
  hset_insert k v m !! k' = Some v' → m !! k' = Some v' ∨ (k' = k ∧ v' = v).
Proof.
  unfold hset_insert. destruct (m !! k) eqn:E; [by left|].
  intros [[<- <-]|[_ ?]]%lookup_insert_Some; auto.
Qed.

Lemma is_Some_subseteq {V} (m m' : gmap StorePath V) k :
  m ⊆ m' → is_Some (m !! k) → is_Some (m' !! k).
Proof. intros H [v Hv]. exists v. by eapply lookup_weaken. Qed.

Section Search.
Context (h : Heap).

(** [y] depends on [x] directly and is alive. *)
Definition edge (x y : addr) : Prop :=
  ∃ s, hp_steps h !! x = Some s ∧ y ∈ st_rdeps s ∧ is_Some (hp_steps h !! y).

(** No two steps of the heap have the same derivation path. *)
Definition drv_inj : Prop := ∀ x y sx sy,
  hp_steps h !! x = Some sx → hp_steps h !! y = Some sy →
  st_drv_path sx = st_drv_path sy → x = y.

(** *** The builds of one step *)

Lemma add_unfinished_subseteq bs m : m ⊆ Step.add_unfinished h bs m.
Proof.
  unfold Step.add_unfinished. revert m. induction bs as [|b bs IH]; intros m; cbn; [done|].
  etransitivity; [|apply IH]. destruct (hp_builds h !! b) as [bd|]; [|done].
  destruct (b_finished_in_db bd); [done|apply hset_insert_subseteq].
Qed.

Lemma add_unfinished_complete bs m b bd :
  b ∈ bs → hp_builds h !! b = Some bd → b_finished_in_db bd = false →
  is_Some (Step.add_unfinished h bs m !! b_drv_path bd).
Proof.
  unfold Step.add_unfinished. revert m. induction bs as [|b' bs IH]; intros m; cbn.
  { by intros ?%not_elem_of_nil. }
  intros [->|Hb]%elem_of_cons Hbd Hf; [|by apply IH].
  rewrite Hbd, Hf. eapply is_Some_subseteq; [apply add_unfinished_subseteq|].
  apply hset_insert_is_Some.
Qed.

Lemma add_unfinished_sound bs m d b :
  Step.add_unfinished h bs m !! d = Some b →
  m !! d = Some b ∨
  (b ∈ bs ∧ ∃ bd, hp_builds h !! b = Some bd ∧ b_finished_in_db bd = false ∧ b_drv_path bd = d).
Proof.
  unfold Step.add_unfinished. revert m. induction bs as [|b' bs IH]; intros m; cbn; [by left|].
  intros [H|[? ?]]%IH; [|right; split; [by right|done]].
  destruct (hp_builds h !! b') as [bd|] eqn:Hbd; [|by left].
  destruct (b_finished_in_db bd) eqn:Hf; [by left|].
  apply hset_insert_Some in H as [?|[-> ->]]; [by left|].
  right. split; [left|eauto].
Qed.

(** *** The invariant of the search

    [extends R acc r]: [r] adds to [acc] only steps of [R] and unfinished
    builds of steps of [R], and everything a new step leads to is in [r]. *)

Record extends (R : addr → Prop) (acc r : Step.Found) : Prop := {
  ext_steps : acc.2 ⊆ r.2;
  ext_builds : acc.1 ⊆ r.1;
  ext_new : ∀ d x, r.2 !! d = Some x → acc.2 !! d = Some x ∨
    (R x ∧ ∃ s, hp_steps h !! x = Some s ∧ st_drv_path s = d);
  ext_new_build : ∀ d b, r.1 !! d = Some b → acc.1 !! d = Some b ∨
    ∃ x s bd, R x ∧ hp_steps h !! x = Some s ∧ b ∈ st_builds s ∧
      hp_builds h !! b = Some bd ∧ b_finished_in_db bd = false ∧ b_drv_path bd = d;
  ext_closed : ∀ d x s, r.2 !! d = Some x → acc.2 !! d = None → hp_steps h !! x = Some s →
    (∀ y sy, y ∈ st_rdeps s → hp_steps h !! y = Some sy → is_Some (r.2 !! st_drv_path sy)) ∧
    (∀ b bd, b ∈ st_builds s → hp_builds h !! b = Some bd → b_finished_in_db bd = false →
       is_Some (r.1 !! b_drv_path bd))
}.

Lemma extends_refl R acc : extends R acc acc.
Proof. split; [done|done|by left|by left|congruence]. Qed.

Lemma extends_trans R a b c : extends R a b → extends R b c → extends R a c.
Proof.
  intros [A1 A2 A3 A4 A5] [B1 B2 B3 B4 B5]. split.
  - by etransitivity.
  - by etransitivity.
  - intros d x [H|H]%B3; [by apply A3|by right].
  - intros d x [H|H]%B4; [by apply A4|by right].
  - intros d x s Hc Ha Hs. destruct (b.2 !! d) as [x'|] eqn:Hb.
    + assert (x' = x) as -> by (eapply lookup_weaken in B1; [|done]; congruence).
      destruct (A5 d x s Hb Ha Hs) as [H1 H2]. split.
      * intros. eapply is_Some_subseteq; [exact B1|eauto].
      * intros. eapply is_Some_subseteq; [exact B2|eauto].
    + by apply (B5 d x s).
Qed.

Lemma extends_mono (R R' : addr → Prop) a b :
  (∀ x, R x → R' x) → extends R a b → extends R' a b.
Proof.
  intros HR [A1 A2 A3 A4 A5]. split; try done.
  - intros d x [?|[? ?]]%A3; auto.
  - intros d x [?|(y & ? & ? & ? & ?)]%A4; [by left|right; eauto 10].
Qed.

(** The steps of the heap that are not in the set yet. *)
Definition unvisited (steps : gmap StorePath addr) : nat :=
  size (filter (λ xs, steps !! st_drv_path xs.2 = None) (hp_steps h)).

Lemma unvisited_mono m m' : m ⊆ m' → unvisited m' ≤ unvisited m.
Proof.
  intros Hm. apply map_subseteq_size. apply map_filter_subseteq_ext. intros x s _. cbn.
  rewrite !eq_None_not_Some. intros Hn Hs. apply Hn. by eapply is_Some_subseteq.
Qed.

Lemma unvisited_insert m a s :
  hp_steps h !! a = Some s → m !! st_drv_path s = None →
  unvisited (<[st_drv_path s := a]> m) < unvisited m.
Proof.
  intros Ha Hm. unfold unvisited. apply map_subset_size. split.
  - apply map_filter_subseteq_ext. intros x sx _. cbn. intros H.
    apply eq_None_not_Some. intros Hs. apply eq_None_not_Some in H. apply H.
    eapply is_Some_subseteq; [by apply insert_subseteq|done].
  - intros H. assert (filter (λ xs, m !! st_drv_path xs.2 = None) (hp_steps h) !! a = Some s) as Hin.
    { by apply map_lookup_filter_Some. }
    eapply lookup_weaken in Hin; [|exact H]. apply map_lookup_filter_Some in Hin as [_ Hin].
    cbn in Hin. by rewrite lookup_insert_eq in Hin.
Qed.

Definition search_fold (fuel : nat) (rdeps : list addr) (acc : option Step.Found) : option Step.Found :=
  foldl (λ r rdep, acc ← r;
    match hp_steps h !! rdep with
    | None => Some acc
    | Some _ => Step.get_dependents fuel h rdep acc
    end) acc rdeps.

Lemma get_dependents_S fuel a acc s :
  hp_steps h !! a = Some s → acc.2 !! st_drv_path s = None →
  Step.get_dependents (S fuel) h a acc =
  search_fold fuel (st_rdeps s)
    (Some (Step.add_unfinished h (st_builds s) acc.1, <[st_drv_path s := a]> acc.2)).
Proof. intros Ha Hs. cbn [Step.get_dependents]. by rewrite Ha, Hs. Qed.

Definition found_spec (fuel : nat) : Prop := ∀ a acc, unvisited acc.2 < fuel →
  ∃ r, Step.get_dependents fuel h a acc = Some r ∧ extends (rtc edge a) acc r ∧
       (∀ s, hp_steps h !! a = Some s → is_Some (r.2 !! st_drv_path s)).

Lemma search_fold_spec fuel rdeps acc (R : addr → Prop) :
  found_spec fuel → unvisited acc.2 < fuel →
  (∀ y x, y ∈ rdeps → is_Some (hp_steps h !! y) → rtc edge y x → R x) →
  ∃ r, search_fold fuel rdeps (Some acc) = Some r ∧ extends R acc r ∧
    (∀ y s, y ∈ rdeps → hp_steps h !! y = Some s → is_Some (r.2 !! st_drv_path s)).
Proof.
  intros IH. revert acc. induction rdeps as [|y rdeps IHl]; intros acc Hfuel HR.
  { exists acc. split_and!; [done|apply extends_refl|by intros ? ? ?%not_elem_of_nil]. }
  cbn [search_fold foldl mbind option_bind].
  destruct (hp_steps h !! y) as [sy|] eqn:Hy.
  - destruct (IH y acc Hfuel) as (r1 & -> & Hext & Hin).
    destruct (IHl r1) as (r & Hr & Hext' & Hall).
    { eapply Nat.le_lt_trans; [apply unvisited_mono, Hext|done]. }
    { intros y' x Hy'. apply HR. by right. }
    exists r. split_and!; [done| |].
    + eapply extends_trans; [|exact Hext']. eapply extends_mono; [|exact Hext].
      intros x. apply HR; [left|eauto].
    + intros y' s' [->|Hy']%elem_of_cons Hs'; [|by apply (Hall y')].
      eapply is_Some_subseteq; [apply Hext'|]. by apply Hin.
  - destruct (IHl acc Hfuel) as (r & Hr & Hext' & Hall).
    { intros y' x Hy'. apply HR. by right. }
    exists r. split_and!; [done|done|].
    intros y' s' [->|Hy']%elem_of_cons Hs'; [congruence|by apply (Hall y')].
Qed.

Lemma edge_rtc a s y x :
  hp_steps h !! a = Some s → y ∈ st_rdeps s → is_Some (hp_steps h !! y) →
  rtc edge y x → rtc edge a x.
Proof. intros. eapply rtc_l; [|done]. exists s. eauto. Qed.

Lemma get_dependents_spec fuel : found_spec fuel.
Proof.
  induction fuel as [|fuel IH]; intros a acc Hfuel; [lia|].
  destruct (hp_steps h !! a) as [s|] eqn:Ha.
  2:{ exists acc. cbn. rewrite Ha. split_and!; [done|apply extends_refl|done]. }
  destruct (acc.2 !! st_drv_path s) as [x|] eqn:Hs.
  { exists acc. cbn. rewrite Ha, Hs. split_and!; [done|apply extends_refl|].
    intros s' [= <-]. eauto. }
  rewrite (get_dependents_S fuel a acc s Ha Hs).
  set (acc1 := (Step.add_unfinished h (st_builds s) acc.1, <[st_drv_path s := a]> acc.2)).
  destruct (search_fold_spec fuel (st_rdeps s) acc1 (rtc edge a) IH)
    as (r & Hr & [E1 E2 E3 E4 E5] & Hall).
  { pose proof (unvisited_insert acc.2 a s Ha Hs). cbn. lia. }
  { intros y x Hy. by apply (edge_rtc a s). }
  assert (r.2 !! st_drv_path s = Some a) as Hra.
  { eapply lookup_weaken; [|exact E1]. apply lookup_insert_eq. }
  exists r. split_and!; [done| |intros s' [= <-]; eauto]. split.
  - etransitivity; [|exact E1]. by apply insert_subseteq.
  - etransitivity; [|exact E2]. apply add_unfinished_subseteq.
  - intros d x [H|H]%E3; [|by right]. cbn in H.
    apply lookup_insert_Some in H as [[<- <-]|[_ ?]]; [|by left].
    right. split; [apply rtc_refl|eauto].
  - intros d b [H|H]%E4; [|by right].
    apply add_unfinished_sound in H as [?|(? & bd & ? & ? & ?)]; [by left|].
    right. exists a, s, bd. split_and!; [apply rtc_refl|done..].
  - intros d x s' Hd Hacc Hs'. destruct (decide (d = st_drv_path s)) as [->|Hne].
    + assert (x = a) as -> by congruence. assert (s' = s) as -> by congruence.
      split; [intros; by eapply Hall|]. intros b bd Hb Hbd Hf.
      eapply is_Some_subseteq; [exact E2|]. by eapply add_unfinished_complete.
    + eapply E5; [done| |done]. cbn. by rewrite lookup_insert_ne.
Qed.

(** *** The search from an empty set *)

Lemma unvisited_bound m : unvisited m ≤ size (hp_steps h).
Proof. apply map_subseteq_size, map_filter_subseteq. Qed.

Record dependents_ok (a : addr) (bs ss : gmap StorePath addr) : Prop := {
  dep_steps : ∀ x sx, hp_steps h !! x = Some sx →
    (ss !! st_drv_path sx = Some x ↔ rtc edge a x);
  dep_builds_sound : ∀ d b, bs !! d = Some b → ∃ x sx bd,
    rtc edge a x ∧ hp_steps h !! x = Some sx ∧ b ∈ st_builds sx ∧
    hp_builds h !! b = Some bd ∧ b_finished_in_db bd = false ∧ b_drv_path bd = d;
  dep_builds_complete : ∀ x sx b bd,
    rtc edge a x → hp_steps h !! x = Some sx → b ∈ st_builds sx →
    hp_builds h !! b = Some bd → b_finished_in_db bd = false →
    is_Some (bs !! b_drv_path bd)
}.

Lemma dependents_correct a s :
  drv_inj → hp_steps h !! a = Some s →
  ∃ bs ss, Step.dependents h a = Some (bs, ss) ∧ dependents_ok a bs ss.
Proof.
  intros Hinj Ha. destruct (get_dependents_spec (S (size (hp_steps h))) a (∅, ∅))
    as ([bs ss] & Hr & Hext & Hin).
  { pose proof (unvisited_bound ∅). cbn. lia. }
  exists bs, ss. split; [done|]. destruct Hext as [E1 E2 E3 E4 E5]. cbn in *.
  assert (∀ x sx, hp_steps h !! x = Some sx → is_Some (ss !! st_drv_path sx) →
    ss !! st_drv_path sx = Some x) as Haddr.
  { intros x sx Hx [x' Hx']. destruct (E3 _ _ Hx') as [H|[_ (s' & Hs' & Hd)]]; [done|].
    by rewrite Hx', (Hinj _ _ _ _ Hs' Hx Hd). }
  assert (∀ x sx, hp_steps h !! x = Some sx → rtc edge a x →
    ss !! st_drv_path sx = Some x) as Hcomplete.
  { intros x sx Hx Hrtc. revert x Hrtc sx Hx.
    apply (rtc_ind_r (λ x, ∀ sx, hp_steps h !! x = Some sx → ss !! st_drv_path sx = Some x)).
    - intros sx Hx. apply Haddr; [done|]. by apply Hin.
    - intros x y _ (sx & Hx & Hy & _) IH sy Hsy. apply Haddr; [done|]. specialize (IH sx Hx).
      destruct (E5 _ x sx IH eq_refl Hx) as [Hc _]. by eapply Hc. }
  split.
  - intros x sx Hx. split; [|by apply Hcomplete].
    intros Hss. destruct (E3 _ _ Hss) as [H|[Hrtc _]]; done.
  - intros d b [H|H]%E4; [done|]. destruct H as (x & sx & bd & ?). eauto 10.
  - intros x sx b bd Hrtc Hx Hb Hbd Hf. specialize (Hcomplete x sx Hx Hrtc).
    destruct (E5 _ x sx Hcomplete eq_refl Hx) as [_ Hc]. by eapply Hc.
Qed.
End Search.
