(* ===== verification/Priorities.v ===== *)
(** * Priorities: what [Build::propagate_priorities] does

    The breadth-first walk over the dependencies of a build's top-level step
    terminates, and raises the priorities of exactly the steps the build
    depends on. *)

From Stdlib Require Import Ascii String.
From S2P Require Import Prelude Floats RustStr Nix Db Jobset Graph Dependents.

(** [y] is a direct dependency of [x]. *)
Definition dep_edge (h : Heap) (x y : addr) : Prop :=
  ∃ s d, hp_steps h !! x = Some s ∧ st_deps s !! d = Some y.

(** The dependencies of a step are steps of the heap, stored under their
    derivation path. *)
Definition deps_wf (h : Heap) : Prop := ∀ x s d y,
  hp_steps h !! x = Some s → st_deps s !! d = Some y →
  ∃ sy, hp_steps h !! y = Some sy ∧ st_drv_path sy = d.

Lemma bump_idemp b s : Build.bump b (Build.bump b s) = Build.bump b s.
Proof.
  destruct s. unfold Build.bump, Step.add_jobset, upd. cbn.
  rewrite insert_insert_eq. f_equal; lia.
Qed.

#[local] Arguments Build.bump : simpl never.

Section Walk.
Context `{HI : HashIter} (h : Heap) (b : Build).

(** The heap after the steps of [V] have been visited. *)
Definition visited_steps (V : gset addr) : gmap addr Step :=
  map_imap (λ a s, Some (if decide (a ∈ V) then Build.bump b s else s)) (hp_steps h).
Definition visited_heap (V : gset addr) : Heap := h <| hp_steps := visited_steps V |>.

Lemma visited_lookup V a :
  visited_steps V !! a = (λ s, if decide (a ∈ V) then Build.bump b s else s) <$> hp_steps h !! a.
Proof. unfold visited_steps. rewrite map_lookup_imap. by destruct (hp_steps h !! a). Qed.

Lemma visited_upd V a : upd_step a (Build.bump b) (visited_heap V) = visited_heap ({[a]} ∪ V).
Proof.
  unfold upd_step, visited_heap. unfold upd. cbn. f_equal. apply map_eq. intros x.
  rewrite visited_lookup. destruct (decide (x = a)) as [->|Hne].
  - rewrite lookup_alter_eq, visited_lookup. destruct (hp_steps h !! a) as [s|]; [|done]. cbn.
    rewrite (decide_True (P := a ∈ {[a]} ∪ V)) by set_solver.
    destruct (decide (a ∈ V)); [by rewrite bump_idemp|done].
  - rewrite lookup_alter_ne, visited_lookup by done.
    destruct (hp_steps h !! x) as [s|]; [|done]. cbn.
    destruct (decide (x ∈ V)) as [Hx|Hx].
    + by rewrite (decide_True (P := x ∈ {[a]} ∪ V)) by set_solver.
    + by rewrite (decide_False (P := x ∈ {[a]} ∪ V)) by set_solver.
Qed.

Lemma visited_empty : visited_heap ∅ = h.
Proof.
  unfold visited_heap. assert (visited_steps ∅ = hp_steps h) as ->; [|by destruct h].
  apply map_eq. intros x. rewrite visited_lookup.
  destruct (hp_steps h !! x); [|done]. cbn. by rewrite decide_False by set_solver.
Qed.

(** *** Queueing the new dependencies of a step *)

Definition enqueue (q : gmap StorePath addr) (new : list (StorePath * addr)) : gmap StorePath addr :=
  foldl (λ q d, hset_insert d.1 d.2 q) q new.

Lemma enqueue_subseteq q new : q ⊆ enqueue q new.
Proof.
  unfold enqueue. revert q. induction new as [|d new IH]; intros q; cbn; [done|].
  etransitivity; [apply hset_insert_subseteq|apply IH].
Qed.

Lemma enqueue_Some q new d y :
  enqueue q new !! d = Some y → q !! d = Some y ∨ (d, y) ∈ new.
Proof.
  unfold enqueue. revert q. induction new as [|[d' y'] new IH]; intros q; cbn; [by left|].
  intros [H|H]%IH; [|right; by right].
  apply hset_insert_Some in H as [?|[-> ->]]; [by left|right; left].
Qed.

(** Every queued dependency is one unqueued step less. *)
Lemma enqueue_unvisited q new :
  NoDup new.*1 → Forall (λ d, q !! d.1 = None) new →
  Forall (λ d, ∃ s, hp_steps h !! d.2 = Some s ∧ st_drv_path s = d.1) new →
  length new + unvisited h (enqueue q new) ≤ unvisited h q.
Proof.
  unfold enqueue. revert q. induction new as [|[d y] new IH]; intros q Hnd Hq Hwf; cbn; [done|].
  cbn in Hnd. apply NoDup_cons in Hnd as [Hd Hnd].
  apply Forall_cons in Hq as [Hqd Hq]. apply Forall_cons in Hwf as [(s & Hs & Hsd) Hwf].
  cbn in *. subst d. unfold hset_insert at 2. rewrite Hqd.
  pose proof (unvisited_insert h q y s Hs Hqd).
  assert (length new + unvisited h (foldl (λ q d, hset_insert d.1 d.2 q) (<[st_drv_path s := y]> q) new)
    ≤ unvisited h (<[st_drv_path s := y]> q)); [|lia].
  apply IH; [done| |done]. rewrite Forall_forall in *. intros [d' y'] Hin. cbn.
  rewrite lookup_insert_ne; [by apply (Hq _ Hin)|]. intros <-. apply Hd.
  apply list_elem_of_fmap. by exists (st_drv_path s, y').
Qed.

Lemma deps_not_queued_spec q s d y :
  (d, y) ∈ Step.get_all_deps_not_queued q s ↔ st_deps s !! d = Some y ∧ q !! d = None.
Proof. unfold Step.get_all_deps_not_queued. rewrite list_elem_of_filter, elem_of_iter. tauto. Qed.

Lemma deps_not_queued_NoDup q s : NoDup (Step.get_all_deps_not_queued q s).*1.
Proof.
  unfold Step.get_all_deps_not_queued. pose proof (NoDup_iter_keys (st_deps s)) as H.
  unfold iter_keys in H. induction (iter (st_deps s)) as [|x l IH]; [constructor|].
  cbn in H. apply NoDup_cons in H as [Hx Hl]. rewrite filter_cons.
  destruct (decide _); [|by apply IH]. cbn. constructor; [|by apply IH].
  intros (y & Hy & Hin)%list_elem_of_fmap. apply list_elem_of_filter in Hin as [_ Hin].
  apply Hx. rewrite Hy. by apply list_elem_of_fmap_2.
Qed.

(** *** The invariant of the walk *)

Context (top : addr) (Hwf : deps_wf h) (Hinj : drv_inj h).

Record walk_inv (V : gset addr) (q : gmap StorePath addr) (todo : list addr) : Prop := {
  wi_closed : ∀ x s d y, x ∈ V → hp_steps h !! x = Some s → st_deps s !! d = Some y →
    y ∈ V ∨ y ∈ todo;
  wi_queued : ∀ d y, q !! d = Some y → (y ∈ V ∨ y ∈ todo) ∧
    ∃ s, hp_steps h !! y = Some s ∧ st_drv_path s = d;
  wi_todo : ∀ y, y ∈ todo → is_Some (hp_steps h !! y) ∧ rtc (dep_edge h) top y;
  wi_reach : ∀ x, x ∈ V → rtc (dep_edge h) top x
}.

Lemma walk_inv_step V q a todo s :
  walk_inv V q (a :: todo) → hp_steps h !! a = Some s →
  let new := Step.get_all_deps_not_queued q s in
  walk_inv ({[a]} ∪ V) (enqueue q new) (todo ++ new.*2).
Proof.
  intros [Hc Hq Ht Hr] Ha new.
  assert (∀ y, y ∈ V ∨ y ∈ a :: todo → y ∈ {[a]} ∪ V ∨ y ∈ todo ++ new.*2) as Hmove.
  { intros y [?|[->|?]%elem_of_cons]; [left; set_solver|left; set_solver|right].
    apply elem_of_app. by left. }
  assert (∀ d y, (d, y) ∈ new → y ∈ todo ++ new.*2) as Hnew.
  { intros d y Hin. apply elem_of_app. right. apply list_elem_of_fmap. by exists (d, y). }
  split.
  - intros x sx d y Hx Hsx Hd. destruct (decide (x = a)) as [->|Hne].
    + assert (sx = s) as -> by congruence.
      destruct (q !! d) as [y'|] eqn:Hqd.
      * destruct (Hq _ _ Hqd) as [Hy' (s' & Hs' & Hd')].
        destruct (Hwf a s d y Ha Hd) as (sy & Hsy & Hdy).
        assert (y' = y) as -> by (eapply Hinj; [exact Hs'|exact Hsy|congruence]). by apply Hmove.
      * right. apply (Hnew d). by apply deps_not_queued_spec.
    + apply Hmove. eapply Hc; [|done|done]. set_solver.
  - intros d y [H|H]%enqueue_Some.
    + destruct (Hq _ _ H) as [Hy Hs]. split; [by apply Hmove|done].
    + split; [right; by eapply Hnew|]. apply deps_not_queued_spec in H as [H _]. by eapply Hwf.
  - intros y [Hy|([d y'] & -> & Hin)%list_elem_of_fmap]%elem_of_app; [apply Ht; by right|].
    apply deps_not_queued_spec in Hin as [Hd _]. cbn.
    destruct (Hwf a s d y' Ha Hd) as (sy & Hsy & _). split; [eauto|].
    eapply rtc_r; [apply (Ht a); left|]. exists s, d. done.
  - intros x [->%elem_of_singleton|Hx]%elem_of_union; [apply Ht; left|by apply Hr].
Qed.

Lemma propagate_loop_spec fuel V q todo :
  walk_inv V q todo → length todo + unvisited h q < fuel →
  ∃ V', Build.propagate_loop fuel b q todo (visited_heap V) = Some (visited_heap V') ∧
    V ⊆ V' ∧ (∀ y, y ∈ todo → y ∈ V') ∧ walk_inv V' ∅ [].
Proof.
  revert V q todo. induction fuel as [|fuel IH]; intros V q todo Hinv Hfuel; [lia|].
  destruct todo as [|a todo].
  { exists V. split_and!; [done|done|by intros ? ?%not_elem_of_nil|].
    destruct Hinv as [Hc Hq Ht Hr]. split; [done|done|done|done]. }
  cbn [Build.propagate_loop].
  destruct (wi_todo _ _ _ Hinv a) as [[s Hs] _]; [left|].
  change (hp_steps (visited_heap V)) with (visited_steps V).
  rewrite visited_lookup, Hs, visited_upd. cbn [fmap option_fmap option_map].
  assert (Step.get_all_deps_not_queued q (if decide (a ∈ V) then Build.bump b s else s) =
    Step.get_all_deps_not_queued q s) as -> by (by destruct (decide _)).
  set (new := Step.get_all_deps_not_queued q s).
  destruct (IH ({[a]} ∪ V) (enqueue q new) (todo ++ new.*2)) as (V' & HV' & HVV' & Htodo & Hinv').
  { by apply walk_inv_step. }
  { assert (length new + unvisited h (enqueue q new) ≤ unvisited h q).
    { apply enqueue_unvisited; [apply deps_not_queued_NoDup| |];
        apply Forall_forall; intros [d y] [Hd Hq]%deps_not_queued_spec; [done|]. by eapply Hwf. }
    rewrite length_app, length_fmap. cbn in Hfuel. lia. }
  exists V'. split_and!; [done|set_solver| |done].
  intros y [->|Hy]%elem_of_cons; [set_solver|]. apply Htodo, elem_of_app. by left.
Qed.

End Walk.

Lemma propagate_priorities_correct `{HI : HashIter} h b top :
  deps_wf h → drv_inj h → b_toplevel b = Some top → is_Some (hp_steps h !! top) →
  ∃ V : gset addr, Build.propagate_priorities b h = Some (visited_heap h b V) ∧
    ∀ x, is_Some (hp_steps h !! x) → (x ∈ V ↔ rtc (dep_edge h) top x).
Proof.
  intros Hwf Hinj Htop Hlive. unfold Build.propagate_priorities. rewrite Htop. cbn [option_list].
  destruct (propagate_loop_spec h b top Hwf Hinj (3 + size (hp_steps h)) ∅ ∅ [top])
    as (V & HV & _ & Hin & [Hc _ _ Hr]).
  { split; [set_solver|done| |set_solver]. intros y ->%list_elem_of_singleton.
    split; [done|apply rtc_refl]. }
  { pose proof (unvisited_bound h ∅). cbn. lia. }
  rewrite visited_empty in HV. exists V. split; [done|]. intros x _. split; [by apply Hr|]. revert x.
  apply (rtc_ind_r (λ x, x ∈ V)); [apply Hin; left|].
  intros x y _ (s & d & Hs & Hd) Hx. destruct (Hc x s d y Hx Hs Hd) as [?|?%not_elem_of_nil]; done.
Qed.

Lemma propagate_priorities_none `{HI : HashIter} h b :
  b_toplevel b = None → Build.propagate_priorities b h = Some h.
Proof. intros Hb. unfold Build.propagate_priorities. by rewrite Hb. Qed.
