(* ===== verification/GraphInv.v ===== *)
(** * GraphInv: the invariant of the build graph

    The counters equal the sizes they mirror, dependencies and reverse
    dependencies mirror each other, and a runnable step has no dependency
    left; [Steps::create], [add_dep], [make_runnable], [make_rdeps_runnable]
    and [propagate_priorities] keep this, and finishing a step makes exactly
    the steps runnable that waited for nothing else. *)

From Stdlib Require Import Ascii String.
From S2P Require Import Prelude Floats RustStr Nix Db Jobset Graph Dependents Priorities.
Local Open Scope Z_scope.

Record step_wf (h : Heap) (x : addr) (s : Step) : Prop := {
  sw_deps_len : st_deps_len s = Z.of_nat (size (st_deps s));
  sw_rdeps_len : st_rdeps_len s = Z.of_nat (length (st_rdeps s));
  sw_deps : ∀ d y, st_deps s !! d = Some y →
    ∃ sy, hp_steps h !! y = Some sy ∧ st_drv_path sy = d ∧ x ∈ st_rdeps sy;
  sw_runnable : st_runnable s = true → st_deps s = ∅ ∧ st_created s = true;
  sw_fresh : (x < hp_next h)%positive
}.

Definition graph_wf (h : Heap) : Prop := ∀ x s, hp_steps h !! x = Some s → step_wf h x s.

Lemma graph_wf_deps_wf h : graph_wf h → deps_wf h.
Proof. intros Hh x s d y Hx Hd. destruct (sw_deps _ _ _ (Hh x s Hx) d y Hd) as (sy & ? & ? & _). eauto. Qed.

(** ** Changing one step *)

(** [h'] differs from [h] in its steps and clock readings only. *)
Record same_frame (h h' : Heap) : Prop := {
  sf_builds : hp_builds h' = hp_builds h;
  sf_jobsets : hp_jobsets h' = hp_jobsets h;
  sf_next : hp_next h' = hp_next h;
  sf_clock : hp_clock h' = hp_clock h
}.

Lemma same_frame_refl h : same_frame h h.
Proof. by split. Qed.
Lemma same_frame_trans h1 h2 h3 : same_frame h1 h2 → same_frame h2 h3 → same_frame h1 h3.
Proof. intros [] []. split; congruence. Qed.
#[export] Hint Resolve same_frame_refl : runner.

Lemma upd_step_frame a f h : same_frame h (upd_step a f h).
Proof. by split. Qed.

Lemma upd_step_lookup a f h : hp_steps (upd_step a f h) !! a = f <$> hp_steps h !! a.
Proof. apply lookup_alter_eq. Qed.

Lemma upd_step_lookup_ne a f h x : x ≠ a → hp_steps (upd_step a f h) !! x = hp_steps h !! x.
Proof. intros H. by apply lookup_alter_ne. Qed.

(** ** Making a step runnable *)

(** The step with the fields [make_runnable] may write replaced. *)
Definition rescheduled (r : bool) (since last : AtomicDateTime) (s : Step) : Step :=
  s <| st_runnable := r |> <| st_runnable_since := since |> <| st_last_supported := last |>.

Lemma make_runnable_frame a h : same_frame h (Step.make_runnable a h).
Proof.
  unfold Step.make_runnable. destruct (hp_steps h !! a) as [s|]; [|by auto with runner].
  destruct (st_runnable s); [by auto with runner|by split].
Qed.

Lemma make_runnable_lookup_ne a h x :
  x ≠ a → hp_steps (Step.make_runnable a h) !! x = hp_steps h !! x.
Proof.
  intros H. unfold Step.make_runnable. destruct (hp_steps h !! a) as [s|]; [|done].
  destruct (st_runnable s); [done|]. by apply lookup_alter_ne.
Qed.

(** A step is marked once: the time of the first marking stays. *)
Lemma make_runnable_lookup a h s :
  hp_steps h !! a = Some s →
  hp_steps (Step.make_runnable a h) !! a =
  Some (if st_runnable s then s
        else let t := AtomicDateTime.new (hp_clock h (hp_reads h)) in rescheduled true t t s).
Proof.
  intros Ha. unfold Step.make_runnable. rewrite Ha. destruct (st_runnable s); [done|].
  cbn [now]. rewrite upd_step_lookup. cbn [hp_steps upd set_hp_reads]. by rewrite Ha.
Qed.

(** ** Releasing the reverse dependencies of a finished step *)

(** [s'] is [s] without the dependency on [drv]; it is runnable when it was,
    or when it is complete and has no dependency left. *)
Definition released (drv : StorePath) (s s' : Step) : Prop :=
  let deps := delete drv (st_deps s) in
  ∃ since last,
    s' = rescheduled (st_runnable s || (bool_decide (deps = ∅) && st_created s)) since last
           (s <| st_deps := deps |> <| st_deps_len := Z.of_nat (size deps) |>) ∧
    (st_runnable s = true → since = st_runnable_since s ∧ last = st_last_supported s).

Lemma released_trans drv s1 s2 s3 : released drv s1 s2 → released drv s2 s3 → released drv s1 s3.
Proof.
  intros (since & last & -> & H1) (since' & last' & -> & H2). exists since', last'. split.
  - destruct s1. unfold rescheduled, upd. cbn in *. rewrite delete_delete_eq.
    f_equal. destruct st_runnable, (bool_decide _), st_created; done.
  - intros Hr. cbn in *. rewrite Hr in H2. destruct (H2 eq_refl) as [-> ->]. by apply H1.
Qed.

Lemma release_rdep_spec drv r h s :
  hp_steps h !! r = Some s →
  ∃ h' s', Step.release_rdep drv r h = (true, h') ∧ same_frame h h' ∧
    hp_steps h' !! r = Some s' ∧ released drv s s' ∧
    (∀ x, x ≠ r → hp_steps h' !! x = hp_steps h !! x).
Proof.
  intros Hr. unfold Step.release_rdep. rewrite Hr.
  set (deps := delete drv (st_deps s)).
  set (h1 := upd_step r _ h).
  assert (hp_steps h1 !! r = Some (s <| st_deps := deps |> <| st_deps_len := Z.of_nat (size deps) |>))
    as Hr1 by (unfold h1; by rewrite upd_step_lookup, Hr).
  destruct (bool_decide (deps = ∅) && st_created s) eqn:E.
  - eexists _, _. split; [done|]. split_and!.
    + eapply same_frame_trans; [apply upd_step_frame|apply make_runnable_frame].
    + by apply make_runnable_lookup.
    + cbn [st_runnable upd set_st_deps set_st_deps_len]. unfold released. fold deps. rewrite E, orb_true_r.
      destruct (st_runnable s) eqn:Er.
      * exists (st_runnable_since s), (st_last_supported s). split; [|done].
        destruct s. cbn in *. by subst.
      * eexists _, _. split; [done|done].
    + intros x Hx. rewrite make_runnable_lookup_ne by done. by apply upd_step_lookup_ne.
  - exists h1, (s <| st_deps := deps |> <| st_deps_len := Z.of_nat (size deps) |>).
    split_and!; [done|apply upd_step_frame|done| |intros x Hx; by apply upd_step_lookup_ne].
    unfold released. fold deps. rewrite E, orb_false_r.
    exists (st_runnable_since s), (st_last_supported s). split; [by destruct s|done].
Qed.

Lemma release_rdeps_spec drv rdeps h :
  ∃ h', Step.release_rdeps drv rdeps h =
      (filter (λ r, is_Some (hp_steps h !! r)) rdeps, h') ∧
    same_frame h h' ∧
    (∀ x, x ∉ rdeps → hp_steps h' !! x = hp_steps h !! x) ∧
    (∀ x s, x ∈ rdeps → hp_steps h !! x = Some s →
       ∃ s', hp_steps h' !! x = Some s' ∧ released drv s s') ∧
    (∀ x, hp_steps h !! x = None → hp_steps h' !! x = None).
Proof.
  revert h. induction rdeps as [|r rdeps IH]; intros h.
  { exists h. split_and!; [done|apply same_frame_refl|done|by intros ? ? ?%not_elem_of_nil|done]. }
  cbn [Step.release_rdeps]. destruct (hp_steps h !! r) as [s|] eqn:Hr.
  - destruct (release_rdep_spec drv r h s Hr) as (h1 & s1 & -> & Hf1 & Hr1 & Hrel & Hne).
    destruct (IH h1) as (h2 & -> & Hf2 & Hout & Hin & Hdead). exists h2.
    assert (∀ x, is_Some (hp_steps h1 !! x) ↔ is_Some (hp_steps h !! x)) as Hlive.
    { intros x. destruct (decide (x = r)) as [->|Hx]; [rewrite Hr1, Hr; by split|by rewrite Hne]. }
    split_and!.
    + rewrite filter_cons_True by eauto. do 2 f_equal. apply list_filter_iff. intros x. apply Hlive.
    + by eapply same_frame_trans.
    + intros x [Hx Hx']%not_elem_of_cons. rewrite Hout, Hne by done. done.
    + intros x sx Hx Hsx. destruct (decide (x = r)) as [->|Hxr].
      * assert (sx = s) as -> by congruence. destruct (decide (r ∈ rdeps)) as [Hrin|Hrin].
        -- destruct (Hin r s1 Hrin Hr1) as (s2 & Hs2 & Hrel2). exists s2. split; [done|].
           by eapply released_trans.
        -- exists s1. split; [by rewrite Hout|done].
      * apply elem_of_cons in Hx as [->|Hx]; [done|]. apply (Hin x sx Hx). by rewrite Hne.
    + intros x Hx. apply Hdead. rewrite Hne; [done|]. intros ->. congruence.
  - destruct (IH h) as (h2 & Hrun & Hf2 & Hout & Hin & Hdead). exists h2.
    unfold Step.release_rdep. rewrite Hr, Hrun. split_and!.
    + rewrite filter_cons_False; [done|]. rewrite Hr. by intros [? ?].
    + done.
    + intros x [Hx Hx']%not_elem_of_cons. by apply Hout.
    + intros x sx [->|Hx]%elem_of_cons Hsx; [congruence|by apply Hin].
    + done.
Qed.

(** What [make_rdeps_runnable] of a finished step does to the graph. *)
Lemma make_rdeps_runnable_lookup a s h :
  hp_steps h !! a = Some s → st_finished s = true → a ∉ st_rdeps s →
  let h' := Step.make_rdeps_runnable a h in
  let rdeps := filter (λ r, is_Some (hp_steps h !! r)) (st_rdeps s) in
  same_frame h h' ∧
  hp_steps h' !! a = Some (s <| st_rdeps := rdeps |> <| st_rdeps_len := Z.of_nat (length rdeps) |>) ∧
  (∀ x, x ≠ a → x ∉ st_rdeps s → hp_steps h' !! x = hp_steps h !! x) ∧
  (∀ x sx, x ∈ st_rdeps s → hp_steps h !! x = Some sx →
     ∃ sx', hp_steps h' !! x = Some sx' ∧ released (st_drv_path s) sx sx') ∧
  (∀ x, hp_steps h !! x = None → hp_steps h' !! x = None).
Proof.
  intros Ha Hf Hself h'. unfold h', Step.make_rdeps_runnable. rewrite Ha, Hf. cbn [negb].
  destruct (release_rdeps_spec (st_drv_path s) (st_rdeps s) h) as (h1 & -> & Hf1 & Hout & Hin & Hdead).
  split_and!.
  - eapply same_frame_trans; [exact Hf1|apply upd_step_frame].
  - rewrite upd_step_lookup, Hout, Ha by done. done.
  - intros x Hx Hxr. rewrite upd_step_lookup_ne by done. by apply Hout.
  - intros x sx Hx Hsx. rewrite upd_step_lookup_ne by (intros ->; done). by apply Hin.
  - intros x Hx. rewrite upd_step_lookup_ne by (intros ->; congruence). by apply Hdead.
Qed.

Lemma released_same drv s s' :
  released drv s s' →
  st_drv_path s' = st_drv_path s ∧ st_rdeps s' = st_rdeps s ∧ st_rdeps_len s' = st_rdeps_len s ∧
  st_created s' = st_created s ∧ st_deps s' = delete drv (st_deps s) ∧
  st_deps_len s' = Z.of_nat (size (delete drv (st_deps s))) ∧
  st_runnable s' = st_runnable s || (bool_decide (delete drv (st_deps s) = ∅) && st_created s).
Proof. intros (since & last & -> & _). done. Qed.

Lemma make_rdeps_runnable_wf a h :
  (∀ s, hp_steps h !! a = Some s → a ∉ st_rdeps s) →
  graph_wf h → graph_wf (Step.make_rdeps_runnable a h).
Proof.
  intros Hself Hwf. destruct (hp_steps h !! a) as [s|] eqn:Ha.
  2:{ unfold Step.make_rdeps_runnable. by rewrite Ha. }
  destruct (st_finished s) eqn:Hf.
  2:{ unfold Step.make_rdeps_runnable. by rewrite Ha, Hf. }
  destruct (make_rdeps_runnable_lookup a s h Ha Hf (Hself s eq_refl))
    as (Hfr & Ha' & Hout & Hin & Hdead).
  set (h' := Step.make_rdeps_runnable a h) in *.
  assert (∀ x sx, hp_steps h !! x = Some sx → ∃ sx', hp_steps h' !! x = Some sx' ∧
    st_drv_path sx' = st_drv_path sx ∧
    (∀ y, is_Some (hp_steps h !! y) → y ∈ st_rdeps sx → y ∈ st_rdeps sx')) as Hkeep.
  { intros x sx Hx. destruct (decide (x = a)) as [->|Hxa].
    - assert (sx = s) as -> by congruence. eexists. split_and!; [done|done|].
      cbn. intros y Hy Hin'. by apply list_elem_of_filter.
    - destruct (decide (x ∈ st_rdeps s)) as [Hr|Hr].
      + destruct (Hin x sx Hr Hx) as (sx' & Hx' & Hrel). exists sx'.
        apply released_same in Hrel as (-> & -> & _). done.
      + exists sx. by rewrite Hout. }
  assert (∀ x sx', hp_steps h' !! x = Some sx' → ∃ sx, hp_steps h !! x = Some sx) as Hback.
  { intros x sx' Hx'. destruct (hp_steps h !! x) as [sx|] eqn:E; [eauto|].
    rewrite Hdead in Hx' by done. done. }
  assert (∀ x sx deps, hp_steps h !! x = Some sx → deps ⊆ st_deps sx →
    ∀ d y, deps !! d = Some y →
    ∃ sy, hp_steps h' !! y = Some sy ∧ st_drv_path sy = d ∧ x ∈ st_rdeps sy) as Hdeps.
  { intros x sx deps Hx Hsub d y Hd. eapply lookup_weaken in Hd; [|exact Hsub].
    destruct (sw_deps _ _ _ (Hwf x sx Hx) d y Hd) as (sy & Hy & Hdy & Hxy).
    destruct (Hkeep y sy Hy) as (sy' & Hy' & Hd' & Hr'). exists sy'. split_and!; [done|congruence|].
    apply Hr'; [eauto|done]. }
  intros x sx' Hx'. destruct (Hback x sx' Hx') as [sx Hx]. pose proof (Hwf x sx Hx) as Hsx.
  destruct (decide (x = a)) as [->|Hxa].
  { assert (sx = s) as -> by congruence. rewrite Ha' in Hx'. injection Hx' as <-.
    split; cbn; [apply Hsx|done| |apply Hsx|by rewrite (sf_next _ _ Hfr); apply Hsx].
    by apply (Hdeps a s). }
  destruct (decide (x ∈ st_rdeps s)) as [Hr|Hr].
  - destruct (Hin x sx Hr Hx) as (sx'' & Hx'' & Hrel). assert (sx'' = sx') as -> by congruence.
    apply released_same in Hrel as (Hd & Hrd & Hrl & Hc & Hdp & Hdl & Hrun). split.
    + by rewrite Hdl, Hdp.
    + rewrite Hrl, Hrd. apply Hsx.
    + rewrite Hdp. apply (Hdeps x sx); [done|apply delete_subseteq].
    + rewrite Hrun, Hdp, Hc. intros [H|H]%orb_true_iff.
      * destruct (sw_runnable _ _ _ Hsx H) as [-> ->]. by rewrite delete_empty.
      * by bool_prop.
    + rewrite (sf_next _ _ Hfr). apply Hsx.
  - rewrite Hout in Hx' by done. assert (sx' = sx) as -> by congruence.
    split; [apply Hsx..| |apply Hsx|rewrite (sf_next _ _ Hfr); apply Hsx].
    by apply (Hdeps x sx).
Qed.

(** ** The registry of steps *)

(** The registry knows every live step, under its derivation path. *)
Definition registered (h : Heap) (steps : Steps) : Prop :=
  (∀ a s, hp_steps h !! a = Some s → steps !! st_drv_path s = Some a) ∧
  (∀ d a s, steps !! d = Some a → hp_steps h !! a = Some s → st_drv_path s = d) ∧
  (∀ d a, steps !! d = Some a → (a < hp_next h)%positive).

Lemma registered_drv_inj h steps : registered h steps → drv_inj h.
Proof. intros [H _] x y sx sy Hx%H Hy%H Hd. rewrite Hd in Hx. congruence. Qed.

Lemma fresh_addr h : graph_wf h → hp_steps h !! hp_next h = None.
Proof.
  intros Hwf. destruct (hp_steps h !! hp_next h) as [s|] eqn:E; [|done].
  pose proof (sw_fresh _ _ _ (Hwf _ _ E)). lia.
Qed.

Lemma add_referring_same rb rs s :
  let s' := Step.add_referring_data rb rs s in
  s' = s <| st_builds := st_builds s ++ option_list rb |>
         <| st_rdeps := st_rdeps s ++ option_list rs |>
         <| st_rdeps_len := match rs with Some _ => Z.of_nat (length (st_rdeps s ++ option_list rs))
                                        | None => st_rdeps_len s end |>.
Proof. destruct s, rb, rs; cbn; by rewrite ?app_nil_r. Qed.

(** The heap with a new step. *)
Definition alloc_step (d : StorePath) (h : Heap) : Heap :=
  h <| hp_steps ::= <[hp_next h := Step.new d]> |> <| hp_next ::= Pos.succ |>.

Lemma alloc_step_old d h x s :
  graph_wf h → hp_steps h !! x = Some s → hp_steps (alloc_step d h) !! x = Some s.
Proof.
  intros Hwf Hx. cbn. rewrite lookup_insert_ne; [done|]. intros <-.
  by rewrite (fresh_addr h Hwf) in Hx.
Qed.

Lemma alloc_step_wf d h : graph_wf h → graph_wf (alloc_step d h).
Proof.
  intros Hwf x s. cbn. intros [[<- <-]|[Hne Hx]]%lookup_insert_Some.
  { split; cbn; [done|done|done|done|lia]. }
  destruct (Hwf x s Hx) as [W1 W2 W3 W4 W5]. split; cbn; [done|done| |done|lia].
  intros d' y (sy & Hy & ? & ?)%W3. exists sy. split_and!; [|done|done].
  by apply (alloc_step_old d h).
Qed.

Lemma alloc_step_registered d steps h :
  graph_wf h → registered h steps → (∀ x s, hp_steps h !! x = Some s → st_drv_path s ≠ d) →
  registered (alloc_step d h) (<[d := hp_next h]> steps).
Proof.
  intros Hwf (R1 & R2 & R3) Hno. split_and!; cbn.
  - intros x s [[<- <-]|[Hne Hx]]%lookup_insert_Some; [apply lookup_insert_eq|].
    rewrite lookup_insert_ne; [by apply R1|]. intros ->. by eapply Hno.
  - intros d' x s [[<- <-]|[Hne Hd]]%lookup_insert_Some Hx.
    + rewrite lookup_insert_eq in Hx. by injection Hx as <-.
    + specialize (R3 _ _ Hd). rewrite lookup_insert_ne in Hx by lia. by eapply R2.
  - intros d' x [[<- <-]|[Hne Hd]]%lookup_insert_Some; [lia|]. specialize (R3 _ _ Hd). lia.
Qed.

(** Adding the referring build and step to a step. *)
Lemma refer_wf a rb rs h : graph_wf h → graph_wf (upd_step a (Step.add_referring_data rb rs) h).
Proof.
  intros Hwf.
  assert (∀ x s, hp_steps h !! x = Some s → ∃ s',
    hp_steps (upd_step a (Step.add_referring_data rb rs) h) !! x = Some s' ∧
    st_drv_path s' = st_drv_path s ∧ (∀ y, y ∈ st_rdeps s → y ∈ st_rdeps s')) as Hkeep.
  { intros x s Hx. destruct (decide (x = a)) as [->|Hne].
    - rewrite upd_step_lookup, Hx. eexists. split; [done|]. rewrite add_referring_same. cbn.
      split; [done|]. intros y Hy. apply elem_of_app. by left.
    - exists s. by rewrite upd_step_lookup_ne. }
  intros x s' Hx'. destruct (hp_steps h !! x) as [s|] eqn:Hx.
  2:{ destruct (decide (x = a)) as [->|Hne];
        [rewrite upd_step_lookup, Hx in Hx'|rewrite upd_step_lookup_ne, Hx in Hx' by done]; done. }
  destruct (Hwf x s Hx) as [W1 W2 W3 W4 W5].
  assert (∀ d y, st_deps s !! d = Some y → ∃ sy,
    hp_steps (upd_step a (Step.add_referring_data rb rs) h) !! y = Some sy ∧
    st_drv_path sy = d ∧ x ∈ st_rdeps sy) as Hdeps.
  { intros d y (sy & Hy & <- & Hxy)%W3. destruct (Hkeep y sy Hy) as (sy' & ? & ? & ?). eauto. }
  destruct (decide (x = a)) as [->|Hne].
  - rewrite upd_step_lookup, Hx in Hx'. injection Hx' as <-. rewrite add_referring_same.
    split; cbn; [done| |done|done|done]. destruct rs; [done|by rewrite app_nil_r].
  - rewrite upd_step_lookup_ne, Hx in Hx' by done. by injection Hx' as <-.
Qed.

Lemma refer_registered a rb rs h steps :
  registered h steps → registered (upd_step a (Step.add_referring_data rb rs) h) steps.
Proof.
  intros (R1 & R2 & R3).
  assert (∀ x s', hp_steps (upd_step a (Step.add_referring_data rb rs) h) !! x = Some s' →
    ∃ s, hp_steps h !! x = Some s ∧ st_drv_path s' = st_drv_path s) as Hback.
  { intros x s'. destruct (decide (x = a)) as [->|Hne].
    - rewrite upd_step_lookup. destruct (hp_steps h !! a) as [s|]; [|done].
      intros [= <-]. exists s. by rewrite add_referring_same.
    - rewrite upd_step_lookup_ne by done. eauto. }
  split_and!; [| |done].
  - intros x s' (s & Hx & ->)%Hback. by apply R1.
  - intros d x s' Hd (s & Hx & ->)%Hback. by eapply R2.
Qed.

(** [Steps::create] finds the live step with the derivation path, or makes it. *)
Lemma create_spec d rb rs steps h a n steps' h' :
  graph_wf h → registered h steps →
  Steps.create d rb rs steps h = ((a, n), (steps', h')) →
  graph_wf h' ∧ registered h' steps' ∧
  (n = true ↔ ∀ x s, hp_steps h !! x = Some s → st_drv_path s ≠ d) ∧
  ∃ s, hp_steps h' !! a = Some s ∧ st_drv_path s = d ∧
    (∀ r, rs = Some r → r ∈ st_rdeps s) ∧ (∀ b, rb = Some b → b ∈ st_builds s).
Proof.
  intros Hwf Hreg H. unfold Steps.create in H.
  assert (∀ h1, graph_wf h1 → registered h1 (<[d := a]> steps) →
    (∃ s, hp_steps h1 !! a = Some s ∧ st_drv_path s = d) →
    h' = upd_step a (Step.add_referring_data rb rs) h1 → steps' = <[d := a]> steps →
    graph_wf h' ∧ registered h' steps' ∧
    ∃ s, hp_steps h' !! a = Some s ∧ st_drv_path s = d ∧
      (∀ r, rs = Some r → r ∈ st_rdeps s) ∧ (∀ b, rb = Some b → b ∈ st_builds s)) as Hfin.
  { intros h1 Hw1 Hr1 (s & Hs & Hd) -> ->. split_and!; [by apply refer_wf|by apply refer_registered|].
    eexists. rewrite upd_step_lookup, Hs. split; [done|]. rewrite add_referring_same. cbn.
    split_and!; [done| |]; intros ? ->; apply elem_of_app; right; cbn; left. }
  destruct (steps !! d ≫= λ a, hp_steps h !! a ≫= λ _, Some a) as [a'|] eqn:E.
  - apply bind_Some in E as (a'' & Hd & E). apply bind_Some in E as (s & Hs & [= ->]).
    injection H as -> <- <- <-. destruct (Hfin h) as (? & ? & ?); [done| |exists s|done|done|].
    + by rewrite insert_id.
    + split; [done|]. eapply (proj1 (proj2 Hreg)); eauto.
    + split_and!; [done|done| |done]. split; [done|]. intros Hno. exfalso.
      eapply Hno; [exact Hs|]. eapply (proj1 (proj2 Hreg)); eauto.
  - injection H as <- <- <- <-.
    assert (∀ x s, hp_steps h !! x = Some s → st_drv_path s ≠ d) as Hno.
    { intros x s Hx <-. rewrite (proj1 Hreg _ _ Hx) in E. cbn in E. by rewrite Hx in E. }
    destruct (Hfin (alloc_step d h)) as (? & ? & ?); [by apply alloc_step_wf|
      by apply alloc_step_registered|exists (Step.new d); split; [apply lookup_insert_eq|done]|
      done|done|].
    split_and!; done.
Qed.

(** [add_dep] of a step that refers to [x]. *)
Lemma add_dep_wf x s dep sd h :
  graph_wf h → hp_steps h !! x = Some s → st_runnable s = false →
  hp_steps h !! dep = Some sd → x ∈ st_rdeps sd →
  graph_wf (upd_step x (Step.add_dep (st_drv_path sd) dep) h).
Proof.
  intros Hwf Hx Hrun Hdep Hin.
  assert (∀ y sy, hp_steps h !! y = Some sy → ∃ sy',
    hp_steps (upd_step x (Step.add_dep (st_drv_path sd) dep) h) !! y = Some sy' ∧
    st_drv_path sy' = st_drv_path sy ∧ st_rdeps sy' = st_rdeps sy) as Hkeep.
  { intros y sy Hy. destruct (decide (y = x)) as [->|Hne].
    - rewrite upd_step_lookup, Hy. eauto.
    - exists sy. by rewrite upd_step_lookup_ne. }
  intros y sy'. destruct (decide (y = x)) as [->|Hne].
  - rewrite upd_step_lookup, Hx. intros [= <-]. destruct (Hwf x s Hx) as [W1 W2 W3 W4 W5].
    split; [done|done| |by cbn; rewrite Hrun|done].
    unfold Step.add_dep. cbn [upd set_st_deps set_st_deps_len st_deps].
    intros d y [Hd|[-> ->]]%hset_insert_Some.
    + destruct (W3 d y Hd) as (sy & Hy & <- & Hxy).
      destruct (Hkeep y sy Hy) as (sy' & ? & ? & Hr). exists sy'. by rewrite Hr.
    + destruct (Hkeep dep sd Hdep) as (sy' & ? & ? & Hr). exists sy'. by rewrite Hr.
  - rewrite upd_step_lookup_ne by done. intros Hy. destruct (Hwf y sy' Hy) as [W1 W2 W3 W4 W5].
    split; [done|done| |done|done]. intros d z (sz & Hz & <- & Hyz)%W3.
    destruct (Hkeep z sz Hz) as (sz' & ? & ? & Hr). exists sz'. by rewrite Hr.
Qed.

(** Changing other fields of a step. *)
Lemma upd_step_other_wf a f h :
  (∀ s, st_drv_path (f s) = st_drv_path s ∧ st_deps (f s) = st_deps s ∧
        st_deps_len (f s) = st_deps_len s ∧ st_rdeps (f s) = st_rdeps s ∧
        st_rdeps_len (f s) = st_rdeps_len s) →
  (∀ s, hp_steps h !! a = Some s → st_runnable (f s) = true →
     st_deps s = ∅ ∧ st_created (f s) = true) →
  graph_wf h → graph_wf (upd_step a f h).
Proof.
  intros Hf Hrun Hwf x s Hx.
  assert (∀ d y sy, hp_steps h !! y = Some sy → st_drv_path sy = d → x ∈ st_rdeps sy →
    ∃ sy, hp_steps (upd_step a f h) !! y = Some sy ∧ st_drv_path sy = d ∧ x ∈ st_rdeps sy) as Hkeep.
  { intros d y sy Hy Hd Hxy. destruct (decide (y = a)) as [->|Hne].
    - rewrite upd_step_lookup, Hy. eexists. split; [done|]. destruct (Hf sy) as (-> & _ & _ & -> & _). done.
    - exists sy. by rewrite upd_step_lookup_ne. }
  destruct (decide (x = a)) as [->|Hne].
  - rewrite upd_step_lookup in Hx. destruct (hp_steps h !! a) as [s0|] eqn:Ha; [|done].
    injection Hx as <-. destruct (Hwf a s0 Ha) as [W1 W2 W3 W4 W5].
    destruct (Hf s0) as (E1 & E2 & E3 & E4 & E5).
    split; rewrite ?E2, ?E3, ?E4, ?E5; [done|done| |by apply Hrun|done].
    intros d y (sy & ? & ? & ?)%W3. eauto.
  - rewrite upd_step_lookup_ne in Hx by done. destruct (Hwf x s Hx) as [W1 W2 W3 W4 W5].
    split; [done|done| |done|done]. intros d y (sy & ? & ? & ?)%W3. eauto.
Qed.

(** Propagating priorities does not touch the graph. *)
Lemma visited_heap_wf h b V : graph_wf h → graph_wf (visited_heap h b V).
Proof.
  intros Hwf x s Hx. cbn in Hx. rewrite visited_lookup in Hx.
  destruct (hp_steps h !! x) as [s0|] eqn:E; [|done]. cbn in Hx.
  destruct (Hwf x s0 E) as [W1 W2 W3 W4 W5].
  assert (∀ d y, st_deps s0 !! d = Some y → ∃ sy,
    hp_steps (visited_heap h b V) !! y = Some sy ∧ st_drv_path sy = d ∧ x ∈ st_rdeps sy) as Hdeps.
  { intros d y (sy & Hy & <- & Hxy)%W3. cbn. rewrite visited_lookup, Hy. cbn [fmap option_fmap option_map].
    destruct (decide (y ∈ V)); eexists; (split; [reflexivity|]); (split; [reflexivity|exact Hxy]). }
  injection Hx as <-. destruct (decide _);
    (split; [exact W1|exact W2|exact Hdeps|exact W4|exact W5]).
Qed.
