(* ===== verification/Result.v ===== *)
(** * Result: what a build returned ([queue-runner/src/state/build.rs], [RemoteBuild] to
    [get_mark_build_sccuess_data])

    The record a job keeps of its remote build, the conversions of the
    builder's answer and of a database row into a [BuildOutput], and the data
    a successful build is marked with. The messages of [proto/v1/streaming.proto]
    are records with its fields. *)

From Stdlib Require Import Ascii String.
From S2P Require Import Prelude Floats RustStr Nix Db Support Jobset Graph.
Local Open Scope string_scope.
Local Open Scope list_scope.
Local Open Scope Z_scope.

Inductive BuildResultState :=
| RsSuccess | RsBuildFailure | RsPreparingFailure | RsImportFailure | RsUploadFailure
| RsPostProcessingFailure | RsAborted | RsCancelled.
#[export] Instance BuildResultState_eq_dec : EqDecision BuildResultState.
Proof. solve_decision. Defined.

(** [runner_v1::BuildResultState] *)
Inductive GrpcResultState :=
| GBuildFailure | GSuccess | GPreparingFailure | GImportFailure | GUploadFailure
| GPostProcessingFailure.

Definition result_state_from (v : GrpcResultState) : BuildResultState :=
  match v with
  | GBuildFailure => RsBuildFailure
  | GSuccess => RsSuccess
  | GPreparingFailure => RsPreparingFailure
  | GImportFailure => RsImportFailure
  | GUploadFailure => RsUploadFailure
  | GPostProcessingFailure => RsPostProcessingFailure
  end.

(** ** [RemoteBuild] *)

Record RemoteBuild := mkRemoteBuild {
  rb_step_status : BuildStatus;
  rb_can_retry : bool;
  rb_is_cached : bool;
  rb_can_cache : bool;
  rb_error_msg : option string;
  rb_times_built : Z;
  rb_is_non_deterministic : bool;
  rb_start_time : option Timestamp;
  rb_stop_time : option Timestamp;
  rb_overhead : Z;
  rb_log_file : string
}.
#[export] Instance eta_RemoteBuild : Eta RemoteBuild := λ r,
  mkRemoteBuild (rb_step_status r) (rb_can_retry r) (rb_is_cached r) (rb_can_cache r)
    (rb_error_msg r) (rb_times_built r) (rb_is_non_deterministic r) (rb_start_time r)
    (rb_stop_time r) (rb_overhead r) (rb_log_file r).
#[export] Instance set_rb_step_status : Setter rb_step_status := ltac:(mk_setter rb_step_status).
#[export] Instance set_rb_can_retry : Setter rb_can_retry := ltac:(mk_setter rb_can_retry).
#[export] Instance set_rb_is_cached : Setter rb_is_cached := ltac:(mk_setter rb_is_cached).
#[export] Instance set_rb_can_cache : Setter rb_can_cache := ltac:(mk_setter rb_can_cache).
#[export] Instance set_rb_error_msg : Setter rb_error_msg := ltac:(mk_setter rb_error_msg).
#[export] Instance set_rb_start_time : Setter rb_start_time := ltac:(mk_setter rb_start_time).
#[export] Instance set_rb_stop_time : Setter rb_stop_time := ltac:(mk_setter rb_stop_time).
#[export] Instance set_rb_overhead : Setter rb_overhead := ltac:(mk_setter rb_overhead).
#[export] Instance set_rb_log_file : Setter rb_log_file := ltac:(mk_setter rb_log_file).

Module RemoteBuild.

Definition new : RemoteBuild :=
  mkRemoteBuild Aborted false false false None 0 false None None 0 "".

(** [as u64] of the absolute value: saturating, an error counts as [0.0]. *)
Definition get_total_step_time_ms `{TimeLib} (r : RemoteBuild) : Z :=
  match rb_start_time r, rb_stop_time r with
  | Some start_time, Some stop_time =>
      to_u64 (f64_abs (default (S754_zero false) (total_ms start_time stop_time)))
  | _, _ => 0
  end.

Definition update_with_result_state (state : BuildResultState) (r : RemoteBuild) : RemoteBuild :=
  match state with
  | RsBuildFailure => r <| rb_can_retry := false |>
  | RsSuccess => r
  | RsPreparingFailure | RsImportFailure | RsUploadFailure | RsPostProcessingFailure =>
      r <| rb_can_retry := true |>
  | RsAborted => r <| rb_can_retry := true |> <| rb_step_status := Aborted |>
  | RsCancelled => r <| rb_can_retry := true |> <| rb_step_status := Cancelled |>
  end.

Definition set_start_and_stop (v : Timestamp) (r : RemoteBuild) : RemoteBuild :=
  r <| rb_start_time := Some v |> <| rb_stop_time := Some v |>.
(** [set_start_time_now] and [set_stop_time_now], given the clock's reading. *)
Definition set_start_time_now (t : Timestamp) (r : RemoteBuild) : RemoteBuild :=
  r <| rb_start_time := Some t |>.
Definition set_stop_time_now (t : Timestamp) (r : RemoteBuild) : RemoteBuild :=
  r <| rb_stop_time := Some t |>.
Definition has_start_time (r : RemoteBuild) : bool := bool_decide (is_Some (rb_start_time r)).
Definition has_stop_time (r : RemoteBuild) : bool := bool_decide (is_Some (rb_stop_time r)).

Definition time_as_i32 (t : option Timestamp) : result Error Z :=
  ok_or (try_i 32 (default 0 (as_second <$> t))) TryFromInt.
Definition get_start_time_as_i32 (r : RemoteBuild) : result Error Z := time_as_i32 (rb_start_time r).
Definition get_stop_time_as_i32 (r : RemoteBuild) : result Error Z := time_as_i32 (rb_stop_time r).

Definition get_overhead (r : RemoteBuild) : option Z :=
  if negb (rb_overhead r =? 0) then Some (rb_overhead r) else None.
Definition get_times_built (r : RemoteBuild) : option Z :=
  if negb (rb_times_built r =? 0) then Some (rb_times_built r) else None.
Definition get_is_non_deterministic (r : RemoteBuild) : option bool :=
  if negb (rb_times_built r =? 0) then Some (rb_is_non_deterministic r) else None.

Definition set_overhead (v : Z) (r : RemoteBuild) : result Error RemoteBuild :=
  o ← ok_or (try_i 32 v) TryFromInt; Ok (r <| rb_overhead := o |>).

End RemoteBuild.

(** ** Products, metrics, timings *)

Record BuildProduct := mkBuildProduct {
  p_path : option StorePath; p_default_path : option string; p_type : string;
  p_subtype : string; p_name : string; p_is_regular : bool; p_sha256hash : option string;
  p_file_size : option Z }.

(** [runner_v1::BuildProduct] has the fields of [shared::BuildProduct]. *)
Abbreviation GrpcProduct := SBuildProduct.

Record BuildMetric := mkBuildMetric { m_name : string; m_unit : option string; m_value : f64 }.

Record GrpcNixSupport := mkGrpcNixSupport {
  gs_failed : bool; gs_hydra_release_name : option string;
  gs_metrics : list SBuildMetric; gs_products : list GrpcProduct }.

(** In milliseconds, the resolution [Duration::from_millis] gives them. *)
Record BuildTimings := mkBuildTimings {
  bt_import_elapsed : Z; bt_build_elapsed : Z; bt_upload_elapsed : Z }.

Module BuildTimings.
Definition new (import_time_ms build_time_ms upload_time_ms : Z) : BuildTimings :=
  mkBuildTimings import_time_ms build_time_ms upload_time_ms.
Definition default : BuildTimings := mkBuildTimings 0 0 0.
Definition get_overhead (t : BuildTimings) : Z := bt_import_elapsed t + bt_upload_elapsed t.
End BuildTimings.

Definition product_from_shared `{NixEnv} (v : SBuildProduct) : BuildProduct :=
  mkBuildProduct (Some (store_path_new (sp_path v))) (Some (sp_default_path v)) (sp_type v)
    (sp_subtype v) (sp_name v) (sp_is_regular v) (sp_sha256hash v) (sp_file_size v).

(** [v.filesize as u64] wraps a negative number. *)
Definition product_from_db `{NixEnv} (v : BuildProductModel) : BuildProduct :=
  mkBuildProduct (store_path_new <$> bp_path v) (bp_defaultpath v) (bp_type v) (bp_subtype v)
    (bp_name v) (bool_decide (is_Some (bp_filesize v))) (bp_sha256hash v)
    (u64_wrap <$> bp_filesize v).

Definition metric_from_db (v : BuildMetricModel) : BuildMetric :=
  mkBuildMetric (bmt_name v) (bmt_unit v) (bmt_value v).
Definition metric_from_shared (v : SBuildMetric) : BuildMetric :=
  mkBuildMetric (sm_name v) (sm_unit v) (sm_value v).

(** ** [BuildOutput] *)

Record BuildOutput := mkBuildOutput {
  out_failed : bool; out_timings : BuildTimings; out_release_name : option string;
  out_closure_size : Z; out_size : Z; out_products : list BuildProduct;
  out_outputs : gmap string StorePath; out_metrics : list BuildMetric }.
#[export] Instance eta_BuildOutput : Eta BuildOutput := λ r,
  mkBuildOutput (out_failed r) (out_timings r) (out_release_name r) (out_closure_size r)
    (out_size r) (out_products r) (out_outputs r) (out_metrics r).
#[export] Instance set_out_products : Setter out_products := ltac:(mk_setter out_products).
#[export] Instance set_out_metrics : Setter out_metrics := ltac:(mk_setter out_metrics).

Inductive GrpcOutput :=
| Nameonly (name : string)
| Withpath (name path : string) (closure_size nar_size : Z) (nar_hash : string).

Record BuildResultInfo := mkBuildResultInfo {
  bri_build_id : string; bri_machine_id : string; bri_import_time_ms : Z;
  bri_build_time_ms : Z; bri_upload_time_ms : Z; bri_result_state : GrpcResultState;
  bri_nix_support : option GrpcNixSupport; bri_outputs : list (option GrpcOutput) }.

Module BuildOutput.

Definition try_from_db (v : BuildOutputModel) : result Error BuildOutput :=
  status ← ok_or (bo_buildstatus v) (Anyhow "buildstatus missing");
  status ← ok_or (BuildStatus_from_i32 status) (Anyhow "buildstatus did not map");
  Ok (mkBuildOutput (bool_decide (status ≠ Success)) BuildTimings.default (bo_releasename v)
        (u64_wrap (default 0 (bo_closuresize v))) (u64_wrap (default 0 (bo_size v))) [] ∅ []).

Section Store.
Context `{NE : NixEnv}.

(** One turn of the loop over the outputs: names, closure size, nar size. *)
Definition add_output (acc : gmap string StorePath * Z * Z) (o : option GrpcOutput)
  : gmap string StorePath * Z * Z :=
  let '(outputs, closure_size, nar_size) := acc in
  match o with
  | Some (Withpath name path c n _) =>
      (<[name := store_path_new path]> outputs, u64_wrap (closure_size + c), u64_wrap (nar_size + n))
  | _ => acc
  end.

Definition from_result_info (v : BuildResultInfo) : BuildOutput :=
  let '(outputs, closure_size, nar_size) := foldl add_output (∅, 0, 0) (bri_outputs v) in
  let '(failed, release_name, products, metrics) :=
    match bri_nix_support v with
    | Some s => (gs_failed s, gs_hydra_release_name s, gs_products s, gs_metrics s)
    | None => (false, None, [], [])
    end in
  mkBuildOutput failed
    (BuildTimings.new (bri_import_time_ms v) (bri_build_time_ms v) (bri_upload_time_ms v))
    release_name closure_size nar_size (product_from_shared <$> products) outputs
    (metric_from_shared <$> metrics).

Context `{FS : FsEnv}.

Definition add_known_output (q : nat) (pathinfos : gmap StorePath PathInfo)
    (acc : gmap string StorePath * Z * Z) (o : Output) : gmap string StorePath * Z * Z :=
  let '(outputs, closure_size, nar_size) := acc in
  match o_path o with
  | None => acc
  | Some path =>
      match pathinfos !! path with
      | None => acc
      | Some info => (<[o_name o := path]> outputs,
                      u64_wrap (closure_size + ffi_compute_closure_size q (print_store_path path)),
                      u64_wrap (nar_size + pi_nar_size info))
      end
  end.

Definition new (q : nat) (outs : list Output) : result Error BuildOutput :=
  let pathinfos := query_path_infos q (omap o_path outs) in
  nix_support ← parse_nix_support_from_outputs outs;
  let '(outputs, closure_size, nar_size) := foldl (add_known_output q pathinfos) (∅, 0, 0) outs in
  Ok (mkBuildOutput (ns_failed nix_support) BuildTimings.default (ns_hydra_release_name nix_support)
        closure_size nar_size (product_from_shared <$> ns_products nix_support) outputs
        (metric_from_shared <$> ns_metrics nix_support)).

End Store.
End BuildOutput.

(** ** [get_mark_build_sccuess_data] *)

Section Mark.
Context `{NE : NixEnv}.

Definition product_to_db (v : BuildProduct) : BuildProductModel :=
  mkBuildProductModel (p_type v) (p_subtype v) (s ← p_file_size v; try_i 64 s) (p_sha256hash v)
    (print_store_path <$> p_path v) (p_name v) (p_default_path v).
Definition metric_to_db (m : BuildMetric) : BuildMetricModel :=
  mkBuildMetricModel (m_name m) (m_unit m) (m_value m).

Definition get_mark_build_sccuess_data (b : Build) (res : BuildOutput) : MarkBuildSuccessData :=
  mkMarkBuildSuccessData (b_id b) (b_name b) (b_jobset b).1 (b_jobset b).2 (b_finished_in_db b)
    (as_second (b_timestamp b)) (out_failed res) (out_closure_size res) (out_size res)
    (out_release_name res) (print_store_path <$> out_outputs res)
    (product_to_db <$> out_products res) (metric_to_db <$> out_metrics res).

End Mark.

(** ** Lemmas *)

(** A product whose database row reads back as itself. *)
Definition storable `{NixEnv} (p : BuildProduct) : Prop :=
  ends_with "/" get_store_dir = false ∧
  (∀ sp, p_path p = Some sp → strip_prefix "/" (StorePath.base_name sp) = None) ∧
  p_is_regular p = bool_decide (is_Some (p_file_size p)) ∧
  (∀ n, p_file_size p = Some n → 0 ≤ n < 2 ^ 63).

Lemma product_roundtrip `{NixEnv} p : storable p → product_from_db (product_to_db p) = p.
Proof.
  destruct p as [path dp ty sub nm reg sha size]. intros (Hd & Hp & Hr & Hs). cbn in *.
  unfold product_from_db, product_to_db. cbn.
  assert ((size ≫= λ s, try_i 64 s) = size ∧ u64_wrap <$> size = size) as [-> ->].
  { destruct size as [n|]; cbn; [|done]. specialize (Hs n eq_refl).
    assert (try_i 64 n = Some n) as ->.
    { apply try_i_Some. split; [done|]. unfold in_i. lia. }
    split; [done|]. f_equal. apply u_wrap_small. unfold in_u. lia. }
  subst reg. f_equal; [|done..]. destruct path as [sp|]; cbn; [|done]. f_equal.
  by apply store_path_print_new, (Hp sp eq_refl).
Qed.

Definition with_path (o : option GrpcOutput) : option (string * string * (Z * Z)) :=
  match o with Some (Withpath n p c s _) => Some (n, p, (c, s)) | _ => None end.

Lemma fold_add_output `{NixEnv} os m c s :
  in_u 64 c = true → in_u 64 s = true →
  let os' := omap with_path os in
  foldl BuildOutput.add_output (m, c, s) os =
  (foldl (λ m o, <[o.1.1 := store_path_new o.1.2]> m) m os',
   u64_wrap (c + sum_list_Z ((λ o, o.2.1) <$> os')), u64_wrap (s + sum_list_Z ((λ o, o.2.2) <$> os'))).
Proof.
  revert m c s. induction os as [|o os IH]; intros m c s Hc Hs; cbn.
  { by rewrite !Z.add_0_r, !u_wrap_small. }
  assert (∀ z, in_u 64 (u64_wrap z) = true) as Hw.
  { intros z. pose proof (u_wrap_bounds 64 z ltac:(lia)). unfold in_u. lia. }
  destruct o as [[n|n p c' s']|]; cbn; [by apply IH| |by apply IH].
  rewrite IH by apply Hw. unfold u_wrap. cbn.
  rewrite !Zplus_mod_idemp_l, !Z.add_assoc. done.
Qed.
