(* ===== verification/Machine.v ===== *)
(** * Machine: the builders ([queue-runner/src/state/machine.rs])

    A machine keeps the figures it reports, the jobs it was given and the
    sending half of its message queue. Machines are shared ([Arc]): the
    registry keeps them under an address, to which [by_uuid], [by_system] and
    the scheduled items refer. The clock is the heap's. *)

From Stdlib Require Import Ascii String.
From S2P Require Import Prelude Floats RustStr Nix Db Support Jobset Graph Result.
Local Open Scope string_scope.
Local Open Scope list_scope.
Local Open Scope Z_scope.

(** The [uuid] crate. *)
Abbreviation Uuid := Z.
Class UuidLib : Type := {
  uuid_parse : string → option Uuid;
  uuid_to_string : Uuid → string
}.

Inductive MachineSortFn := SpeedFactorOnly | CpuCoreCountWithSpeedFactor | BogomipsWithSpeedFactor.
Inductive MachineFreeFn := Dynamic | DynamicWithMaxJobLimit | Static.
#[export] Instance MachineSortFn_eq_dec : EqDecision MachineSortFn.
Proof. solve_decision. Defined.
#[export] Instance MachineFreeFn_eq_dec : EqDecision MachineFreeFn.
Proof. solve_decision. Defined.

(** ** Figures *)

Record Pressure := mkPressure { pr_avg10 : f32; pr_avg60 : f32; pr_avg300 : f32; pr_total : Z }.
Record PressureState := mkPressureState {
  ps_cpu_some : option Pressure; ps_mem_some : option Pressure; ps_mem_full : option Pressure;
  ps_io_some : option Pressure; ps_io_full : option Pressure; ps_irq_full : option Pressure }.

Record PingMessage := mkPingMessage {
  pm_machine_id : string; pm_load1 : f32; pm_load5 : f32; pm_load15 : f32; pm_mem_usage : Z;
  pm_pressure : option PressureState; pm_build_dir_free_percent : f64;
  pm_store_free_percent : f64; pm_current_substituting_path_count : Z; pm_current_uploading_path_count : Z;
  pm_current_downloading_path_count : Z }.

Record Stats := mkStats {
  s_current_jobs : Z;
  s_nr_steps_done : Z;
  s_failed_builds : Z;
  s_succeeded_builds : Z;
  s_total_step_time_ms : Z;
  s_total_step_import_time_ms : Z;
  s_total_step_build_time_ms : Z;
  s_total_step_upload_time_ms : Z;
  s_idle_since : Z;
  s_last_failure : Z;
  s_disabled_until : Z;
  s_consecutive_failures : Z;
  s_last_ping : Z;
  s_load1 : f32;
  s_load5 : f32;
  s_load15 : f32;
  s_mem_usage : Z;
  s_pressure : option PressureState;
  s_build_dir_free_percent : f64;
  s_store_free_percent : f64;
  s_current_uploading_path_count : Z;
  s_current_downloading_count : Z;
  s_jobs_in_last_30s_start : Z;
  s_jobs_in_last_30s_count : Z
}.
#[export] Instance eta_Stats : Eta Stats := λ r,
  mkStats (s_current_jobs r) (s_nr_steps_done r) (s_failed_builds r) (s_succeeded_builds r)
    (s_total_step_time_ms r) (s_total_step_import_time_ms r) (s_total_step_build_time_ms r)
    (s_total_step_upload_time_ms r) (s_idle_since r) (s_last_failure r) (s_disabled_until r)
    (s_consecutive_failures r) (s_last_ping r) (s_load1 r) (s_load5 r) (s_load15 r)
    (s_mem_usage r) (s_pressure r) (s_build_dir_free_percent r) (s_store_free_percent r)
    (s_current_uploading_path_count r) (s_current_downloading_count r)
    (s_jobs_in_last_30s_start r) (s_jobs_in_last_30s_count r).
#[export] Instance set_s_current_jobs : Setter s_current_jobs := ltac:(mk_setter s_current_jobs).
#[export] Instance set_s_nr_steps_done : Setter s_nr_steps_done := ltac:(mk_setter s_nr_steps_done).
#[export] Instance set_s_failed_builds : Setter s_failed_builds := ltac:(mk_setter s_failed_builds).
#[export] Instance set_s_succeeded_builds : Setter s_succeeded_builds := ltac:(mk_setter s_succeeded_builds).
#[export] Instance set_s_total : Setter s_total_step_time_ms := ltac:(mk_setter s_total_step_time_ms).
#[export] Instance set_s_import : Setter s_total_step_import_time_ms := ltac:(mk_setter s_total_step_import_time_ms).
#[export] Instance set_s_build : Setter s_total_step_build_time_ms := ltac:(mk_setter s_total_step_build_time_ms).
#[export] Instance set_s_upload : Setter s_total_step_upload_time_ms := ltac:(mk_setter s_total_step_upload_time_ms).
#[export] Instance set_s_idle_since : Setter s_idle_since := ltac:(mk_setter s_idle_since).
#[export] Instance set_s_last_failure : Setter s_last_failure := ltac:(mk_setter s_last_failure).
#[export] Instance set_s_consecutive : Setter s_consecutive_failures := ltac:(mk_setter s_consecutive_failures).
#[export] Instance set_s_last_ping : Setter s_last_ping := ltac:(mk_setter s_last_ping).
#[export] Instance set_s_load1 : Setter s_load1 := ltac:(mk_setter s_load1).
#[export] Instance set_s_load5 : Setter s_load5 := ltac:(mk_setter s_load5).
#[export] Instance set_s_load15 : Setter s_load15 := ltac:(mk_setter s_load15).
#[export] Instance set_s_mem_usage : Setter s_mem_usage := ltac:(mk_setter s_mem_usage).
#[export] Instance set_s_pressure : Setter s_pressure := ltac:(mk_setter s_pressure).
#[export] Instance set_s_build_dir : Setter s_build_dir_free_percent := ltac:(mk_setter s_build_dir_free_percent).
#[export] Instance set_s_store : Setter s_store_free_percent := ltac:(mk_setter s_store_free_percent).
#[export] Instance set_s_uploading : Setter s_current_uploading_path_count := ltac:(mk_setter s_current_uploading_path_count).
#[export] Instance set_s_downloading : Setter s_current_downloading_count := ltac:(mk_setter s_current_downloading_count).
#[export] Instance set_s_30s_start : Setter s_jobs_in_last_30s_start := ltac:(mk_setter s_jobs_in_last_30s_start).
#[export] Instance set_s_30s_count : Setter s_jobs_in_last_30s_count := ltac:(mk_setter s_jobs_in_last_30s_count).

Module Stats.

Definition new (h : Heap) : Stats * Heap :=
  let '(t, h) := now h in
  let z := S754_zero false in
  (mkStats 0 0 0 0 0 0 0 0 (as_second t) 0 0 0 0 z z z 0 None z z 0 0 0 0, h).

Definition store_current_jobs (c : Z) (s : Stats) (h : Heap) : Stats * Heap :=
  let '(s, h) :=
    if (c =? 0) && (s_idle_since s =? 0)
    then let '(t, h) := now h in (s <| s_idle_since := as_second t |>, h)
    else (s <| s_idle_since := 0 |>, h) in
  (s <| s_current_jobs := c |>, h).

Definition incr_nr_steps_done (s : Stats) : Stats := s <| s_nr_steps_done ::= λ n, u64_wrap (n + 1) |>.

(** A number of milliseconds that is no [u64] is not added. *)
Definition add_u64 (v n : Z) : Z := match try_u 64 v with Some v => u64_wrap (n + v) | None => n end.
Definition add_to_total_step_import_time_ms (v : Z) (s : Stats) : Stats :=
  s <| s_total_step_import_time_ms ::= add_u64 v |>.
Definition add_to_total_step_build_time_ms (v : Z) (s : Stats) : Stats :=
  s <| s_total_step_build_time_ms ::= add_u64 v |>.
Definition add_to_total_step_upload_time_ms (v : Z) (s : Stats) : Stats :=
  s <| s_total_step_upload_time_ms ::= add_u64 v |>.

Definition add_timings (timings : BuildTimings) (total_step_time : Z) (s : Stats) : Stats :=
  let s := add_to_total_step_import_time_ms (bt_import_elapsed timings) s in
  let s := add_to_total_step_build_time_ms (bt_build_elapsed timings) s in
  let s := add_to_total_step_upload_time_ms (bt_upload_elapsed timings) s in
  s <| s_total_step_time_ms ::= λ n, u64_wrap (n + total_step_time) |>.

Definition track_build_success (timings : BuildTimings) (total_step_time : Z) (s : Stats) : Stats :=
  let s := s <| s_succeeded_builds ::= λ n, u64_wrap (n + 1) |> in
  add_timings timings total_step_time s <| s_consecutive_failures := 0 |>.

Definition track_build_failure (timings : BuildTimings) (total_step_time : Z) (s : Stats) (h : Heap)
  : Stats * Heap :=
  let s := s <| s_failed_builds ::= λ n, u64_wrap (n + 1) |> in
  let s := add_timings timings total_step_time s in
  let '(t, h) := now h in
  (s <| s_last_failure := as_second t |> <| s_consecutive_failures ::= λ n, u64_wrap (n + 1) |>, h).

Definition store_ping (msg : PingMessage) (s : Stats) (h : Heap) : Stats * Heap :=
  let '(t, h) := now h in
  let s := s <| s_last_ping := as_second t |> <| s_load1 := pm_load1 msg |>
             <| s_load5 := pm_load5 msg |> <| s_load15 := pm_load15 msg |>
             <| s_mem_usage := pm_mem_usage msg |> in
  let s := match pm_pressure msg with Some p => s <| s_pressure := Some p |> | None => s end in
  (s <| s_build_dir_free_percent := pm_build_dir_free_percent msg |>
     <| s_store_free_percent := pm_store_free_percent msg |>
     <| s_current_uploading_path_count := pm_current_uploading_path_count msg |>
     <| s_current_downloading_count := pm_current_downloading_path_count msg |>, h).

End Stats.

(** ** Jobs and messages *)

Record Job := mkJob {
  j_internal_build_id : Uuid;
  j_path : StorePath;
  j_resolved_drv : option StorePath;
  j_build_id : BuildID;
  j_step_nr : Z;
  j_result : RemoteBuild
}.
#[export] Instance eta_Job : Eta Job := λ r,
  mkJob (j_internal_build_id r) (j_path r) (j_resolved_drv r) (j_build_id r) (j_step_nr r) (j_result r).
#[export] Instance set_j_step_nr : Setter j_step_nr := ltac:(mk_setter j_step_nr).
#[export] Instance set_j_result : Setter j_result := ltac:(mk_setter j_result).

(** [id] is what [Uuid::new_v4] returned. *)
Definition Job_new (id : Uuid) (build_id : BuildID) (path : StorePath) (resolved : option StorePath)
  : Job := mkJob id path resolved build_id 0 RemoteBuild.new.

Record PresignedUrlOpts := mkPresignedUrlOpts { po_upload_debug_info : bool }.
Record ConfigUpdate := mkConfigUpdate { cu_max_concurrent_downloads : Z }.

Inductive Message :=
| MConfigUpdate (c : ConfigUpdate)
| MBuildMessage (build_id : Uuid) (drv : StorePath) (resolved_drv : option StorePath)
    (max_log_size max_silent_time build_timeout : Z) (presigned : option PresignedUrlOpts)
| MAbortMessage (build_id : Uuid).

(** The messages of the wire ([runner_request::Message]). *)
Inductive RunnerRequest :=
| QConfigUpdate (max_concurrent_downloads : Z)
| QBuild (build_id drv : string) (resolved_drv : option string)
    (max_log_size max_silent_time build_timeout : Z) (presigned_url_opts : option bool)
| QAbort (build_id : string).

Definition into_request `{UuidLib} (m : Message) : RunnerRequest :=
  match m with
  | MConfigUpdate c => QConfigUpdate (cu_max_concurrent_downloads c)
  | MBuildMessage id drv resolved log silent timeout opts =>
      QBuild (uuid_to_string id) (StorePath.base_name drv) (StorePath.base_name <$> resolved)
        log silent timeout (po_upload_debug_info <$> opts)
  | MAbortMessage id => QAbort (uuid_to_string id)
  end.

(** ** Machines *)

Record JoinMessage := mkJoinMessage {
  jn_machine_id : string; jn_systems : list string; jn_hostname : string; jn_cpu_count : Z;
  jn_bogomips : f32; jn_speed_factor : f32; jn_max_jobs : Z; jn_build_dir_avail_threshold : f32;
  jn_store_avail_threshold : f32; jn_load1_threshold : f32; jn_cpu_psi_threshold : f32;
  jn_mem_psi_threshold : f32; jn_io_psi_threshold : option f32; jn_total_mem : Z;
  jn_supported_features : list string; jn_mandatory_features : list string; jn_cgroups : bool;
  jn_substituters : list string; jn_use_substitutes : bool; jn_nix_version : string }.

(** [mc_msg_queue] are the messages that were sent, the last one at the end;
    [None] when the receiving half is gone. *)
Record Machine := mkMachine {
  mc_id : Uuid;
  mc_systems : list string;
  mc_hostname : string;
  mc_cpu_count : Z;
  mc_bogomips : f32;
  mc_speed_factor : f32;
  mc_max_jobs : Z;
  mc_build_dir_avail_threshold : f64;
  mc_store_avail_threshold : f64;
  mc_load1_threshold : f32;
  mc_cpu_psi_threshold : f32;
  mc_mem_psi_threshold : f32;
  mc_io_psi_threshold : option f32;
  mc_total_mem : Z;
  mc_supported_features : list string;
  mc_mandatory_features : list string;
  mc_cgroups : bool;
  mc_substituters : list string;
  mc_use_substitutes : bool;
  mc_nix_version : string;
  mc_joined_at : Timestamp;
  mc_msg_queue : option (list Message);
  mc_stats : Stats;
  mc_jobs : list Job
}.
#[export] Instance eta_Machine : Eta Machine := λ r,
  mkMachine (mc_id r) (mc_systems r) (mc_hostname r) (mc_cpu_count r) (mc_bogomips r)
    (mc_speed_factor r) (mc_max_jobs r) (mc_build_dir_avail_threshold r)
    (mc_store_avail_threshold r) (mc_load1_threshold r) (mc_cpu_psi_threshold r)
    (mc_mem_psi_threshold r) (mc_io_psi_threshold r) (mc_total_mem r)
    (mc_supported_features r) (mc_mandatory_features r) (mc_cgroups r) (mc_substituters r)
    (mc_use_substitutes r) (mc_nix_version r) (mc_joined_at r) (mc_msg_queue r) (mc_stats r)
    (mc_jobs r).
#[export] Instance set_mc_msg_queue : Setter mc_msg_queue := ltac:(mk_setter mc_msg_queue).
#[export] Instance set_mc_stats : Setter mc_stats := ltac:(mk_setter mc_stats).
#[export] Instance set_mc_jobs : Setter mc_jobs := ltac:(mk_setter mc_jobs).

Module Machine.

Definition new `{UuidLib} (msg : JoinMessage) (use_presigned_uploads : bool)
    (forced_substituters : list string) (h : Heap) : result Error (Machine * Heap) :=
  let forced := use_presigned_uploads && negb (bool_decide (forced_substituters = [])) in
  if forced && negb (jn_use_substitutes msg) then Err (Anyhow "builder doesnt use substituters")
  else if forced && negb (forallb (λ f, bool_decide (f ∈ jn_substituters msg)) forced_substituters)
  then Err (Anyhow "Builder missing required substituter")
  else
    id ← ok_or (uuid_parse (jn_machine_id msg)) (Anyhow "uuid");
    let '(t, h) := now h in
    let '(stats, h) := Stats.new h in
    Ok (mkMachine id (jn_systems msg) (jn_hostname msg) (jn_cpu_count msg) (jn_bogomips msg)
          (jn_speed_factor msg) (jn_max_jobs msg) (f64_of_f32 (jn_build_dir_avail_threshold msg))
          (f64_of_f32 (jn_store_avail_threshold msg)) (jn_load1_threshold msg)
          (jn_cpu_psi_threshold msg) (jn_mem_psi_threshold msg) (jn_io_psi_threshold msg)
          (jn_total_mem msg) (jn_supported_features msg) (jn_mandatory_features msg)
          (jn_cgroups msg) (jn_substituters msg) (jn_use_substitutes msg) (jn_nix_version msg)
          t (Some []) stats [], h).

(** [msg_queue.send(..).await]: fails when the receiver is gone. *)
Definition send (msg : Message) (m : Machine) : result Error Machine :=
  match mc_msg_queue m with
  | None => Err (Anyhow "channel closed")
  | Some ms => Ok (m <| mc_msg_queue := Some (ms ++ [msg]) |>)
  end.

Definition insert_job (job : Job) (m : Machine) (h : Heap) : Machine * Heap :=
  let jobs := mc_jobs m ++ [job] in
  let '(stats, h) := Stats.store_current_jobs (Z.of_nat (length jobs)) (mc_stats m) h in
  (m <| mc_jobs := jobs |> <| mc_stats := stats |>, h).

Definition build_drv (job : Job) (opts : BuildOptions.t) (presigned : option PresignedUrlOpts)
    (m : Machine) (h : Heap) : result Error (Machine * Heap) :=
  m ← send (MBuildMessage (j_internal_build_id job) (j_path job) (j_resolved_drv job)
              (BuildOptions.max_log_size opts) (BuildOptions.max_silent_time opts)
              (BuildOptions.build_timeout opts) presigned) m;
  let '(m, h) :=
    if s_jobs_in_last_30s_count (mc_stats m) =? 0
    then let '(t, h) := now h in
         (m <| mc_stats ::= λ s, s <| s_jobs_in_last_30s_start := as_second t |> |>, h)
    else (m, h) in
  let '(m, h) := insert_job job m h in
  Ok (m <| mc_stats ::= λ s, s <| s_jobs_in_last_30s_count ::= λ n, u64_wrap (n + 1) |> |>, h).

Definition abort_build (build_id : Uuid) (m : Machine) : result Error Machine :=
  send (MAbortMessage build_id) m.
Definition publish_config_update (change : ConfigUpdate) (m : Machine) : result Error Machine :=
  send (MConfigUpdate change) m.

(** [x.avg10 > threshold] for a pressure that was reported. *)
Definition over (p : option Pressure) (threshold : f32) : bool :=
  match p with Some p => f64_gt (pr_avg10 p) threshold | None => false end.

Definition has_dynamic_capacity (m : Machine) : bool :=
  let pressure := s_pressure (mc_stats m) in
  match pressure ≫= ps_cpu_some with
  | Some cpu_some =>
      if f64_gt (pr_avg10 cpu_some) (mc_cpu_psi_threshold m) then false
      else if over (pressure ≫= ps_mem_full) (mc_mem_psi_threshold m) then false
      else match mc_io_psi_threshold m with
           | Some threshold => negb (over (pressure ≫= ps_io_full) threshold)
           | None => true
           end
  | None => negb (f64_gt (s_load1 (mc_stats m)) (mc_load1_threshold m))
  end.

Definition has_static_capacity (m : Machine) : bool := s_current_jobs (mc_stats m) <? mc_max_jobs m.

(** At most four jobs are given in thirty seconds, while four are running;
    the window is reset once it is over. *)
Definition has_capacity (free_fn : MachineFreeFn) (m : Machine) (h : Heap) : bool * (Machine * Heap) :=
  let '(t, h) := now h in
  let now := as_second t in
  let start := s_jobs_in_last_30s_start (mc_stats m) in
  let count := s_jobs_in_last_30s_count (mc_stats m) in
  if (now <=? start + 30) && (4 <=? count) && (4 <=? s_current_jobs (mc_stats m)) then (false, (m, h))
  else
    let m := if start + 30 <? now
             then m <| mc_stats ::= λ s, s <| s_jobs_in_last_30s_start := 0 |>
                                           <| s_jobs_in_last_30s_count := 0 |> |>
             else m in
    if f64_lt (s_build_dir_free_percent (mc_stats m)) (mc_build_dir_avail_threshold m) then (false, (m, h))
    else if f64_lt (s_store_free_percent (mc_stats m)) (mc_store_avail_threshold m) then (false, (m, h))
    else (match free_fn with
          | Dynamic => has_dynamic_capacity m
          | DynamicWithMaxJobLimit => has_dynamic_capacity m && has_static_capacity m
          | Static => has_static_capacity m
          end, (m, h)).

Definition supports_all_features (features : list string) (m : Machine) : bool :=
  forallb (λ f, bool_decide (f ∈ mc_supported_features m)) features.

Definition score (sort_fn : MachineSortFn) (m : Machine) : f32 :=
  match sort_fn with
  | SpeedFactorOnly => mc_speed_factor m
  | CpuCoreCountWithSpeedFactor => f32_mul (mc_speed_factor m) (f32_of_Z (mc_cpu_count m))
  | BogomipsWithSpeedFactor =>
      let bogomips := if f64_gt (mc_bogomips m) (f32_of_Z 1) then mc_bogomips m else f32_of_Z 1 in
      f32_mul (f32_mul (mc_speed_factor m) bogomips) (f32_of_Z (mc_cpu_count m))
  end.

Definition find_job (f : Job → bool) (m : Machine) : option Job := List.find f (mc_jobs m).
Definition has_path (drv : StorePath) (j : Job) : bool := bool_decide (j_path j = drv).
Definition has_uuid (id : Uuid) (j : Job) : bool := bool_decide (j_internal_build_id j = id).

Definition get_build_id_and_step_nr (drv : StorePath) (m : Machine) : option (Z * Z) :=
  (λ j, (j_build_id j, j_step_nr j)) <$> find_job (has_path drv) m.
Definition get_build_id_and_step_nr_by_uuid (id : Uuid) (m : Machine) : option (Z * Z) :=
  (λ j, (j_build_id j, j_step_nr j)) <$> find_job (has_uuid id) m.
Definition get_job_drv_for_build_id (id : Uuid) (m : Machine) : option StorePath :=
  j_path <$> find_job (has_uuid id) m.
Definition get_internal_build_id_for_drv (drv : StorePath) (m : Machine) : option Uuid :=
  j_internal_build_id <$> find_job (has_path drv) m.

Definition remove_job (drv : StorePath) (m : Machine) (h : Heap) : option Job * (Machine * Heap) :=
  let job := find_job (has_path drv) m in
  let jobs := filter (λ j, j_path j ≠ drv) (mc_jobs m) in
  let stats := Stats.incr_nr_steps_done (mc_stats m) in
  let '(stats, h) := Stats.store_current_jobs (Z.of_nat (length jobs)) stats h in
  let '(t, h) := now h in
  let stats := if as_second t <=? s_jobs_in_last_30s_start stats + 30
               then stats <| s_jobs_in_last_30s_count ::= λ n, u64_wrap (n - 1) |> else stats in
  (job, (m <| mc_jobs := jobs |> <| mc_stats := stats |>, h)).

End Machine.

(** ** The registry *)

Record Machines := mkMachines {
  ms_objs : gmap addr Machine;
  ms_next : addr;
  ms_by_uuid : gmap Uuid addr;
  ms_by_system : gmap string (list addr);
  ms_supported_features : gset string
}.
#[export] Instance eta_Machines : Eta Machines := λ r,
  mkMachines (ms_objs r) (ms_next r) (ms_by_uuid r) (ms_by_system r) (ms_supported_features r).
#[export] Instance set_ms_objs : Setter ms_objs := ltac:(mk_setter ms_objs).
#[export] Instance set_ms_next : Setter ms_next := ltac:(mk_setter ms_next).
#[export] Instance set_ms_by_uuid : Setter ms_by_uuid := ltac:(mk_setter ms_by_uuid).
#[export] Instance set_ms_by_system : Setter ms_by_system := ltac:(mk_setter ms_by_system).
#[export] Instance set_ms_features : Setter ms_supported_features := ltac:(mk_setter ms_supported_features).

Module Machines.

Definition new : Machines := mkMachines ∅ 1%positive ∅ ∅ ∅.

Section Env.
Context `{HI : HashIter} `{FE : FloatEnv}.

(** The comparison of [MachinesInner::sort]: score descending, then current
    jobs. *)
Definition sort_key (sort_fn : MachineSortFn) (ms : Machines) (a : addr) : f32 * Z :=
  match ms_objs ms !! a with
  | Some m => (Machine.score sort_fn m, s_current_jobs (mc_stats m))
  | None => (S754_zero false, 0)
  end.
Definition key_cmp (x y : f32 * Z) : comparison :=
  cmp_then (CompOpp (total_cmp f32_format x.1 y.1)) (x.2 ?= y.2).
Definition machine_cmp (sort_fn : MachineSortFn) (ms : Machines) (a b : addr) : comparison :=
  key_cmp (sort_key sort_fn ms a) (sort_key sort_fn ms b).

Definition sort (sort_fn : MachineSortFn) (ms : Machines) : Machines :=
  ms <| ms_by_system ::= fmap (sort_by (machine_cmp sort_fn ms)) |>.

Definition get_supported_features (ms : Machines) : list string := elements (ms_supported_features ms).

Definition registered (ms : Machines) : list Machine :=
  omap (λ a, ms_objs ms !! a) (iter_values (ms_by_uuid ms)).

Definition reconstruct_supported_features (ms : Machines) : Machines :=
  ms <| ms_supported_features := list_to_set (mjoin (mc_supported_features <$> registered ms)) |>.

Definition push_system (a : addr) (by_system : gmap string (list addr)) (system : string)
  : gmap string (list addr) := <[system := default [] (by_system !! system) ++ [a]]> by_system.

Definition insert_machine (m : Machine) (sort_fn : MachineSortFn) (ms : Machines) : Uuid * Machines :=
  let a := ms_next ms in
  let ms := ms <| ms_objs ::= <[a := m]> |> <| ms_next ::= Pos.succ |> in
  let ms := ms <| ms_by_uuid ::= <[mc_id m := a]> |> in
  let ms := ms <| ms_by_system ::= λ bs, foldl (push_system a) bs (mc_systems m) |> in
  (mc_id m, reconstruct_supported_features (sort sort_fn ms)).

Definition has_id (ms : Machines) (id : Uuid) (a : addr) : Prop :=
  (mc_id <$> ms_objs ms !! a) = Some id.
#[global] Instance has_id_dec ms id a : Decision (has_id ms id a).
Proof. unfold has_id. apply _. Defined.

Definition drop_system (ms : Machines) (id : Uuid) (by_system : gmap string (list addr)) (system : string)
  : gmap string (list addr) := alter (filter (λ a, ¬ has_id ms id a)) system by_system.

Definition remove_machine (id : Uuid) (ms : Machines) : option addr * Machines :=
  let '(r, ms) :=
    match a ← ms_by_uuid ms !! id; m ← ms_objs ms !! a; Some (a, m) with
    | None => (None, ms)
    | Some (a, m) =>
        let by_system := foldl (drop_system ms id) (ms_by_system ms) (mc_systems m) in
        (Some a, ms <| ms_by_uuid ::= delete id |> <| ms_by_system := by_system |>)
    end in
  (r, reconstruct_supported_features ms).

Definition get_machine_by_id (id : Uuid) (ms : Machines) : option addr := ms_by_uuid ms !! id.

(** [free_fn.is_none_or(|f| m.has_capacity(f))] *)
Definition capacity (free_fn : option MachineFreeFn) (m : Machine) (h : Heap) : bool * (Machine * Heap) :=
  match free_fn with
  | None => (true, (m, h))
  | Some free_fn => Machine.has_capacity free_fn m h
  end.

Definition features_fit (required : list string) (m : Machine) : bool :=
  forallb (λ s, bool_decide (s ∈ required)) (mc_mandatory_features m) &&
  Machine.supports_all_features required m.

(** The [find] over a list of machines: each test may reset a window. *)
Fixpoint find_machine (free_fn : option MachineFreeFn) (required : list string) (l : list addr)
    (ms : Machines) (h : Heap) : option addr * (Machines * Heap) :=
  match l with
  | [] => (None, (ms, h))
  | a :: l' =>
      match ms_objs ms !! a with
      | None => find_machine free_fn required l' ms h
      | Some m =>
          let '(free, (m', h)) := capacity free_fn m h in
          let ms := ms <| ms_objs ::= <[a := m']> |> in
          if free && features_fit required m then (Some a, (ms, h))
          else find_machine free_fn required l' ms h
      end
  end.

Definition get_machine_for_system (system : string) (required : list string)
    (free_fn : option MachineFreeFn) (ms : Machines) (h : Heap) : option addr * (Machines * Heap) :=
  if decide (system = "builtin") then find_machine free_fn required (iter_values (ms_by_uuid ms)) ms h
  else match ms_by_system ms !! system with
       | None => (None, (ms, h))
       | Some l => find_machine free_fn required l ms h
       end.

Definition support_step (s : Step) (ms : Machines) (h : Heap) : bool * (Machines * Heap) :=
  match Step.get_system s with
  | None => (false, (ms, h))
  | Some system =>
      let '(r, w) := get_machine_for_system system (Step.get_required_features s) None ms h in
      (bool_decide (is_Some r), w)
  end.

Definition get_all_machines (ms : Machines) : list addr := iter_values (ms_by_uuid ms).
Definition get_machine_count (ms : Machines) : nat := size (ms_by_uuid ms).
Definition get_machine_count_in_use (ms : Machines) : nat :=
  length (List.filter (λ m, 0 <? s_current_jobs (mc_stats m)) (registered ms)).

(** Machines whose queue is closed are passed over. *)
Definition publish_new_config (cfg : ConfigUpdate) (ms : Machines) : Machines :=
  foldl (λ ms a, match m ← ms_objs ms !! a; ok (Machine.publish_config_update cfg m) with
                 | Some m => ms <| ms_objs ::= <[a := m]> |>
                 | None => ms
                 end) ms (get_all_machines ms).

End Env.
End Machines.
