(* ===== verification/MachineInv.v ===== *)
(** * MachineInv: the registry of builders keeps its promises

    The number of current jobs a machine reports is the length of its job
    list; every list of [by_system] holds registered machines for that system,
    best score first; the features offered to the evaluator are those of the
    registered machines. The choice of a machine is the first in the order
    with room and features. *)

From Stdlib Require Import Ascii String.
From S2P Require Import Prelude Floats RustStr Nix Db Support Jobset Graph Result Machine.
Local Open Scope list_scope.
Local Open Scope Z_scope.

(** ** One machine *)

Definition counted (m : Machine) : Prop :=
  s_current_jobs (mc_stats m) = Z.of_nat (length (mc_jobs m)).

(** What an operation on a machine's jobs and figures leaves alone. *)
Definition same_machine (m m' : Machine) : Prop :=
  mc_id m' = mc_id m ∧ mc_systems m' = mc_systems m ∧
  (∀ f, Machine.score f m' = Machine.score f m) ∧
  mc_supported_features m' = mc_supported_features m ∧
  mc_mandatory_features m' = mc_mandatory_features m ∧ mc_max_jobs m' = mc_max_jobs m.

#[export] Instance same_machine_refl : Reflexive same_machine.
Proof. done. Qed.
#[export] Instance same_machine_trans : Transitive same_machine.
Proof. unfold same_machine. intros m1 m2 m3; intros; destruct_and!; repeat split; intros; congruence. Qed.

Lemma store_current_jobs_eq c s h : s_current_jobs (Stats.store_current_jobs c s h).1 = c.
Proof. unfold Stats.store_current_jobs. by destruct ((c =? 0) && (s_idle_since s =? 0)). Qed.

Lemma send_spec msg m m' : Machine.send msg m = Ok m' →
  ∃ ms, mc_msg_queue m = Some ms ∧ m' = m <| mc_msg_queue := Some (ms ++ [msg]) |>.
Proof. unfold Machine.send. destruct (mc_msg_queue m); [|done]. intros [= <-]. eauto. Qed.

Lemma insert_job_spec job m h m' h' :
  Machine.insert_job job m h = (m', h') →
  counted m' ∧ same_machine m m' ∧ mc_jobs m' = mc_jobs m ++ [job] ∧ mc_msg_queue m' = mc_msg_queue m.
Proof.
  unfold Machine.insert_job. pose proof (store_current_jobs_eq (Z.of_nat (length (mc_jobs m ++ [job]))) (mc_stats m) h) as E.
  destruct (Stats.store_current_jobs _ _ _) as [st h1]. intros [= <- <-]. by cbn in *.
Qed.

Lemma build_drv_spec job opts presigned m h m' h' :
  Machine.build_drv job opts presigned m h = Ok (m', h') →
  counted m' ∧ same_machine m m' ∧ mc_jobs m' = mc_jobs m ++ [job] ∧
  ∃ ms, mc_msg_queue m = Some ms ∧ mc_msg_queue m' = Some (ms ++
    [MBuildMessage (j_internal_build_id job) (j_path job) (j_resolved_drv job)
       (BuildOptions.max_log_size opts) (BuildOptions.max_silent_time opts)
       (BuildOptions.build_timeout opts) presigned]).
Proof.
  unfold Machine.build_drv. intros (m1 & (ms & Hq & ->)%send_spec & H)%bind_Ok_inv. revert H.
  match goal with |- context [if ?c then _ else _] => destruct c end; cbn -[Machine.insert_job];
    destruct (Machine.insert_job _ _ _) as [m2 h2] eqn:E;
    apply insert_job_spec in E as (E1 & E2 & E3 & E4); intros [= <- <-]; cbn in *;
    (split; [done|]; split; [by etrans|]; split; [done|]; eauto).
Qed.

Lemma remove_job_spec drv m h :
  let '(job, (m', h')) := Machine.remove_job drv m h in
  counted m' ∧ same_machine m m' ∧ mc_msg_queue m' = mc_msg_queue m ∧
  job = List.find (Machine.has_path drv) (mc_jobs m) ∧
  mc_jobs m' = filter (λ j, j_path j ≠ drv) (mc_jobs m).
Proof.
  unfold Machine.remove_job.
  pose proof (store_current_jobs_eq (Z.of_nat (length (filter (λ j, j_path j ≠ drv) (mc_jobs m))))
    (Stats.incr_nr_steps_done (mc_stats m)) h) as E.
  destruct (Stats.store_current_jobs _ _ _) as [st h1]. cbn in *.
  case_match; cbn; done.
Qed.

(** The decision of [has_capacity] when the clock shows second [t]. *)
Definition free_at (free_fn : MachineFreeFn) (m : Machine) (t : Z) : bool :=
  let s := mc_stats m in
  negb ((t <=? s_jobs_in_last_30s_start s + 30) && (4 <=? s_jobs_in_last_30s_count s) &&
        (4 <=? s_current_jobs s)) &&
  negb (f64_lt (s_build_dir_free_percent s) (mc_build_dir_avail_threshold m)) &&
  negb (f64_lt (s_store_free_percent s) (mc_store_avail_threshold m)) &&
  match free_fn with
  | Dynamic => Machine.has_dynamic_capacity m
  | DynamicWithMaxJobLimit => Machine.has_dynamic_capacity m && Machine.has_static_capacity m
  | Static => Machine.has_static_capacity m
  end.

Lemma has_capacity_spec free_fn m h :
  let '(free, (m', h')) := Machine.has_capacity free_fn m h in
  free = free_at free_fn m (as_second (now h).1) ∧ h' = (now h).2 ∧
  same_machine m m' ∧ mc_jobs m' = mc_jobs m ∧ mc_msg_queue m' = mc_msg_queue m ∧
  s_current_jobs (mc_stats m') = s_current_jobs (mc_stats m).
Proof.
  unfold Machine.has_capacity, free_at. cbn -[as_second f64_lt].
  destruct (as_second _ <=? _) eqn:Ew; cbn -[as_second f64_lt].
  - destruct (4 <=? s_jobs_in_last_30s_count _), (4 <=? s_current_jobs _); cbn -[as_second f64_lt]; try done.
    all: replace (s_jobs_in_last_30s_start (mc_stats m) + 30 <? as_second (hp_clock h (hp_reads h))) with false by lia.
    all: destruct (f64_lt (s_build_dir_free_percent _) _), (f64_lt (s_store_free_percent _) _); try done.
    all: by destruct free_fn.
  - replace (s_jobs_in_last_30s_start (mc_stats m) + 30 <? as_second (hp_clock h (hp_reads h))) with true by lia.
    cbn -[as_second f64_lt].
    destruct (f64_lt (s_build_dir_free_percent _) _), (f64_lt (s_store_free_percent _) _); by destruct free_fn.
Qed.

Lemma free_at_static free_fn m t :
  free_at free_fn m t = true → free_fn ≠ Dynamic → s_current_jobs (mc_stats m) < mc_max_jobs m.
Proof.
  unfold free_at, Machine.has_static_capacity. intros H Hf.
  rewrite !andb_true_iff in H. destruct H as [_ H]. destruct free_fn; [done|..]; bool_prop; lia.
Qed.

(** ** The registry *)

Lemma StronglySorted_mono {A} (R R' : A → A → Prop) l :
  (∀ x y, R x y → R' x y) → StronglySorted R l → StronglySorted R' l.
Proof. intros H. induction 1 as [|x l _ IH Hx]; constructor; [done|].
  eapply Forall_impl; [exact Hx|]. eauto.
Qed.

Section Registry.
Context `{HI : HashIter} `{FE : FloatEnv}.

(** [a] may come before [b] in a list of [by_system]. *)
Definition better (sort_fn : MachineSortFn) (ms : Machines) (a b : addr) : Prop :=
  total_cmp f32_format (Machines.sort_key sort_fn ms a).1 (Machines.sort_key sort_fn ms b).1 ≠ Lt.

Record machines_core (ms : Machines) : Prop := {
  mw_fresh : ∀ a, is_Some (ms_objs ms !! a) → (a < ms_next ms)%positive;
  mw_counted : ∀ a m, ms_objs ms !! a = Some m → counted m;
  mw_uuid : ∀ id a, ms_by_uuid ms !! id = Some a → Machines.has_id ms id a;
  mw_system : ∀ sys l a, ms_by_system ms !! sys = Some l → a ∈ l →
    ∃ m, ms_objs ms !! a = Some m ∧ sys ∈ mc_systems m ∧ ms_by_uuid ms !! mc_id m = Some a;
  mw_complete : ∀ id a m sys, ms_by_uuid ms !! id = Some a → ms_objs ms !! a = Some m →
    sys ∈ mc_systems m → ∃ l, ms_by_system ms !! sys = Some l ∧ a ∈ l;
  mw_nodup : ∀ sys l, ms_by_system ms !! sys = Some l → NoDup l
}.

Record machines_wf (sort_fn : MachineSortFn) (ms : Machines) : Prop := {
  mw_core : machines_core ms;
  mw_sorted : ∀ sys l, ms_by_system ms !! sys = Some l → StronglySorted (better sort_fn ms) l;
  mw_features : ∀ f, f ∈ ms_supported_features ms ↔
    ∃ id a m, ms_by_uuid ms !! id = Some a ∧ ms_objs ms !! a = Some m ∧ f ∈ mc_supported_features m
}.

Lemma sorted_filter {A} (R : A → A → Prop) (P : A → Prop) `{!∀ x, Decision (P x)} l :
  StronglySorted R l → StronglySorted R (filter P l).
Proof.
  induction 1 as [|x l _ IH Hx]; cbn; [constructor|].
  case_match; [|done]. constructor; [done|]. rewrite Forall_forall in Hx |- *.
  intros y [_ ?]%list_elem_of_filter. auto.
Qed.

(** An update of machines that changes only jobs and figures. *)
Definition same_machines (ms ms' : Machines) : Prop :=
  ms_next ms' = ms_next ms ∧ ms_by_uuid ms' = ms_by_uuid ms ∧ ms_by_system ms' = ms_by_system ms ∧
  ms_supported_features ms' = ms_supported_features ms ∧
  ∀ a, match ms_objs ms !! a, ms_objs ms' !! a with
       | Some m, Some m' => same_machine m m' ∧ (counted m → counted m')
       | None, None => True
       | _, _ => False
       end.

#[export] Instance same_machines_refl : Reflexive same_machines.
Proof. intros ms. repeat split; try done. intros a. by destruct (ms_objs ms !! a). Qed.
#[export] Instance same_machines_trans : Transitive same_machines.
Proof.
  intros x y z (?&?&?&?&Hxy) (?&?&?&?&Hyz). repeat split; try congruence.
  intros a. specialize (Hxy a). specialize (Hyz a). repeat case_match; try done.
  destruct Hxy, Hyz. split; [by etrans|auto].
Qed.

Lemma same_machines_insert ms a m m' :
  ms_objs ms !! a = Some m → same_machine m m' → (counted m → counted m') →
  same_machines ms (ms <| ms_objs ::= <[a := m']> |>).
Proof.
  intros Ha Hs Hc. repeat split; try done. intros b. cbn.
  destruct (decide (b = a)) as [->|].
  - by rewrite lookup_insert_eq, Ha.
  - rewrite lookup_insert_ne by done. by destruct (ms_objs ms !! b).
Qed.

Lemma same_machines_lookup ms ms' a m' :
  same_machines ms ms' → ms_objs ms' !! a = Some m' →
  ∃ m, ms_objs ms !! a = Some m ∧ same_machine m m' ∧ (counted m → counted m').
Proof. intros (_&_&_&_&H) Ha. specialize (H a). rewrite Ha in H. case_match; [eauto|done]. Qed.

Lemma same_machines_lookup' ms ms' a m :
  same_machines ms ms' → ms_objs ms !! a = Some m →
  ∃ m', ms_objs ms' !! a = Some m' ∧ same_machine m m'.
Proof. intros (_&_&_&_&H) Ha. specialize (H a). rewrite Ha in H. case_match; [|done]. naive_solver. Qed.

Lemma same_machines_score sort_fn ms ms' a :
  same_machines ms ms' → (Machines.sort_key sort_fn ms' a).1 = (Machines.sort_key sort_fn ms a).1.
Proof.
  intros (_&_&_&_&H). specialize (H a). unfold Machines.sort_key. repeat case_match; try done.
  destruct H as [(_&_&H&_) _]. cbn. apply H.
Qed.

Lemma same_machines_wf sort_fn ms ms' :
  same_machines ms ms' → machines_wf sort_fn ms → machines_wf sort_fn ms'.
Proof.
  intros Hs [[W1 W2 W3 W4 W5 Wn] W6 W7]. pose proof Hs as (En & Eu & Es & Ef & Ho). split; [split|..].
  - intros a [m' Hm]. rewrite En. apply W1. edestruct same_machines_lookup as (m & ? & _); eauto.
  - intros a m' Hm. edestruct same_machines_lookup as (m & ? & ? & ?); eauto.
  - rewrite Eu. intros id a Ha%W3. unfold Machines.has_id in *.
    destruct (ms_objs ms !! a) as [m|] eqn:E; [|done]. cbn in Ha.
    destruct (same_machines_lookup' _ _ _ _ Hs E) as (m' & -> & (Hi & _)). cbn. congruence.
  - rewrite Eu, Es. intros sys l a Hl Ha. destruct (W4 _ _ _ Hl Ha) as (m & Hm & Hsys & Hid).
    destruct (same_machines_lookup' _ _ _ _ Hs Hm) as (m' & ? & (Hi & Hsy & _)).
    exists m'. rewrite Hi, Hsy. done.
  - rewrite Eu, Es. intros id a m' sys Hid Hm' Hsys.
    destruct (same_machines_lookup _ _ _ _ Hs Hm') as (m & Hm & (_ & Hsy & _) & _).
    rewrite Hsy in Hsys. eauto.
  - by rewrite Es.
  - rewrite Es. intros sys l Hl. eapply StronglySorted_mono, (W6 _ _ Hl).
    unfold better. intros x y. by rewrite !(same_machines_score sort_fn _ _ _ Hs).
  - rewrite Ef, Eu. intros f. rewrite W7. split.
    + intros (id & a & m & ? & Hm & ?). destruct (same_machines_lookup' _ _ _ _ Hs Hm) as (m' & ? & Hsm).
      exists id, a, m'. destruct Hsm as (_&_&_&->&_). done.
    + intros (id & a & m' & ? & Hm & Hf). destruct (same_machines_lookup _ _ _ _ Hs Hm) as (m & ? & Hsm & _).
      exists id, a, m. destruct Hsm as (_&_&_&Ef'&_). rewrite <-Ef'. done.
Qed.

(** Without a capacity function every machine is free. *)
Definition free_opt (free_fn : option MachineFreeFn) (m : Machine) (t : Z) : bool :=
  match free_fn with None => true | Some f => free_at f m t end.

Lemma capacity_spec free_fn m h :
  let '(free, (m', h')) := Machines.capacity free_fn m h in
  (∃ t, free = free_opt free_fn m t) ∧ same_machine m m' ∧ mc_jobs m' = mc_jobs m ∧
  mc_msg_queue m' = mc_msg_queue m ∧ s_current_jobs (mc_stats m') = s_current_jobs (mc_stats m).
Proof.
  destruct free_fn as [f|]; [|by split; [exists 0|]]. unfold Machines.capacity.
  pose proof (has_capacity_spec f m h) as Hc. destruct (Machine.has_capacity f m h) as [free [m' h']].
  destruct Hc as (-> & _ & Hc). split; [by eexists|done].
Qed.

Lemma counted_jobs m m' :
  mc_jobs m' = mc_jobs m → s_current_jobs (mc_stats m') = s_current_jobs (mc_stats m) →
  counted m → counted m'.
Proof. unfold counted. by intros -> ->. Qed.

(** Machine [a] was tested and turned down: no room at the time, or features
    that do not fit. *)
Definition turned_down (free_fn : option MachineFreeFn) (required : list string) (ms : Machines) (a : addr) : Prop :=
  match ms_objs ms !! a with
  | Some m => (∃ t, free_opt free_fn m t = false) ∨ Machines.features_fit required m = false
  | None => True
  end.
Definition taken (free_fn : option MachineFreeFn) (required : list string) (ms : Machines) (a : addr) : Prop :=
  ∃ m, ms_objs ms !! a = Some m ∧ (∃ t, free_opt free_fn m t = true) ∧
       Machines.features_fit required m = true.

Lemma find_machine_same free_fn required l ms h :
  same_machines ms (Machines.find_machine free_fn required l ms h).2.1.
Proof.
  revert ms h. induction l as [|a l IH]; intros ms h; cbn; [done|].
  destruct (ms_objs ms !! a) as [m|] eqn:Ea; [|apply IH].
  pose proof (capacity_spec free_fn m h) as Hc.
  destruct (Machines.capacity free_fn m h) as [free [m' h']].
  destruct Hc as (_ & Hs & Hj & _ & Hn).
  assert (same_machines ms (ms <| ms_objs ::= <[a := m']> |>)) as Hms
    by (eapply same_machines_insert; eauto using counted_jobs).
  destruct (free && _); [done|]. etrans; [done|apply IH].
Qed.

Lemma find_machine_spec free_fn required l ms h :
  NoDup l →
  match (Machines.find_machine free_fn required l ms h).1 with
  | Some a => ∃ l1 l2, l = l1 ++ a :: l2 ∧ Forall (turned_down free_fn required ms) l1 ∧
                       taken free_fn required ms a
  | None => Forall (turned_down free_fn required ms) l
  end.
Proof.
  revert ms h. induction l as [|a l IH]; intros ms h Hnd; cbn; [done|]. inv Hnd.
  destruct (ms_objs ms !! a) as [m|] eqn:Ea.
  - pose proof (capacity_spec free_fn m h) as Hc.
    destruct (Machines.capacity free_fn m h) as [free [m' h']].
    destruct Hc as ([t Ht] & _). destruct (free && _) eqn:Ef.
    + apply andb_true_iff in Ef as [-> Ef]. exists [], l. split; [done|]. split; [done|].
      exists m. eauto.
    + assert (turned_down free_fn required ms a) as Ha.
      { unfold turned_down. rewrite Ea. apply andb_false_iff in Ef as [->|]; eauto. }
      assert (∀ b, b ∈ l → ms_objs (ms <| ms_objs ::= <[a := m']> |>) !! b = ms_objs ms !! b) as Hsame.
      { intros b Hb. cbn. rewrite lookup_insert_ne; [done|]. by intros <-. }
      specialize (IH (ms <| ms_objs ::= <[a := m']> |>) h' ltac:(done)).
      assert (∀ k, (∀ b, b ∈ k → b ∈ l) →
        Forall (turned_down free_fn required (ms <| ms_objs ::= <[a := m']> |>)) k →
        Forall (turned_down free_fn required ms) k) as Hmove.
      { intros k Hk Hall. apply Forall_forall. intros b Hb. rewrite Forall_forall in Hall.
        specialize (Hall b Hb). unfold turned_down in *. by rewrite Hsame in Hall by auto. }
      destruct (Machines.find_machine _ _ _ _ _).1 as [b|].
      * destruct IH as (l1 & l2 & -> & Hl1 & m2 & Hm2 & Hr).
        exists (a :: l1), l2. split; [done|]. split.
        { constructor; [done|]. apply Hmove; [|done]. set_solver. }
        exists m2. rewrite Hsame in Hm2 by set_solver. done.
      * constructor; [done|]. apply Hmove; auto.
  - specialize (IH ms h ltac:(done)).
    assert (turned_down free_fn required ms a) as Ha by (unfold turned_down; by rewrite Ea).
    destruct (Machines.find_machine _ _ _ _ _).1 as [b|]; [|by constructor].
    destruct IH as (l1 & l2 & -> & ? & ?). exists (a :: l1), l2. by repeat constructor.
Qed.

Lemma push_systems_lookup a systems bs sys : NoDup systems →
  foldl (Machines.push_system a) bs systems !! sys =
  if decide (sys ∈ systems) then Some (default [] (bs !! sys) ++ [a]) else bs !! sys.
Proof.
  revert bs. induction systems as [|s systems IH]; intros bs Hnd; cbn.
  { destruct (decide (sys ∈ [])) as [H%not_elem_of_nil|]; done. }
  inv Hnd. rewrite IH by done. unfold Machines.push_system.
  destruct (decide (sys = s)) as [->|Hne].
  - rewrite decide_False by done. rewrite lookup_insert_eq.
    rewrite decide_True by (left). done.
  - rewrite lookup_insert_ne by done. destruct (decide (sys ∈ systems)).
    + by rewrite decide_True by (by right).
    + rewrite decide_False; [done|]. by intros [|]%elem_of_cons.
Qed.

Lemma drop_systems_lookup ms id systems bs sys :
  foldl (Machines.drop_system ms id) bs systems !! sys =
  if decide (sys ∈ systems) then filter (λ a, ¬ Machines.has_id ms id a) <$> bs !! sys else bs !! sys.
Proof.
  revert bs. induction systems as [|s systems IH]; intros bs; cbn.
  { destruct (decide (sys ∈ [])) as [H%not_elem_of_nil|]; done. }
  rewrite IH. unfold Machines.drop_system. destruct (decide (sys = s)) as [->|Hne].
  - rewrite lookup_alter_eq. rewrite (decide_True (P := s ∈ s :: systems)) by (left).
    destruct (decide (s ∈ systems)); [|done]. destruct (bs !! s); cbn; [|done]. f_equal.
    rewrite list_filter_filter. apply list_filter_iff. naive_solver.
  - rewrite lookup_alter_ne by done. destruct (decide (sys ∈ systems)).
    + by rewrite decide_True by (by right).
    + rewrite decide_False; [done|]. by intros [|]%elem_of_cons.
Qed.

Lemma reconstruct_features ms f :
  f ∈ ms_supported_features (Machines.reconstruct_supported_features ms) ↔
  ∃ id a m, ms_by_uuid ms !! id = Some a ∧ ms_objs ms !! a = Some m ∧ f ∈ mc_supported_features m.
Proof.
  cbn. rewrite elem_of_list_to_set. unfold mjoin. rewrite list_elem_of_join. split.
  - intros (l & Hf & (m & -> & Hm)%list_elem_of_fmap).
    unfold Machines.registered in Hm. apply list_elem_of_omap in Hm as (a & Ha & Hm).
    apply elem_of_iter_values in Ha as (id & Hid). eauto 10.
  - intros (id & a & m & Hid & Hm & Hf). exists (mc_supported_features m). split; [done|].
    apply list_elem_of_fmap. exists m. split; [done|]. apply list_elem_of_omap.
    exists a. split; [|done]. apply elem_of_iter_values. eauto.
Qed.

Lemma key_cmp_total : TotalCmp Machines.key_cmp.
Proof.
  unfold Machines.key_cmp. apply total_cmp_then.
  - split.
    + intros x y. f_equal. apply cmp_opp.
    + intros x y z. rewrite <-!(cmp_opp (cmp := total_cmp f32_format)). intros H1 H2. by apply (cmp_le_trans z.1 y.1 x.1).
  - apply (@total_cmp_on _ _ snd Z.compare _).
Qed.

Lemma machine_cmp_total sort_fn ms : TotalCmp (Machines.machine_cmp sort_fn ms).
Proof. apply (@total_cmp_on _ _ (Machines.sort_key sort_fn ms) Machines.key_cmp key_cmp_total). Qed.

Lemma machine_cmp_better sort_fn ms a b :
  cmp_le (Machines.machine_cmp sort_fn ms) a b → better sort_fn ms a b.
Proof.
  unfold cmp_le, better, Machines.machine_cmp, Machines.key_cmp, cmp_then.
  by destruct (total_cmp _ _ _).
Qed.

Lemma sort_lookup sort_fn ms sys l :
  ms_by_system (Machines.sort sort_fn ms) !! sys = Some l →
  ∃ l0, ms_by_system ms !! sys = Some l0 ∧ l ≡ₚ l0 ∧ StronglySorted (better sort_fn ms) l.
Proof.
  unfold Machines.sort. cbn. rewrite lookup_fmap_Some. intros (l0 & <- & Hl0).
  exists l0. split; [done|]. split; [apply sort_by_perm|].
  eapply StronglySorted_mono; [apply machine_cmp_better|].
  apply @sort_by_sorted, machine_cmp_total.
Qed.

Lemma sort_lookup' sort_fn ms sys l0 :
  ms_by_system ms !! sys = Some l0 →
  ∃ l, ms_by_system (Machines.sort sort_fn ms) !! sys = Some l ∧ l ≡ₚ l0.
Proof.
  unfold Machines.sort. cbn. intros H. rewrite lookup_fmap, H. cbn. eexists. split; [done|]. apply sort_by_perm.
Qed.

Lemma sort_core sort_fn ms : machines_core ms → machines_core (Machines.sort sort_fn ms).
Proof.
  intros [W1 W2 W3 W4 W5 Wn]. split; try done.
  - intros sys l a (l0 & Hl0 & Hp & _)%sort_lookup Ha. rewrite Hp in Ha. by eapply W4.
  - intros id a m sys Hid Hm Hsys. destruct (W5 _ _ _ _ Hid Hm Hsys) as (l0 & Hl0 & Ha).
    destruct (sort_lookup' sort_fn _ _ _ Hl0) as (l & Hl & Hp). exists l. split; [done|]. by rewrite Hp.
  - intros sys l (l0 & Hl0 & Hp & _)%sort_lookup. rewrite Hp. eauto.
Qed.

Lemma sort_wf sort_fn sort_fn' ms : machines_wf sort_fn ms → machines_wf sort_fn' (Machines.sort sort_fn' ms).
Proof.
  intros [W1 W2 W3]. split; [by apply sort_core| |done].
  intros sys l (l0 & Hl0 & Hp & Hs)%sort_lookup. done.
Qed.

Lemma reconstruct_core ms : machines_core ms → machines_core (Machines.reconstruct_supported_features ms).
Proof. by intros [? ? ? ? ? ?]. Qed.

(** A new machine under a fresh address and id, at the end of the lists of
    its systems. *)
Definition enlist (m : Machine) (ms : Machines) : Machines :=
  ms <| ms_objs ::= <[ms_next ms := m]> |> <| ms_next ::= Pos.succ |>
     <| ms_by_uuid ::= <[mc_id m := ms_next ms]> |>
     <| ms_by_system ::= λ bs, foldl (Machines.push_system (ms_next ms)) bs (mc_systems m) |>.

Lemma enlist_core m ms :
  machines_core ms → counted m → NoDup (mc_systems m) → ms_by_uuid ms !! mc_id m = None →
  machines_core (enlist m ms).
Proof.
  intros [W1 W2 W3 W4 W5 Wn] Hc Hnd Hid.
  assert (ms_objs ms !! ms_next ms = None) as Hfr.
  { destruct (ms_objs ms !! ms_next ms) eqn:E; [|done]. specialize (W1 (ms_next ms) ltac:(eauto)). lia. }
  assert (∀ a m', ms_objs ms !! a = Some m' → a ≠ ms_next ms) as Hne by congruence.
  split; cbn.
  - intros a [m' Ha]. apply lookup_insert_Some in Ha as [[<- _]|[_ Ha]]; [lia|].
    specialize (W1 a ltac:(eauto)). lia.
  - intros a m' [[_ <-]|[_ Ha]]%lookup_insert_Some; eauto.
  - intros id a Ha. unfold Machines.has_id. cbn.
    apply lookup_insert_Some in Ha as [[<- <-]|[_ Ha]]; [by rewrite lookup_insert_eq|].
    specialize (W3 _ _ Ha). unfold Machines.has_id in W3.
    destruct (ms_objs ms !! a) as [m'|] eqn:E; [|done]. rewrite lookup_insert_ne by (symmetry; eauto).
    by rewrite E.
  - intros sys l a. rewrite push_systems_lookup by done. intros Hl Ha.
    assert ((a = ms_next ms ∧ sys ∈ mc_systems m) ∨ ∃ l0, ms_by_system ms !! sys = Some l0 ∧ a ∈ l0) as [[-> Hs]|(l0 & Hl0 & Ha0)].
    { destruct (decide (sys ∈ mc_systems m)); [|eauto]. injection Hl as <-.
      apply elem_of_app in Ha as [Ha| ->%list_elem_of_singleton]; [|by left].
      right. destruct (ms_by_system ms !! sys); cbn in Ha; [eauto|by apply not_elem_of_nil in Ha]. }
    + exists m. by rewrite !lookup_insert_eq.
    + destruct (W4 _ _ _ Hl0 Ha0) as (m' & Hm' & ? & Hid'). exists m'.
      rewrite !lookup_insert_ne; [done|congruence|symmetry; eauto].
  - intros id a m' sys Ha Hm' Hs. rewrite push_systems_lookup by done.
    apply lookup_insert_Some in Ha as [[<- <-]|[Hidne Ha]].
    + rewrite lookup_insert_eq in Hm'. injection Hm' as <-. rewrite decide_True by done.
      eexists. split; [done|]. set_solver.
    + specialize (W3 _ _ Ha) as Hhas. unfold Machines.has_id in Hhas.
      destruct (ms_objs ms !! a) as [m2|] eqn:E; [|done].
      rewrite lookup_insert_ne in Hm' by (symmetry; eauto). rewrite E in Hm'. injection Hm' as <-.
      destruct (W5 _ _ _ _ Ha E Hs) as (l0 & Hl0 & Ha0). rewrite Hl0. cbn.
      destruct (decide _); eexists; (split; [done|]); set_solver.
  - intros sys l. rewrite push_systems_lookup by done.
    destruct (decide (sys ∈ mc_systems m)); [|eauto]. intros [= <-].
    apply NoDup_app. split; [|split; [|apply NoDup_singleton]].
    + destruct (ms_by_system ms !! sys) eqn:E; cbn; [eauto|constructor].
    + intros x Hx ->%list_elem_of_singleton. destruct (ms_by_system ms !! sys) eqn:E; cbn in Hx; [|by apply not_elem_of_nil in Hx].
      destruct (W4 _ _ _ E Hx) as (m' & Hm' & _). by apply Hne in Hm'.
Qed.

Lemma insert_machine_wf sort_fn m ms :
  machines_wf sort_fn ms → counted m → NoDup (mc_systems m) → ms_by_uuid ms !! mc_id m = None →
  machines_wf sort_fn (Machines.insert_machine m sort_fn ms).2.
Proof.
  intros [W _ _] Hc Hnd Hid.
  change (Machines.insert_machine m sort_fn ms).2
    with (Machines.reconstruct_supported_features (Machines.sort sort_fn (enlist m ms))).
  split.
  - by apply reconstruct_core, sort_core, enlist_core.
  - intros sys l Hl. apply (sort_lookup sort_fn (enlist m ms)) in Hl as (_ & _ & _ & Hs). done.
  - apply (reconstruct_features (Machines.sort sort_fn (enlist m ms))).
Qed.

Lemma remove_machine_wf sort_fn id ms :
  machines_wf sort_fn ms → machines_wf sort_fn (Machines.remove_machine id ms).2.
Proof.
  intros [[W1 W2 W3 W4 W5 Wn] Ws Wf]. unfold Machines.remove_machine.
  destruct (ms_by_uuid ms !! id) as [a|] eqn:Ea; cbn -[Machines.reconstruct_supported_features].
  2: split; [by apply reconstruct_core|done|apply (reconstruct_features ms)].
  specialize (W3 _ _ Ea) as Hhas. unfold Machines.has_id in Hhas.
  destruct (ms_objs ms !! a) as [m|] eqn:Em; [|done]. cbn -[Machines.reconstruct_supported_features] in *.
  injection Hhas as Hmid.
  set (bs := foldl (Machines.drop_system ms id) (ms_by_system ms) (mc_systems m)).
  assert (∀ sys l, bs !! sys = Some l → ∃ l0, ms_by_system ms !! sys = Some l0 ∧
    l = filter (λ b, ¬ Machines.has_id ms id b) l0) as Hbs.
  { intros sys l. unfold bs. rewrite drop_systems_lookup. destruct (decide (sys ∈ mc_systems m)) as [|Hn].
    - intros (l0 & Hl0 & ->)%fmap_Some. eauto.
    - intros Hl. exists l. split; [done|]. symmetry. apply filter_all_true, Forall_forall.
      intros b Hb Hhas. destruct (W4 _ _ _ Hl Hb) as (m' & Hm' & Hsys & Hid').
      unfold Machines.has_id in Hhas. rewrite Hm' in Hhas. injection Hhas as Hhas. subst.
      apply Hn. congruence. }
  split; [apply reconstruct_core; split; cbn|cbn|intros f; by rewrite reconstruct_features].
  - done.
  - done.
  - intros id' b [_ Hb]%lookup_delete_Some. by apply W3.
  - intros sys l b (l0 & Hl0 & ->)%Hbs (Hnb & Hb)%list_elem_of_filter.
    destruct (W4 _ _ _ Hl0 Hb) as (m' & Hm' & ? & ?). exists m'. repeat split; try done.
    rewrite lookup_delete_ne; [done|]. intros ->. apply Hnb. unfold Machines.has_id. by rewrite Hm'.
  - intros id' b m' sys [Hne Hb]%lookup_delete_Some Hm' Hsys.
    destruct (W5 _ _ _ _ Hb Hm' Hsys) as (l0 & Hl0 & Hbl). unfold bs. rewrite drop_systems_lookup, Hl0. cbn.
    assert (¬ Machines.has_id ms id b) as Hnb.
    { intros Hhas. specialize (W3 _ _ Hb). unfold Machines.has_id in *. congruence. }
    destruct (decide _); eexists; (split; [done|]); [|done]. by apply list_elem_of_filter.
  - intros sys l (l0 & Hl0 & ->)%Hbs. by apply NoDup_filter, (Wn sys).
  - intros sys l (l0 & Hl0 & ->)%Hbs. by apply sorted_filter, (Ws sys).
Qed.

Lemma new_machines_wf sort_fn : machines_wf sort_fn Machines.new.
Proof.
  split; [split|..]; cbn.
  - intros a [? ?]. done.
  - done.
  - done.
  - done.
  - done.
  - done.
  - done.
  - intros f. split; [set_solver|]. intros (id & a & m & ? & _). done.
Qed.

Lemma get_machine_same system required free_fn ms h :
  same_machines ms (Machines.get_machine_for_system system required free_fn ms h).2.1.
Proof.
  unfold Machines.get_machine_for_system.
  destruct (decide _); [apply find_machine_same|].
  destruct (ms_by_system ms !! system); [apply find_machine_same|done].
Qed.

(** A job or a ping of one machine. *)
Lemma upd_machine_same ms a m m' :
  ms_objs ms !! a = Some m → same_machine m m' → counted m' →
  same_machines ms (ms <| ms_objs ::= <[a := m']> |>).
Proof. intros. by eapply same_machines_insert. Qed.

(** ** The life of the registry *)

Lemma new_machine_spec `{UuidLib} msg presigned forced h m h' :
  Machine.new msg presigned forced h = Ok (m, h') →
  mc_jobs m = [] ∧ mc_systems m = jn_systems msg ∧
  mc_stats m = (Stats.new (now h).2).1.
Proof.
  unfold Machine.new. do 2 (case_match; [done|]).
  destruct (uuid_parse _); [|done]. cbn [ok_or mbind result_bind].
  destruct (now h) as [t h1]. cbn [fst snd]. destruct (Stats.new h1) as [st h2]. by intros [= <- _].
Qed.

(** What may be known of the clocks that are read and of the pings that come. *)
Section Life.
Context `{UL : UuidLib} (clocks : Heap → Prop) (pings : PingMessage → Prop).

Inductive machines_step (sort_fn : MachineSortFn) : Machines → Machines → Prop :=
| step_insert msg presigned forced h m h' ms :
    clocks h → Machine.new msg presigned forced h = Ok (m, h') → NoDup (jn_systems msg) →
    ms_by_uuid ms !! mc_id m = None →
    machines_step sort_fn ms (Machines.insert_machine m sort_fn ms).2
| step_remove id ms : machines_step sort_fn ms (Machines.remove_machine id ms).2
| step_sort ms : machines_step sort_fn ms (Machines.sort sort_fn ms)
| step_choose system required free_fn ms h :
    machines_step sort_fn ms (Machines.get_machine_for_system system required free_fn ms h).2.1
| step_build a m job opts presigned h m' h' ms :
    clocks h → ms_objs ms !! a = Some m → Machine.build_drv job opts presigned m h = Ok (m', h') →
    machines_step sort_fn ms (ms <| ms_objs ::= <[a := m']> |>)
| step_done a m drv h ms :
    clocks h → ms_objs ms !! a = Some m →
    machines_step sort_fn ms (ms <| ms_objs ::= <[a := (Machine.remove_job drv m h).2.1]> |>)
| step_success a m timings time ms :
    ms_objs ms !! a = Some m →
    machines_step sort_fn ms
      (ms <| ms_objs ::= <[a := m <| mc_stats ::= Stats.track_build_success timings time |>]> |>)
| step_failure a m timings time h ms :
    clocks h → ms_objs ms !! a = Some m →
    machines_step sort_fn ms
      (ms <| ms_objs ::= <[a := m <| mc_stats := (Stats.track_build_failure timings time (mc_stats m) h).1 |>]> |>)
| step_ping a m msg h ms :
    clocks h → pings msg → ms_objs ms !! a = Some m →
    machines_step sort_fn ms
      (ms <| ms_objs ::= <[a := m <| mc_stats := (Stats.store_ping msg (mc_stats m) h).1 |>]> |>).

Lemma machines_step_wf sort_fn ms ms' :
  machines_step sort_fn ms ms' → machines_wf sort_fn ms → machines_wf sort_fn ms'.
Proof.
  intros Hstep W. destruct Hstep as [msg presigned forced h m h' ms _ Hnew Hnd Hid|id ms|ms|system required free_fn ms h
    |a m job opts presigned h m' h' ms _ Ha Hb|a m drv h ms _ Ha|a m timings time ms Ha|a m timings time h ms _ Ha
    |a m msg h ms _ _ Ha].
  - apply new_machine_spec in Hnew as (Hj & Hs & Hst). apply insert_machine_wf; try done; [|by rewrite Hs].
    unfold counted. by rewrite Hj, Hst.
  - by apply remove_machine_wf.
  - by eapply sort_wf.
  - eapply same_machines_wf, W. apply get_machine_same.
  - apply build_drv_spec in Hb as (Hc & Hsm & _).
    eapply same_machines_wf, W. by eapply upd_machine_same.
  - pose proof (remove_job_spec drv m h) as Hr. destruct (Machine.remove_job drv m h) as [j [m' h']].
    destruct Hr as (Hc & Hsm & _). eapply same_machines_wf, W. by eapply upd_machine_same.
  - eapply same_machines_wf, W. eapply same_machines_insert; [done..|by intros ?].
  - eapply same_machines_wf, W. eapply same_machines_insert; [done..|by intros ?].
  - eapply same_machines_wf, W. eapply same_machines_insert; [done| |].
    + by unfold Stats.store_ping; cbn; destruct (pm_pressure msg).
    + unfold counted, Stats.store_ping. cbn. by destruct (pm_pressure msg).
Qed.
End Life.

Lemma rtc_preserved {A} (R : A → A → Prop) (P : A → Prop) x y :
  (∀ x y, R x y → P x → P y) → rtc R x y → P x → P y.
Proof. intros H Hr. induction Hr; eauto. Qed.

Lemma reachable_wf `{UuidLib} clocks pings sort_fn ms :
  rtc (machines_step clocks pings sort_fn) Machines.new ms → machines_wf sort_fn ms.
Proof.
  intros Hr. eapply rtc_preserved; [|exact Hr|apply new_machines_wf]. intros. by eapply machines_step_wf.
Qed.
Lemma wf_counted sort_fn ms : machines_wf sort_fn ms → ∀ a m, ms_objs ms !! a = Some m → counted m.
Proof. by intros [[? ? ?] ? ?]. Qed.

(** *** The figures in their types *)

Definition clock_typed (h : Heap) : Prop := ∀ n, in_i 64 (as_second (hp_clock h n)) = true.
Definition ping_typed (msg : PingMessage) : Prop :=
  in_u 64 (pm_mem_usage msg) = true ∧ in_u 64 (pm_current_uploading_path_count msg) = true ∧
  in_u 64 (pm_current_downloading_path_count msg) = true.

Definition counters (s : Stats) : list Z :=
  [s_nr_steps_done s; s_failed_builds s; s_succeeded_builds s; s_total_step_time_ms s;
   s_total_step_import_time_ms s; s_total_step_build_time_ms s; s_total_step_upload_time_ms s;
   s_consecutive_failures s; s_mem_usage s; s_current_uploading_path_count s;
   s_current_downloading_count s; s_jobs_in_last_30s_count s].
Definition times (s : Stats) : list Z :=
  [s_idle_since s; s_last_failure s; s_disabled_until s; s_last_ping s; s_jobs_in_last_30s_start s].
Definition stats_typed (s : Stats) : Prop :=
  Forall (λ z, in_u 64 z = true) (counters s) ∧ Forall (λ z, in_i 64 z = true) (times s).
Definition machines_typed (ms : Machines) : Prop :=
  ∀ a m, ms_objs ms !! a = Some m → stats_typed (mc_stats m).

Lemma u64_typed z : in_u 64 (u64_wrap z) = true.
Proof. pose proof (u_wrap_bounds 64 z). unfold in_u. rewrite andb_true_iff, Z.leb_le, Z.ltb_lt. lia. Qed.
Lemma add_u64_typed v n : in_u 64 n = true → in_u 64 (Stats.add_u64 v n) = true.
Proof. unfold Stats.add_u64. destruct (try_u 64 v); [intros _; apply u64_typed|done]. Qed.

(** Take the hypotheses apart and close the fields that an operation sets. *)
Ltac typed :=
  repeat match goal with H : stats_typed _ |- _ => unfold stats_typed, counters, times in H; destruct H end;
  repeat match goal with H : ping_typed _ |- _ => destruct H as (? & ? & ?) end;
  repeat match goal with H : Forall _ (_ :: _) |- _ => apply Forall_cons in H as [? H] end;
  unfold stats_typed, counters, times; split; repeat (apply Forall_cons; split); try exact (Forall_nil_2 _); cbn;
  first [assumption | reflexivity | apply u64_typed | apply add_u64_typed; assumption].

Lemma new_stats_typed h : clock_typed h → stats_typed (Stats.new h).1.
Proof. intros Hc. pose proof (Hc (hp_reads h)). typed. Qed.
Lemma store_current_jobs_typed c s h :
  clock_typed h → stats_typed s →
  stats_typed (Stats.store_current_jobs c s h).1 ∧ clock_typed (Stats.store_current_jobs c s h).2.
Proof.
  intros Hc Hs. unfold Stats.store_current_jobs. destruct ((c =? 0) && _); cbn; (split; [|exact Hc]).
  all: pose proof (Hc (hp_reads h)); typed.
Qed.
Lemma add_timings_typed t time s : stats_typed s → stats_typed (Stats.add_timings t time s).
Proof. intros Hs. typed. Qed.
Lemma track_success_typed t time s : stats_typed s → stats_typed (Stats.track_build_success t time s).
Proof. intros Hs. unfold Stats.track_build_success. typed. Qed.
Lemma track_failure_typed t time s h :
  clock_typed h → stats_typed s → stats_typed (Stats.track_build_failure t time s h).1.
Proof. intros Hc Hs. pose proof (Hc (hp_reads h)). typed. Qed.
Lemma store_ping_typed msg s h :
  clock_typed h → ping_typed msg → stats_typed s → stats_typed (Stats.store_ping msg s h).1.
Proof.
  intros Hc Hm Hs. pose proof (Hc (hp_reads h)). unfold Stats.store_ping. destruct (pm_pressure msg); typed.
Qed.

Lemma insert_job_typed job m h :
  clock_typed h → stats_typed (mc_stats m) → stats_typed (mc_stats (Machine.insert_job job m h).1).
Proof.
  intros Hc Hs. unfold Machine.insert_job.
  destruct (store_current_jobs_typed (Z.of_nat (length (mc_jobs m ++ [job]))) _ _ Hc Hs) as [H _].
  by destruct (Stats.store_current_jobs _ _ _).
Qed.
Lemma build_drv_typed job opts presigned m h m' h' :
  clock_typed h → Machine.build_drv job opts presigned m h = Ok (m', h') →
  stats_typed (mc_stats m) → stats_typed (mc_stats m').
Proof.
  unfold Machine.build_drv. intros Hc (m1 & (q & _ & ->)%send_spec & H)%bind_Ok_inv Hs. revert H.
  match goal with |- context [if ?c then _ else _] => destruct c end; cbn -[Machine.insert_job];
    match goal with |- context [Machine.insert_job ?j ?x ?h] =>
      pose proof (insert_job_typed j x h) as Hj; destruct (Machine.insert_job j x h) as [m2 h2] end;
    intros [= <- _]; cbn in *; pose proof (Hc (hp_reads h)); specialize (Hj Hc).
  - assert (stats_typed (mc_stats m2)) as Hs2 by (apply Hj; typed). typed.
  - specialize (Hj Hs). typed.
Qed.
Lemma remove_job_typed drv m h :
  clock_typed h → stats_typed (mc_stats m) → stats_typed (mc_stats (Machine.remove_job drv m h).2.1).
Proof.
  intros Hc Hs. unfold Machine.remove_job.
  assert (stats_typed (Stats.incr_nr_steps_done (mc_stats m))) as H0 by (unfold Stats.incr_nr_steps_done; typed).
  destruct (store_current_jobs_typed (Z.of_nat (length (filter (λ j, j_path j ≠ drv) (mc_jobs m)))) _ _ Hc H0) as [H _].
  destruct (Stats.store_current_jobs _ _ _) as [st h1]. cbn in *. case_match; [typed|done].
Qed.
Lemma has_capacity_typed free_fn m h :
  stats_typed (mc_stats m) → stats_typed (mc_stats (Machine.has_capacity free_fn m h).2.1).
Proof. intros Hs. unfold Machine.has_capacity. cbn -[f64_lt as_second]. repeat case_match; cbn; try done; typed. Qed.

Lemma typed_insert ms a m : machines_typed ms → stats_typed (mc_stats m) →
  machines_typed (ms <| ms_objs ::= <[a := m]> |>).
Proof. intros Ht Hm b m'. cbn. intros [[_ <-]|[_ Hb]]%lookup_insert_Some; [done|]. by eapply Ht. Qed.

Lemma find_machine_typed free_fn required l ms h :
  machines_typed ms → machines_typed (Machines.find_machine free_fn required l ms h).2.1.
Proof.
  revert ms h. induction l as [|a l IH]; intros ms h Ht; cbn [Machines.find_machine]; [done|].
  destruct (ms_objs ms !! a) as [m|] eqn:Ea; [|by apply IH].
  assert (stats_typed (mc_stats (Machines.capacity free_fn m h).2.1)) as Hc.
  { destruct free_fn as [f|]; cbn; [apply has_capacity_typed|]; by eapply Ht. }
  destruct (Machines.capacity free_fn m h) as [free [m' h']]. cbn in Hc.
  pose proof (typed_insert ms a m' Ht Hc). case_match; [done|by apply IH].
Qed.

Lemma machines_step_typed `{UuidLib} sort_fn ms ms' :
  machines_step clock_typed ping_typed sort_fn ms ms' → machines_typed ms → machines_typed ms'.
Proof.
  intros Hstep W. destruct Hstep as [msg presigned forced h m h' ms Hc Hnew _ _|id ms|ms|system required free_fn ms h
    |a m job opts presigned h m' h' ms Hc Ha Hb|a m drv h ms Hc Ha|a m timings time ms Ha|a m timings time h ms Hc Ha
    |a m msg h ms Hc Hm Ha].
  - apply (typed_insert ms (ms_next ms) m W). apply new_machine_spec in Hnew as (_ & _ & ->).
    by apply new_stats_typed.
  - unfold Machines.remove_machine. destruct (ms_by_uuid ms !! id); cbn; [|done].
    destruct (ms_objs ms !! _); [|done]. intros b m'. cbn. apply W.
  - done.
  - unfold Machines.get_machine_for_system. repeat case_match; auto using find_machine_typed.
  - apply typed_insert; [done|]. eapply build_drv_typed; eauto.
  - apply typed_insert; [done|]. apply remove_job_typed; eauto.
  - apply typed_insert; [done|]. apply track_success_typed; eauto.
  - apply typed_insert; [done|]. apply track_failure_typed; eauto.
  - apply typed_insert; [done|]. apply store_ping_typed; eauto.
Qed.

(** ** Properties *)




(** C30: a machine that passed the test with a job limit is never given more
    jobs than its limit, and is told to build exactly the derivation of the
    job it was given. *)
Theorem build_drv_within_limit free_fn m h m1 h1 job opts presigned m2 h2 :
  free_fn ≠ Dynamic → counted m →
  Machine.has_capacity free_fn m h = (true, (m1, h1)) →
  Machine.build_drv job opts presigned m1 h1 = Ok (m2, h2) →
  Z.of_nat (length (mc_jobs m2)) ≤ mc_max_jobs m2 ∧ mc_jobs m2 = mc_jobs m ++ [job] ∧ counted m2 ∧
  ∃ ms, mc_msg_queue m = Some ms ∧ mc_msg_queue m2 = Some (ms ++
    [MBuildMessage (j_internal_build_id job) (j_path job) (j_resolved_drv job)
       (BuildOptions.max_log_size opts) (BuildOptions.max_silent_time opts)
       (BuildOptions.build_timeout opts) presigned]).
Proof.
  intros Hf Hc Hcap Hb. pose proof (has_capacity_spec free_fn m h) as Hs. rewrite Hcap in Hs.
  destruct Hs as (Hfree & _ & (_ & _ & _ & _ & _ & Hmax) & Hj & Hq & Hn). symmetry in Hfree.
  apply free_at_static in Hfree; [|done].
  apply build_drv_spec in Hb as (Hc2 & (_ & _ & _ & _ & _ & Hmax2) & Hj2 & ms & Hq1 & Hq2).
  rewrite Hj in Hj2. rewrite Hq in Hq1. split; [|by eauto 6].
  rewrite Hmax2, Hmax, Hj2, length_app. cbn. unfold counted in Hc. lia.
Qed.
End Registry.

(** ** Witnesses *)

Definition example_stats : Stats :=
  mkStats 0 0 0 0 0 0 0 0 0 0 0 0 0 (S754_zero false) (S754_zero false) (S754_zero false) 0 None
    (f64_of_Z 50) (f64_of_Z 50) 0 0 0 0.
Definition example_machine : Machine :=
  mkMachine 7 ["x86_64-linux"%string] "builder"%string 8 (f32_of_Z 4000) (f32_of_Z 1) 2 (f64_of_Z 10) (f64_of_Z 10)
    (f32_of_Z 8) (f32_of_Z 75) (f32_of_Z 80) None 0 ["kvm"%string] [] false [] true "2.31"%string 0 (Some [])
    example_stats [].
Definition example_heap : Heap := mkHeap ∅ ∅ ∅ 1%positive (λ n, Z.of_nat n * 10 ^ 9) 0.
Definition example_registry : Machines :=
  (Machines.insert_machine (FE := x86_env) example_machine SpeedFactorOnly Machines.new).2.
Definition example_job : Job := Job_new 1 1 (StorePath.mk "abc.drv") None.

(** A builder joins, gets a job, and twice a job is taken off it. *)
Definition example_uuids : UuidLib := {| uuid_parse := λ _, Some 7; uuid_to_string := λ _, "7"%string |}.
Definition example_join : JoinMessage :=
  mkJoinMessage "7" ["x86_64-linux"%string] "builder" 8 (f32_of_Z 4000) (f32_of_Z 1) 2 (f32_of_Z 10) (f32_of_Z 10)
    (f32_of_Z 8) (f32_of_Z 75) (f32_of_Z 80) None 0 ["kvm"%string] [] false [] true "2.31".
Definition still_heap : Heap := mkHeap ∅ ∅ ∅ 1%positive (λ _, 5 * 10 ^ 9) 0.
Definition joined_machine : Machine :=
  match Machine.new (H := example_uuids) example_join false [] still_heap with
  | Ok (m, _) => m | Err _ => example_machine end.
Definition busy_machine : Machine :=
  match Machine.build_drv example_job (BuildOptions.new None) None joined_machine still_heap with
  | Ok (m, _) => m | Err _ => example_machine end.
Definition once_removed : Machine := (Machine.remove_job (StorePath.mk "abc.drv") busy_machine still_heap).2.1.
Definition twice_removed : Machine := (Machine.remove_job (StorePath.mk "abc.drv") once_removed still_heap).2.1.

Definition joined_registry : Machines :=
  (Machines.insert_machine (FE := x86_env) joined_machine SpeedFactorOnly Machines.new).2.
Definition busy_registry : Machines := joined_registry <| ms_objs ::= <[1%positive := busy_machine]> |>.
Definition idle_registry : Machines := busy_registry <| ms_objs ::= <[1%positive := once_removed]> |>.
Definition final_registry : Machines := idle_registry <| ms_objs ::= <[1%positive := twice_removed]> |>.

Lemma joined_new : ∃ h', Machine.new (H := example_uuids) example_join false [] still_heap = Ok (joined_machine, h').
Proof. eexists. vm_compute. reflexivity. Defined.
Lemma busy_built : ∃ h', Machine.build_drv example_job (BuildOptions.new None) None joined_machine still_heap = Ok (busy_machine, h').
Proof. eexists. vm_compute. reflexivity. Defined.

Abbreviation example_step :=
  (machines_step (FE := x86_env) (UL := example_uuids) clock_typed ping_typed SpeedFactorOnly).
Lemma still_typed : clock_typed still_heap.
Proof. intros n. reflexivity. Qed.
Lemma joins : example_step Machines.new joined_registry.
Proof.
  destruct joined_new as [h1 Hj]. unfold joined_registry.
  eapply step_insert; [exact still_typed|exact Hj|apply NoDup_singleton|vm_compute; reflexivity].
Qed.
Lemma builds : example_step joined_registry busy_registry.
Proof.
  destruct busy_built as [h2 Hb]. unfold busy_registry.
  eapply step_build; [exact still_typed|vm_compute; reflexivity|exact Hb].
Qed.
Lemma ends_once : example_step busy_registry idle_registry.
Proof. unfold idle_registry, once_removed. apply step_done; [exact still_typed|vm_compute; reflexivity]. Qed.
Lemma ends_twice : example_step idle_registry final_registry.
Proof. unfold final_registry, twice_removed. apply step_done; [exact still_typed|vm_compute; reflexivity]. Qed.
Lemma example_life : rtc example_step Machines.new final_registry.
Proof.
  eapply rtc_l; [exact joins|]. eapply rtc_l; [exact builds|]. eapply rtc_l; [exact ends_once|].
  apply rtc_once, ends_twice.
Qed.




Lemma build_drv_within_limit_witness :
  Z.of_nat (length (mc_jobs example_machine ++ [example_job])) ≤ 2.
Proof.
  destruct (build_drv_within_limit Static example_machine example_heap _ _ example_job (BuildOptions.new None) None
    _ _ ltac:(done) eq_refl eq_refl eq_refl) as (H & _). exact H.
Defined.
