(* ===== verification/Queue.v ===== *)
(** * Queue: step infos and the build queues ([step_info.rs], [queue.rs])

    A [StepInfo] is the queue's entry for a runnable step. The flat map [jobs]
    and the map [scheduled] own the entries; the queue of a system is a vector
    of weak references. An entry is alive while [jobs], [scheduled] or a
    running task refers to it. A queue is never replaced once its system has
    one, so the system names the queue. *)

From Stdlib Require Import Ascii String.
From S2P Require Import Prelude Floats RustStr Nix Db Jobset Graph.
Local Open Scope Z_scope.

Abbreviation System := string.

Inductive StepSortFn := Legacy | WithRdeps.
#[export] Instance StepSortFn_eq_dec : EqDecision StepSortFn.
Proof. solve_decision. Defined.

Record StepInfo := mkStepInfo {
  si_step : addr;
  si_resolved_drv_path : option StorePath;
  si_already_scheduled : bool;
  si_cancelled : bool;
  si_runnable_since : Timestamp;
  si_lowest_share_used : f64
}.
#[export] Instance eta_StepInfo : Eta StepInfo := λ r,
  mkStepInfo (si_step r) (si_resolved_drv_path r) (si_already_scheduled r) (si_cancelled r)
    (si_runnable_since r) (si_lowest_share_used r).
#[export] Instance set_si_already_scheduled : Setter si_already_scheduled := ltac:(mk_setter si_already_scheduled).
#[export] Instance set_si_cancelled : Setter si_cancelled := ltac:(mk_setter si_cancelled).
#[export] Instance set_si_lowest_share_used : Setter si_lowest_share_used := ltac:(mk_setter si_lowest_share_used).

Record BuildQueue := mkBuildQueue {
  q_jobs : list addr;
  q_active_runnable : Z;
  q_total_runnable : Z;
  q_nr_runnable_waiting : Z;
  q_nr_runnable_disabled : Z;
  q_avg_runnable_time : Z;
  q_wait_time_ms : Z
}.
#[export] Instance eta_BuildQueue : Eta BuildQueue := λ r,
  mkBuildQueue (q_jobs r) (q_active_runnable r) (q_total_runnable r) (q_nr_runnable_waiting r)
    (q_nr_runnable_disabled r) (q_avg_runnable_time r) (q_wait_time_ms r).
#[export] Instance set_q_jobs : Setter q_jobs := ltac:(mk_setter q_jobs).
#[export] Instance set_q_active_runnable : Setter q_active_runnable := ltac:(mk_setter q_active_runnable).
#[export] Instance set_q_total_runnable : Setter q_total_runnable := ltac:(mk_setter q_total_runnable).
#[export] Instance set_q_nr_runnable_waiting : Setter q_nr_runnable_waiting := ltac:(mk_setter q_nr_runnable_waiting).
#[export] Instance set_q_nr_runnable_disabled : Setter q_nr_runnable_disabled := ltac:(mk_setter q_nr_runnable_disabled).
#[export] Instance set_q_wait_time_ms : Setter q_wait_time_ms := ltac:(mk_setter q_wait_time_ms).

Record ScheduledItem := mkScheduledItem {
  it_step_info : addr;
  it_build_queue : System;
  it_machine : addr
}.

(** [iq_infos] is the heap of step infos, [iq_held] the entries running tasks
    refer to. *)
Record InnerQueues := mkInnerQueues {
  iq_jobs : gmap StorePath addr;
  iq_inner : gmap System BuildQueue;
  iq_scheduled : gmap StorePath ScheduledItem;
  iq_infos : gmap addr StepInfo;
  iq_next : addr;
  iq_held : list addr
}.
#[export] Instance eta_InnerQueues : Eta InnerQueues := λ r,
  mkInnerQueues (iq_jobs r) (iq_inner r) (iq_scheduled r) (iq_infos r) (iq_next r) (iq_held r).
#[export] Instance set_iq_jobs : Setter iq_jobs := ltac:(mk_setter iq_jobs).
#[export] Instance set_iq_inner : Setter iq_inner := ltac:(mk_setter iq_inner).
#[export] Instance set_iq_scheduled : Setter iq_scheduled := ltac:(mk_setter iq_scheduled).
#[export] Instance set_iq_infos : Setter iq_infos := ltac:(mk_setter iq_infos).
#[export] Instance set_iq_next : Setter iq_next := ltac:(mk_setter iq_next).
#[export] Instance set_iq_held : Setter iq_held := ltac:(mk_setter iq_held).

(** ** Step infos *)

Section Infos.
Context `{HI : HashIter} `{FE : FloatEnv} `{TL : TimeLib} `{NE : NixEnv}.

(** [q] is the number of the store query. *)
Definition StepInfo_new (q : nat) (h : Heap) (step : addr) (s : Step) : StepInfo :=
  mkStepInfo step
    (try_resolve_drv q (st_drv_path s))
    false false (AtomicDateTime.load (st_runnable_since s)) (Step.get_lowest_share_used h s).

(** What the comparison of two entries reads. *)
Record SortKey := mkSortKey {
  k_highest_global_priority : Z;
  k_lowest_share_used : f64;
  k_rdeps_len : Z;
  k_highest_local_priority : Z;
  k_lowest_build_id : Z
}.

Definition sort_key (s : Step) (i : StepInfo) : SortKey :=
  mkSortKey (st_highest_global_priority s) (si_lowest_share_used i) (st_rdeps_len s)
    (st_highest_local_priority s) (st_lowest_build_id s).

Definition legacy_compare (x y : SortKey) : comparison :=
  CompOpp
    (cmp_then (k_highest_global_priority x ?= k_highest_global_priority y)
    (cmp_then (total_cmp f64_format (k_lowest_share_used y) (k_lowest_share_used x))
    (cmp_then (k_highest_local_priority x ?= k_highest_local_priority y)
              (k_lowest_build_id y ?= k_lowest_build_id x)))).

Definition compare_with_rdeps (x y : SortKey) : comparison :=
  CompOpp
    (cmp_then (k_highest_global_priority x ?= k_highest_global_priority y)
    (cmp_then (total_cmp f64_format (k_lowest_share_used y) (k_lowest_share_used x))
    (cmp_then (k_rdeps_len x ?= k_rdeps_len y)
    (cmp_then (k_highest_local_priority x ?= k_highest_local_priority y)
              (k_lowest_build_id y ?= k_lowest_build_id x))))).

Definition cmp_fn (sort_fn : StepSortFn) : SortKey → SortKey → comparison :=
  match sort_fn with Legacy => legacy_compare | WithRdeps => compare_with_rdeps end.

End Infos.

(** ** One queue *)

Module BuildQueue.

Definition new : BuildQueue := mkBuildQueue [] 0 0 0 0 0 0.

Definition set_nr_runnable_waiting (v : Z) (q : BuildQueue) : BuildQueue := q <| q_nr_runnable_waiting := v |>.
Definition set_nr_runnable_disabled (v : Z) (q : BuildQueue) : BuildQueue := q <| q_nr_runnable_disabled := v |>.
Definition incr_active (q : BuildQueue) : BuildQueue := q <| q_active_runnable ::= λ n, u64_wrap (n + 1) |>.
Definition decr_active (q : BuildQueue) : BuildQueue := q <| q_active_runnable ::= λ n, u64_wrap (n - 1) |>.

End BuildQueue.

Definition drv_of_info (h : Heap) (i : StepInfo) : option StorePath :=
  st_drv_path <$> hp_steps h !! si_step i.

(** ** All queues *)

Module Queues.

Definition new : InnerQueues := mkInnerQueues ∅ ∅ ∅ ∅ 1 [].

(** An entry some strong reference keeps alive. *)
Definition owned (iq : InnerQueues) (a : addr) : bool :=
  bool_decide (a ∈ (map_to_list (iq_jobs iq)).*2) ||
  bool_decide (a ∈ it_step_info <$> (map_to_list (iq_scheduled iq)).*2) ||
  bool_decide (a ∈ iq_held iq).

(** [Weak::upgrade] *)
Definition upgrade (iq : InnerQueues) (a : addr) : option StepInfo :=
  if owned iq a then iq_infos iq !! a else None.

Definition upd_queue (system : System) (f : BuildQueue → BuildQueue) (iq : InnerQueues) : InnerQueues :=
  iq <| iq_inner ::= alter f system |>.
Definition upd_info (a : addr) (f : StepInfo → StepInfo) (iq : InnerQueues) : InnerQueues :=
  iq <| iq_infos ::= alter f a |>.

Section Ops.
Context `{HI : HashIter} `{FE : FloatEnv} (h : Heap).

(** *** [BuildQueue::sort_jobs] *)

Definition update_internal_stats (a : addr) (iq : InnerQueues) : InnerQueues :=
  match upgrade iq a with
  | None => iq
  | Some i =>
      match hp_steps h !! si_step i with
      | None => iq
      | Some s => upd_info a (λ i, i <| si_lowest_share_used := Step.get_lowest_share_used h s |>) iq
      end
  end.

Definition key_of (iq : InnerQueues) (a : addr) : option SortKey :=
  i ← upgrade iq a; s ← hp_steps h !! si_step i; Some (sort_key s i).

Definition job_cmp (sort_fn : StepSortFn) (iq : InnerQueues) (a b : addr) : comparison :=
  match key_of iq a, key_of iq b with
  | Some x, Some y => cmp_fn sort_fn x y
  | Some _, None => Gt
  | None, Some _ => Lt
  | None, None => Eq
  end.

Definition sort_jobs (sort_fn : StepSortFn) (system : System) (iq : InnerQueues) : InnerQueues :=
  match iq_inner iq !! system with
  | None => iq
  | Some q =>
      let iq := foldl (λ iq a, update_internal_stats a iq) iq (q_jobs q) in
      upd_queue system (λ q, q <| q_jobs ::= sort_by (job_cmp sort_fn iq) |>) iq
  end.

(** *** [BuildQueue::scrube_jobs] *)

Definition scrube_jobs (system : System) (iq : InnerQueues) : InnerQueues :=
  upd_queue system (λ q,
    let jobs := filter (λ a, is_Some (upgrade iq a)) (q_jobs q) in
    q <| q_jobs := jobs |> <| q_total_runnable := Z.of_nat (length jobs) |>) iq.

(** *** [BuildQueue::insert_new_jobs] *)

Definition same_drv (iq : InnerQueues) (a b : addr) : bool :=
  match upgrade iq a ≫= drv_of_info h, upgrade iq b ≫= drv_of_info h with
  | Some d, Some d' => bool_decide (d = d')
  | _, _ => false
  end.

Definition wait_ms (now since : Timestamp) : Z :=
  default 0 (try_u 64 (Z.quot (now - since) (10 ^ 6))).

(** The jobs the queue takes, and the time they have waited. *)
Fixpoint push_jobs (iq : InnerQueues) (now : Timestamp) (jobs current : list addr) (wait : Z)
  : list addr * Z :=
  match jobs with
  | [] => (current, wait)
  | j :: jobs' =>
      match upgrade iq j with
      | None => push_jobs iq now jobs' current wait
      | Some i =>
          if existsb (λ v, same_drv iq v j) current then push_jobs iq now jobs' current wait
          else push_jobs iq now jobs' (current ++ [j])
                 (u64_wrap (wait + wait_ms now (si_runnable_since i)))
      end
  end.

Definition queue_insert_new_jobs (system : System) (jobs : list addr) (now : Timestamp)
    (sort_fn : StepSortFn) (iq : InnerQueues) : InnerQueues :=
  match iq_inner iq !! system with
  | None => iq
  | Some q =>
      let '(current, wait) := push_jobs iq now jobs (q_jobs q) 0 in
      let iq := upd_queue system (λ q, q <| q_jobs := current |>
                  <| q_wait_time_ms ::= λ w, u64_wrap (w + wait) |>) iq in
      sort_jobs sort_fn system (scrube_jobs system iq)
  end.

(** *** [InnerQueues::insert_new_jobs] *)

(** An entry becomes an owned object and a candidate for the queue when no
    entry has its derivation path and its step is not finished. *)
Definition own_job (acc : list addr * InnerQueues) (j : StepInfo) : list addr * InnerQueues :=
  let '(submit, iq) := acc in
  match hp_steps h !! si_step j with
  | None => acc
  | Some s =>
      match iq_jobs iq !! st_drv_path s with
      | Some _ => acc
      | None =>
          if st_finished s then acc
          else (submit ++ [iq_next iq],
                iq <| iq_infos ::= <[iq_next iq := j]> |>
                   <| iq_jobs ::= <[st_drv_path s := iq_next iq]> |>
                   <| iq_next ::= Pos.succ |>)
      end
  end.

Definition ensure_queue (system : System) (iq : InnerQueues) : InnerQueues :=
  match iq_inner iq !! system with
  | Some _ => iq
  | None => iq <| iq_inner ::= <[system := BuildQueue.new]> |>
  end.

Definition insert_new_jobs (system : System) (jobs : list StepInfo) (now : Timestamp)
    (sort_fn : StepSortFn) (iq : InnerQueues) : InnerQueues :=
  let '(submit, iq) := foldl own_job ([], iq) jobs in
  queue_insert_new_jobs system submit now sort_fn (ensure_queue system iq).

Definition ensure_queues_for_systems (systems : list System) (iq : InnerQueues) : InnerQueues :=
  foldl (λ iq s, ensure_queue s iq) iq systems.

Definition remove_all_weak_pointer (iq : InnerQueues) : InnerQueues :=
  foldl (λ iq s, scrube_jobs s iq) iq (iter_keys (iq_inner iq)).

Definition add_job_to_scheduled (a : addr) (system : System) (machine : addr) (iq : InnerQueues)
  : InnerQueues :=
  match i ← iq_infos iq !! a; drv_of_info h i with
  | None => iq
  | Some drv =>
      upd_queue system BuildQueue.incr_active
        (upd_info a (λ i, i <| si_already_scheduled := true |>)
          (iq <| iq_scheduled ::= <[drv := mkScheduledItem a system machine]> |>))
  end.

Definition remove_job_from_scheduled (drv : StorePath) (iq : InnerQueues)
  : option ScheduledItem * InnerQueues :=
  match iq_scheduled iq !! drv with
  | None => (None, iq)
  | Some item =>
      (Some item,
       upd_queue (it_build_queue item) BuildQueue.decr_active
         (upd_info (it_step_info item) (λ i, i <| si_already_scheduled := false |>)
           (iq <| iq_scheduled ::= delete drv |>)))
  end.

Definition remove_job_by_path (drv : StorePath) (iq : InnerQueues) : InnerQueues :=
  iq <| iq_jobs ::= delete drv |>.

Definition remove_job (a : addr) (system : System) (iq : InnerQueues) : InnerQueues :=
  match i ← iq_infos iq !! a; drv_of_info h i with
  | None => iq
  | Some drv => scrube_jobs system (remove_job_by_path drv iq)
  end.

Definition get_jobs (iq : InnerQueues) : list addr := iter_values (iq_jobs iq).
Definition get_scheduled (iq : InnerQueues) : list addr :=
  it_step_info <$> iter_values (iq_scheduled iq).

Definition sort_queues (sort_fn : StepSortFn) (iq : InnerQueues) : InnerQueues :=
  foldl (λ iq s, sort_jobs sort_fn s iq) iq (iter_keys (iq_inner iq)).

End Ops.

(** ** Dispatching: [Queues::process] *)

Inductive RealiseStepResult :=
| RNone
| RValid (machine : addr)
| RMaybeCancelled
| RCachedFailure.

(** The job, its system and the queue's features (always empty here). *)
Record JobConstraint := mkJobConstraint {
  jc_job : addr;
  jc_system : System;
  jc_queue_features : list string
}.

(** [process] runs inside a larger state, of which it needs the queues and the
    graph. *)
Class HasQueues (W : Type) : Type := {
  queues : W → InnerQueues;
  upd_queues : (InnerQueues → InnerQueues) → W → W;
  heap : W → Heap;
  queues_upd : ∀ f w, queues (upd_queues f w) = f (queues w);
  heap_upd : ∀ f w, heap (upd_queues f w) = heap w
}.

Section Process.
Context `{HI : HashIter} `{TL : TimeLib} {W E : Type} `{HQ : !HasQueues W}.
Context (clock : M W E Timestamp).
Context (processor : JobConstraint → M W E RealiseStepResult).

(** A job the loop hands to the processor. *)
Definition eligible (now : Timestamp) (w : W) (a : addr) : bool :=
  match upgrade (queues w) a with
  | None => false
  | Some i =>
      match hp_steps (heap w) !! si_step i with
      | None => false
      | Some s => negb (si_already_scheduled i) && negb (st_finished s)
                  && negb (now <? AtomicDateTime.load (st_after s))
      end
  end.

(** Counters of the queue being processed: disabled, waiting. *)
Record Counts := mkCounts { c_disabled : Z; c_waiting : Z }.

Definition process_job (now : Timestamp) (system : System) (c : Counts) (a : addr) : M W E Counts :=
  info ← gets (λ w, i ← upgrade (queues w) a; s ← hp_steps (heap w) !! si_step i; Some (i, s));
  match info with
  | None => mret c
  | Some (i, s) =>
      if si_already_scheduled i then mret c
      else if st_finished s then mret c
      else if now <? AtomicDateTime.load (st_after s)
      then mret (mkCounts (c_disabled c + 1) (c_waiting c))
      else
        modify (upd_queues (λ iq, iq <| iq_held ::= cons a |>));;
        r ← attempt (processor (mkJobConstraint a system []));
        c ← match r with
            | Ok (RValid m) =>
                modify (λ w, upd_queues (add_job_to_scheduled (heap w) a system m) w);; mret c
            | Ok RNone => mret (mkCounts (c_disabled c) (c_waiting c + 1))
            | Ok RMaybeCancelled | Ok RCachedFailure =>
                modify (λ w, upd_queues (remove_job (heap w) a system) w);; mret c
            | Err _ => mret c
            end;
        modify (upd_queues (λ iq,
          upd_queue system (λ q, BuildQueue.set_nr_runnable_disabled (c_disabled c)
            (BuildQueue.set_nr_runnable_waiting (c_waiting c) q))
            (iq <| iq_held ::= tail |>)));;
        mret c
  end.

Fixpoint process_jobs (now : Timestamp) (system : System) (c : Counts) (jobs : list addr)
  : M W E Counts :=
  match jobs with
  | [] => mret c
  | a :: jobs' => c ← process_job now system c a; process_jobs now system c jobs'
  end.

Fixpoint process_queues (now : Timestamp) (waiting : Z) (systems : list System) : M W E Z :=
  match systems with
  | [] => mret waiting
  | system :: systems' =>
      jobs ← gets (λ w, match iq_inner (queues w) !! system with
                        | Some q => q_jobs q
                        | None => []
                        end);
      c ← process_jobs now system (mkCounts 0 0) jobs;
      process_queues now (waiting + c_waiting c) systems'
  end.

(** The result is the number of jobs that wait for a machine. *)
Definition process : M W E Z :=
  now ← clock;
  systems ← gets (λ w, iter_keys (iq_inner (queues w)));
  process_queues now 0 systems.

End Process.
End Queues.
