(* ===== verification/QueueOrder.v ===== *)
(** * QueueOrder: the order of the queues

    Both comparisons of [step_info.rs] are total preorders with the documented
    priorities, and [sort_jobs] sorts: the queue is a stable, ordered
    permutation of what it was. *)

From Stdlib Require Import Ascii String.
From S2P Require Import Prelude Floats RustStr Nix Db Jobset Graph Queue.
Local Open Scope Z_scope.

Lemma total_cmp_opp {A} (c : A → A → comparison) :
  TotalCmp c → TotalCmp (λ x y, CompOpp (c x y)).
Proof.
  intros Hc. split.
  - intros x y. by rewrite (cmp_opp x y).
  - intros x y z. rewrite <-!cmp_opp. intros H1 H2. by apply (cmp_le_trans z y x).
Qed.

(** An option of a totally ordered type, the absent value first. *)
Definition opt_cmp {A} (c : A → A → comparison) (x y : option A) : comparison :=
  match x, y with
  | Some a, Some b => c a b
  | Some _, None => Gt
  | None, Some _ => Lt
  | None, None => Eq
  end.

Lemma total_opt_cmp {A} (c : A → A → comparison) : TotalCmp c → TotalCmp (opt_cmp c).
Proof.
  intros Hc. split.
  - intros [x|] [y|]; cbn; try done. apply cmp_opp.
  - intros [x|] [y|] [z|]; cbn; try done. apply cmp_le_trans.
Qed.

Section Order.
Context `{FE : FloatEnv}.

Lemma total_on {B} (f : SortKey → B) c : TotalCmp c → TotalCmp (λ x y, c (f x) (f y)).
Proof. intros Hc. by apply (total_cmp_on f c). Qed.

Lemma total_on_flip {B} (f : SortKey → B) c : TotalCmp c → TotalCmp (λ x y, c (f y) (f x)).
Proof. intros Hc. apply (@total_cmp_flip _ (λ x y, c (f x) (f y))). by apply total_on. Qed.

Lemma legacy_total : TotalCmp legacy_compare.
Proof.
  unfold legacy_compare. apply total_cmp_opp.
  apply total_cmp_then; [apply total_on, _|].
  apply total_cmp_then; [apply total_on_flip, _|].
  apply total_cmp_then; [apply total_on, _|apply total_on_flip, _].
Qed.

Lemma with_rdeps_total : TotalCmp compare_with_rdeps.
Proof.
  unfold compare_with_rdeps. apply total_cmp_opp.
  apply total_cmp_then; [apply total_on, _|].
  apply total_cmp_then; [apply total_on_flip, _|].
  apply total_cmp_then; [apply total_on, _|].
  apply total_cmp_then; [apply total_on, _|apply total_on_flip, _].
Qed.

Lemma cmp_fn_total sort_fn : TotalCmp (cmp_fn sort_fn).
Proof. destruct sort_fn; [apply legacy_total|apply with_rdeps_total]. Qed.

Lemma CompOpp_Lt c : CompOpp c = Lt ↔ c = Gt.
Proof. by destruct c. Qed.
Lemma cmp_then_Gt c d : cmp_then c d = Gt ↔ c = Gt ∨ (c = Eq ∧ d = Gt).
Proof. destruct c; cbn; naive_solver. Qed.

(** [x] comes before [y] when its steps matter to a build of higher global
    priority, or its jobset has used less of its share, ... *)
Lemma legacy_before x y :
  legacy_compare x y = Lt ↔
  k_highest_global_priority y < k_highest_global_priority x ∨
  (k_highest_global_priority x = k_highest_global_priority y ∧
   (total_cmp f64_format (k_lowest_share_used x) (k_lowest_share_used y) = Lt ∨
    (total_cmp f64_format (k_lowest_share_used x) (k_lowest_share_used y) = Eq ∧
     (k_highest_local_priority y < k_highest_local_priority x ∨
      (k_highest_local_priority x = k_highest_local_priority y ∧
       k_lowest_build_id x < k_lowest_build_id y))))).
Proof.
  unfold legacy_compare. rewrite CompOpp_Lt, !cmp_then_Gt, !Z.compare_gt_iff, !Z.compare_eq_iff.
  rewrite (cmp_opp (k_lowest_share_used x) (k_lowest_share_used y)).
  destruct (total_cmp f64_format (k_lowest_share_used x) (k_lowest_share_used y)); cbn;
    intuition (congruence || lia).
Qed.

Lemma with_rdeps_before x y :
  compare_with_rdeps x y = Lt ↔
  k_highest_global_priority y < k_highest_global_priority x ∨
  (k_highest_global_priority x = k_highest_global_priority y ∧
   (total_cmp f64_format (k_lowest_share_used x) (k_lowest_share_used y) = Lt ∨
    (total_cmp f64_format (k_lowest_share_used x) (k_lowest_share_used y) = Eq ∧
     (k_rdeps_len y < k_rdeps_len x ∨
      (k_rdeps_len x = k_rdeps_len y ∧
       (k_highest_local_priority y < k_highest_local_priority x ∨
        (k_highest_local_priority x = k_highest_local_priority y ∧
         k_lowest_build_id x < k_lowest_build_id y))))))).
Proof.
  unfold compare_with_rdeps. rewrite CompOpp_Lt, !cmp_then_Gt, !Z.compare_gt_iff, !Z.compare_eq_iff.
  rewrite (cmp_opp (k_lowest_share_used x) (k_lowest_share_used y)).
  destruct (total_cmp f64_format (k_lowest_share_used x) (k_lowest_share_used y)); cbn;
    intuition (congruence || lia).
Qed.
End Order.

(** ** Sorting a queue *)

Section Sort.
Context `{HI : HashIter} `{FE : FloatEnv} (h : Heap).

Lemma job_cmp_total sort_fn iq : TotalCmp (Queues.job_cmp h sort_fn iq).
Proof.
  change (TotalCmp (λ a b, opt_cmp (cmp_fn sort_fn) (Queues.key_of h iq a) (Queues.key_of h iq b))).
  apply (@total_cmp_on _ _ (Queues.key_of h iq) (opt_cmp (cmp_fn sort_fn))).
  apply total_opt_cmp, cmp_fn_total.
Qed.

(** [iq'] differs from [iq] in the shares its infos remember. *)
Record same_but_shares (iq iq' : InnerQueues) : Prop := {
  sb_jobs : iq_jobs iq' = iq_jobs iq;
  sb_inner : iq_inner iq' = iq_inner iq;
  sb_scheduled : iq_scheduled iq' = iq_scheduled iq;
  sb_next : iq_next iq' = iq_next iq;
  sb_held : iq_held iq' = iq_held iq;
  sb_infos : ∀ a, match iq_infos iq !! a, iq_infos iq' !! a with
    | Some i, Some i' => ∃ f, i' = i <| si_lowest_share_used := f |>
    | None, None => True
    | _, _ => False
    end
}.

Lemma same_but_shares_refl iq : same_but_shares iq iq.
Proof.
  split; [done..|]. intros a. destruct (iq_infos iq !! a) as [i|]; [|done].
  exists (si_lowest_share_used i). by destruct i.
Qed.

Lemma same_but_shares_trans a b c : same_but_shares a b → same_but_shares b c → same_but_shares a c.
Proof.
  intros [] []. split; [congruence..|]. intros x.
  specialize (sb_infos0 x). specialize (sb_infos1 x).
  destruct (iq_infos a !! x), (iq_infos b !! x), (iq_infos c !! x); try done.
  destruct sb_infos0 as [f ->], sb_infos1 as [g ->]. by exists g.
Qed.

Lemma update_internal_stats_same a iq : same_but_shares iq (Queues.update_internal_stats h a iq).
Proof.
  unfold Queues.update_internal_stats. destruct (Queues.upgrade iq a) as [i|]; [|apply same_but_shares_refl].
  destruct (hp_steps h !! si_step i) as [s|]; [|apply same_but_shares_refl].
  split; [done..|]. intros x. cbn. destruct (decide (x = a)) as [->|Hne].
  - rewrite lookup_alter_eq. destruct (iq_infos iq !! a); [by eexists|done].
  - rewrite lookup_alter_ne by done. apply (sb_infos _ _ (same_but_shares_refl iq)).
Qed.

Lemma update_all_same l iq :
  same_but_shares iq (foldl (λ iq a, Queues.update_internal_stats h a iq) iq l).
Proof.
  revert iq. induction l as [|a l IH]; intros iq; cbn; [apply same_but_shares_refl|].
  eapply same_but_shares_trans; [apply update_internal_stats_same|apply IH].
Qed.

Lemma owned_same iq iq' a :
  iq_jobs iq' = iq_jobs iq → iq_scheduled iq' = iq_scheduled iq → iq_held iq' = iq_held iq →
  Queues.owned iq' a = Queues.owned iq a.
Proof. intros H1 H2 H3. unfold Queues.owned. by rewrite H1, H2, H3. Qed.

Lemma key_of_upd_queue s f iq a : Queues.key_of h (Queues.upd_queue s f iq) a = Queues.key_of h iq a.
Proof. done. Qed.

(** What sorting does to a queue. *)
Lemma sort_jobs_spec sort_fn system iq q :
  iq_inner iq !! system = Some q →
  let iq' := Queues.sort_jobs h sort_fn system iq in
  ∃ q', iq_inner iq' !! system = Some q' ∧
    q_jobs q' ≡ₚ q_jobs q ∧
    StronglySorted (cmp_le (Queues.job_cmp h sort_fn iq')) (q_jobs q') ∧
    (∀ z, filter (λ y, Queues.job_cmp h sort_fn iq' z y = Eq) (q_jobs q') =
          filter (λ y, Queues.job_cmp h sort_fn iq' z y = Eq) (q_jobs q)).
Proof.
  intros Hq iq'. unfold iq', Queues.sort_jobs. rewrite Hq.
  set (iq1 := foldl _ iq (q_jobs q)).
  pose proof (update_all_same (q_jobs q) iq) as Hsame. fold iq1 in Hsame.
  assert (iq_inner iq1 !! system = Some q) as Hq1 by (by rewrite (sb_inner _ _ Hsame)).
  pose proof (job_cmp_total sort_fn iq1) as Ht.
  exists (q <| q_jobs ::= sort_by (Queues.job_cmp h sort_fn iq1) |>).
  split_and!.
  - cbn. by rewrite lookup_alter_eq, Hq1.
  - apply sort_by_perm.
  - apply (sort_by_sorted (Queues.job_cmp h sort_fn iq1)).
  - intros z. apply (sort_by_stable (Queues.job_cmp h sort_fn iq1)).
Qed.

(** Sorting leaves everything else as it is. *)
Lemma sort_jobs_same sort_fn system iq :
  let iq' := Queues.sort_jobs h sort_fn system iq in
  same_but_shares (iq <| iq_inner := iq_inner iq' |>) iq' ∧
  (∀ s, s ≠ system → iq_inner iq' !! s = iq_inner iq !! s).
Proof.
  unfold Queues.sort_jobs. destruct (iq_inner iq !! system) as [q|] eqn:Hq.
  2:{ cbn. split; [|done]. destruct iq. apply same_but_shares_refl. }
  pose proof (update_all_same (q_jobs q) iq) as Hsame. destruct Hsame. split.
  - split; cbn; [done..|]. apply sb_infos0.
  - intros s Hs. cbn. rewrite lookup_alter_ne by done. by rewrite sb_inner0.
Qed.
End Sort.
