(* ===== verification/QueueInv.v ===== *)
(** * QueueInv: the invariant of the queues

    Every entry of [jobs] and [scheduled] is stored under the derivation path
    of its step, an entry is marked as scheduled exactly while [scheduled]
    holds it, a queue's active counter is the number of its scheduled entries,
    and the live entries of a queue have distinct derivation paths. *)

From Stdlib Require Import Ascii String.
From S2P Require Import Prelude Floats RustStr Nix Db Jobset Graph Queue QueueOrder.
Local Open Scope Z_scope.

(** The number of scheduled entries of a queue. *)
Definition active_count (system : System) (sched : gmap StorePath ScheduledItem) : nat :=
  length (filter (λ it, it_build_queue it = system) (map_to_list sched).*2).

(** The derivation paths of the live entries of a queue. *)
Definition live_drvs (h : Heap) (iq : InnerQueues) (q : BuildQueue) : list StorePath :=
  omap (λ a, Queues.upgrade iq a ≫= drv_of_info h) (q_jobs q).

Record queues_wf (h : Heap) (iq : InnerQueues) : Prop := {
  qw_fresh : ∀ a, is_Some (iq_infos iq !! a) → (a < iq_next iq)%positive;
  qw_jobs : ∀ d a, iq_jobs iq !! d = Some a →
    ∃ i, iq_infos iq !! a = Some i ∧ drv_of_info h i = Some d;
  qw_sched : ∀ d it, iq_scheduled iq !! d = Some it →
    iq_jobs iq !! d = Some (it_step_info it) ∧ is_Some (iq_inner iq !! it_build_queue it);
  qw_flag : ∀ a i, iq_infos iq !! a = Some i →
    (si_already_scheduled i = true ↔
     ∃ d it, iq_scheduled iq !! d = Some it ∧ it_step_info it = a);
  qw_active : ∀ s q, iq_inner iq !! s = Some q →
    q_active_runnable q = u64_wrap (Z.of_nat (active_count s (iq_scheduled iq)));
  qw_queue : ∀ s q a, iq_inner iq !! s = Some q → a ∈ q_jobs q → (a < iq_next iq)%positive;
  qw_unique : ∀ s q, iq_inner iq !! s = Some q → NoDup (live_drvs h iq q)
}.

(** ** Counting scheduled entries *)

Lemma active_count_insert s sched d it :
  sched !! d = None →
  active_count s (<[d := it]> sched) =
  ((if decide (it_build_queue it = s) then 1 else 0) + active_count s sched)%nat.
Proof.
  intros Hd. unfold active_count. rewrite (map_to_list_insert sched d it Hd).
  rewrite fmap_cons, filter_cons. by destruct (decide _).
Qed.

Lemma active_count_delete s sched d it :
  sched !! d = Some it →
  active_count s sched =
  ((if decide (it_build_queue it = s) then 1 else 0) + active_count s (delete d sched))%nat.
Proof.
  intros Hd. rewrite <-(insert_delete_id sched d it) at 1 by done.
  apply active_count_insert, lookup_delete_eq.
Qed.

Lemma u64_wrap_succ z : u64_wrap (u64_wrap z + 1) = u64_wrap (z + 1).
Proof. apply Zplus_mod_idemp_l. Qed.
Lemma u64_wrap_pred z : u64_wrap (u64_wrap z - 1) = u64_wrap (z - 1).
Proof. apply Zminus_mod_idemp_l. Qed.

(** ** Ownership *)

Lemma owned_spec iq a :
  Queues.owned iq a = true ↔
  (∃ d, iq_jobs iq !! d = Some a) ∨
  (∃ d it, iq_scheduled iq !! d = Some it ∧ it_step_info it = a) ∨ a ∈ iq_held iq.
Proof.
  unfold Queues.owned. rewrite !orb_true_iff, !bool_decide_eq_true.
  assert (∀ {V} (m : gmap StorePath V) v, v ∈ (map_to_list m).*2 ↔ ∃ d, m !! d = Some v) as Hv.
  { intros V m v. rewrite list_elem_of_fmap. split.
    - intros ([d v'] & -> & H%elem_of_map_to_list). eauto.
    - intros [d H]. exists (d, v). by rewrite elem_of_map_to_list. }
  rewrite Hv, list_elem_of_fmap. setoid_rewrite Hv. split.
  - intros [[?|(it & -> & d & ?)]|?]; eauto 10.
  - intros [?|[(d & it & ? & <-)|?]]; eauto 10.
Qed.

Section Wf.
Context `{HI : HashIter} `{FE : FloatEnv} (h : Heap).

(** An entry [jobs] owns is alive. *)
Lemma jobs_upgrade iq d a i :
  iq_jobs iq !! d = Some a → iq_infos iq !! a = Some i → Queues.upgrade iq a = Some i.
Proof.
  intros Hd Hi. unfold Queues.upgrade.
  assert (Queues.owned iq a = true) as -> by (apply owned_spec; eauto). done.
Qed.

(** Without running tasks, a live entry is the one [jobs] has for its path. *)
Lemma live_in_jobs iq a i :
  queues_wf h iq → iq_held iq = [] → Queues.upgrade iq a = Some i →
  ∃ d, iq_jobs iq !! d = Some a ∧ drv_of_info h i = Some d.
Proof.
  intros Hwf Hheld Hup. unfold Queues.upgrade in Hup.
  destruct (Queues.owned iq a) eqn:Ho; [|done]. apply owned_spec in Ho.
  assert (∃ d, iq_jobs iq !! d = Some a) as [d Hd].
  { destruct Ho as [?|[(d & it & Hit & <-)|Hh]]; [done| |].
    - exists d. by apply (qw_sched _ _ Hwf).
    - rewrite Hheld in Hh. by apply not_elem_of_nil in Hh. }
  exists d. split; [done|]. destruct (qw_jobs _ _ Hwf d a Hd) as (i' & Hi' & ?). congruence.
Qed.

(** *** Changes of the live set *)

Lemma omap_sub {A B} (f g : A → option B) l :
  (∀ a, a ∈ l → f a = g a ∨ f a = None) → NoDup (omap g l) → NoDup (omap f l).
Proof.
  intros Hfg. assert (∀ b, b ∈ omap f l → b ∈ omap g l) as Hin.
  { intros b. rewrite !list_elem_of_omap. intros (a & Ha & Hf). exists a.
    split; [done|]. destruct (Hfg a Ha); congruence. }
  induction l as [|a l IH]; cbn; [done|].
  assert (∀ b, b ∈ omap f l → b ∈ omap g l) as Hin'.
  { intros b. rewrite !list_elem_of_omap. intros (a' & Ha & Hf). exists a'.
    split; [done|]. destruct (Hfg a' ltac:(by right)); congruence. }
  destruct (Hfg a ltac:(by left)) as [->| ->].
  - destruct (g a) as [b|].
    + intros [Hb Hl]%NoDup_cons. constructor; [|apply IH; auto; intros; apply Hfg; by right].
      intros Hb'. by apply Hb, Hin'.
    + intros Hl. apply IH; auto. intros; apply Hfg; by right.
  - destruct (g a) as [b|]; [intros [_ Hl]%NoDup_cons|intros Hl];
      apply IH; auto; intros; apply Hfg; by right.
Qed.

Lemma live_drvs_upd_queue s f iq q : live_drvs h (Queues.upd_queue s f iq) q = live_drvs h iq q.
Proof. done. Qed.

(** The uniqueness of live paths when entries die and infos keep their step. *)
Lemma live_drvs_sub iq iq' q :
  (∀ a i, Queues.upgrade iq' a = Some i → ∃ i0, Queues.upgrade iq a = Some i0 ∧ si_step i = si_step i0) →
  NoDup (live_drvs h iq q) → NoDup (live_drvs h iq' q).
Proof.
  intros Hup. apply omap_sub. intros a _.
  destruct (Queues.upgrade iq' a) as [i|] eqn:E; [|by right]. left.
  destruct (Hup a i E) as (i0 & -> & Hs). cbn. unfold drv_of_info. by rewrite Hs.
Qed.

(** *** Operations *)

Lemma upd_queue_wf s f iq :
  (∀ q, iq_inner iq !! s = Some q → q_active_runnable (f q) = q_active_runnable q ∧
     (∀ a, a ∈ q_jobs (f q) → a ∈ q_jobs q ∨ (a < iq_next iq)%positive) ∧
     (NoDup (live_drvs h iq q) → NoDup (live_drvs h iq (f q)))) →
  queues_wf h iq → queues_wf h (Queues.upd_queue s f iq).
Proof.
  intros Hf [W1 W2 W3 W4 W5 W6 W7].
  assert (∀ s' q', iq_inner (Queues.upd_queue s f iq) !! s' = Some q' → ∃ q,
    iq_inner iq !! s' = Some q ∧ q_active_runnable q' = q_active_runnable q ∧
    (∀ a, a ∈ q_jobs q' → a ∈ q_jobs q ∨ (a < iq_next iq)%positive) ∧
    (NoDup (live_drvs h iq q) → NoDup (live_drvs h iq q'))) as Hback.
  { intros s' q'. cbn. destruct (decide (s' = s)) as [->|Hne].
    - rewrite lookup_alter_eq. destruct (iq_inner iq !! s) as [q|] eqn:E; [|done].
      intros [= <-]. exists q. split; [done|]. by apply Hf.
    - rewrite lookup_alter_ne by done. intros Hq'. exists q'. split_and!; auto. }
  split; [done|done| |done| | |].
  - intros d it Hit. destruct (W3 d it Hit) as [? [q Hq]]. split; [done|]. cbn.
    destruct (decide (it_build_queue it = s)) as [<-|Hne].
    + rewrite lookup_alter_eq, Hq. eauto.
    + rewrite lookup_alter_ne by done. eauto.
  - intros s' q' (q & Hq & -> & _)%Hback. by apply W5.
  - intros s' q' a (q & Hq & _ & Hin & _)%Hback Ha. destruct (Hin a Ha); [by eapply W6|done].
  - intros s' q' (q & Hq & _ & _ & Hnd)%Hback. rewrite live_drvs_upd_queue. by eapply Hnd, W7.
Qed.

Lemma scrube_jobs_wf s iq : queues_wf h iq → queues_wf h (Queues.scrube_jobs s iq).
Proof.
  apply upd_queue_wf. intros q Hq. cbn. split_and!; [done| |].
  - intros a [_ ?]%list_elem_of_filter. by left.
  - unfold live_drvs. cbn. intros Hnd. assert (omap (λ a, Queues.upgrade iq a ≫= drv_of_info h)
      (filter (λ a, is_Some (Queues.upgrade iq a)) (q_jobs q)) =
      omap (λ a, Queues.upgrade iq a ≫= drv_of_info h) (q_jobs q)) as ->; [|done].
    clear. induction (q_jobs q) as [|a l IH]; [done|]. rewrite filter_cons. cbn.
    destruct (decide _) as [Hs|Hs]; cbn; [by rewrite IH|].
    apply eq_None_not_Some in Hs. rewrite Hs. cbn. apply IH.
Qed.

Lemma remove_all_weak_pointer_wf iq : queues_wf h iq → queues_wf h (Queues.remove_all_weak_pointer iq).
Proof.
  unfold Queues.remove_all_weak_pointer. generalize (iter_keys (iq_inner iq)) as l.
  intros l. revert iq. induction l as [|s l IH]; intros iq Hwf; cbn; [done|].
  by apply IH, scrube_jobs_wf.
Qed.

Lemma ensure_queue_wf s iq :
  queues_wf h iq → queues_wf h (Queues.ensure_queue s iq).
Proof.
  intros Hwf. unfold Queues.ensure_queue. destruct (iq_inner iq !! s) as [q|] eqn:E; [done|].
  destruct Hwf as [W1 W2 W3 W4 W5 W6 W7]. split; [done|done| |done| | |].
  - intros d it Hit. destruct (W3 d it Hit) as [? [q Hq]]. split; [done|]. cbn.
    rewrite lookup_insert_ne; [eauto|]. intros ->. congruence.
  - cbn. intros s' q' [[<- <-]|[Hne Hq]]%lookup_insert_Some; [|by apply W5]. cbn.
    unfold active_count. assert (filter (λ it, it_build_queue it = s)
      (map_to_list (iq_scheduled iq)).*2 = []) as ->; [|done].
    apply elem_of_nil_inv. intros it [<- Hin]%list_elem_of_filter.
    apply list_elem_of_fmap in Hin as ([d it'] & -> & Hd%elem_of_map_to_list).
    destruct (W3 d it' Hd) as [_ [q Hq]]. cbn in E. congruence.
  - cbn. intros s' q' a [[<- <-]|[Hne Hq]]%lookup_insert_Some; [by intros ?%not_elem_of_nil|by eapply W6].
  - intros s' q' H. cbn in H. apply lookup_insert_Some in H as [[<- <-]|[Hne Hq]].
    + apply NoDup_nil_2.
    + change (NoDup (live_drvs h iq q')). by eapply W7.
Qed.

(** *** Sorting *)

Lemma same_but_shares_upgrade iq iq' a :
  same_but_shares iq iq' →
  match Queues.upgrade iq a, Queues.upgrade iq' a with
  | Some i, Some i' => ∃ f, i' = i <| si_lowest_share_used := f |>
  | None, None => True
  | _, _ => False
  end.
Proof.
  intros [H1 H2 H3 H4 H5 H6]. unfold Queues.upgrade. rewrite (owned_same iq iq') by done.
  destruct (Queues.owned iq a); [apply H6|done].
Qed.

Lemma same_but_shares_wf iq iq' : same_but_shares iq iq' → queues_wf h iq → queues_wf h iq'.
Proof.
  intros Hs [W1 W2 W3 W4 W5 W6 W7]. destruct Hs as [H1 H2 H3 H4 H5 H6].
  assert (∀ a i', iq_infos iq' !! a = Some i' → ∃ i f, iq_infos iq !! a = Some i ∧
    i' = i <| si_lowest_share_used := f |>) as Hback.
  { intros a i' Hi'. specialize (H6 a). rewrite Hi' in H6.
    destruct (iq_infos iq !! a) as [i|]; [|done]. destruct H6 as [f ->]. eauto. }
  split; rewrite ?H1, ?H2, ?H3, ?H4; [| |done| |done|done|].
  - intros a [i' (i & f & Hi & _)%Hback]. by apply W1.
  - intros d a (i & Hi & Hd)%W2. specialize (H6 a). rewrite Hi in H6.
    destruct (iq_infos iq' !! a) as [i'|] eqn:E; [|done]. destruct H6 as [f ->].
    eexists. split; [reflexivity|done].
  - intros a i' (i & f & Hi & ->)%Hback. exact (W4 a i Hi).
  - intros s q Hq. eapply live_drvs_sub; [|by eapply W7]. intros a i' Hi'.
    pose proof (same_but_shares_upgrade iq iq' a) as Hu. rewrite Hi' in Hu.
    destruct (Queues.upgrade iq a) as [i|]; [|by destruct Hu; split].
    destruct Hu as [f ->]; [by split|]. eauto.
Qed.

Lemma sort_jobs_wf sort_fn s iq : queues_wf h iq → queues_wf h (Queues.sort_jobs h sort_fn s iq).
Proof.
  intros Hwf. unfold Queues.sort_jobs. destruct (iq_inner iq !! s) as [q|]; [|done].
  apply upd_queue_wf; [|eapply same_but_shares_wf; [apply update_all_same|done]].
  intros q' Hq'. cbn. set (iq1 := foldl _ iq _). split_and!; [done| |].
  - intros a. rewrite sort_by_perm. by left.
  - unfold live_drvs. cbn. by rewrite sort_by_perm.
Qed.

Lemma sort_queues_wf sort_fn iq : queues_wf h iq → queues_wf h (Queues.sort_queues h sort_fn iq).
Proof.
  unfold Queues.sort_queues. generalize (iter_keys (iq_inner iq)) as l.
  intros l. revert iq. induction l as [|s l IH]; intros iq Hwf; cbn; [done|].
  by apply IH, sort_jobs_wf.
Qed.

(** *** Scheduling and unscheduling *)

Lemma upgrade_step iq iq' :
  (∀ a, Queues.owned iq' a = true → Queues.owned iq a = true) →
  (∀ a i, iq_infos iq' !! a = Some i → ∃ i0, iq_infos iq !! a = Some i0 ∧ si_step i = si_step i0) →
  ∀ a i, Queues.upgrade iq' a = Some i →
    ∃ i0, Queues.upgrade iq a = Some i0 ∧ si_step i = si_step i0.
Proof.
  intros Ho Hi a i. unfold Queues.upgrade. destruct (Queues.owned iq' a) eqn:E; [|done].
  rewrite (Ho a E). apply Hi.
Qed.

Lemma upd_info_back a f iq x i' :
  alter f a (iq_infos iq) !! x = Some i' →
  ∃ i, iq_infos iq !! x = Some i ∧ i' = if decide (x = a) then f i else i.
Proof.
  destruct (decide (x = a)) as [->|Hne].
  - rewrite lookup_alter_eq. destruct (iq_infos iq !! a); [|done]. intros [= <-]. eauto.
  - rewrite lookup_alter_ne by done. eauto.
Qed.

Lemma add_job_to_scheduled_wf a i d system m iq :
  queues_wf h iq → iq_infos iq !! a = Some i → drv_of_info h i = Some d →
  iq_jobs iq !! d = Some a → si_already_scheduled i = false → is_Some (iq_inner iq !! system) →
  queues_wf h (Queues.add_job_to_scheduled h a system m iq).
Proof.
  intros [W1 W2 W3 W4 W5 W6 W7] Hi Hd Hjobs Hflag [q0 Hq0].
  unfold Queues.add_job_to_scheduled. rewrite Hi. cbn [mbind option_bind]. rewrite Hd.
  assert (iq_scheduled iq !! d = None) as Hnone.
  { destruct (iq_scheduled iq !! d) as [it|] eqn:E; [|done]. destruct (W3 d it E) as [Hj _].
    rewrite Hjobs in Hj. injection Hj as Hj. assert (si_already_scheduled i = true); [|congruence].
    apply (W4 a i Hi). eauto. }
  assert (∀ it, it ≠ mkScheduledItem a system m → True) by done.
  split; cbn.
  - intros x [i' (i0 & Hi0 & _)%upd_info_back]. apply W1. eauto.
  - intros d' x (i0 & Hi0 & Hd0)%W2. destruct (decide (x = a)) as [->|Hne].
    + rewrite lookup_alter_eq, Hi0. eexists. split; [done|]. done.
    + rewrite lookup_alter_ne by done. eauto.
  - intros d' it [[<- <-]|[Hne Hit]]%lookup_insert_Some.
    + cbn. split; [done|]. rewrite lookup_alter_eq, Hq0. eauto.
    + destruct (W3 d' it Hit) as [? [q Hq]]. split; [done|].
      destruct (decide (it_build_queue it = system)) as [<-|Hns];
        [rewrite lookup_alter_eq|rewrite lookup_alter_ne by done]; rewrite Hq; eauto.
  - intros x i' (i0 & Hi0 & ->)%upd_info_back. destruct (decide (x = a)) as [->|Hne]; cbn.
    + split; [|done]. intros _. exists d, (mkScheduledItem a system m). by rewrite lookup_insert_eq.
    + rewrite (W4 x i0 Hi0). split.
      * intros (d' & it & Hit & <-). exists d', it. split; [|done].
        rewrite lookup_insert_ne; [done|]. intros ->. congruence.
      * intros (d' & it & [[<- <-]|[_ Hit]]%lookup_insert_Some & <-); [done|eauto].
  - intros s q. rewrite active_count_insert by done. cbn.
    destruct (decide (system = s)) as [->|Hns].
    + rewrite lookup_alter_eq, Hq0. intros [= <-]. cbn. rewrite (W5 s q0 Hq0), u64_wrap_succ.
      f_equal. lia.
    + rewrite lookup_alter_ne by done. intros Hq. by apply W5.
  - intros s q x. destruct (decide (s = system)) as [->|Hns].
    + rewrite lookup_alter_eq, Hq0. intros [= <-]. exact (W6 _ q0 x Hq0).
    + rewrite lookup_alter_ne by done. by eapply W6.
  - intros s q. assert (∀ q1, NoDup (live_drvs h iq q1) → NoDup (live_drvs h (Queues.upd_queue system
      BuildQueue.incr_active (Queues.upd_info a (λ i, i <| si_already_scheduled := true |>)
      (iq <| iq_scheduled ::= <[d := mkScheduledItem a system m]> |>))) q1)) as Hkeep.
    { intros q1. apply live_drvs_sub, upgrade_step.
      - intros x. rewrite !owned_spec. cbn. intros [?|[(d' & it & Hit & <-)|?]]; eauto.
        apply lookup_insert_Some in Hit as [[<- <-]|[_ Hit]]; cbn; eauto 10.
      - cbn. intros x i' (i0 & Hi0 & ->)%upd_info_back. exists i0. by destruct (decide _). }
    destruct (decide (s = system)) as [->|Hns].
    + rewrite lookup_alter_eq, Hq0. intros [= <-]. apply Hkeep. by eapply (W7 system q0).
    + rewrite lookup_alter_ne by done. intros Hq. by eapply Hkeep, W7.
Qed.

Lemma remove_job_from_scheduled_wf d iq :
  queues_wf h iq → queues_wf h (Queues.remove_job_from_scheduled d iq).2.
Proof.
  intros [W1 W2 W3 W4 W5 W6 W7]. unfold Queues.remove_job_from_scheduled.
  destruct (iq_scheduled iq !! d) as [it|] eqn:Hit; [|by split]. cbn [snd].
  destruct (W3 d it Hit) as [Hjd [q0 Hq0]].
  assert (∀ d' it', iq_scheduled iq !! d' = Some it' → it_step_info it' = it_step_info it → d' = d) as Huniq.
  { intros d' it' Hit' Hsame. destruct (W3 d' it' Hit') as [Hjd' _]. rewrite Hsame in Hjd'.
    destruct (W2 _ _ Hjd) as (i & Hi & Hd), (W2 _ _ Hjd') as (i' & Hi' & Hd'). congruence. }
  split; cbn.
  - intros x [i' (i0 & Hi0 & _)%upd_info_back]. apply W1. eauto.
  - intros d' x (i0 & Hi0 & Hd0)%W2. destruct (decide (x = it_step_info it)) as [->|Hne].
    + rewrite lookup_alter_eq, Hi0. eexists. split; [done|]. done.
    + rewrite lookup_alter_ne by done. eauto.
  - intros d' it' [Hne Hit']%lookup_delete_Some. destruct (W3 d' it' Hit') as [? [q Hq]].
    split; [done|]. destruct (decide (it_build_queue it' = it_build_queue it)) as [E|Hns].
    + rewrite E, lookup_alter_eq, <-E, Hq. eauto.
    + rewrite lookup_alter_ne by done. eauto.
  - intros x i' (i0 & Hi0 & ->)%upd_info_back.
    destruct (decide (x = it_step_info it)) as [->|Hne]; cbn.
    + split; [done|]. intros (d' & it' & [Hne Hit']%lookup_delete_Some & Hsame).
      by destruct Hne; symmetry; eapply Huniq.
    + rewrite (W4 x i0 Hi0). split.
      * intros (d' & it' & Hit' & <-). exists d', it'. split; [|done].
        apply lookup_delete_Some. split; [|done]. intros ->. congruence.
      * intros (d' & it' & [_ Hit']%lookup_delete_Some & <-). eauto.
  - intros s q. pose proof (active_count_delete s (iq_scheduled iq) d it Hit) as Hc.
    destruct (decide (it_build_queue it = s)) as [<-|Hns].
    + rewrite lookup_alter_eq, Hq0. intros [= <-]. cbn. rewrite (W5 _ q0 Hq0), Hc, u64_wrap_pred.
      f_equal. lia.
    + rewrite lookup_alter_ne by done. intros Hq. rewrite (W5 _ q Hq), Hc. done.
  - intros s q x. destruct (decide (s = it_build_queue it)) as [->|Hns].
    + rewrite lookup_alter_eq, Hq0. intros [= <-]. exact (W6 _ q0 x Hq0).
    + rewrite lookup_alter_ne by done. by eapply W6.
  - intros s q.
    assert (∀ q1, NoDup (live_drvs h iq q1) → NoDup (live_drvs h (Queues.upd_queue (it_build_queue it)
      BuildQueue.decr_active (Queues.upd_info (it_step_info it) (λ i, i <| si_already_scheduled := false |>)
      (iq <| iq_scheduled ::= delete d |>))) q1)) as Hkeep.
    { intros q1. apply live_drvs_sub, upgrade_step.
      - intros x. rewrite !owned_spec. cbn.
        intros [?|[(d' & it' & [_ Hit']%lookup_delete_Some & <-)|?]]; eauto 10.
      - cbn. intros x i' (i0 & Hi0 & ->)%upd_info_back. exists i0. by destruct (decide _). }
    destruct (decide (s = it_build_queue it)) as [->|Hns].
    + rewrite lookup_alter_eq, Hq0. intros [= <-]. apply Hkeep. by eapply (W7 _ q0).
    + rewrite lookup_alter_ne by done. intros Hq. by eapply Hkeep, W7.
Qed.

Lemma remove_job_by_path_wf d iq :
  iq_scheduled iq !! d = None → queues_wf h iq → queues_wf h (Queues.remove_job_by_path d iq).
Proof.
  intros Hd [W1 W2 W3 W4 W5 W6 W7]. split; cbn; [done| | |done|done|done|].
  - intros d' a [_ ?]%lookup_delete_Some. by apply W2.
  - intros d' it Hit. destruct (W3 d' it Hit) as [? ?]. split; [|done].
    apply lookup_delete_Some. split; [|done]. intros ->. congruence.
  - intros s q Hq. eapply live_drvs_sub; [|by eapply W7]. apply upgrade_step; [|eauto].
    intros x. rewrite !owned_spec. cbn.
    intros [(d' & [_ ?]%lookup_delete_Some)|[?|?]]; eauto 10.
Qed.

Lemma remove_job_wf a s iq :
  (∀ i d, iq_infos iq !! a = Some i → drv_of_info h i = Some d → iq_scheduled iq !! d = None) →
  queues_wf h iq → queues_wf h (Queues.remove_job h a s iq).
Proof.
  intros Hd Hwf. unfold Queues.remove_job.
  destruct (iq_infos iq !! a) as [i|] eqn:Hi; [|done].
  cbn [mbind option_bind]. destruct (drv_of_info h i) as [d|] eqn:Hdrv; [|done].
  apply scrube_jobs_wf, remove_job_by_path_wf; [by eapply Hd|done].
Qed.

(** Taking and dropping a reference in a running task. *)
Lemma held_wf l iq :
  (∀ a, a ∈ l → Queues.owned iq a = true) →
  queues_wf h iq → queues_wf h (iq <| iq_held := l |>).
Proof.
  intros Hl [W1 W2 W3 W4 W5 W6 W7]. split; cbn; [done..|].
  intros s q Hq. eapply live_drvs_sub; [|by eapply W7]. apply upgrade_step; [|eauto].
  intros x. rewrite owned_spec. cbn. intros [?|[?|?]]; [apply owned_spec; eauto..|by apply Hl].
Qed.

(** *** New jobs *)

Lemma live_drvs_sub_in iq iq' q :
  (∀ a i, a ∈ q_jobs q → Queues.upgrade iq' a = Some i →
     ∃ i0, Queues.upgrade iq a = Some i0 ∧ si_step i = si_step i0) →
  NoDup (live_drvs h iq q) → NoDup (live_drvs h iq' q).
Proof.
  intros Hup. apply omap_sub. intros a Ha.
  destruct (Queues.upgrade iq' a) as [i|] eqn:E; [|by right]. left.
  destruct (Hup a i Ha E) as (i0 & -> & Hs). cbn. unfold drv_of_info. by rewrite Hs.
Qed.

(** The entry an owned job gets. *)
Definition own (d : StorePath) (j : StepInfo) (iq : InnerQueues) : InnerQueues :=
  iq <| iq_infos ::= <[iq_next iq := j]> |> <| iq_jobs ::= <[d := iq_next iq]> |>
     <| iq_next ::= Pos.succ |>.

Lemma own_wf d j iq :
  queues_wf h iq → iq_held iq = [] → iq_jobs iq !! d = None →
  drv_of_info h j = Some d → si_already_scheduled j = false → queues_wf h (own d j iq).
Proof.
  intros Hwf Hheld Hd Hdrv Hflag. pose proof Hwf as [W1 W2 W3 W4 W5 W6 W7].
  assert (iq_infos iq !! iq_next iq = None) as Hfresh.
  { destruct (iq_infos iq !! iq_next iq) eqn:E; [|done].
    specialize (W1 (iq_next iq) ltac:(eauto)). lia. }
  assert (∀ a, is_Some (iq_infos iq !! a) → a ≠ iq_next iq) as Hne 
    by (intros a [i Hi] ->; congruence).
  assert (∀ s q, iq_inner iq !! s = Some q → NoDup (live_drvs h (own d j iq) q)) as Hunique.
  { intros s q Hq. eapply live_drvs_sub_in; [|by eapply W7].
    intros a i Ha. specialize (W6 s q a Hq Ha). unfold Queues.upgrade.
    destruct (Queues.owned (own d j iq) a) eqn:Ho; [|done]. cbn.
    rewrite lookup_insert_ne by lia. intros Hi. exists i.
    assert (Queues.owned iq a = true) as ->; [|done]. apply owned_spec in Ho. apply owned_spec.
    cbn in Ho. destruct Ho as [[d' [[<- <-]|[_ ?]]%lookup_insert_Some]|[?|?]]; [lia|eauto|by right; left|].
    by right; right. }
  split; cbn.
  - intros a [i [[<- <-]|[_ Hi]]%lookup_insert_Some]; [lia|]. specialize (W1 a ltac:(eauto)). lia.
  - intros d' a [[<- <-]|[_ Ha]]%lookup_insert_Some.
    + exists j. by rewrite lookup_insert_eq.
    + destruct (W2 d' a Ha) as (i & Hi & ?). exists i. split; [|done].
      rewrite lookup_insert_ne; [done|]. symmetry. apply Hne. eauto.
  - intros d' it Hit. destruct (W3 d' it Hit) as [Hj ?]. split; [|done].
    rewrite lookup_insert_ne; [done|]. intros ->. congruence.
  - intros a i [[<- <-]|[_ Hi]]%lookup_insert_Some; [|by apply W4].
    rewrite Hflag. split; [done|]. intros (d' & it & Hit & Ha). exfalso.
    destruct (W3 d' it Hit) as [Hj _]. destruct (W2 _ _ Hj) as (i & Hi & _).
    apply (Hne (it_step_info it)); eauto.
  - done.
  - intros s q a Hq Ha. specialize (W6 s q a Hq Ha). lia.
  - exact Hunique.
Qed.

Lemma own_job_eq submit iq j :
  Queues.own_job h (submit, iq) j =
  match hp_steps h !! si_step j with
  | Some s => if bool_decide (iq_jobs iq !! st_drv_path s = None) && negb (st_finished s)
              then (submit ++ [iq_next iq], own (st_drv_path s) j iq) else (submit, iq)
  | None => (submit, iq)
  end.
Proof.
  unfold Queues.own_job. destruct (hp_steps h !! si_step j) as [s|]; [|done].
  destruct (iq_jobs iq !! st_drv_path s) eqn:E; [by rewrite bool_decide_eq_false_2|].
  rewrite bool_decide_eq_true_2 by done. by destruct (st_finished s).
Qed.

(** What the loop over the new jobs has established. *)
Record owned_jobs (iq0 : InnerQueues) (done : list StepInfo) (submit : list addr)
    (iq : InnerQueues) : Prop := {
  oj_wf : queues_wf h iq;
  oj_held : iq_held iq = [];
  oj_inner : iq_inner iq = iq_inner iq0;
  oj_sched : iq_scheduled iq = iq_scheduled iq0;
  oj_jobs : iq_jobs iq0 ⊆ iq_jobs iq;
  oj_submit : ∀ a, a ∈ submit ↔ ∃ d, iq_jobs iq !! d = Some a ∧ iq_jobs iq0 !! d = None;
  oj_done : ∀ j s, j ∈ done → hp_steps h !! si_step j = Some s → st_finished s = false →
    is_Some (iq_jobs iq !! st_drv_path s);
  oj_unfinished : ∀ d a, iq_jobs iq !! d = Some a → iq_jobs iq0 !! d = None →
    ∃ i s, iq_infos iq !! a = Some i ∧ hp_steps h !! si_step i = Some s ∧ st_finished s = false
}.

Lemma own_job_step iq0 done submit iq j :
  si_already_scheduled j = false → owned_jobs iq0 done submit iq →
  owned_jobs iq0 (done ++ [j]) (Queues.own_job h (submit, iq) j).1 (Queues.own_job h (submit, iq) j).2.
Proof.
  intros Hflag [O1 O2 O3 O4 O5 O6 O7 O8]. rewrite own_job_eq.
  assert (∀ j' s, j' ∈ done ++ [j] → hp_steps h !! si_step j' = Some s → st_finished s = false →
    is_Some (iq_jobs iq !! st_drv_path s) ∨ (j' = j)) as Hdone.
  { intros j' s [Hin| ->%list_elem_of_singleton]%elem_of_app Hs Hf; [left; by eapply O7|by right]. }
  destruct (hp_steps h !! si_step j) as [s|] eqn:Hs; cbn.
  2:{ split; try done. intros j' s Hin Hs' Hf.
      destruct (Hdone j' s Hin Hs' Hf) as [?| ->]; [done|congruence]. }
  destruct (bool_decide (iq_jobs iq !! st_drv_path s = None)) eqn:Hn, (st_finished s) eqn:Hfin; cbn;
    try (split; try done; intros j' s' Hin Hs' Hf';
      destruct (Hdone j' s' Hin Hs' Hf') as [?| ->]; [done|];
      bool_prop; rewrite <-not_eq_None_Some; congruence).
  bool_prop. assert (drv_of_info h j = Some (st_drv_path s)) as Hdrv
    by (unfold drv_of_info; by rewrite Hs).
  assert (iq_jobs iq0 !! st_drv_path s = None) as Hn0.
  { destruct (iq_jobs iq0 !! st_drv_path s) eqn:E; [|done].
    eapply lookup_weaken in E; [|exact O5]. congruence. }
  split; cbn; [by apply own_wf|done|done|done| | | |].
  - etransitivity; [exact O5|]. by apply insert_subseteq.
  - intros a. rewrite elem_of_app, O6, list_elem_of_singleton. split.
    + intros [(d & Hd & Hd0)| ->]; [exists d|exists (st_drv_path s)].
      * rewrite lookup_insert_ne; [done|]. intros <-. congruence.
      * by rewrite lookup_insert_eq.
    + intros (d & [[<- <-]|[_ Hd]]%lookup_insert_Some & Hd0); eauto.
  - intros j' s' Hin Hs' Hf'. destruct (Hdone j' s' Hin Hs' Hf') as [?| ->].
    + destruct (decide (st_drv_path s' = st_drv_path s)) as [->|];
        [rewrite lookup_insert_eq; eauto|by rewrite lookup_insert_ne].
    + assert (s' = s) as -> by congruence. rewrite lookup_insert_eq. eauto.
  - intros d a [[<- <-]|[_ Hd]]%lookup_insert_Some Hd0.
    + exists j, s. by rewrite lookup_insert_eq.
    + destruct (O8 d a Hd Hd0) as (i & s' & Hi & ?). exists i, s'. split; [|done].
      rewrite lookup_insert_ne; [done|]. pose proof (qw_fresh _ _ O1 a ltac:(eauto)). lia.
Qed.

Lemma own_jobs_fold iq0 done submit iq jobs :
  Forall (λ j, si_already_scheduled j = false) jobs → owned_jobs iq0 done submit iq →
  owned_jobs iq0 (done ++ jobs) (foldl (Queues.own_job h) (submit, iq) jobs).1
    (foldl (Queues.own_job h) (submit, iq) jobs).2.
Proof.
  intros Hj. revert done submit iq. induction Hj as [|j jobs Hf _ IH]; intros done submit iq Ho.
  { by rewrite app_nil_r. }
  cbn [foldl]. pose proof (own_job_step iq0 done submit iq j Hf Ho) as Hstep.
  destruct (Queues.own_job h (submit, iq) j) as [submit' iq']. cbn [fst snd] in Hstep.
  specialize (IH (done ++ [j]) submit' iq' Hstep). by rewrite <-app_assoc in IH.
Qed.

Lemma push_jobs_spec iq now jobs cur wait :
  let '(cur', _) := Queues.push_jobs h iq now jobs cur wait in
  (∀ a, a ∈ cur → a ∈ cur') ∧
  (∀ a, a ∈ cur' → a ∈ cur ∨ (a ∈ jobs ∧ is_Some (Queues.upgrade iq a))) ∧
  (∀ a d, a ∈ jobs → Queues.upgrade iq a ≫= drv_of_info h = Some d →
     ∃ a', a' ∈ cur' ∧ Queues.upgrade iq a' ≫= drv_of_info h = Some d) ∧
  (NoDup (omap (λ a, Queues.upgrade iq a ≫= drv_of_info h) cur) →
   NoDup (omap (λ a, Queues.upgrade iq a ≫= drv_of_info h) cur')).
Proof.
  revert cur wait. induction jobs as [|j jobs IH]; intros cur wait; cbn.
  { split_and!; [done|by left|by intros ? ? ?%not_elem_of_nil|done]. }
  assert (∀ cur1 wait1, (∀ a, a ∈ cur → a ∈ cur1) →
    (∀ a, a ∈ cur1 → a ∈ cur ∨ (a ∈ j :: jobs ∧ is_Some (Queues.upgrade iq a))) →
    (∀ d, Queues.upgrade iq j ≫= drv_of_info h = Some d →
       ∃ a', a' ∈ cur1 ∧ Queues.upgrade iq a' ≫= drv_of_info h = Some d) →
    (NoDup (omap (λ a, Queues.upgrade iq a ≫= drv_of_info h) cur) →
     NoDup (omap (λ a, Queues.upgrade iq a ≫= drv_of_info h) cur1)) →
    let '(cur', _) := Queues.push_jobs h iq now jobs cur1 wait1 in
    (∀ a, a ∈ cur → a ∈ cur') ∧
    (∀ a, a ∈ cur' → a ∈ cur ∨ (a ∈ j :: jobs ∧ is_Some (Queues.upgrade iq a))) ∧
    (∀ a d, a ∈ j :: jobs → Queues.upgrade iq a ≫= drv_of_info h = Some d →
       ∃ a', a' ∈ cur' ∧ Queues.upgrade iq a' ≫= drv_of_info h = Some d) ∧
    (NoDup (omap (λ a, Queues.upgrade iq a ≫= drv_of_info h) cur) →
     NoDup (omap (λ a, Queues.upgrade iq a ≫= drv_of_info h) cur'))) as Hrec.
  { intros cur1 wait1 H1 H2 H3 H4. specialize (IH cur1 wait1).
    destruct (Queues.push_jobs h iq now jobs cur1 wait1) as [cur' w].
    destruct IH as (I1 & I2 & I3 & I4). split_and!; [eauto| | |eauto].
    - intros a [Ha|[Ha Hu]]%I2; [by apply H2|]. right. split; [by right|done].
    - intros a d [->|Ha]%elem_of_cons Hd; [|by eapply I3].
      destruct (H3 d Hd) as (a' & Ha' & ?). eauto. }
  destruct (Queues.upgrade iq j) as [i|] eqn:Hu.
  2:{ apply Hrec; [done|by left|done|done]. }
  destruct (existsb (λ v, Queues.same_drv h iq v j) cur) eqn:He.
  - apply Hrec; [done|by left| |done]. intros d Hd. apply existsb_exists in He as (v & Hv & Hsame).
    rewrite <-list_elem_of_In in Hv. exists v. split; [done|]. unfold Queues.same_drv in Hsame.
    rewrite Hu in Hsame. cbn in Hd, Hsame. rewrite Hd in Hsame.
    destruct (Queues.upgrade iq v ≫= drv_of_info h); [|done]. by bool_prop; subst.
  - apply Hrec.
    + intros a Ha. apply elem_of_app. by left.
    + intros a [Ha| ->%list_elem_of_singleton]%elem_of_app; [by left|].
      right. split; [by left|]. by rewrite Hu.
    + intros d Hd. exists j. split; [apply elem_of_app; right; by left|]. by rewrite Hu.
    + intros Hnd. rewrite omap_app. cbn. rewrite Hu. cbn.
      destruct (drv_of_info h i) as [d|] eqn:Hd; [|by rewrite app_nil_r].
      apply NoDup_app. split_and!; [done| |apply NoDup_singleton].
      intros d' (v & Hv & Hvd)%list_elem_of_omap ->%list_elem_of_singleton.
      assert (existsb (λ v, Queues.same_drv h iq v j) cur = true); [|congruence].
      apply existsb_exists. exists v. rewrite <-list_elem_of_In. split; [done|].
      unfold Queues.same_drv. rewrite Hvd, Hu. cbn. rewrite Hd. by apply bool_decide_eq_true.
Qed.

Lemma owned_jobs_start iq :
  queues_wf h iq → iq_held iq = [] → owned_jobs iq [] [] iq.
Proof.
  intros Hwf Hheld. split; try done.
  - intros a. split; [by intros ?%not_elem_of_nil|]. intros (d & ? & ?). congruence.
  - by intros j s ?%not_elem_of_nil.
  - intros d a. congruence.
Qed.

Lemma ensure_queue_same s iq :
  let iq' := Queues.ensure_queue s iq in
  iq_jobs iq' = iq_jobs iq ∧ iq_scheduled iq' = iq_scheduled iq ∧ iq_infos iq' = iq_infos iq ∧
  iq_next iq' = iq_next iq ∧ iq_held iq' = iq_held iq ∧ is_Some (iq_inner iq' !! s).
Proof.
  unfold Queues.ensure_queue. destruct (iq_inner iq !! s) eqn:E; cbn; [by rewrite E|].
  rewrite lookup_insert_eq. by split_and!.
Qed.

Lemma upgrade_ensure s iq a : Queues.upgrade (Queues.ensure_queue s iq) a = Queues.upgrade iq a.
Proof.
  destruct (ensure_queue_same s iq) as (H1 & H2 & H3 & _ & H5 & _).
  unfold Queues.upgrade. by rewrite (owned_same iq) by done; rewrite H3.
Qed.

(** The queue after [BuildQueue::insert_new_jobs]. *)
Lemma queue_insert_spec system submit now sort_fn iq q :
  queues_wf h iq → iq_inner iq !! system = Some q →
  let iq' := Queues.queue_insert_new_jobs h system submit now sort_fn iq in
  queues_wf h iq' ∧ iq_jobs iq' = iq_jobs iq ∧ iq_scheduled iq' = iq_scheduled iq ∧
  ∃ q', iq_inner iq' !! system = Some q' ∧
    StronglySorted (cmp_le (Queues.job_cmp h sort_fn iq')) (q_jobs q') ∧
    (∀ a, a ∈ q_jobs q' → is_Some (Queues.upgrade iq a) ∧ (a ∈ q_jobs q ∨ a ∈ submit)) ∧
    (∀ a d, a ∈ q_jobs q ∨ a ∈ submit → Queues.upgrade iq a ≫= drv_of_info h = Some d →
       ∃ a', a' ∈ q_jobs q' ∧ Queues.upgrade iq a' ≫= drv_of_info h = Some d).
Proof.
  intros Hwf Hq iq'. unfold iq', Queues.queue_insert_new_jobs. rewrite Hq.
  pose proof (push_jobs_spec iq now submit (q_jobs q) 0) as Hpush.
  destruct (Queues.push_jobs h iq now submit (q_jobs q) 0) as [cur wait].
  destruct Hpush as (P1 & P2 & P3 & P4).
  set (iq1 := Queues.upd_queue system _ iq).
  assert (queues_wf h iq1) as Hwf1.
  { apply upd_queue_wf; [|done]. intros q0 Hq0. assert (q0 = q) as -> by congruence. cbn.
    split_and!; [done| |exact P4]. intros a [?|[_ [i Hi]]]%P2; [by left|right].
    unfold Queues.upgrade in Hi. destruct (Queues.owned iq a); [|done].
    apply (qw_fresh _ _ Hwf). eauto. }
  pose proof (scrube_jobs_wf system iq1 Hwf1) as Hwf2.
  assert (iq_inner (Queues.scrube_jobs system iq1) !! system =
    Some (q <| q_jobs := filter (λ a, is_Some (Queues.upgrade iq a)) cur |>
            <| q_wait_time_ms ::= λ w, u64_wrap (w + wait) |>
            <| q_total_runnable := Z.of_nat (length (filter (λ a, is_Some (Queues.upgrade iq a)) cur)) |>))
    as Hq2.
  { cbn. rewrite lookup_alter_eq, lookup_alter_eq, Hq. done. }
  destruct (sort_jobs_spec h sort_fn system _ _ Hq2) as (q' & Hq' & Hperm & Hsorted & _).
  destruct (sort_jobs_same h sort_fn system (Queues.scrube_jobs system iq1)) as [Hsame _].
  split_and!; [by apply sort_jobs_wf|apply (sb_jobs _ _ Hsame)|apply (sb_scheduled _ _ Hsame)|].
  exists q'. split_and!; [done|done| |].
  - intros a Ha. rewrite Hperm in Ha. cbn in Ha. apply list_elem_of_filter in Ha as [Hu Ha].
    split; [done|]. apply P2 in Ha as [?|[? _]]; auto.
  - assert (∀ a d, a ∈ cur → Queues.upgrade iq a ≫= drv_of_info h = Some d → a ∈ q_jobs q') as Hin.
    { intros a d Ha Hd. rewrite Hperm. cbn. apply list_elem_of_filter. split; [|done].
      destruct (Queues.upgrade iq a); [eauto|done]. }
    intros a d [Ha|Ha] Hd; [exists a; split; [by eapply Hin; eauto|done]|].
    destruct (P3 a d Ha Hd) as (a' & Ha' & Hd'). eauto.
Qed.

(** The state after [InnerQueues::insert_new_jobs]. *)
Record inserted (system : System) (jobs : list StepInfo) (sort_fn : StepSortFn)
    (iq iq' : InnerQueues) : Prop := {
  ins_wf : queues_wf h iq';
  ins_jobs : iq_jobs iq ⊆ iq_jobs iq';
  ins_taken : ∀ j s, j ∈ jobs → hp_steps h !! si_step j = Some s → st_finished s = false →
    is_Some (iq_jobs iq' !! st_drv_path s);
  ins_unfinished : ∀ d, is_Some (iq_jobs iq' !! d) → iq_jobs iq !! d = None →
    ∃ x s, hp_steps h !! x = Some s ∧ st_drv_path s = d ∧ st_finished s = false;
  ins_queue : ∃ q', iq_inner iq' !! system = Some q' ∧
    StronglySorted (cmp_le (Queues.job_cmp h sort_fn iq')) (q_jobs q') ∧
    ∀ d, is_Some (iq_jobs iq' !! d) → iq_jobs iq !! d = None → d ∈ live_drvs h iq' q'
}.

Lemma insert_new_jobs_inserted system jobs now sort_fn iq :
  queues_wf h iq → iq_held iq = [] → Forall (λ j, si_already_scheduled j = false) jobs →
  inserted system jobs sort_fn iq (Queues.insert_new_jobs h system jobs now sort_fn iq).
Proof.
  intros Hwf Hheld Hflags. unfold Queues.insert_new_jobs.
  pose proof (own_jobs_fold iq [] [] iq jobs Hflags (owned_jobs_start iq Hwf Hheld)) as Ho.
  destruct (foldl (Queues.own_job h) ([], iq) jobs) as [submit iq1]. cbn [fst snd app] in Ho.
  destruct Ho as [O1 O2 O3 O4 O5 O6 O7 O8].
  pose proof (ensure_queue_wf system iq1 O1) as Hwf2.
  destruct (ensure_queue_same system iq1) as (E1 & E2 & E3 & E4 & E5 & [q Hq]).
  set (iq2 := Queues.ensure_queue system iq1) in *.
  destruct (queue_insert_spec system submit now sort_fn iq2 q Hwf2 Hq)
    as (Hwf' & Hj' & Hs' & q' & Hq' & Hsorted & Hlive & Hall).
  set (iq' := Queues.queue_insert_new_jobs h system submit now sort_fn iq2) in *.
  split; rewrite ?Hj', ?E1; [done|done|done| |].
  - intros d [a Ha] Hd. destruct (O8 d a Ha Hd) as (i & s & Hi & Hs & Hf).
    exists (si_step i), s. split_and!; [done| |done].
    destruct (qw_jobs _ _ O1 d a Ha) as (i' & Hi' & Hd'). assert (i' = i) as -> by congruence.
    unfold drv_of_info in Hd'. rewrite Hs in Hd'. by injection Hd'.
  - exists q'. split_and!; [done|done|]. intros d [a Ha] Hd.
    destruct (qw_jobs _ _ O1 d a Ha) as (i & Hi & Hdi).
    assert (Queues.upgrade iq2 a ≫= drv_of_info h = Some d) as Hup.
    { unfold iq2. rewrite upgrade_ensure, (jobs_upgrade iq1 d a i) by done. done. }
    destruct (Hall a d) as (a' & Ha' & Hda'); [right; apply O6; eauto|done|].
    unfold live_drvs. apply list_elem_of_omap. exists a'. split; [done|].
    (* the entry is alive in the final state: it is the one [jobs] has *)
    destruct (Queues.upgrade iq2 a') as [i2|] eqn:Hu2; [|done]. cbn in Hda'.
    assert (iq_held iq2 = []) as Hh2 by congruence.
    destruct (live_in_jobs iq2 a' i2 Hwf2 Hh2 Hu2) as (d2 & Hjd2 & Hd2).
    assert (d2 = d) as -> by congruence.
    assert (iq_jobs iq' !! d = Some a') as Hfin by congruence.
    destruct (qw_jobs _ _ Hwf' d a' Hfin) as (i3 & Hi3 & Hd3).
    by rewrite (jobs_upgrade iq' d a' i3).
Qed.

(** ** Reachable queues *)

Lemma new_wf : queues_wf h Queues.new.
Proof. split; cbn; intros *; rewrite ?lookup_empty; try done; by intros [? ?]. Qed.

(** An unscheduled live entry has no item in [scheduled]. *)
Lemma unscheduled_entry iq a i d :
  queues_wf h iq → iq_held iq = [] → Queues.upgrade iq a = Some i → si_already_scheduled i = false →
  drv_of_info h i = Some d → iq_jobs iq !! d = Some a ∧ iq_infos iq !! a = Some i ∧ iq_scheduled iq !! d = None.
Proof.
  intros Hwf Hh Hu Hf Hd. destruct (live_in_jobs iq a i Hwf Hh Hu) as (d' & Hj & Hd').
  assert (d' = d) as -> by congruence. split; [done|].
  assert (iq_infos iq !! a = Some i) as Hi by (unfold Queues.upgrade in Hu; by destruct (Queues.owned iq a)).
  split; [done|]. destruct (iq_scheduled iq !! d) as [it|] eqn:E; [|done]. exfalso.
  destruct (qw_sched _ _ Hwf d it E) as [Hj' _]. assert (it_step_info it = a) by congruence.
  assert (si_already_scheduled i = true); [|congruence].
  apply (qw_flag _ _ Hwf a i Hi). eauto.
Qed.

(** The operations between which no task holds an entry. A job is scheduled or
    dropped after the checks of [process]: alive and not scheduled. *)
Inductive queue_step : InnerQueues → InnerQueues → Prop :=
| qs_insert iq system jobs now sort_fn :
    Forall (λ j, si_already_scheduled j = false) jobs →
    queue_step iq (Queues.insert_new_jobs h system jobs now sort_fn iq)
| qs_ensure iq systems : queue_step iq (Queues.ensure_queues_for_systems systems iq)
| qs_weak iq : queue_step iq (Queues.remove_all_weak_pointer iq)
| qs_sort iq sort_fn : queue_step iq (Queues.sort_queues h sort_fn iq)
| qs_schedule iq a i d system m :
    Queues.upgrade iq a = Some i → si_already_scheduled i = false → drv_of_info h i = Some d →
    is_Some (iq_inner iq !! system) →
    queue_step iq (Queues.add_job_to_scheduled h a system m iq)
| qs_unschedule iq d : queue_step iq (Queues.remove_job_from_scheduled d iq).2
| qs_remove iq a i d system :
    Queues.upgrade iq a = Some i → si_already_scheduled i = false → drv_of_info h i = Some d →
    queue_step iq (Queues.remove_job h a system iq).

Lemma foldl_keeps {A} (f : InnerQueues → A → InnerQueues) (P : InnerQueues → Prop) l iq :
  (∀ iq x, P iq → P (f iq x)) → P iq → P (foldl f iq l).
Proof. intros Hf. revert iq. induction l as [|x l IH]; intros iq H; cbn; [done|]. auto. Qed.

Lemma sort_jobs_held sort_fn s iq : iq_held (Queues.sort_jobs h sort_fn s iq) = iq_held iq.
Proof.
  unfold Queues.sort_jobs. destruct (iq_inner iq !! s) as [q|]; [|done]. cbn.
  revert iq. induction (q_jobs q) as [|a l IH]; intros iq; cbn; [done|]. rewrite IH.
  unfold Queues.update_internal_stats. by repeat case_match.
Qed.

Lemma insert_new_jobs_held system jobs now sort_fn iq :
  iq_held (Queues.insert_new_jobs h system jobs now sort_fn iq) = iq_held iq.
Proof.
  unfold Queues.insert_new_jobs.
  assert (∀ acc, iq_held (foldl (Queues.own_job h) acc jobs).2 = iq_held acc.2) as Ho.
  { induction jobs as [|j jobs IH]; intros acc; cbn; [done|]. rewrite IH.
    unfold Queues.own_job. destruct acc. by repeat case_match. }
  specialize (Ho ([], iq)). destruct (foldl _ _ _) as [submit iq1]. cbn in Ho. rewrite <-Ho.
  unfold Queues.queue_insert_new_jobs, Queues.ensure_queue. case_match; case_match; try done;
    case_match; rewrite sort_jobs_held; done.
Qed.

Lemma queue_step_wf iq iq' :
  queue_step iq iq' → queues_wf h iq ∧ iq_held iq = [] → queues_wf h iq' ∧ iq_held iq' = [].
Proof.
  intros [] [Hwf Hh].
  - split; [by apply insert_new_jobs_inserted|by rewrite insert_new_jobs_held].
  - apply (foldl_keeps (λ iq s, Queues.ensure_queue s iq) (λ iq, queues_wf h iq ∧ iq_held iq = [])); [|done].
    intros q s [? ?]. split; [by apply ensure_queue_wf|]. unfold Queues.ensure_queue. by case_match.
  - split; [by apply remove_all_weak_pointer_wf|].
    apply (foldl_keeps (λ iq s, Queues.scrube_jobs s iq) (λ iq, iq_held iq = [])); [|done]. done.
  - split; [by apply sort_queues_wf|].
    apply (foldl_keeps (λ iq s, Queues.sort_jobs h sort_fn s iq) (λ iq, iq_held iq = [])); [|done].
    intros q s. by rewrite sort_jobs_held.
  - destruct (unscheduled_entry iq0 a i d) as (Hj & Hi & _); [done..|].
    split; [by eapply add_job_to_scheduled_wf|]. unfold Queues.add_job_to_scheduled. by destruct (_ ≫= _).
  - split; [by apply remove_job_from_scheduled_wf|]. unfold Queues.remove_job_from_scheduled. by case_match.
  - destruct (unscheduled_entry iq0 a i d) as (Hj & Hi & Hs); [done..|]. split.
    + apply remove_job_wf; [|done]. intros i' d' Hi' Hd'. by simplify_eq.
    + unfold Queues.remove_job. by destruct (_ ≫= _).
Qed.
End Wf.
