(* ===== verification/QueueProcess.v ===== *)
(** * QueueProcess: dispatching

    [Queues::process] consults its processor on eligible jobs only (alive, not
    scheduled, not finished, past their retry time), and keeps the invariant
    of the queues for every processor that leaves the queues alone. *)

From Stdlib Require Import Ascii String.
From S2P Require Import Prelude Floats RustStr Nix Db Jobset Graph Queue QueueOrder QueueInv.
Local Open Scope Z_scope.

Import Queues.

Section Eligible.
Context `{HI : HashIter} `{TL : TimeLib} {W E : Type} `{HQ : !HasQueues W}.
Context (clock : M W E Timestamp) (p p' : JobConstraint → M W E RealiseStepResult).

Lemma upgrade_held iq a i :
  upgrade iq a = Some i → upgrade (iq <| iq_held ::= cons a |>) a = Some i.
Proof.
  unfold upgrade. destruct (owned iq a); [|done]. intros Hi.
  assert (owned (iq <| iq_held ::= cons a |>) a = true) as ->; [|done].
  apply owned_spec. right; right. cbn. left.
Qed.

Context (t : Timestamp) (Hagree : ∀ a system w, eligible t w a = true →
  p (mkJobConstraint a system []) w = p' (mkJobConstraint a system []) w).

Lemma process_job_ext system c a w :
  process_job p t system c a w = process_job p' t system c a w.
Proof using Hagree.
  unfold process_job. rewrite !bind_run. unfold gets.
  destruct (upgrade (queues w) a) as [i|] eqn:Hu; [|done]. cbn [mbind option_bind].
  destruct (hp_steps (heap w) !! si_step i) as [s|] eqn:Hs; [|done].
  cbn [mbind option_bind].
  destruct (si_already_scheduled i) eqn:Ha; [done|]. destruct (st_finished s) eqn:Hf; [done|].
  destruct (t <? AtomicDateTime.load (st_after s)) eqn:Ht; [done|].
  rewrite !bind_run. unfold modify at 1 3. rewrite !bind_run. unfold attempt.
  rewrite Hagree; [done|]. unfold eligible. rewrite queues_upd, heap_upd, (upgrade_held _ _ i Hu).
  by rewrite Hs, Ha, Hf, Ht.
Qed.

Lemma process_jobs_ext system c jobs w :
  process_jobs p t system c jobs w = process_jobs p' t system c jobs w.
Proof using Hagree.
  revert c w. induction jobs as [|a jobs IH]; intros c w; cbn; [done|].
  rewrite !bind_run, process_job_ext. destruct (process_job p' t system c a w) as [[c'|e] w']; [|done].
  apply IH.
Qed.

Lemma process_queues_ext n systems w :
  process_queues p t n systems w = process_queues p' t n systems w.
Proof using Hagree.
  revert n w. induction systems as [|s systems IH]; intros n w; cbn; [done|].
  rewrite !bind_run. unfold gets. rewrite !bind_run, process_jobs_ext.
  destruct (process_jobs p' t s _ _ w) as [[c'|e] w']; [|done]. apply IH.
Qed.

Lemma process_ext w w0 :
  clock w = (Ok t, w0) → process clock p w = process clock p' w.
Proof using Hagree.
  intros Hc. unfold process. rewrite !bind_run, Hc. rewrite !bind_run. unfold gets.
  apply process_queues_ext.
Qed.
End Eligible.

(** ** The invariant *)

(** The steps keep their derivation paths and none appears or goes. *)
Definition same_drvs (h h' : Heap) : Prop :=
  ∀ a, st_drv_path <$> hp_steps h' !! a = st_drv_path <$> hp_steps h !! a.

Lemma same_drvs_wf h h' iq : same_drvs h h' → queues_wf h iq → queues_wf h' iq.
Proof.
  intros Hh. assert (∀ i, drv_of_info h' i = drv_of_info h i) as Hd by (intros i; apply Hh).
  intros [W1 W2 W3 W4 W5 W6 W7]. split; [done| |done|done|done|done|].
  - intros d a (i & Hi & ?)%W2. exists i. by rewrite Hd.
  - intros s q Hq. specialize (W7 s q Hq). unfold live_drvs in *.
    rewrite <-(list_omap_ext (λ a, upgrade iq a ≫= drv_of_info h) _ (q_jobs q) (q_jobs q)); [done|].
    apply Forall2_same_length_lookup_2; [done|]. intros i x y Hx Hy. assert (x = y) as -> by congruence.
    destruct (upgrade iq y); [|done]. cbn. by rewrite Hd.
Qed.

Section ProcessWf.
Context `{HI : HashIter} `{FE : FloatEnv} `{TL : TimeLib} {W E : Type} `{HQ : !HasQueues W}.
Context (clock : M W E Timestamp) (p : JobConstraint → M W E RealiseStepResult).

(** What [process] needs of its processor and clock: they leave the queues
    alone and keep the steps' derivation paths. *)
Definition quiet {A} (m : M W E A) : Prop := ∀ w,
  queues (m w).2 = queues w ∧ same_drvs (heap w) (heap (m w).2).

Context (Hp : ∀ c, quiet (p c)) (Hclock : quiet clock).

Definition ready (systems : list System) (w : W) : Prop :=
  queues_wf (heap w) (queues w) ∧ iq_held (queues w) = [] ∧
  ∀ s, s ∈ systems → is_Some (iq_inner (queues w) !! s).

Lemma upd_queue_dom s f iq s' :
  is_Some (iq_inner (upd_queue s f iq) !! s') ↔ is_Some (iq_inner iq !! s').
Proof. cbn. by rewrite lookup_alter_is_Some. Qed.

(** The end of a round: the reference is dropped and the counters are set. *)
Lemma end_round_wf h s c a iq :
  queues_wf h iq → iq_held iq = [a] →
  queues_wf h (upd_queue s (λ q, BuildQueue.set_nr_runnable_disabled (c_disabled c)
    (BuildQueue.set_nr_runnable_waiting (c_waiting c) q)) (iq <| iq_held ::= tail |>)).
Proof.
  intros Hwf Hh. apply upd_queue_wf; [intros q Hq; cbn; split_and!; auto|].
  apply (held_wf h (tail (iq_held iq))); [|done]. rewrite Hh. by intros x ?%not_elem_of_nil.
Qed.

Lemma scheduled_held h a s m iq : iq_held (add_job_to_scheduled h a s m iq) = iq_held iq.
Proof. unfold add_job_to_scheduled. by destruct (_ ≫= _). Qed.
Lemma scheduled_dom h a s m iq s' :
  is_Some (iq_inner iq !! s') → is_Some (iq_inner (add_job_to_scheduled h a s m iq) !! s').
Proof. unfold add_job_to_scheduled. destruct (_ ≫= _); [|done]. intros H. by apply upd_queue_dom. Qed.
Lemma removed_held h a s iq : iq_held (remove_job h a s iq) = iq_held iq.
Proof. unfold remove_job. by destruct (_ ≫= _). Qed.
Lemma removed_dom h a s iq s' :
  is_Some (iq_inner iq !! s') → is_Some (iq_inner (remove_job h a s iq) !! s').
Proof. unfold remove_job. destruct (_ ≫= _); [|done]. intros H. by apply upd_queue_dom. Qed.

Lemma process_job_ready t systems system c a w :
  system ∈ systems → ready systems w → ready systems (process_job p t system c a w).2.
Proof using Hp.
  intros Hsys Hready. unfold process_job. rewrite bind_run. unfold gets.
  destruct (upgrade (queues w) a) as [i|] eqn:Hu; [|done]. cbn [mbind option_bind].
  destruct (hp_steps (heap w) !! si_step i) as [s|] eqn:Hs; [|done].
  cbn [mbind option_bind].
  destruct (si_already_scheduled i) eqn:Hflag; [done|]. destruct (st_finished s); [done|].
  destruct (t <? AtomicDateTime.load (st_after s)); [done|].
  destruct Hready as (Hwf & Hheld & Hdom).
  destruct (live_in_jobs (heap w) (queues w) a i Hwf Hheld Hu) as (d & Hjd & Hd).
  rewrite bind_run. unfold modify at 1. rewrite bind_run. unfold attempt.
  set (w1 := upd_queues _ w).
  assert (queues w1 = (queues w) <| iq_held ::= cons a |>) as Hq1 by (unfold w1; by rewrite queues_upd).
  destruct (Hp (mkJobConstraint a system []) w1) as [Hq2 Hh2].
  destruct (p (mkJobConstraint a system []) w1) as [r w2]. cbn [snd] in Hq2, Hh2.
  rewrite Hq1 in Hq2. unfold w1 in Hh2. rewrite heap_upd in Hh2. clear Hq1 w1.
  assert (queues_wf (heap w2) (queues w2)) as Hwf2.
  { rewrite Hq2. eapply same_drvs_wf; [exact Hh2|].
    apply (held_wf (heap w) (a :: iq_held (queues w))); [|done].
    rewrite Hheld. intros x ->%list_elem_of_singleton. apply owned_spec. eauto. }
  assert (iq_held (queues w2) = [a]) as Hheld2 by (rewrite Hq2; cbn; by rewrite Hheld).
  assert (iq_infos (queues w2) !! a = Some i) as Hi2.
  { rewrite Hq2. cbn. unfold upgrade in Hu. by destruct (owned (queues w) a). }
  assert (drv_of_info (heap w2) i = Some d) as Hd2 by (unfold drv_of_info; by rewrite Hh2).
  assert (iq_jobs (queues w2) !! d = Some a) as Hjd2 by (by rewrite Hq2).
  assert (∀ s, s ∈ systems → is_Some (iq_inner (queues w2) !! s)) as Hdom2 by (by rewrite Hq2).
  assert (∀ c' w3, heap w3 = heap w2 → queues_wf (heap w2) (queues w3) → iq_held (queues w3) = [a] →
    (∀ s, s ∈ systems → is_Some (iq_inner (queues w3) !! s)) →
    ready systems ((modify (upd_queues (λ iq, upd_queue system
      (λ q, BuildQueue.set_nr_runnable_disabled (c_disabled c')
        (BuildQueue.set_nr_runnable_waiting (c_waiting c') q)) (iq <| iq_held ::= tail |>)))
      ≫= λ _, mret c' : M W E Counts) w3).2) as Hend.
  { intros c' w3 Hh3 Hwf3 Hheld3 Hdom3. rewrite bind_run. unfold modify. cbn [snd mret M_ret].
    unfold ready. rewrite queues_upd, heap_upd, Hh3. split_and!.
    - by eapply end_round_wf.
    - cbn. by rewrite Hheld3.
    - intros s' Hs'. apply upd_queue_dom. cbn. by apply Hdom3. }
  rewrite bind_run. destruct r as [[|m| |]|e].
  - by apply Hend.
  - rewrite bind_run. unfold modify at 1. apply Hend; rewrite ?queues_upd, ?heap_upd; [done| | |].
    + eapply add_job_to_scheduled_wf; eauto.
    + by rewrite scheduled_held.
    + intros s' Hs'. by apply scheduled_dom, Hdom2.
  - assert (iq_scheduled (queues w2) !! d = None) as Hnone.
    { destruct (iq_scheduled (queues w2) !! d) as [it|] eqn:Hit; [|done].
      destruct (qw_sched _ _ Hwf2 d it Hit) as [Hj _]. rewrite Hjd2 in Hj. injection Hj as Hj.
      assert (si_already_scheduled i = true); [|congruence]. apply (qw_flag _ _ Hwf2 a i Hi2). eauto. }
    rewrite bind_run. unfold modify at 1. apply Hend; rewrite ?queues_upd, ?heap_upd; [done| | |].
    + apply remove_job_wf; [|done]. intros i' d' Hi' Hd'. congruence.
    + by rewrite removed_held.
    + intros s' Hs'. by apply removed_dom, Hdom2.
  - assert (iq_scheduled (queues w2) !! d = None) as Hnone.
    { destruct (iq_scheduled (queues w2) !! d) as [it|] eqn:Hit; [|done].
      destruct (qw_sched _ _ Hwf2 d it Hit) as [Hj _]. rewrite Hjd2 in Hj. injection Hj as Hj.
      assert (si_already_scheduled i = true); [|congruence]. apply (qw_flag _ _ Hwf2 a i Hi2). eauto. }
    rewrite bind_run. unfold modify at 1. apply Hend; rewrite ?queues_upd, ?heap_upd; [done| | |].
    + apply remove_job_wf; [|done]. intros i' d' Hi' Hd'. congruence.
    + by rewrite removed_held.
    + intros s' Hs'. by apply removed_dom, Hdom2.
  - by apply Hend.
Qed.

Lemma process_jobs_ready t systems system c jobs w :
  system ∈ systems → ready systems w → ready systems (process_jobs p t system c jobs w).2.
Proof using Hp.
  intros Hsys. revert c w. induction jobs as [|a jobs IH]; intros c w Hw; cbn; [done|].
  rewrite bind_run. pose proof (process_job_ready t systems system c a w Hsys Hw) as Hj.
  destruct (process_job p t system c a w) as [[c'|e] w']; [by apply IH|done].
Qed.

Lemma process_queues_ready t n all systems w :
  (∀ s, s ∈ systems → s ∈ all) → ready all w → ready all (process_queues p t n systems w).2.
Proof using Hp.
  revert n w. induction systems as [|s systems IH]; intros n w Hin Hw; cbn; [done|].
  rewrite bind_run. unfold gets. rewrite bind_run.
  match goal with |- context [process_jobs p t s ?c ?js w] =>
    pose proof (process_jobs_ready t all s c js w (Hin s ltac:(by left)) Hw) as Hj;
    destruct (process_jobs p t s c js w) as [[c'|e] w'] end; [|done].
  apply IH; [|done]. intros s' Hs'. apply Hin. by right.
Qed.

Lemma process_ready w :
  ready [] w → ready [] (process clock p w).2.
Proof using Hp Hclock.
  intros (Hwf & Hheld & _). unfold process. rewrite bind_run.
  destruct (Hclock w) as [Hq Hh]. destruct (clock w) as [[t|e] w1]; cbn [snd] in *.
  2:{ split_and!; [rewrite Hq; by eapply same_drvs_wf|by rewrite Hq|by intros ? ?%not_elem_of_nil]. }
  rewrite bind_run. unfold gets.
  assert (ready (iter_keys (iq_inner (queues w1))) w1) as Hr.
  { split_and!; [rewrite Hq; by eapply same_drvs_wf|by rewrite Hq|].
    intros s Hs. by apply elem_of_iter_keys. }
  destruct (process_queues_ready t 0 _ (iter_keys (iq_inner (queues w1))) w1 (λ s Hs, Hs) Hr)
    as (H1 & H2 & _). split_and!; [done|done|by intros ? ?%not_elem_of_nil].
Qed.
End ProcessWf.
