(* ===== verification/Config.v ===== *)
(** * Config: the configuration and the token check ([queue-runner/src/config.rs],
    [CheckAuthInterceptor] of [server/grpc.rs])

    The TOML reader and the process environment are parameters; an [AppConfig]
    is what the reader returned. *)

From Stdlib Require Import Ascii String.
From S2P Require Import Prelude Floats RustStr Nix Db Support Jobset Graph Result Machine Queue.
Local Open Scope string_scope.
Local Open Scope list_scope.
Local Open Scope Z_scope.

Class EnvLib : Type := {
  env_var : string → option string;
  create_dir_all : string → bool
}.

Definition default_data_dir : string := "/tmp/hydra".
Definition default_max_db_connections : Z := 128.
Definition default_dispatch_trigger_timer_in_s : Z := 120.
Definition default_queue_trigger_timer_in_s : Z := -1.
Definition default_max_tries : Z := 5.
Definition default_retry_interval : Z := 60.
Definition default_retry_backoff : f32 := f32_of_Z 3.
Definition default_max_unsupported_time_in_s : Z := 120.
Definition default_stop_queue_run_after_in_s : Z := 60.
Definition default_max_concurrent_downloads : Z := 5.
Definition default_concurrent_upload_limit : Z := 5.
Definition default_enable_fod_checker : bool := false.

Record AppConfig := mkAppConfig {
  ac_hydra_data_dir : string;
  ac_db_url : string;
  ac_max_db_connections : Z;
  ac_machine_sort_fn : MachineSortFn;
  ac_machine_free_fn : MachineFreeFn;
  ac_step_sort_fn : StepSortFn;
  ac_dispatch_trigger_timer_in_s : Z;
  ac_queue_trigger_timer_in_s : Z;
  ac_remote_store_addr : list string;
  ac_use_substitutes : bool;
  ac_roots_dir : option string;
  ac_max_retries : Z;
  ac_retry_interval : Z;
  ac_retry_backoff : f32;
  ac_max_unsupported_time_in_s : Z;
  ac_stop_queue_run_after_in_s : Z;
  ac_max_concurrent_downloads : Z;
  ac_concurrent_upload_limit : Z;
  ac_token_list_path : option (list string);
  ac_enable_fod_checker : bool;
  ac_use_presigned_uploads : bool;
  ac_forced_substituters : list string
}.

(** The defaults of the fields, as an empty file gives them. *)
Definition default_AppConfig : AppConfig :=
  mkAppConfig default_data_dir "postgres://hydra@%2Frun%2Fpostgresql:5432/hydra"
    default_max_db_connections BogomipsWithSpeedFactor Static WithRdeps
    default_dispatch_trigger_timer_in_s default_queue_trigger_timer_in_s [] false None
    default_max_tries default_retry_interval default_retry_backoff
    default_max_unsupported_time_in_s default_stop_queue_run_after_in_s
    default_max_concurrent_downloads default_concurrent_upload_limit None
    default_enable_fod_checker false [].

(** Durations are in seconds. *)
Record PreparedApp := mkPreparedApp {
  pa_hydra_data_dir : string;
  pa_hydra_log_dir : string;
  pa_lockfile : string;
  pa_db_url : string;
  pa_max_db_connections : Z;
  pa_machine_sort_fn : MachineSortFn;
  pa_machine_free_fn : MachineFreeFn;
  pa_step_sort_fn : StepSortFn;
  pa_dispatch_trigger_timer : option Z;
  pa_queue_trigger_timer : option Z;
  pa_remote_store_addr : list string;
  pa_use_substitutes : bool;
  pa_roots_dir : string;
  pa_max_retries : Z;
  pa_retry_interval : f32;
  pa_retry_backoff : f32;
  pa_max_unsupported_time : Z;
  pa_stop_queue_run_after : option Z;
  pa_max_concurrent_downloads : Z;
  pa_concurrent_upload_limit : Z;
  pa_token_list : option (list string);
  pa_enable_fod_checker : bool;
  pa_use_presigned_uploads : bool;
  pa_forced_substituters : list string
}.

(** [PathBuf::join]: an absolute path replaces the base. *)
Definition path_join (a b : string) : string :=
  if starts_with "/" b || bool_decide (a = "") then b
  else if ends_with "/" a then a +:+ b else a +:+ "/" +:+ b.

(** [u64::try_from(v).ok()], zero left out. *)
Definition timer (v : Z) : option Z :=
  v ← try_u 64 v; if v =? 0 then None else Some v.

Definition known_scheme (v : string) : bool :=
  starts_with "file://" v || starts_with "s3://" v || starts_with "ssh://" v || starts_with "/" v.

Section Prepare.
Context `{FS : FsEnv} `{EL : EnvLib}.

Definition load_token (p : string) : option string := trim <$> fs_read_to_string p.

(** [collect] into an [Option<Vec<_>>]: [None] as soon as one is [None]. *)
Definition load_tokens (paths : option (list string)) : option (list string) :=
  l ← paths; mapM load_token l.

Definition try_from (val : AppConfig) : result Error PreparedApp :=
  let remote_store_addr := List.filter known_scheme (ac_remote_store_addr val) in
  logname ← ok_or (env_var "LOGNAME") (Anyhow "LOGNAME env var missing");
  let nix_state_dir := default "/nix/var/nix/" (env_var "NIX_STATE_DIR") in
  let roots_dir :=
    match ac_roots_dir val with
    | Some d => d
    | None => path_join (path_join (path_join nix_state_dir "gcroots/per-user") logname) "hydra-roots"
    end in
  if negb (create_dir_all roots_dir) then Err (Anyhow "create_dir_all")
  else
    Ok (mkPreparedApp (ac_hydra_data_dir val) (path_join (ac_hydra_data_dir val) "build-logs")
          (path_join (ac_hydra_data_dir val) "queue-runner/lock") (ac_db_url val)
          (ac_max_db_connections val) (ac_machine_sort_fn val) (ac_machine_free_fn val)
          (ac_step_sort_fn val) (timer (ac_dispatch_trigger_timer_in_s val))
          (timer (ac_queue_trigger_timer_in_s val)) remote_store_addr (ac_use_substitutes val)
          roots_dir (ac_max_retries val) (f32_of_Z (ac_retry_interval val)) (ac_retry_backoff val)
          (ac_max_unsupported_time_in_s val)
          (if ac_stop_queue_run_after_in_s val <=? 0 then None
           else Some (ac_stop_queue_run_after_in_s val))
          (ac_max_concurrent_downloads val) (ac_concurrent_upload_limit val)
          (load_tokens (ac_token_list_path val)) (ac_enable_fod_checker val)
          (ac_use_presigned_uploads val) (ac_forced_substituters val)).

End Prepare.

(** [load_config]: a file that cannot be read counts as an empty one. *)
Definition load_config `{FsEnv} `{EnvLib} (toml : string → result Error AppConfig) (filepath : string)
  : result Error PreparedApp :=
  app ← toml (default "" (fs_read_to_string filepath)); try_from app.

Definition get_retry (c : PreparedApp) : Z * f32 * f32 :=
  (pa_max_retries c, pa_retry_interval c, pa_retry_backoff c).
Definition has_token_list (c : PreparedApp) : bool := bool_decide (is_Some (pa_token_list c)).
Definition check_if_contains_token (c : PreparedApp) (token : string) : bool :=
  match pa_token_list c with Some l => bool_decide (token ∈ l) | None => false end.

(** [CheckAuthInterceptor::call]: whether the request passes. A header that is
    no string is [Some None]. *)
Definition check_auth (c : PreparedApp) (authorization : option (option string)) : bool :=
  if has_token_list c then
    match authorization with
    | Some (Some t) =>
        match strip_prefix "Bearer " t with
        | Some token => check_if_contains_token c token
        | None => false
        end
    | _ => false
    end
  else true.

(** ** Properties *)

(** When every token file is readable, exactly the requests with a bearer
    token from one of the files pass. *)
Theorem check_auth_tokens `{FsEnv} `{EnvLib} val c paths tokens authorization :
  try_from val = Ok c → ac_token_list_path val = Some paths → mapM load_token paths = Some tokens →
  check_auth c authorization = true ↔ ∃ t, authorization = Some (Some ("Bearer " +:+ t)) ∧ t ∈ tokens.
Proof.
  intros Hc Hp Ht. unfold try_from in Hc.
  destruct (ok_or _ _) as [logname|] eqn:El; cbn in Hc; [|done]. destruct (negb _); [done|]. inv Hc.
  unfold check_auth, has_token_list, check_if_contains_token, load_tokens. cbn [pa_token_list].
  rewrite Hp. cbn [mbind option_bind]. rewrite Ht, bool_decide_eq_true_2 by eauto.
  destruct authorization as [[a|]|]; [|by split; [|intros (?&?&?)]..].
  destruct (strip_prefix "Bearer " a) as [t|] eqn:Es.
  - apply strip_prefix_Some in Es as ->. rewrite bool_decide_eq_true. split; [eauto|].
    intros (t' & Heq & ?).
    assert (Some t = Some t') as [= ->]; [|done].
    rewrite <-(strip_prefix_app "Bearer " t), <-(strip_prefix_app "Bearer " t'). congruence.
  - split; [done|]. intros (t & Heq & _). assert (a = "Bearer " +:+ t) as -> by congruence.
    by rewrite strip_prefix_app in Es.
Qed.

(** One token file that cannot be read switches the check off, although
    the log says that only this file is skipped. *)
Theorem unreadable_token_file_disables_auth `{FsEnv} `{EnvLib} val c paths p authorization :
  try_from val = Ok c → ac_token_list_path val = Some paths → p ∈ paths →
  fs_read_to_string p = None → check_auth c authorization = true.
Proof.
  intros Hc Hp Hin Hr. unfold try_from in Hc.
  destruct (ok_or _ _) as [logname|] eqn:El; cbn in Hc; [|done]. destruct (negb _); [done|]. inv Hc.
  unfold check_auth, has_token_list, load_tokens. cbn. rewrite Hp. cbn.
  destruct (mapM load_token paths) as [l|] eqn:E; [|done].
  exfalso. apply mapM_Some_1 in E. clear Hp. induction E as [|x y xs ys Hx _ IH].
  - by apply not_elem_of_nil in Hin.
  - apply elem_of_cons in Hin as [<-|]; [|auto]. unfold load_token in Hx. by rewrite Hr in Hx.
Qed.

(** ** Witnesses *)

Definition example_fs : FsEnv := {|
  fs_lines := λ _, None; fs_exists := λ _, false; fs_metadata := λ _, None;
  fs_bytes := λ _, None; sha256_hex := λ s, s;
  fs_read_to_string := λ p, if decide (p = "/secret") then Some "tok" else None |}.
Definition example_env : EnvLib := {|
  env_var := λ v, if decide (v = "LOGNAME") then Some "hydra" else None;
  create_dir_all := λ _, true |}.
Definition with_tokens (l : list string) : AppConfig :=
  let d := default_AppConfig in
  mkAppConfig (ac_hydra_data_dir d) (ac_db_url d) (ac_max_db_connections d) (ac_machine_sort_fn d)
    (ac_machine_free_fn d) (ac_step_sort_fn d) (ac_dispatch_trigger_timer_in_s d)
    (ac_queue_trigger_timer_in_s d) (ac_remote_store_addr d) (ac_use_substitutes d)
    (ac_roots_dir d) (ac_max_retries d) (ac_retry_interval d) (ac_retry_backoff d)
    (ac_max_unsupported_time_in_s d) (ac_stop_queue_run_after_in_s d)
    (ac_max_concurrent_downloads d) (ac_concurrent_upload_limit d) (Some l)
    (ac_enable_fod_checker d) (ac_use_presigned_uploads d) (ac_forced_substituters d).
Definition example_app (l : list string) : PreparedApp :=
  match try_from (FS := example_fs) (EL := example_env) (with_tokens l) with
  | Ok c => c
  | Err _ => mkPreparedApp "" "" "" "" 0 SpeedFactorOnly Static Legacy None None [] false "" 0
      (S754_zero false) (S754_zero false) 0 None 0 0 None false false []
  end.

Lemma check_auth_tokens_witness :
  check_auth (example_app ["/secret"]) (Some (Some "Bearer tok")) = true.
Proof.
  apply (check_auth_tokens (H := example_fs) (H0 := example_env) (with_tokens ["/secret"])
    (example_app ["/secret"]) ["/secret"] ["tok"]); [vm_compute; reflexivity..|].
  exists "tok". split; [reflexivity|left].
Defined.

Lemma unreadable_token_file_disables_auth_witness :
  check_auth (example_app ["/secret"; "/gone"]) None = true.
Proof.
  apply (unreadable_token_file_disables_auth (H := example_fs) (H0 := example_env)
    (with_tokens ["/secret"; "/gone"]) (example_app ["/secret"; "/gone"]) ["/secret"; "/gone"] "/gone");
    [vm_compute; reflexivity..| |vm_compute; reflexivity].
  right. left.
Defined.
