(* ===== verification/System.v ===== *)
(** * System: what a builder reads of its machine ([builder/src/system.rs])

    The files under [/proc] are read by the crate [procfs_core], whose answers
    are the class [ProcEnv], by their number; one of them, the pressure of
    interrupts, is read by the program itself. The record of a pressure, the
    program's [Pressure] and the message have the same fields and are one type.
    Sums of unsigned numbers wrap. *)

From Stdlib Require Import Ascii String.
From S2P Require Import Stream.
From S2P Require Import Prelude Floats RustStr Nix Db Support Jobset Graph Result Machine Queue.
From S2P Require Import Config.
Local Open Scope string_scope.
Local Open Scope list_scope.
Local Open Scope Z_scope.

Class ProcEnv : Type := {
  (** Number of cores, and the fields. *)
  proc_cpuinfo : nat → result string (Z * gmap string string);
  (** All memory, and what is available of it. *)
  proc_meminfo : nat → result string (Z * option Z);
  proc_loadavg : nat → result string (f32 * f32 * f32);
  (** [some], and for memory and I/O also [full], by the path. *)
  proc_cpu_pressure : nat → string → result string Pressure;
  proc_memory_pressure : nat → string → result string (Pressure * Pressure);
  proc_io_pressure : nat → string → result string (Pressure * Pressure);
  (** Blocks, available blocks and their size. *)
  statvfs : nat → string → result string (Z * Z * Z)
}.

Record BaseSystemInfo := mkBaseSystemInfo { sy_cpu_count : Z; sy_bogomips : f32; sy_total_memory : Z }.

Record SystemLoad := mkSystemLoad {
  sl_load_avg_1 : f32; sl_load_avg_5 : f32; sl_load_avg_15 : f32; sl_mem_usage : Z;
  sl_pressure : option PressureState; sl_build_dir_free_percent : f64; sl_store_free_percent : f64 }.

(** ** Records of pressure *)

Inductive ProcError := Incomplete | SlicePanic.

Definition get_f32 (parsed : gmap string string) (value : string) : result ProcError f32 :=
  v ← ok_or (parsed !! value) Incomplete; ok_or (parse_f32 v) Incomplete.

Definition get_total (parsed : gmap string string) : result ProcError Z :=
  v ← ok_or (parsed !! "total") Incomplete; map_err (λ _, Incomplete) (parse_u 64 v).

(** A byte that goes on with a character. *)
Definition is_continuation (a : ascii) : bool :=
  let n := N_of_ascii a in (128 <=? n)%N && (n <? 192)%N.

(** [&s[n..]]: panics past the end and inside a character. *)
Definition slice_from (n : nat) (s : string) : option string :=
  if decide (n ≤ String.length s)%nat then
    match str_drop n s with
    | String a _ as t => if is_continuation a then None else Some t
    | "" => Some ""
    end
  else None.

Definition add_pair (parsed : gmap string string) (kv_str : string) : gmap string string :=
  match split_char "=" kv_str with
  | [k; v] => <[k := v]> parsed
  | _ => parsed
  end.

Definition parse_pressure_record (line : string) : result ProcError Pressure :=
  if negb (starts_with "some" line) && negb (starts_with "full" line) then Err Incomplete
  else
    values ← ok_or (slice_from 5 line) SlicePanic;
    let parsed := foldl add_pair ∅ (split_whitespace values) in
    avg10 ← get_f32 parsed "avg10";
    avg60 ← get_f32 parsed "avg60";
    avg300 ← get_f32 parsed "avg300";
    total ← get_total parsed;
    Ok (mkPressure avg10 avg60 avg300 total).

Section System.
Context `{PE : ProcEnv} `{FS : FsEnv} `{EL : EnvLib}.

Definition ok_opt {E A} (r : result E A) : option A := match r with Ok a => Some a | Err _ => None end.

(** [PressureState::new]; [None] is a panic. *)
Definition pressure_state (q : nat) : option (option PressureState) :=
  if negb (fs_exists "/proc/pressure") then Some None
  else
    let cpu_psi := ok_opt (proc_cpu_pressure q "proc/pressure/cpu") in
    let mem_psi := ok_opt (proc_memory_pressure q "/proc/pressure/memory") in
    let io_psi := ok_opt (proc_io_pressure q "/proc/pressure/io") in
    irq_psi_full ← match parse_pressure_record <$> fs_read_to_string "/proc/pressure/irq" with
                   | Some (Ok p) => Some (Some p)
                   | Some (Err SlicePanic) => None
                   | _ => Some None
                   end;
    Some (Some (mkPressureState cpu_psi (fst <$> mem_psi) (snd <$> mem_psi) (fst <$> io_psi) (snd <$> io_psi)
                  irq_psi_full)).

Definition BaseSystemInfo_new (q : nat) : result string BaseSystemInfo :=
  '(cores, fields) ← proc_cpuinfo q;
  '(mem_total, _) ← proc_meminfo q;
  Ok (mkBaseSystemInfo cores (default (S754_zero false) (fields !! "bogomips" ≫= parse_f32)) mem_total).

Definition get_mount_free_percent (q : nat) (dest : string) : result string f64 :=
  '(blocks, available, size) ← statvfs q dest;
  let total_bytes := u64_wrap (blocks * size) in
  let free_bytes := u64_wrap (available * size) in
  Ok (f64_mul (f64_div (f64_of_Z free_bytes) (f64_of_Z total_bytes)) (f64_of_Z 100)).

Inductive LoadError := LoadFailed (e : string) | LoadPanicked.

Definition SystemLoad_new (q : nat) (build_dir : string) : result LoadError SystemLoad :=
  '(mem_total, mem_available) ← map_err LoadFailed (proc_meminfo q);
  '(one, five, fifteen) ← map_err LoadFailed (proc_loadavg q);
  let nix_store_dir := default "/nix/store" (env_var "NIX_STORE_DIR") in
  pressure ← ok_or (pressure_state q) LoadPanicked;
  Ok (mkSystemLoad one five fifteen (u64_wrap (mem_total - default 0 mem_available)) pressure
        (default (S754_zero false) (ok_opt (get_mount_free_percent q build_dir)))
        (default (S754_zero false) (ok_opt (get_mount_free_percent q nix_store_dir)))).
End System.

(** ** The kernel's format is read back *)

(** A value of a pair: no white space, no further equals sign. *)
Definition plain_value (v : string) : Prop := str_forall non_ws v = true ∧ contains_char "=" v = false.

Definition pair (k v : string) : string := k +:+ "=" +:+ v.

Definition pressure_line (kind avg10 avg60 avg300 total : string) : string :=
  kind +:+ " " +:+ join " " [pair "avg10" avg10; pair "avg60" avg60; pair "avg300" avg300; pair "total" total]
  +:+ String NL "".

Lemma split_pair k v : contains_char "=" k = false → contains_char "=" v = false →
  split_char "=" (pair k v) = [k; v].
Proof. intros Hk Hv. unfold pair. change ("=" +:+ v) with (String "=" v). rewrite split_char_app by done. by rewrite (split_char_none _ v). Qed.

Lemma add_pair_plain m k v : contains_char "=" k = false → contains_char "=" v = false →
  add_pair m (pair k v) = <[k := v]> m.
Proof. intros Hk Hv. unfold add_pair. by rewrite split_pair. Qed.

Lemma split_whitespace_line l : Forall (λ s, s ≠ "" ∧ str_forall non_ws s = true) l → l ≠ [] →
  split_whitespace (join " " l +:+ String NL "") = l.
Proof.
  unfold split_whitespace. induction 1 as [|s l [Hs Hw] _ IH]; [done|]. intros _.
  destruct l as [|s' l].
  { cbn [join]. rewrite split_ws_app, filter_cons_True by done. done. }
  rewrite join_cons by done. rewrite !str_app_assoc.
  change (" " +:+ ?x) with (String " " x). rewrite split_ws_app, filter_cons_True by done. f_equal. by apply IH.
Qed.

Lemma plain_word k v : str_forall non_ws k = true → plain_value v → k ≠ "" →
  pair k v ≠ "" ∧ str_forall non_ws (pair k v) = true.
Proof. intros Hk [Hv _] Hn. unfold pair. split; [by destruct k|]. by rewrite !str_forall_app, Hk, Hv. Qed.

Lemma slice_kind kind s : kind ∈ ["some"; "full"] → (∀ a t, s = String a t → is_continuation a = false) →
  (negb (starts_with "some" (kind +:+ " " +:+ s)) && negb (starts_with "full" (kind +:+ " " +:+ s)) = false) ∧
  slice_from 5 (kind +:+ " " +:+ s) = Some s.
Proof.
  intros Hk Hs. assert (kind = "some" ∨ kind = "full") as Hk' by set_solver. split.
  - by destruct Hk' as [-> | ->].
  - assert (str_drop 5 (kind +:+ " " +:+ s) = s ∧ 5 ≤ String.length (kind +:+ " " +:+ s))%nat as [Hd Hl].
    { destruct Hk' as [-> | ->]; (split; [done|rewrite !str_length_app; cbn [String.length]; lia]). }
    unfold slice_from. rewrite decide_True, Hd by done. destruct s as [|a t]; [done|]. by rewrite (Hs a t).
Qed.

(** A record of pressure in the form in which the kernel prints it is
    read with the values that were printed. *)
Theorem pressure_record_reads kind avg10 avg60 avg300 total x10 x60 x300 t :
  kind ∈ ["some"; "full"] → Forall plain_value [avg10; avg60; avg300; total] →
  parse_f32 avg10 = Some x10 → parse_f32 avg60 = Some x60 → parse_f32 avg300 = Some x300 →
  parse_u 64 total = Ok t →
  parse_pressure_record (pressure_line kind avg10 avg60 avg300 total) = Ok (mkPressure x10 x60 x300 t).
Proof.
  intros Hkind Hv H10 H60 H300 Ht. unfold parse_pressure_record, pressure_line.
  destruct (slice_kind kind (join " " [pair "avg10" avg10; pair "avg60" avg60; pair "avg300" avg300; pair "total" total]
    +:+ String NL "") Hkind) as [-> ->]; [by intros a t' [= <- _]|]. cbn [ok_or mbind result_bind].
  rewrite !Forall_cons in Hv. destruct Hv as (V1 & V2 & V3 & V4 & _). rewrite split_whitespace_line; [|repeat (constructor; [by apply plain_word|]); constructor|done].
  cbn [foldl]. destruct V1 as [_ V1], V2 as [_ V2], V3 as [_ V3], V4 as [_ V4]. rewrite !add_pair_plain by done.
  unfold get_f32, get_total. simplify_map_eq. cbn [ok_or mbind result_bind map_err]. by rewrite H10, H60, H300, Ht.
Qed.

Lemma pressure_record_reads_witness :
  parse_pressure_record (pressure_line "full" "0.25" "1.50" "0.00" "123456") =
    Ok (mkPressure (S754_finite false 8388608 (-25)) (S754_finite false 12582912 (-23)) (S754_zero false) 123456).
Proof.
  apply pressure_record_reads; [by right; left|repeat (constructor; [by split|]); constructor|vm_compute; reflexivity..].
Defined.
