(* ===== verification/Uploader.v ===== *)
(** * Uploader: the queue of pending uploads ([queue-runner/src/state/uploader.rs],
    [inspectable_channel.rs])

    A channel whose contents can be read, and the tasks taken from it. The
    copy to the remote stores ([upload_msg], in [Uploads]) happens between
    taking messages and finishing them. The
    state file holds the JSON of the messages; a field of a JSON object that
    is not written is absent when it is read. *)

From Stdlib Require Import Ascii String.
From S2P Require Import Prelude RustStr Nix Db.
Local Open Scope list_scope.

(** ** [InspectableChannel] *)

Record Channel (T : Type) := mkChannel { ch_queue : list T; ch_notify : bool }.
Arguments mkChannel {T}.
Arguments ch_queue {T}.
Arguments ch_notify {T}.

Module Channel.
Section Channel.
Context {T : Type}.

Definition with_capacity : Channel T := mkChannel [] false.
Definition load_vec_into (data : list T) (c : Channel T) : Channel T :=
  mkChannel (ch_queue c ++ data) true.
Definition send (msg : T) (c : Channel T) : Channel T := mkChannel (ch_queue c ++ [msg]) true.

(** [None]: the receiver waits for a notification. *)
Definition recv (c : Channel T) : option (T * Channel T) :=
  match ch_queue c with
  | [] => None
  | m :: q => Some (m, mkChannel q (ch_notify c))
  end.

(** A turn of the loop takes [min(count, len)] messages and waits when it got
    none. *)
Definition recv_many (count : nat) (c : Channel T) : option (list T * Channel T) :=
  let available := Nat.min count (length (ch_queue c)) in
  match take available (ch_queue c) with
  | [] => None
  | messages => Some (messages, mkChannel (drop available (ch_queue c)) (ch_notify c))
  end.

Definition len (c : Channel T) : nat := length (ch_queue c).
Definition inspect (c : Channel T) : list T := ch_queue c.

Lemma recv_many_Some count c ms c' :
  recv_many count c = Some (ms, c') →
  ch_queue c = ms ++ ch_queue c' ∧ ms ≠ [] ∧ length ms = Nat.min count (length (ch_queue c)).
Proof.
  unfold recv_many. intros H.
  assert (ms = take (count `min` length (ch_queue c)) (ch_queue c) ∧ ms ≠ [] ∧
    ch_queue c' = drop (count `min` length (ch_queue c)) (ch_queue c)) as (Hms & Hne & Hc').
  { destruct (take (count `min` length (ch_queue c)) (ch_queue c)); [done|]. by inv H. }
  rewrite Hc', Hms, take_drop. split; [done|]. split; [by rewrite <-Hms|].
  rewrite length_take. lia.
Qed.

Lemma recv_many_None count c : recv_many count c = None ↔ count = 0 ∨ ch_queue c = [].
Proof.
  unfold recv_many. destruct count as [|n]; cbn; [naive_solver|].
  destruct (ch_queue c) as [|m q]; cbn; [naive_solver|]. split; [done|]. by intros [|].
Qed.
End Channel.
End Channel.

(** ** [Uploader] *)

Abbreviation MsgId := Z.
Record UploadMessage := mkUploadMessage {
  um_id : MsgId; um_store_paths : list StorePath; um_log_remote_path : string;
  um_log_local_path : string }.

(** The JSON object of a message. *)
Record JsonMessage := mkJsonMessage {
  js_id : option MsgId; js_store_paths : list StorePath; js_log_remote_path : string;
  js_log_local_path : string }.

Record Uploader := mkUploader {
  up_queue : Channel UploadMessage;
  up_current_tasks : list UploadMessage;
  up_state_file : option (list JsonMessage)
}.
#[export] Instance eta_Uploader : Eta Uploader := λ r,
  mkUploader (up_queue r) (up_current_tasks r) (up_state_file r).
#[export] Instance set_up_queue : Setter up_queue := ltac:(mk_setter up_queue).
#[export] Instance set_up_current_tasks : Setter up_current_tasks := ltac:(mk_setter up_current_tasks).
#[export] Instance set_up_state_file : Setter up_state_file := ltac:(mk_setter up_state_file).

Module Uploader.

(** [skip_serializing] *)
Definition to_json (m : UploadMessage) : JsonMessage :=
  mkJsonMessage None (um_store_paths m) (um_log_remote_path m) (um_log_local_path m).

(** [deserialize_with] is called for a field that is there; without a
    [default] attribute an absent field is an error. [id] is the new id. *)
Definition from_json (id : MsgId) (j : JsonMessage) : result Error UploadMessage :=
  match js_id j with
  | None => Err (Anyhow "missing field id")
  | Some _ => Ok (mkUploadMessage id (js_store_paths j) (js_log_remote_path j) (js_log_local_path j))
  end.

Fixpoint from_json_list (ids : nat → MsgId) (l : list JsonMessage) : result Error (list UploadMessage) :=
  match l with
  | [] => Ok []
  | j :: l' => m ← from_json (ids (length l')) j; ms ← from_json_list ids l'; Ok (m :: ms)
  end.

(** [written] says whether the file could be written. *)
Definition save_state (written : bool) (u : Uploader) : Uploader :=
  let queue := Channel.inspect (up_queue u) ++ up_current_tasks u in
  if written then u <| up_state_file := Some (to_json <$> queue) |> else u.

Definition load_state (ids : nat → MsgId) (u : Uploader) : result Error Uploader :=
  match up_state_file u with
  | None => Ok u
  | Some content =>
      ms ← from_json_list ids content; Ok (u <| up_queue ::= Channel.load_vec_into ms |>)
  end.

(** A state that cannot be loaded is logged. *)
Definition new (ids : nat → MsgId) (state_file : option (list JsonMessage)) : Uploader :=
  let u := mkUploader Channel.with_capacity [] state_file in
  match load_state ids u with Ok u => u | Err _ => u end.

Definition schedule_upload (id : MsgId) (written : bool) (store_paths : list StorePath)
    (log_remote_path log_local_path : string) (u : Uploader) : Uploader :=
  save_state written
    (u <| up_queue ::= Channel.send (mkUploadMessage id store_paths log_remote_path log_local_path) |>).

(** Up to the upload; [None] while the receiver waits. *)
Definition take_one (u : Uploader) : option (UploadMessage * Uploader) :=
  '(msg, q) ← Channel.recv (up_queue u);
  Some (msg, u <| up_queue := q |> <| up_current_tasks ::= λ l, l ++ [msg] |>).
Definition take_many (limit : nat) (u : Uploader) : option (list UploadMessage * Uploader) :=
  '(messages, q) ← Channel.recv_many limit (up_queue u);
  Some (messages, u <| up_queue := q |> <| up_current_tasks ::= λ l, l ++ messages |>).

(** After the upload. *)
Definition finish_one (written : bool) (msg : UploadMessage) (u : Uploader) : Uploader :=
  save_state written (u <| up_current_tasks ::= filter (λ v, um_id v ≠ um_id msg) |>).
Definition finish_many (written : bool) (messages : list UploadMessage) (u : Uploader) : Uploader :=
  save_state written (u <| up_current_tasks ::= filter (λ v, um_id v ∈ (um_id <$> messages)) |>).

Definition upload_once (written : bool) (u : Uploader) : option Uploader :=
  '(msg, u) ← take_one u; Some (finish_one written msg u).
Definition upload_many (limit : nat) (written : bool) (u : Uploader) : option Uploader :=
  '(messages, u) ← take_many limit u; Some (finish_many written messages u).

Definition len_of_queue (u : Uploader) : nat := Channel.len (up_queue u).
Definition paths_in_queue (u : Uploader) : list StorePath :=
  mjoin (um_store_paths <$> Channel.inspect (up_queue u)).

End Uploader.

Lemma filter_ids_all (ids : list MsgId) (l : list UploadMessage) :
  um_id <$> l ⊆ ids → filter (λ v, um_id v ∈ ids) l = l.
Proof.
  intros H. apply filter_all_true, Forall_forall. intros v Hv. apply H. by apply list_elem_of_fmap_2.
Qed.

Lemma filter_ids_none (ids : list MsgId) (l : list UploadMessage) :
  (∀ v, v ∈ l → um_id v ∉ ids) → filter (λ v, um_id v ∈ ids) l = [].
Proof.
  induction l as [|v l IH]; intros H; [done|]. rewrite filter_cons_False by (apply H; left).
  apply IH. intros w Hw. apply H. by right.
Qed.

Lemma save_state_tasks w u : up_current_tasks (Uploader.save_state w u) = up_current_tasks u.
Proof. unfold Uploader.save_state. by destruct w. Qed.
Lemma save_state_queue w u : up_queue (Uploader.save_state w u) = up_queue u.
Proof. unfold Uploader.save_state. by destruct w. Qed.

(** ** Properties *)

(** The channel is first in, first out and loses nothing: a batch is the
    non-empty beginning of the queue, of the size asked for or all there is,
    and the receiver waits exactly when the queue is empty or nothing is asked
    for. *)
Theorem channel_fifo {T} count (c : Channel T) :
  match Channel.recv_many count c with
  | Some (ms, c') => ch_queue c = ms ++ ch_queue c' ∧ ms ≠ [] ∧
                     length ms = Nat.min count (length (ch_queue c))
  | None => count = 0 ∨ ch_queue c = []
  end.
Proof.
  destruct (Channel.recv_many count c) as [[ms c']|] eqn:E.
  - by apply Channel.recv_many_Some in E.
  - by apply Channel.recv_many_None in E.
Qed.

(** [upload_once] takes the oldest message, and the tasks are those from
    before once it is done. *)
Theorem upload_once_done written u u' msg q :
  ch_queue (up_queue u) = msg :: q →
  (∀ v, v ∈ up_current_tasks u → um_id v ≠ um_id msg) →
  Uploader.upload_once written u = Some u' →
  ch_queue (up_queue u') = q ∧ up_current_tasks u' = up_current_tasks u.
Proof.
  intros Hq Hfresh Hu. unfold Uploader.upload_once, Uploader.take_one, Channel.recv in Hu. rewrite Hq in Hu.
  cbn -[Uploader.save_state] in Hu. injection Hu as <-. unfold Uploader.finish_one.
  rewrite save_state_queue, save_state_tasks. cbn. split; [done|].
  rewrite filter_app, filter_cons_False by auto. cbn. rewrite app_nil_r.
  by apply filter_all_true, Forall_forall.
Qed.

(** [upload_many] keeps exactly the messages it has just uploaded as
    current tasks and drops all others: the condition of its [retain] is
    inverted. *)
Theorem upload_many_keeps_uploaded limit written u u' messages q :
  Channel.recv_many limit (up_queue u) = Some (messages, q) →
  (∀ v, v ∈ up_current_tasks u → um_id v ∉ um_id <$> messages) →
  Uploader.upload_many limit written u = Some u' →
  up_current_tasks u' = messages ∧ messages ≠ [].
Proof.
  intros Hr Hfresh Hu. unfold Uploader.upload_many, Uploader.take_many in Hu. rewrite Hr in Hu.
  cbn -[Uploader.save_state] in Hu. injection Hu as <-. unfold Uploader.finish_many. rewrite save_state_tasks. cbn.
  apply Channel.recv_many_Some in Hr as (_ & Hne & _). split; [|done].
  rewrite filter_app, filter_ids_none, filter_ids_all by done. done.
Qed.

(** A state saved with pending messages cannot be loaded again: the id is
    not written, and reading requires it. *)
Lemma saved_state_not_loadable ids written u :
  written = true → Channel.inspect (up_queue u) ++ up_current_tasks u ≠ [] →
  Uploader.load_state ids (Uploader.save_state written u) = Err (Anyhow "missing field id").
Proof.
  intros -> Hne. unfold Uploader.load_state, Uploader.save_state. cbn.
  by destruct (Channel.inspect (up_queue u) ++ up_current_tasks u) as [|m l].
Qed.

(** ** Witnesses *)

Definition example_msg (id : MsgId) : UploadMessage :=
  mkUploadMessage id [StorePath.mk "abc-hello"] "log/abc" "/log/abc".
Definition example_uploader : Uploader :=
  mkUploader (mkChannel [example_msg 1; example_msg 2] true) [] None.

Lemma upload_once_done_witness :
  ch_queue (up_queue (default example_uploader (Uploader.upload_once true example_uploader))) = [example_msg 2].
Proof.
  apply (upload_once_done true example_uploader _ (example_msg 1) [example_msg 2] eq_refl);
    [by intros v ?%not_elem_of_nil|reflexivity].
Defined.

Lemma upload_many_keeps_uploaded_witness :
  up_current_tasks (default example_uploader (Uploader.upload_many 5 true example_uploader)) =
  [example_msg 1; example_msg 2].
Proof.
  apply (upload_many_keeps_uploaded 5 true example_uploader _ [example_msg 1; example_msg 2]
    (mkChannel [] true) eq_refl); [by intros v ?%not_elem_of_nil|reflexivity].
Defined.
