(* ===== verification/FodChecker.v ===== *)
(** * FodChecker: fixed-output derivations of what was queued
    ([queue-runner/src/state/fod_checker.rs])

    The checker remembers derivations with a content address and, for the
    derivations handed to [to_traverse], those among their inputs. The
    concurrent branches of a traversal run one after the other; the store
    answers by the number of the query. *)

From Stdlib Require Import Ascii String.
From S2P Require Import Prelude RustStr Nix.
Local Open Scope list_scope.

Record FodChecker := mkFodChecker {
  fc_ca_derivations : gmap StorePath Derivation;
  fc_to_traverse : gset StorePath;
  fc_notify_traverse : bool
}.
#[export] Instance eta_FodChecker : Eta FodChecker := λ r,
  mkFodChecker (fc_ca_derivations r) (fc_to_traverse r) (fc_notify_traverse r).
#[export] Instance set_fc_ca : Setter fc_ca_derivations := ltac:(mk_setter fc_ca_derivations).
#[export] Instance set_fc_to : Setter fc_to_traverse := ltac:(mk_setter fc_to_traverse).
#[export] Instance set_fc_notify : Setter fc_notify_traverse := ltac:(mk_setter fc_notify_traverse).

Module FodChecker.
Section Store.
Context `{NE : NixEnv}.

Definition new : FodChecker := mkFodChecker ∅ ∅ false.

Definition add_ca_drv_parsed (drv : StorePath) (parsed : Derivation) (c : FodChecker) : FodChecker :=
  if is_ca parsed then c <| fc_ca_derivations ::= <[drv := parsed]> |> else c.
Definition to_traverse (drv : StorePath) (c : FodChecker) : FodChecker :=
  c <| fc_to_traverse ::= λ s, {[drv]} ∪ s |>.
Definition trigger_traverse (c : FodChecker) : FodChecker := c <| fc_notify_traverse := true |>.

(** [query_drv(..).ok().flatten()] *)
Definition parsed_drv (q : nat) (drv : StorePath) : option Derivation :=
  match query_drv q drv with Ok o => o | Err _ => None end.

(** The set of derivations seen so far and the results are threaded through
    the recursion; [None] is a recursion deeper than the fuel. *)
Fixpoint collect_ca_derivations (fuel q : nat) (drv : StorePath)
    (acc : gset StorePath * gmap StorePath Derivation)
  : option (gset StorePath * gmap StorePath Derivation) :=
  match fuel with
  | O => None
  | S fuel' =>
      if decide (drv ∈ acc.1) then Some acc
      else
        let acc := ({[drv]} ∪ acc.1, acc.2) in
        match parsed_drv q drv with
        | None => Some acc
        | Some parsed =>
            acc ← foldl (λ r i, acc ← r; collect_ca_derivations fuel' q (store_path_new i) acc)
                    (Some acc) (drv_input_drvs parsed);
            Some (acc.1, if is_ca parsed then <[drv := parsed]> acc.2 else acc.2)
        end
  end.

Definition traverse (fuel q : nat) (c : FodChecker) : option FodChecker :=
  acc ← foldl (λ r i, acc ← r; collect_ca_derivations fuel q i acc) (Some (∅, ∅))
          (elements (fc_to_traverse c));
  Some (c <| fc_to_traverse := ∅ |> <| fc_ca_derivations ::= λ ca, acc.2 ∪ ca |>).

(** A turn of [traverse_loop]: it waits until it is notified or the time is
    over. Only tests give [new] somebody to tell that a traversal is done. *)
Definition traverse_turn (timer_reached : bool) (fuel q : nat) (c : FodChecker) : option FodChecker :=
  if fc_notify_traverse c || timer_reached then traverse fuel q (c <| fc_notify_traverse := false |>) else None.

(** What was found is handed to [processor], in some order, and forgotten. *)
Definition process {S} `{HashIter} (processor : StorePath → Derivation → S → S) (c : FodChecker) (s : S)
  : Z * S * FodChecker :=
  let drvs := fc_ca_derivations c in
  let c := c <| fc_ca_derivations := ∅ |> in
  let '(n, s) := foldl (λ '(n, s) '(path, drv), (i64_wrap (n + 1), processor path drv s)) (0%Z, s) (iter drvs) in
  (n, s, c).

(** ** A traversal finds exactly what is below its roots *)

Section Traversal.
Context (q : nat).

(** [i] is an input of [d], as the store answers. *)
Definition input (d i : StorePath) : Prop :=
  ∃ parsed s, parsed_drv q d = Some parsed ∧ s ∈ drv_input_drvs parsed ∧ i = store_path_new s.
(** The fixed-output derivation at [d], if there is one. *)
Definition ca_drv (d : StorePath) : option Derivation :=
  parsed ← parsed_drv q d; if is_ca parsed then Some parsed else None.

Abbreviation Acc := (gset StorePath * gmap StorePath Derivation)%type.

(** What a call for [roots] makes of the derivations seen and found. *)
Record visited (roots : list StorePath) (a a' : Acc) : Prop := {
  vi_grown : a.1 ⊆ a'.1;
  vi_roots : ∀ r, r ∈ roots → r ∈ a'.1;
  vi_reached : ∀ x, x ∈ a'.1 → x ∉ a.1 → ∃ r, r ∈ roots ∧ rtc input r x;
  vi_closed : ∀ x i, x ∈ a'.1 → x ∉ a.1 → input x i → i ∈ a'.1;
  vi_old : ∀ x, x ∈ a.1 ∨ x ∉ a'.1 → a'.2 !! x = a.2 !! x;
  vi_new : ∀ x, x ∈ a'.1 → x ∉ a.1 → a'.2 !! x = match ca_drv x with Some p => Some p | None => a.2 !! x end
}.

Lemma visited_nil a : visited [] a a.
Proof. split; try done. by intros r ?%not_elem_of_nil. Qed.

Lemma visited_app l1 l2 a1 a2 a3 : visited l1 a1 a2 → visited l2 a2 a3 → visited (l1 ++ l2) a1 a3.
Proof.
  intros [G1 R1 E1 C1 O1 N1] [G2 R2 E2 C2 O2 N2].
  assert (∀ x, x ∈ a3.1 → x ∉ a1.1 → x ∈ a2.1 ∨ x ∉ a2.1) as Hd by (intros x _ _; destruct (decide (x ∈ a2.1)); auto).
  split.
  - by etrans.
  - intros r [H|H]%elem_of_app; auto.
  - intros x H3 H1. destruct (Hd x H3 H1) as [H2|H2].
    + destruct (E1 x H2 H1) as (r & Hr & Hx). exists r. split; [|done]. apply elem_of_app. by left.
    + destruct (E2 x H3 H2) as (r & Hr & Hx). exists r. split; [|done]. apply elem_of_app. by right.
  - intros x i H3 H1 Hi. destruct (Hd x H3 H1) as [H2|H2]; eauto.
  - intros x [H1|H3].
    + rewrite O2 by (left; auto). auto.
    + rewrite O2 by auto. apply O1. right. auto.
  - intros x H3 H1. destruct (Hd x H3 H1) as [H2|H2].
    + rewrite O2 by auto. auto.
    + rewrite N2 by auto. rewrite O1 by auto. done.
Qed.

(** Derivations all of whose inputs are among them. *)
Context (D : gset StorePath) (Hclosed : ∀ d i, d ∈ D → input d i → i ∈ D).

(** The node itself, after its inputs. *)
Lemma visit_leaf d a : d ∉ a.1 → parsed_drv q d = None → visited [d] a ({[d]} ∪ a.1, a.2).
Proof.
  intros Hd Hp. split; cbn.
  - set_solver.
  - intros r ->%list_elem_of_singleton. set_solver.
  - intros x Hx Hn. exists d. split; [left|]. assert (x = d) as -> by set_solver. done.
  - intros x i Hx Hn (parsed & s & Hq & _). assert (x = d) as -> by set_solver. congruence.
  - done.
  - intros x Hx Hn. assert (x = d) as -> by set_solver. unfold ca_drv. by rewrite Hp.
Qed.
Lemma visit_node d parsed a a2 : d ∉ a.1 → parsed_drv q d = Some parsed →
  visited (store_path_new <$> drv_input_drvs parsed) ({[d]} ∪ a.1, a.2) a2 →
  visited [d] a (a2.1, if is_ca parsed then <[d := parsed]> a2.2 else a2.2).
Proof.
  intros Hd Hp [G R E C O N]. cbn in *.
  assert (∀ x, x ∉ a.1 → x = d ∨ x ∉ ({[d]} ∪ a.1 : gset StorePath)) as Hx.
  { intros x Hx. destruct (decide (x = d)); [by left|right; set_solver]. }
  assert (∀ x, x ≠ d → (if is_ca parsed then <[d := parsed]> a2.2 else a2.2) !! x = a2.2 !! x) as Hne.
  { intros x Hn. destruct (is_ca parsed); [by rewrite lookup_insert_ne|done]. }
  split; cbn.
  - set_solver.
  - intros r ->%list_elem_of_singleton. set_solver.
  - intros x H2 [->|H1]%Hx; [by exists d; split; [left|]|]. destruct (E x H2 H1) as (r & (s & -> & Hs)%list_elem_of_fmap & Hr).
    exists d. split; [left|]. eapply rtc_l; [|exact Hr]. by exists parsed, s.
  - intros x i H2 [->|H1]%Hx Hi; [|by eapply C]. destruct Hi as (parsed' & s & Hq & Hs & ->). apply R.
    apply list_elem_of_fmap_2. congruence.
  - intros x H. assert (x ≠ d) as Hn by (destruct H; [congruence|set_solver]). rewrite Hne by done. apply O. set_solver.
  - intros x H2 [->|H1]%Hx.
    + unfold ca_drv. rewrite Hp. cbn. destruct (is_ca parsed); [by rewrite lookup_insert_eq|]. apply O. set_solver.
    + assert (x ≠ d) by set_solver. rewrite Hne by done. auto.
Qed.

(** A call for each of [l] with a call that does its part. *)
Lemma visit_all (f : StorePath → Acc → option Acc) n l a :
  (∀ i a, i ∈ D → size (D ∖ a.1) < n → ∃ a', f i a = Some a' ∧ visited [i] a a') →
  (∀ i, i ∈ l → i ∈ D) → size (D ∖ a.1) < n →
  ∃ a', foldl (λ r i, acc ← r; f i acc) (Some a) l = Some a' ∧ visited l a a'.
Proof.
  intros Hf. revert a. induction l as [|i l IH]; intros a Hl Hn; cbn [foldl].
  { exists a. split; [done|apply visited_nil]. }
  destruct (Hf i a) as (a1 & H1 & V1); [apply Hl; left|done|]. cbn [mbind option_bind]. rewrite H1.
  destruct (IH a1) as (a2 & H2 & V2).
  - intros j Hj. apply Hl. by right.
  - eapply Nat.le_lt_trans; [|exact Hn]. apply subseteq_size. pose proof (vi_grown _ _ _ V1). set_solver.
  - exists a2. split; [done|]. by apply (visited_app [i] l a a1 a2).
Qed.

Lemma collect_visits fuel d a :
  d ∈ D → size (D ∖ a.1) < fuel →
  ∃ a', collect_ca_derivations fuel q d a = Some a' ∧ visited [d] a a'.
Proof.
  revert d a. induction fuel as [|fuel IH]; intros d a Hd Hn; [lia|]. cbn [collect_ca_derivations].
  destruct (decide (d ∈ a.1)) as [Hin|Hout].
  { exists a. split; [done|]. split; try done. by intros r ->%list_elem_of_singleton. }
  set (a1 := ({[d]} ∪ a.1, a.2)).
  assert (size (D ∖ a1.1) < fuel) as Hn1.
  { enough (size (D ∖ a1.1) < size (D ∖ a.1)) by lia. apply subset_size. unfold a1. cbn. set_solver. }
  destruct (parsed_drv q d) as [parsed|] eqn:Ep.
  - destruct (visit_all (collect_ca_derivations fuel q) fuel (store_path_new <$> drv_input_drvs parsed) a1)
      as (a2 & H2 & V).
    + intros i a0 Hi Ha. by apply IH.
    + intros i (s & -> & Hs)%list_elem_of_fmap. apply (Hclosed d); [done|]. exists parsed, s. done.
    + done.
    + rewrite foldl_fmap in H2. rewrite H2. cbn [mbind option_bind].
      eexists. split; [done|]. by apply (visit_node d parsed a a2).
  - exists a1. split; [done|]. by apply visit_leaf.
Qed.
(** A traversal with more fuel than there are derivations at or below its
    roots succeeds. It remembers the fixed-output derivations among exactly
    those, each once however many derivations use it, and drops nothing. *)
Theorem traverse_exact fuel c :
  fc_to_traverse c ⊆ D → size D < fuel →
  ∃ c', traverse fuel q c = Some c' ∧ fc_to_traverse c' = ∅ ∧ fc_notify_traverse c' = fc_notify_traverse c ∧
    ∀ d, ((∃ r, r ∈ fc_to_traverse c ∧ rtc input r d) →
            fc_ca_derivations c' !! d = match ca_drv d with Some p => Some p | None => fc_ca_derivations c !! d end) ∧
         ((∀ r, r ∈ fc_to_traverse c → ¬ rtc input r d) →
            fc_ca_derivations c' !! d = fc_ca_derivations c !! d).
Proof.
  intros HD Hfuel.
  destruct (visit_all (collect_ca_derivations fuel q) fuel (elements (fc_to_traverse c)) (∅, ∅)) as (a & Ha & [_ R E C O N]).
  { intros i a Hi Hn. by apply collect_visits. }
  { intros i Hi%elem_of_elements. auto. }
  { eapply Nat.le_lt_trans; [|exact Hfuel]. apply subseteq_size. set_solver. }
  unfold traverse. rewrite Ha. cbn [mbind option_bind]. eexists. split; [done|]. split; [done|]. split; [done|]. cbn in *.
  intros d. rewrite lookup_union. split.
  - intros (r & Hr & Hd). assert (d ∈ a.1) as Hin.
    { apply elem_of_elements, R in Hr. clear Ha. induction Hd as [|r y z Hy _ IH]; [done|].
      apply IH. eapply C; [exact Hr|set_solver|exact Hy]. }
    rewrite N by set_solver. rewrite lookup_empty. by destruct (ca_drv d), (fc_ca_derivations c !! d).
  - intros Hn. rewrite O, lookup_empty by (right; intros Hin; destruct (E d Hin) as (r & Hr%elem_of_elements & Hd); [set_solver|by eapply Hn]).
    by destruct (fc_ca_derivations c !! d).
Qed.
End Traversal.
End Store.
End FodChecker.
