(* ===== verification/State.v ===== *)
(** * State: the queue runner's state and the end of a step
    ([queue-runner/src/state/mod.rs], [queue-runner/src/utils.rs])

    The [State] struct, with the graph in one heap, and the handlers that
    finish a step: [succeed_step], [fail_step], [inner_fail_job],
    [handle_previous_failure] and what they call. A handler is a computation
    on the state that may stop with an error; each database request, clock
    reading and store query happens in the order of the code. Metrics do not
    influence any of this and are left out, as is logging. *)

From Stdlib Require Import Ascii String.
From S2P Require Import NarInfo CacheCfg Stream BinaryCache.
From S2P Require Import Prelude Floats RustStr Nix Db Support Jobset Graph Result Machine Queue.
From S2P Require Import Config Uploader FodChecker.
Local Open Scope string_scope.
Local Open Scope list_scope.
Local Open Scope Z_scope.

Record World := mkWorld {
  w_heap : Heap;
  w_steps : Steps;
  w_builds : Builds;
  w_queues : InnerQueues;
  w_machines : Machines;
  w_db : Database;
  w_config : PreparedApp;
  w_remote_stores : list S3BinaryCacheClient;
  w_log_dir : string;
  w_fod_checker : option FodChecker;
  w_uploader : Uploader;
  w_notify_dispatch : bool;
  w_queries : nat
}.
#[export] Instance eta_World : Eta World := λ r,
  mkWorld (w_heap r) (w_steps r) (w_builds r) (w_queues r) (w_machines r) (w_db r) (w_config r)
    (w_remote_stores r) (w_log_dir r) (w_fod_checker r) (w_uploader r) (w_notify_dispatch r)
    (w_queries r).
#[export] Instance set_w_heap : Setter w_heap := ltac:(mk_setter w_heap).
#[export] Instance set_w_steps : Setter w_steps := ltac:(mk_setter w_steps).
#[export] Instance set_w_builds : Setter w_builds := ltac:(mk_setter w_builds).
#[export] Instance set_w_queues : Setter w_queues := ltac:(mk_setter w_queues).
#[export] Instance set_w_machines : Setter w_machines := ltac:(mk_setter w_machines).
#[export] Instance set_w_db : Setter w_db := ltac:(mk_setter w_db).
#[export] Instance set_w_config : Setter w_config := ltac:(mk_setter w_config).
#[export] Instance set_w_remote_stores : Setter w_remote_stores := ltac:(mk_setter w_remote_stores).
#[export] Instance set_w_fod_checker : Setter w_fod_checker := ltac:(mk_setter w_fod_checker).
#[export] Instance set_w_uploader : Setter w_uploader := ltac:(mk_setter w_uploader).
#[export] Instance set_w_notify : Setter w_notify_dispatch := ltac:(mk_setter w_notify_dispatch).
#[export] Instance set_w_queries : Setter w_queries := ltac:(mk_setter w_queries).

Abbreviation WM := (M World Error).

#[export] Instance World_HasQueues : Queues.HasQueues World := {|
  Queues.queues := w_queues;
  Queues.upd_queues := λ f w, w <| w_queues ::= f |>;
  Queues.heap := w_heap;
  Queues.queues_upd := λ f w, eq_refl;
  Queues.heap_upd := λ f w, eq_refl
|}.

(** What the rest of the environment answers, by the number of the query: the
    ids of [Uuid::new_v4] and whether the uploader's state file was written; a
    file of signing keys, the service of a remote store and what is in its
    bucket; a new database pool, by its address. *)
Class StateEnv : Type := {
  new_v4 : nat → Uuid;
  state_file_written : nat → bool;
  read_key_file : string → result string string;
  build_service : S3CacheConfig → result string unit;
  bucket_of : S3CacheConfig → Bucket;
  reconfigure_pool : string → result Error unit
}.

(** ** Access to the parts *)

Definition clock : WM Timestamp := λ w,
  let '(t, h) := now (w_heap w) in (Ok t, w <| w_heap := h |>).
Definition query : WM nat := λ w, (Ok (w_queries w), w <| w_queries ::= S |>).
(** The number of the first of [n] queries. *)
Definition queries (n : nat) : WM nat := λ w, (Ok (w_queries w), w <| w_queries ::= Nat.add n |>).
Definition on_heap (f : Heap → Heap) : WM unit := modify (λ w, w <| w_heap ::= f |>).
Definition on_queues (f : Heap → InnerQueues → InnerQueues) : WM unit :=
  modify (λ w, w <| w_queues ::= f (w_heap w) |>).
Definition db {A} (m : DbM A) : WM A := zoom w_db m.

(** [f] on the machine at [a], which may read the clock. *)
Definition on_machine {A} (a : addr) (f : Machine → Heap → A * (Machine * Heap)) : WM A := λ w,
  match ms_objs (w_machines w) !! a with
  | None => (Err (Anyhow "machine"), w)
  | Some m =>
      let '(r, (m, h)) := f m (w_heap w) in
      (Ok r, w <| w_machines ::= λ ms, ms <| ms_objs ::= <[a := m]> |> |> <| w_heap := h |>)
  end.
Definition machine_at (a : addr) : WM Machine := λ w,
  (ok_or (ms_objs (w_machines w) !! a) (Anyhow "machine"), w).
Definition step_at (a : addr) : WM Step := λ w,
  (ok_or (hp_steps (w_heap w) !! a) (Anyhow "step"), w).
Definition build_at (a : addr) : WM Build := λ w,
  (ok_or (hp_builds (w_heap w) !! a) (Anyhow "build"), w).

Definition trigger_dispatch : WM unit := modify (λ w, w <| w_notify_dispatch := true |>).

(** An operation on the first remote store, if there is one; a panic ends the
    handler. *)
Definition on_first_store {A} (m : CM A) : WM (option (result CacheError A)) := λ w,
  match w_remote_stores w with
  | [] => (Ok None, w)
  | c :: cs =>
      let '(r, c') := m c in
      let w' := w <| w_remote_stores := c' :: cs |> in
      match r with
      | Err Panicked => (Err (Anyhow "panic"), w')
      | r => (Ok (Some r), w')
      end
  end.

Lemma on_first_store_frame {A} (m : CM A) w : ∃ l, (on_first_store m w).2 = w <| w_remote_stores := l |>.
Proof.
  unfold on_first_store. destruct (w_remote_stores w) as [|c cs] eqn:E.
  - exists []. rewrite <-E. by destruct w.
  - destruct (m c) as [r c']. exists (c' :: cs). by destruct r as [?|[]].
Qed.

(** The queue entry of an item stays alive while the handler holds it. *)
Definition with_held {A} (a : addr) (m : WM A) : WM A :=
  on_queues (λ _ iq, iq <| iq_held ::= cons a |>);;
  r ← attempt m;
  on_queues (λ _ iq, iq <| iq_held ::= tail |>);;
  lift_result r.

(** The builds of a set, with their data. *)
Definition builds_data (l : list addr) (h : Heap) : list Build := omap (λ a, hp_builds h !! a) l.

(** More than one turn of the loop that allocates a step number is only taken
    when another transaction took the number first. *)
Definition STEP_FUEL : nat := 2.

Section Handlers.
Context `{HI : HashIter} `{FE : FloatEnv} `{TL : TimeLib} `{NE : NixEnv} `{DE : DbEnv}
  `{SL : SignLib} `{SHA : Sha256Lib} `{CE : CacheEnv}.

(** ** [utils.rs] *)

Definition finish_tx (q : nat) (build_id step_nr : Z) (res : RemoteBuild) (machine : option string)
  : TxM unit :=
  start_time ← lift_result (RemoteBuild.get_start_time_as_i32 res);
  stop_time ← lift_result (RemoteBuild.get_stop_time_as_i32 res);
  update_build_step_in_finish (mkUpdateBuildStepInFinish build_id step_nr (rb_step_status res)
    (rb_error_msg res) start_time stop_time machine (RemoteBuild.get_overhead res)
    (RemoteBuild.get_times_built res) (RemoteBuild.get_is_non_deterministic res));;
  notify_step_finished build_id step_nr (rb_log_file res);;
  if decide (rb_step_status res = Success) then
    drv_path ← get_drv_path_from_build_step build_id step_nr;
    match drv_path with
    | None => mret tt
    | Some p =>
        drv ← lift_result (map_err Anyhow (query_drv q (store_path_new p)));
        for_each (default [] (drv_outputs <$> drv)) (λ o,
          match o_path o with
          | Some path => update_build_step_output build_id step_nr (o_name o) (print_store_path path)
          | None => mret tt
          end)
    end
  else mret tt.

Definition finish_build_step (build_id step_nr : Z) (res : RemoteBuild) (machine : option string)
  : WM unit :=
  db get;;
  q ← query;
  db (run_tx (finish_tx q build_id step_nr res machine)).

(** The closure of a path is copied to the first remote store, as far as it is
    missing there; an error is logged. *)
Definition copy_to_first_store (path : StorePath) : WM unit :=
  stores ← gets w_remote_stores;
  if decide (stores = []) then mret tt
  else
    q ← query;
    let paths_to_copy := match query_requisites q [path] false with Ok l => l | Err _ => [] end in
    on_first_store (missing ← query_missing_paths paths_to_copy; copy_paths missing false);;
    mret tt.

Definition substitute_output (o : Output) (build_id : Z) (drv_path : StorePath) : WM bool :=
  match o_path o with
  | None => mret false
  | Some path =>
      t ← clock;
      starttime ← lift_opt TryFromInt (try_i 32 (as_second t));
      q ← query;
      if negb (ffi_ensure_path q (print_store_path path)) then mret false
      else
        copy_to_first_store path;;
        t ← clock;
        stoptime ← lift_opt TryFromInt (try_i 32 (as_second t));
        db get;;
        db (run_tx (create_substitution_step STEP_FUEL starttime stoptime build_id
          (print_store_path drv_path) (o_name o, Some (print_store_path path))));;
        mret true
  end.

(** ** Helpers of the handlers *)

Definition step_outputs (s : Step) : list Output := default [] (Step.get_outputs s).
Definition outputs_arg (s : Step) : list (string * option string) :=
  (λ o, (o_name o, print_store_path <$> o_path o)) <$> step_outputs s.

(** [construct_log_file_path]: [split_at(2)] panics on a shorter name. *)
Definition construct_log_file_path (log_dir : string) (drv : StorePath) : option string :=
  let name := StorePath.base_name drv in
  if (String.length name <? 2)%nat then None
  else Some (path_join (path_join log_dir (String.substring 0 2 name +:+ "/"))
               (String.substring 2 (String.length name) name)).

Definition dependents (step : addr) : WM Step.Found := λ w,
  (ok_or (Step.dependents (w_heap w) step) Fuel, w).

(** The build of which the step is the top level, or else any build. *)
Definition choose_build (drv : StorePath) (dependents : gmap StorePath addr) : option addr :=
  match dependents !! drv with
  | Some b => Some b
  | None => head (iter_values dependents)
  end.

Definition check_cached_failure (step : addr) : WM bool :=
  s ← step_at step;
  match Step.get_outputs s with
  | None => mret false
  | Some outs =>
      conn ← attempt (db get);
      match conn with
      | Err _ => mret false
      | Ok _ =>
          r ← attempt (db (check_if_paths_failed (omap (λ o, print_store_path <$> o_path o) outs)));
          mret (match r with Ok b => b | Err _ => false end)
      end
  end.

Context `{SE : StateEnv}.

(** [uploader.schedule_upload] *)
Definition schedule_upload (paths : list StorePath) (log_remote_path log_local_path : string) : WM unit :=
  q ← query;
  modify (λ w, w <| w_uploader ::= Uploader.schedule_upload (new_v4 q) (state_file_written q)
                     paths log_remote_path log_local_path |>).

(** ** A failed step *)

Definition get_all_indirect_builds (step : addr) : WM (gmap StorePath addr) :=
  '(indirect, steps) ← dependents step;
  (if decide (indirect = ∅) then
     modify (λ w, w <| w_steps ::= λ st, foldl (λ st d, Steps.remove d st) st (iter_keys steps) |>)
   else mret tt);;
  mret indirect.

(** A failed step is created for every dependent build, except where it would
    repeat what the build itself records. *)
Definition no_failed_step (job : Job) (step_drv : StorePath) (b : Build) : bool :=
  let status := rb_step_status (j_result job) in
  (bool_decide (status = CachedFailure) && bool_decide (b_drv_path b = step_drv)) ||
  (negb (bool_decide (status = CachedFailure)) && negb (bool_decide (status = Unsupported))
   && (j_build_id job =? b_id b)) ||
  b_finished_in_db b.

Definition failed_status (job : Job) (step_drv : StorePath) (b : Build) : BuildStatus :=
  let status := rb_step_status (j_result job) in
  if decide (b_drv_path b ≠ step_drv ∧ status = Failed) then DepFailed else status.

Definition fail_tx (machine : string) (job : Job) (s : Step) (indirect : list Build) : TxM unit :=
  let res := j_result job in
  for_each indirect (λ b,
    if no_failed_step job (st_drv_path s) b then mret tt
    else
      create_build_step STEP_FUEL None (b_id b) (print_store_path (st_drv_path s)) (Step.get_system s)
        machine (rb_step_status res) (rb_error_msg res)
        (if j_build_id job =? b_id b then None else Some (j_build_id job)) (outputs_arg s);;
      mret tt);;
  for_each indirect (λ b,
    if b_finished_in_db b then mret tt
    else
      start_time ← lift_result (RemoteBuild.get_start_time_as_i32 res);
      stop_time ← lift_result (RemoteBuild.get_stop_time_as_i32 res);
      update_build_after_failure (b_id b) (failed_status job (st_drv_path s) b) start_time stop_time
        (bool_decide (rb_step_status res = CachedFailure)));;
  if negb (bool_decide (rb_step_status res = CachedFailure)) && rb_can_cache res then
    for_each (step_outputs s) (λ o,
      match o_path o with
      | Some p => insert_failed_paths (print_store_path p)
      | None => mret tt
      end)
  else mret tt.

Definition finish_all (l : list addr) (h : Heap) : Heap :=
  foldl (λ h a, upd_build a (Build.set_finished_in_db true) h) h l.
Definition remove_all (bs : list Build) (r : Builds) : Builds :=
  foldl (λ r b, Builds.remove_by_id (b_id b) r) r bs.

(** The builds of [l] are finished and leave the registry. *)
Definition retire (l : list addr) : WM (list BuildID) :=
  bs ← gets (λ w, builds_data l (w_heap w));
  on_heap (finish_all l);;
  modify (λ w, w <| w_builds ::= remove_all bs |>);;
  mret (b_id <$> bs).

(** The loop: [get_dependents] returns one build per derivation path, and the
    next turn finds the others, if any. *)
Fixpoint fail_loop (fuel : nat) (machine : string) (job : Job) (step : addr)
    (step_finished : bool) (dependent_ids : list BuildID) : WM (list BuildID) :=
  match fuel with
  | O => throw Fuel
  | S fuel' =>
      indirect ← get_all_indirect_builds step;
      if bool_decide (indirect = ∅) && step_finished then mret dependent_ids
      else
        db get;;
        s ← step_at step;
        let l := iter_values indirect in
        bs ← gets (λ w, builds_data l (w_heap w));
        db (run_tx (fail_tx machine job s bs));;
        ids ← retire l;
        fail_loop fuel' machine job step true (dependent_ids ++ ids)
  end.

(** Every turn but the first and the last finishes a build. *)
Definition fail_fuel (h : Heap) : nat := 2 + size (hp_builds h).

Definition inner_fail_job (machine : option addr) (job : Job) (step : addr) : WM unit :=
  job ← (if RemoteBuild.has_stop_time (j_result job) then mret job
         else t ← clock; mret (job <| j_result ::= RemoteBuild.set_stop_time_now t |>));
  hostname ← (match machine with
              | None => mret None
              | Some a => m ← machine_at a; mret (Some (mc_hostname m))
              end);
  (if j_step_nr job =? 0 then mret tt
   else finish_build_step (j_build_id job) (j_step_nr job) (j_result job) hostname);;
  fuel ← gets (λ w, fail_fuel (w_heap w));
  ids ← fail_loop fuel (default "" hostname) job step false [];
  db get;;
  db (run_tx (notify_build_finished (j_build_id job) ids));;
  trigger_dispatch.

(** [retry_interval * retry_backoff.powf((tries - 1) as f32)], in seconds. *)
Definition retry_delta (interval backoff : f32) (tries : Z) : Z :=
  to_i64 (f32_mul interval (powf backoff (f32_of_Z (u32_wrap (tries - 1))))).

(** [Timestamp + SignedDuration] panics outside the range. *)
Definition add_secs (t : Timestamp) (secs : Z) : result Error Timestamp :=
  let r := t + secs * 10 ^ 9 in if ts_valid r then Ok r else Err (Anyhow "timestamp").

(** The item taken out of [scheduled], with its entry's step. *)
Definition take_scheduled (drv : StorePath) : WM ScheduledItem := λ w,
  let '(item, iq) := Queues.remove_job_from_scheduled drv (w_queues w) in
  (ok_or item (Anyhow "Step is missing in queues.scheduled"), w <| w_queues := iq |>).
Definition step_of_item (item : ScheduledItem) : WM addr := λ w,
  (ok_or (si_step <$> iq_infos (w_queues w) !! it_step_info item) (Anyhow "step_info"), w).

Definition take_job (machine : addr) (drv : StorePath) : WM Job :=
  job ← on_machine machine (Machine.remove_job drv);
  lift_opt (Anyhow "Job is missing in machine.jobs") job.

(** The common beginning of [succeed_step] and [fail_step]: the item leaves
    [scheduled], the step's flag is set, the job leaves the machine; then the
    rest [k] runs while the entry is held. *)
Definition take_and (drv : StorePath) (finished : bool) (k : ScheduledItem → addr → Job → WM unit) : WM unit :=
  item ← take_scheduled drv;
  with_held (it_step_info item) (
    step ← step_of_item item;
    on_heap (upd_step step (Step.set_finished finished));;
    job ← take_job (it_machine item) drv;
    k item step job).

(** [fail_step] once the job is taken: retried, or failed for good. *)
Definition fail_taken (item : ScheduledItem) (step : addr) (job : Job) (state : BuildResultState)
    (timings : BuildTimings) : WM unit :=
  t ← clock;
  let res := RemoteBuild.set_stop_time_now t
    (RemoteBuild.update_with_result_state state ((j_result job) <| rb_step_status := Failed |>)) in
  res ← lift_result (RemoteBuild.set_overhead (BuildTimings.get_overhead timings) res);
  let job := job <| j_result := res |> in
  on_machine (it_machine item) (λ m h,
    let '(s, h) := Stats.track_build_failure timings (RemoteBuild.get_total_step_time_ms res) (mc_stats m) h in
    (tt, (m <| mc_stats := s |>, h)));;
  retry ← (if rb_can_retry res then
             on_heap (upd_step step (λ s, s <| st_tries ::= λ n, u32_wrap (n + 1) |>));;
             s ← step_at step;
             max_retries ← gets (λ w, pa_max_retries (w_config w));
             mret (if st_tries s <? max_retries then Some (st_tries s) else None)
           else mret None);
  match retry with
  | Some tries =>
      cfg ← gets w_config;
      t ← clock;
      after ← lift_result (add_secs t (retry_delta (pa_retry_interval cfg) (pa_retry_backoff cfg) tries));
      on_heap (upd_step step (Step.set_after after));;
      on_queues (λ _, Queues.upd_info (it_step_info item) (λ i, i <| si_already_scheduled := false |>));;
      m ← machine_at (it_machine item);
      finish_build_step (j_build_id job) (j_step_nr job) res (Some (mc_hostname m));;
      trigger_dispatch
  | None =>
      on_queues (λ h, Queues.remove_job h (it_step_info item) (it_build_queue item));;
      inner_fail_job (Some (it_machine item)) job step
  end.

Definition fail_step (drv : StorePath) (state : BuildResultState) (timings : BuildTimings) : WM unit :=
  take_and drv false (λ item step job, fail_taken item step job state timings).

(** ** A successful step *)

Definition succeed_tx (job : Job) (output : BuildOutput) (direct : list Build) : TxM unit :=
  start_time ← lift_result (RemoteBuild.get_start_time_as_i32 (j_result job));
  stop_time ← lift_result (RemoteBuild.get_stop_time_as_i32 (j_result job));
  for_each direct (λ b,
    mark_succeeded_build (get_mark_build_sccuess_data b output)
      (negb (j_build_id job =? b_id b) || rb_is_cached (j_result job)) start_time stop_time).

Definition succeed_taken (item : ScheduledItem) (step : addr) (job : Job) (output : BuildOutput) : WM unit :=
  on_queues (λ h, Queues.remove_job h (it_step_info item) (it_build_queue item));;
  t ← clock;
  let res := RemoteBuild.set_stop_time_now t ((j_result job) <| rb_step_status := Success |>) in
  res ← lift_result (RemoteBuild.set_overhead (BuildTimings.get_overhead (out_timings output)) res);
  let job := job <| j_result := res |> in
  on_machine (it_machine item) (λ m h,
    (tt, (m <| mc_stats ::= Stats.track_build_success (out_timings output)
                              (RemoteBuild.get_total_step_time_ms res) |>, h)));;
  m ← machine_at (it_machine item);
  finish_build_step (j_build_id job) (j_step_nr job) res (Some (mc_hostname m));;
  upload ← gets (λ w, negb (bool_decide (w_remote_stores w = [])) && negb (pa_use_presigned_uploads (w_config w)));
  (if upload : bool then
     schedule_upload (iter_values (out_outputs output)) ("log/" +:+ StorePath.base_name (j_path job))
       (rb_log_file res)
   else mret tt);;
  s ← step_at step;
  direct ← gets (λ w, Step.get_direct_builds (w_heap w) s);
  (if decide (direct = []) then modify (λ w, w <| w_steps ::= Steps.remove (st_drv_path s) |>) else mret tt);;
  bs ← gets (λ w, builds_data direct (w_heap w));
  db get;;
  db (run_tx (succeed_tx job output bs));;
  ids ← retire direct;
  db get;;
  db (run_tx (for_each ids (λ id, notify_build_finished id [])));;
  on_heap (Step.make_rdeps_runnable step);;
  trigger_dispatch.

Definition succeed_step (drv : StorePath) (output : BuildOutput) : WM unit :=
  take_and drv true (λ item step job, succeed_taken item step job output).

(** ** By the id of the job *)

Definition drv_of_job (build_id machine_id : Uuid) : WM StorePath :=
  m ← gets (λ w, a ← Machines.get_machine_by_id machine_id (w_machines w); ms_objs (w_machines w) !! a);
  m ← lift_opt (Anyhow "Machine with machine_id not found") m;
  lift_opt (Anyhow "Job with build_id not found") (Machine.get_job_drv_for_build_id build_id m).

Definition succeed_step_by_uuid (build_id machine_id : Uuid) (output : BuildOutput) : WM unit :=
  drv ← drv_of_job build_id machine_id; succeed_step drv output.
Definition fail_step_by_uuid (build_id machine_id : Uuid) (state : BuildResultState)
    (timings : BuildTimings) : WM unit :=
  drv ← drv_of_job build_id machine_id; fail_step drv state timings.

Definition update_build_step (build_id machine_id : Uuid) (step_status : StepStatus) : WM unit :=
  r ← gets (λ w, a ← Machines.get_machine_by_id machine_id (w_machines w);
                 m ← ms_objs (w_machines w) !! a;
                 Machine.get_build_id_and_step_nr_by_uuid build_id m);
  match r with
  | None => mret tt
  | Some (build_id, step_nr) =>
      db get;; db (Db.update_build_step (mkUpdateBuildStep build_id step_nr step_status))
  end.

(** ** A build that needs a step known to fail *)

(** The first output with an earlier failed step; a failing query is passed
    over. *)
Fixpoint propagated_from_outputs (drv_path : StorePath) (outputs : list Output) : TxM Z :=
  match outputs with
  | [] => mret 0
  | o :: os =>
      r ← attempt (match o_path o with
                   | Some path => get_last_build_step_id_for_output_path (print_store_path path)
                   | None => get_last_build_step_id_for_output_with_drv (print_store_path drv_path) (o_name o)
                   end);
      match r with
      | Ok (Some id) => mret id
      | _ => propagated_from_outputs drv_path os
      end
  end.

Definition previous_failure_tx (now : Z) (b : Build) (s : Step) : TxM unit :=
  id ← get_last_build_step_id (print_store_path (st_drv_path s));
  propagated_from ← (if default 0 id =? 0 then propagated_from_outputs (st_drv_path s) (step_outputs s)
                     else mret (default 0 id));
  create_build_step STEP_FUEL None (b_id b) (print_store_path (st_drv_path s)) (Step.get_system s) ""
    CachedFailure None (Some propagated_from) (outputs_arg s);;
  update_build_after_previous_failure now (b_id b)
    (if decide (st_drv_path s = b_drv_path b) then Failed else DepFailed);;
  attempt (notify_build_finished (b_id b) []);;
  mret tt.

Definition handle_previous_failure (build step : addr) : WM unit :=
  b ← build_at build;
  if b_finished_in_db b then mret tt
  else
    db get;;
    s ← step_at step;
    t ← clock;
    db (run_tx (previous_failure_tx (as_second t) b s));;
    on_heap (upd_build build (Build.set_finished_in_db true)).

End Handlers.
