(* ===== verification/FailJob.v ===== *)
(** * FailJob: failing a step fails every build that needs it

    [inner_fail_job] and its loop: when it reports success, no unfinished
    build depends on the step any more, and every build that did is finished
    in the database and has left the registry; on a database that answers, it
    does report success. *)

From Stdlib Require Import Ascii String.
From S2P Require Import Prelude Floats RustStr Nix Db Support Jobset Graph Dependents Result Machine.
From S2P Require Import Queue Config Uploader FodChecker State StateInv.
Local Open Scope list_scope.
Local Open Scope Z_scope.

(** ** Transactions that report success *)

(** From tables with [P], a transaction that is not aborted either fails or
    ends, not aborted, in tables with [Q]. *)
Definition tx_ensures {A} (P : Tables → Prop) (m : TxM A) (Q : A → Tables → Prop) : Prop :=
  ∀ tx, tx_aborted tx = false → P (tx_tables tx) →
  match m tx with
  | (Ok a, tx') => tx_aborted tx' = false ∧ Q a (tx_tables tx')
  | (Err _, _) => True
  end.

Section Ensures.
Context {A B : Type}.

Lemma ensures_bind P (m : TxM A) R (f : A → TxM B) Q :
  tx_ensures P m R → (∀ a, tx_ensures (R a) (f a) Q) → tx_ensures P (m ≫= f) Q.
Proof.
  intros Hm Hf tx Ha Hp. rewrite bind_run. specialize (Hm tx Ha Hp).
  destruct (m tx) as [[a|e] tx']; [|done]. destruct Hm as [Ha' HR]. by apply (Hf a).
Qed.

Lemma ensures_ret (P : Tables → Prop) (a : A) : tx_ensures P (mret a) (λ _, P).
Proof. by intros tx. Qed.

Lemma ensures_lift (P : Tables → Prop) (r : result Error A) : tx_ensures P (lift_result r) (λ _, P).
Proof. intros tx Ha Hp. unfold lift_result. by destruct r. Qed.

Lemma ensures_exec (P : Tables → Prop) (f : Tables → option (A * Tables)) (Q : A → Tables → Prop) :
  (∀ t a t', P t → f t = Some (a, t') → Q a t') → tx_ensures P (tx_exec f) Q.
Proof.
  intros Hf tx Ha Hp. unfold tx_exec. rewrite Ha.
  destruct (next_fault (tx_faults tx)) as [[] fs]; [done|].
  destruct (f (tx_tables tx)) as [[a t]|] eqn:E; cbn; eauto.
Qed.

Lemma ensures_query (P : Tables → Prop) (f : Tables → A) : tx_ensures P (tx_query f) (λ _, P).
Proof. apply ensures_exec. by intros t a t' H [= <- <-]. Qed.

End Ensures.

Lemma ensures_update (P : Tables → Prop) (f : Tables → Tables) (Q : unit → Tables → Prop) :
  (∀ t, P t → Q tt (f t)) → tx_ensures P (tx_update f) Q.
Proof. intros Hf. apply ensures_exec. intros t a t' H [= <- <-]. auto. Qed.

(** A committed transaction is in the database. *)
Lemma run_tx_ensures {A} (P : Tables → Prop) (m : TxM A) (Q : A → Tables → Prop) d a d' :
  tx_ensures P m Q → P (db_tables d) → run_tx m d = (Ok a, d') → Q a (db_tables d').
Proof.
  intros Hm Hp H. unfold run_tx in H. destruct (next_fault (db_faults d)) as [[] fs]; [done|].
  specialize (Hm (mkTransaction (db_tables d) false fs) eq_refl Hp).
  destruct (m _) as [[a0|e] tx]; [|done]. destruct Hm as [Ha HQ].
  destruct (next_fault (tx_faults tx)) as [[] fs']; [done|]. rewrite Ha in H. by simplify_eq/=.
Qed.

(** No row of the build says that it is not finished. *)
Definition finished_in (id : BuildID) (t : Tables) : Prop :=
  ∀ r, r ∈ t_builds t → r_id r = id → r_finished r ≠ 0.

Lemma finished_in_same id t t' : t_builds t' = t_builds t → finished_in id t → finished_in id t'.
Proof. unfold finished_in. by intros ->. Qed.

Lemma finished_in_update id p f t :
  (∀ r, r_id (f r) = r_id r ∧ r_finished (f r) = 1) →
  finished_in id t → finished_in id (t <| t_builds ::= map_if p f |>).
Proof.
  intros Hf Ht r Hr Hid. cbn in Hr. apply list_elem_of_fmap in Hr as (r0 & -> & Hr0).
  destruct (p r0); [destruct (Hf r0); lia|by apply Ht].
Qed.

Section Env.
Context `{HI : HashIter} `{FE : FloatEnv} `{TL : TimeLib} `{NE : NixEnv} `{DE : DbEnv} `{SE : StateEnv}.

(** A property of the builds table that statements on other tables keep. *)
Lemma ensures_other (P : Tables → Prop) (f : Tables → Tables) :
  (∀ t t', t_builds t' = t_builds t → P t → P t') → (∀ t, t_builds (f t) = t_builds t) →
  tx_ensures P (tx_update f) (λ _, P).
Proof. intros HP Hf. apply ensures_update. intros t. apply HP, Hf. Qed.

Section Other.
Context (P : Tables → Prop) (HP : ∀ t t', t_builds t' = t_builds t → P t → P t').

Lemma ensures_insert_loop fuel b mk : tx_ensures P (insert_step_loop fuel b mk) (λ _, P).
Proof.
  induction fuel as [|fuel IH]; cbn [insert_step_loop]; [by intros tx|].
  eapply ensures_bind; [apply ensures_query|intros n].
  apply (ensures_bind _ _ (λ _, P)); [|intros []; [apply ensures_ret|apply IH]].
  apply ensures_exec. intros t a t' Ht H. case_match; simplify_eq; [done|]. by apply (HP t).
Qed.

Lemma ensures_create_build_step fuel st b d p m s e pf os :
  tx_ensures P (create_build_step fuel st b d p m s e pf os) (λ _, P).
Proof.
  unfold create_build_step. eapply ensures_bind; [apply ensures_insert_loop|intros n].
  apply (ensures_bind _ _ (λ _, P)); [|intros _; apply (ensures_bind _ _ (λ _, P)); [|intros _; apply ensures_ret]].
  - unfold insert_build_step_outputs. destruct (map _ os); [apply ensures_ret|by apply ensures_other].
  - destruct (decide _); [by apply ensures_other|apply ensures_ret].
Qed.

Lemma ensures_failed_paths p : tx_ensures P (insert_failed_paths p) (λ _, P).
Proof.
  apply ensures_exec. intros t a t' Ht H. case_match; simplify_eq. by apply (HP t).
Qed.

Lemma ensures_for_each_keep {A} (f : A → TxM unit) l :
  (∀ x, x ∈ l → tx_ensures P (f x) (λ _, P)) → tx_ensures P (for_each l f) (λ _, P).
Proof.
  induction l as [|x l IH]; intros Hf; cbn [for_each]; [apply ensures_ret|].
  eapply ensures_bind; [apply Hf; left|]. intros []. apply IH. intros y Hy. apply Hf. by right.
Qed.
End Other.

(** What a turn of the loop commits: the builds it found are finished, and so
    is every build that was. *)
Lemma fail_tx_ensures m job s bs (done : list BuildID) :
  Forall (λ b, b_finished_in_db b = false) bs →
  tx_ensures (λ t, ∀ id, id ∈ done → finished_in id t) (fail_tx m job s bs)
    (λ _ t, ∀ id, id ∈ done ++ (b_id <$> bs) → finished_in id t).
Proof.
  intros Hbs. unfold fail_tx.
  set (P := λ t, ∀ id, id ∈ done → finished_in id t).
  set (Q := λ t, ∀ id, id ∈ done ++ (b_id <$> bs) → finished_in id t).
  assert (∀ t t', t_builds t' = t_builds t → P t → P t') as HP.
  { intros t t' E H id Hid. by eapply finished_in_same, H. }
  assert (∀ t t', t_builds t' = t_builds t → Q t → Q t') as HQ.
  { intros t t' E H id Hid. by eapply finished_in_same, H. }
  apply (ensures_bind _ _ (λ _, P)).
  { apply ensures_for_each_keep. intros b _. destruct (no_failed_step _ _ _); [apply ensures_ret|].
    apply (ensures_bind _ _ (λ _, P)); [by apply ensures_create_build_step|intros ?; apply ensures_ret]. }
  intros _. apply (ensures_bind _ _ (λ _, Q)).
  - enough (∀ dn, tx_ensures (λ t, ∀ id, id ∈ dn → finished_in id t)
      (for_each bs (λ b, if b_finished_in_db b then mret () else
        start_time ← lift_result (RemoteBuild.get_start_time_as_i32 (j_result job));
        stop_time ← lift_result (RemoteBuild.get_stop_time_as_i32 (j_result job));
        update_build_after_failure (b_id b) (failed_status job (st_drv_path s) b) start_time stop_time
          (bool_decide (rb_step_status (j_result job) = CachedFailure))))
      (λ _ t, ∀ id, id ∈ dn ++ (b_id <$> bs) → finished_in id t)) as H by apply H.
    clear -Hbs. induction Hbs as [|b bs Hb _ IH]; intros dn; cbn [for_each].
    { cbn. rewrite app_nil_r. apply ensures_ret. }
    apply (ensures_bind _ _ (λ _ t, ∀ id, id ∈ dn ++ [b_id b] → finished_in id t)).
    + rewrite Hb. do 2 (eapply ensures_bind; [apply ensures_lift|intros ?]).
      apply ensures_update. intros t Ht id [Hid| ->%list_elem_of_singleton]%elem_of_app.
      * apply finished_in_update; [done|auto].
      * intros r Hr Hid. cbn in Hr. apply list_elem_of_fmap in Hr as (r0 & -> & _).
        destruct ((r_id r0 =? b_id b) && (r_finished r0 =? 0)) eqn:E; [cbn; lia|].
        intros Hfin. rewrite Hid, Hfin, Z.eqb_refl in E. done.
    + intros []. rewrite fmap_cons. change (b_id b :: (b_id <$> bs)) with ([b_id b] ++ (b_id <$> bs)).
      rewrite app_assoc. apply IH.
  - intros _. destruct (negb _ && _); [|apply ensures_ret].
    apply ensures_for_each_keep. intros o _.
    destruct (o_path o); [by apply ensures_failed_paths|apply ensures_ret].
Qed.

(** ** Retiring builds *)

#[local] Arguments finish_all : simpl never.
#[local] Arguments remove_all : simpl never.

Lemma finish_all_lookup l h a :
  hp_builds (finish_all l h) !! a =
  if decide (a ∈ l) then Build.set_finished_in_db true <$> hp_builds h !! a else hp_builds h !! a.
Proof.
  revert h. induction l as [|b l IH]; intros h.
  { by rewrite decide_False by apply not_elem_of_nil. }
  change (finish_all (b :: l) h) with (finish_all l (upd_build b (Build.set_finished_in_db true) h)).
  rewrite IH. cbn. destruct (decide (a = b)) as [->|Hne].
  - rewrite lookup_alter_eq. rewrite (decide_True (P := b ∈ b :: l)) by left.
    destruct (decide (b ∈ l)); [|done]. by destruct (hp_builds h !! b) as [[]|].
  - rewrite lookup_alter_ne by done. destruct (decide (a ∈ l)).
    + by rewrite decide_True by (by right).
    + rewrite decide_False; [done|]. by intros [|]%elem_of_cons.
Qed.

Lemma finish_all_steps l h :
  hp_steps (finish_all l h) = hp_steps h.
Proof. revert h. induction l as [|b l IH]; intros h; [done|].
  change (finish_all (b :: l) h) with (finish_all l (upd_build b (Build.set_finished_in_db true) h)). by rewrite IH.
Qed.

Lemma remove_all_lookup (bs : list Build) (r : Builds) id :
  remove_all bs r !! id =
  if decide (id ∈ b_id <$> bs) then None else r !! id.
Proof.
  revert r. induction bs as [|b bs IH]; intros r; cbn [fmap list_fmap].
  { by rewrite decide_False by apply not_elem_of_nil. }
  change (remove_all (b :: bs) r) with (remove_all bs (Builds.remove_by_id (b_id b) r)).
  rewrite IH. unfold Builds.remove_by_id. destruct (decide (id = b_id b)) as [->|Hne].
  - rewrite lookup_delete_eq. rewrite (decide_True (P := b_id b ∈ b_id b :: _)) by left. by destruct (decide _).
  - rewrite lookup_delete_ne by done. destruct (decide (id ∈ b_id <$> bs)).
    + by rewrite decide_True by (by right).
    + rewrite decide_False; [done|]. by intros [|]%elem_of_cons.
Qed.

(** ** The loop *)

(** How the state after some turns relates to the state before: the steps are
    the same, and a build has changed only by becoming finished, here, in the
    registry and in the database. *)
Definition retired (w : World) (ids : list BuildID) (b0 : Build) : Prop :=
  finished_in (b_id b0) (db_tables (w_db w)) ∧ w_builds w !! b_id b0 = None ∧ b_id b0 ∈ ids.

Record failing (w0 w : World) (ids : list BuildID) : Prop := {
  fl_steps : hp_steps (w_heap w) = hp_steps (w_heap w0);
  fl_builds : ∀ a, match hp_builds (w_heap w0) !! a with
    | Some b0 => hp_builds (w_heap w) !! a = Some b0 ∨
                 (hp_builds (w_heap w) !! a = Some (Build.set_finished_in_db true b0) ∧ retired w ids b0)
    | None => hp_builds (w_heap w) !! a = None
    end;
  fl_ids : ∀ id, id ∈ ids → finished_in id (db_tables (w_db w)) ∧ w_builds w !! id = None
}.

Lemma failing_refl w : failing w w [].
Proof.
  split; [done| |by intros id ?%not_elem_of_nil].
  intros a. destruct (hp_builds (w_heap w) !! a); auto.
Qed.

Lemma drv_inj_same h h' : hp_steps h' = hp_steps h → drv_inj h → drv_inj h'.
Proof. unfold drv_inj. by intros ->. Qed.

Lemma retire_run l w :
  retire l w = (Ok (b_id <$> builds_data l (w_heap w)),
    w <| w_heap ::= finish_all l |> <| w_builds ::= remove_all (builds_data l (w_heap w)) |>).
Proof. done. Qed.

(** A turn: the transaction's effect on the database and the retirement of
    its builds. *)
Lemma failing_turn w0 w ids l d :
  failing w0 w ids →
  (∀ id, id ∈ ids ++ (b_id <$> builds_data l (w_heap w)) → finished_in id (db_tables d)) →
  failing w0 (retire l (w <| w_db := d |>)).2 (ids ++ (b_id <$> builds_data l (w_heap w))).
Proof.
  intros [F1 F2 F3] Hd. rewrite retire_run. cbn [snd].
  set (bs := builds_data l (w_heap w)) in *. split; cbn -[finished_in].
  - by rewrite finish_all_steps.
  - intros a. specialize (F2 a). rewrite finish_all_lookup.
    destruct (hp_builds (w_heap w0) !! a) as [b0|]; [|rewrite F2; by destruct (decide _)].
    assert (∀ b, hp_builds (w_heap w) !! a = Some b → b_id b = b_id b0) as Hsame.
    { intros b Hb. destruct F2 as [F2|[F2 _]]; rewrite F2 in Hb; by injection Hb as <-. }
    unfold retired. cbn -[finished_in]. fold bs. rewrite remove_all_lookup.
    destruct (decide (a ∈ l)) as [Ha|Ha].
    + right. assert (is_Some (hp_builds (w_heap w) !! a)) as [b Hb] by (destruct F2 as [->|[-> _]]; eauto).
      assert (b_id b0 ∈ b_id <$> bs) as Hin.
      { rewrite <-(Hsame b Hb). apply list_elem_of_fmap_2. unfold bs, builds_data.
        apply list_elem_of_omap. eauto. }
      split; [destruct F2 as [->|[-> _]]; done|]. rewrite decide_True by done.
      split; [apply Hd|split; [done|]]; by apply elem_of_app; right.
    + destruct F2 as [F2|[F2 (G1 & G2 & G3)]]; [by left|right]. split; [done|].
      split; [apply Hd|split]; [by apply elem_of_app; left| |by apply elem_of_app; left].
      by destruct (decide _).
  - intros id Hid. split; [by apply Hd|]. fold bs. rewrite remove_all_lookup.
    destruct (decide _); [done|]. apply elem_of_app in Hid as [Hid|]; [|done]. by apply F3.
Qed.

(** The parts of the state that [failing] looks at. *)
Definition same_core (w w' : World) : Prop :=
  w_heap w' = w_heap w ∧ w_builds w' = w_builds w ∧ db_tables (w_db w') = db_tables (w_db w).

Lemma failing_same w0 w w' ids : same_core w w' → failing w0 w ids → failing w0 w' ids.
Proof.
  intros (E1 & E2 & E3) [F1 F2 F3]. split; unfold retired in *; by rewrite ?E1, ?E2, ?E3.
Qed.

Lemma indirect_run step w r w1 :
  get_all_indirect_builds step w = (r, w1) →
  same_core w w1 ∧ w_db w1 = w_db w ∧
  match Step.dependents (w_heap w) step with
  | Some found => r = Ok found.1
  | None => r = Err Fuel
  end.
Proof.
  unfold get_all_indirect_builds. rewrite bind_run. unfold dependents.
  destruct (Step.dependents (w_heap w) step) as [[indirect steps]|]; cbn.
  - destruct (decide (indirect = ∅)); intros [= <- <-]; done.
  - by intros [= <- <-].
Qed.

Lemma db_get_run w r w1 : db get w = (r, w1) → same_core w w1.
Proof.
  unfold db, zoom, get, conn_query, conn_exec. destruct (next_fault _) as [[] fs]; by intros [= <- <-].
Qed.

Lemma dependents_values h a s bs ss :
  drv_inj h → hp_steps h !! a = Some s → Step.dependents h a = Some (bs, ss) →
  Forall (λ b, b_finished_in_db b = false) (builds_data (iter_values bs) h) ∧
  (∀ b, b ∈ iter_values bs → ∃ bd, hp_builds h !! b = Some bd ∧ b_finished_in_db bd = false).
Proof.
  intros Hinj Ha Hd. destruct (dependents_correct h a s Hinj Ha) as (bs' & ss' & Hd' & Hok).
  rewrite Hd in Hd'. injection Hd' as <- <-.
  assert (∀ b, b ∈ iter_values bs → ∃ bd, hp_builds h !! b = Some bd ∧ b_finished_in_db bd = false) as H.
  { intros b (d & Hb)%elem_of_iter_values.
    destruct (dep_builds_sound _ _ _ _ Hok d b Hb) as (_ & _ & bd & _ & _ & _ & ? & ? & _). eauto. }
  split; [|done]. apply Forall_forall. intros bd Hbd. unfold builds_data in Hbd.
  apply list_elem_of_omap in Hbd as (b & Hb & E). destruct (H b Hb) as (bd' & E' & ?). congruence.
Qed.

Lemma fail_loop_spec fuel w0 machine job step s fin ids w ids' w' :
  drv_inj (w_heap w0) → hp_steps (w_heap w0) !! step = Some s →
  failing w0 w ids →
  fail_loop fuel machine job step fin ids w = (Ok ids', w') →
  failing w0 w' ids' ∧ ∃ ss, Step.dependents (w_heap w') step = Some (∅, ss).
Proof.
  intros Hinj Hs. revert fin ids w. induction fuel as [|fuel IH]; intros fin ids w Hf; [done|].
  cbn [fail_loop]. intros (indirect & w1 & Hi & H)%bind_Ok.
  apply indirect_run in Hi as (Hc1 & _ & Hd). destruct (Step.dependents (w_heap w) step) as [[bs ss]|] eqn:Hdep; [|done].
  injection Hd as ->. cbn [fst] in *. pose proof (failing_same _ _ _ _ Hc1 Hf) as Hf1.
  destruct (bool_decide (bs = ∅) && fin) eqn:Ex.
  - injection H as <- <-. bool_prop. subst bs. split; [done|]. destruct Hc1 as (-> & _). eauto.
  - apply bind_Ok in H as ([] & w2 & Hc2%db_get_run & H).
    pose proof (failing_same _ _ _ _ Hc2 Hf1) as Hf2.
    apply bind_Ok in H as (s' & w3 & Hs' & H). unfold step_at in Hs'. injection Hs' as Hs' <-.
    apply bind_Ok in H as (bds & w3 & [= <- <-] & H).
    apply bind_Ok in H as ([] & w4 & Htx & H).
    apply bind_Ok in H as (rids & w5 & Hr & H).
    assert (w_heap w2 = w_heap w) as Hh by (destruct Hc1 as (E1 & _), Hc2 as (E2 & _); congruence).
    assert (drv_inj (w_heap w) ∧ hp_steps (w_heap w) !! step = Some s) as [Hinj' Hs0].
    { destruct Hf as [E _ _]. rewrite E. split; [by eapply drv_inj_same|done]. }
    destruct (dependents_values _ _ _ _ _ Hinj' Hs0 Hdep) as [Hbs _].
    unfold db, zoom in Htx. destruct (run_tx _ (w_db w2)) as [[[]|] d] eqn:Hrun; [|done].
    injection Htx as <-.
    rewrite Hh in Hrun. pose proof (run_tx_ensures _ _ _ _ _ _
      (fail_tx_ensures machine job s' (builds_data (iter_values bs) (w_heap w)) ids Hbs)
      (λ id Hid, proj1 (fl_ids _ _ _ Hf2 id Hid)) Hrun) as Hd.
    pose proof (failing_turn w0 w2 ids (iter_values bs) d Hf2) as Hf3. rewrite Hh in Hf3.
    specialize (Hf3 Hd). rewrite retire_run in Hr. injection Hr as <- <-.
    cbn [fst] in H. eapply IH, H. rewrite retire_run in Hf3. cbn [snd] in Hf3.
    unfold upd in Hf3. cbn in Hf3. rewrite Hh in *. exact Hf3.
Qed.

(** ** A database that answers *)

(** Every build can still be given [k] step numbers. *)
Definition roomy (k : Z) (t : Tables) : Prop :=
  k < 2 ^ 31 - 2 ∧ ∀ s, s ∈ t_buildsteps t → - 2 ^ 31 - 1 ≤ s_stepnr s < 2 ^ 31 - 1 - k.

Lemma roomy_mono k k' t : k ≤ k' → roomy k' t → roomy k t.
Proof. intros Hk [H1 H2]. split; [lia|]. intros s Hs%H2. lia. Qed.

Lemma roomy_nrs k t b : 0 ≤ k → roomy k t → nrs_room t b = true.
Proof.
  intros Hk [_ H]. unfold nrs_room. apply forallb_forall. intros n Hn.
  apply list_elem_of_In, elem_of_step_nrs, Exists_exists in Hn as (r & Hr & _ & <-).
  specialize (H r Hr). lia.
Qed.

Lemma roomy_next k t b : roomy (k + 1) t → 0 ≤ k → next_step_nr t b < 2 ^ 31 - 1 - k.
Proof.
  intros [Hk H] H0. unfold next_step_nr. destruct (max_col (step_nrs t b)) as [v|] eqn:E; [|lia].
  apply max_col_Some in E as [Hv _]. apply elem_of_step_nrs, Exists_exists in Hv as (r & Hr & _ & <-).
  specialize (H r Hr). lia.
Qed.

Lemma next_step_nr_low k t b : roomy k t → - 2 ^ 31 - 1 ≤ next_step_nr t b.
Proof.
  intros [Hk H]. unfold next_step_nr. destruct (max_col (step_nrs t b)) as [v|] eqn:E; [|lia].
  apply max_col_Some in E as [Hv _]. apply elem_of_step_nrs, Exists_exists in Hv as (r & Hr & _ & <-).
  specialize (H r Hr). lia.
Qed.

Lemma insert_outputs_ok os t : ∃ t', insert_build_step_outputs os (tx_ok t) = (Ok tt, tx_ok t') ∧
  t_buildsteps t' = t_buildsteps t.
Proof. unfold insert_build_step_outputs. destruct os; eexists; (split; [done|]); done. Qed.

Lemma create_build_step_ok k fuel st b d p m s e pf os t :
  0 ≤ k → roomy (k + 1) t →
  ∃ n t', create_build_step (S fuel) st b d p m s e pf os (tx_ok t) = (Ok n, tx_ok t') ∧ roomy k t'.
Proof.
  intros Hk Hr. unfold create_build_step.
  set (mk := λ step_nr, mkInsertBuildStep b step_nr TBuild d s (bool_decide (s = Busy)) st
    (if decide (s = Busy) then None else st) p pf e m).
  rewrite bind_run, insert_step_loop_ok by (done || by eapply roomy_nrs; [|done]; lia).
  set (t1 := t <| t_buildsteps ::= _ |>).
  assert (roomy k t1) as Hr1.
  { destruct Hr as [Hk1 Hr]. split; [lia|]. intros r [Hin| ->%list_elem_of_singleton]%elem_of_app.
    - specialize (Hr r Hin). lia.
    - cbn. assert (- 2 ^ 31 - 1 ≤ next_step_nr t b) by (by eapply (next_step_nr_low (k + 1))).
      split; [done|]. by apply roomy_next. }
  rewrite bind_run. destruct (insert_outputs_ok
    (map (λ np, mkInsertBuildStepOutput b (next_step_nr t b) np.1 np.2) os) t1) as (t2 & -> & E2).
  rewrite bind_run. destruct (decide (s = Busy)); cbn; (do 2 eexists; split; [done|]);
    (split; [apply Hr1|]); cbn; rewrite E2; apply Hr1.
Qed.

Definition times_ok (res : RemoteBuild) : Prop :=
  is_ok (RemoteBuild.get_start_time_as_i32 res) = true ∧ is_ok (RemoteBuild.get_stop_time_as_i32 res) = true.

Lemma fail_tx_ok k m job s bs t :
  0 ≤ k → roomy (k + Z.of_nat (length bs)) t → times_ok (j_result job) → rb_can_cache (j_result job) = false →
  ∃ t', fail_tx m job s bs (tx_ok t) = (Ok tt, tx_ok t') ∧ roomy k t'.
Proof.
  intros Hk Hr [Hst Hsp] Hc. unfold fail_tx. rewrite Hc, andb_false_r, bind_run.
  match goal with |- context [for_each bs ?f (tx_ok t)] => set (f1 := f) end.
  assert (∀ bs t, roomy (k + Z.of_nat (length bs)) t →
    ∃ t', for_each bs f1 (tx_ok t) = (Ok tt, tx_ok t') ∧ roomy k t') as H1.
  { clear -Hk. induction bs as [|b bs IH]; intros t Hr; cbn [for_each].
    { exists t. split; [done|]. cbn in Hr. by rewrite Z.add_0_r in Hr. }
    assert (∃ t1, f1 b (tx_ok t) = (Ok tt, tx_ok t1) ∧ roomy (k + Z.of_nat (length bs)) t1) as (t1 & E1 & Hr1).
    { unfold f1. destruct (no_failed_step job (st_drv_path s) b).
      - exists t. split; [done|]. eapply roomy_mono, Hr. cbn. lia.
      - rewrite bind_run. destruct (create_build_step_ok (k + Z.of_nat (length bs)) 1 None (b_id b)
          (print_store_path (st_drv_path s)) (Step.get_system s) m (rb_step_status (j_result job))
          (rb_error_msg (j_result job)) (if j_build_id job =? b_id b then None else Some (j_build_id job))
          (outputs_arg s) t) as (n & t1 & E & Hr1).
        { lia. } { cbn in Hr. by replace (k + Z.of_nat (length bs) + 1) with (k + Z.of_nat (S (length bs))) by lia. }
        unfold STEP_FUEL. rewrite E. eauto. }
    rewrite bind_run, E1. by apply IH. }
  destruct (H1 bs t Hr) as (t1 & -> & Hr1). clear H1 f1. rewrite bind_run.
  destruct (RemoteBuild.get_start_time_as_i32 (j_result job)) as [st|]; [|done].
  destruct (RemoteBuild.get_stop_time_as_i32 (j_result job)) as [sp|]; [|done].
  match goal with |- context [for_each bs ?f (tx_ok t1)] => set (f2 := f) end.
  assert (∀ bs t, roomy k t → ∃ t', for_each bs f2 (tx_ok t) = (Ok tt, tx_ok t') ∧ roomy k t') as H2.
  { clear. induction bs as [|b bs IH]; intros t Hr; cbn [for_each]; [eauto|].
    rewrite bind_run. unfold f2 at 1. destruct (b_finished_in_db b); [by apply IH|].
    cbn -[for_each f2]. apply IH. done. }
  destruct (H2 bs t1 Hr1) as (t2 & -> & Hr2). eauto.
Qed.

(** *** The measure of the loop *)

Definition open_builds (h : Heap) : nat :=
  size (filter (λ kb, b_finished_in_db kb.2 = false) (hp_builds h)).

Lemma open_builds_size h : (open_builds h ≤ size (hp_builds h))%nat.
Proof. unfold open_builds. apply map_subseteq_size, map_filter_subseteq. Qed.

Lemma open_builds_finish a b h :
  hp_builds h !! a = Some b → b_finished_in_db b = false →
  open_builds h = S (open_builds (upd_build a (Build.set_finished_in_db true) h)).
Proof.
  intros Ha Hf. unfold open_builds. set (P := λ kb : addr * Build, b_finished_in_db kb.2 = false).
  assert (filter P (hp_builds (upd_build a (Build.set_finished_in_db true) h)) =
          delete a (filter P (hp_builds h))) as ->.
  { apply map_eq. intros x. apply option_eq. intros y.
    rewrite lookup_delete_Some, !map_lookup_filter_Some. cbn.
    destruct (decide (x = a)) as [->|Hne].
    - rewrite lookup_alter_eq, Ha. cbn. split; [|naive_solver]. by intros [[= <-] Hp].
    - rewrite lookup_alter_ne by done. naive_solver. }
  rewrite map_size_delete_Some.
  - assert (size (filter P (hp_builds h)) ≠ 0)%nat; [|lia].
    apply map_size_ne_0_lookup. exists a, b. by apply map_lookup_filter_Some.
  - exists b. by apply map_lookup_filter_Some.
Qed.

Lemma open_builds_finish_all l h :
  NoDup l → (∀ a, a ∈ l → ∃ b, hp_builds h !! a = Some b ∧ b_finished_in_db b = false) →
  open_builds h = (length l + open_builds (finish_all l h))%nat.
Proof.
  revert h. induction l as [|a l IH]; intros h Hnd Hl; [done|]. inv Hnd.
  change (finish_all (a :: l) h) with (finish_all l (upd_build a (Build.set_finished_in_db true) h)).
  destruct (Hl a) as (b & Hb & Hf); [left|]. rewrite (open_builds_finish a b) by done.
  rewrite (IH (upd_build a (Build.set_finished_in_db true) h)); [done|done|].
  intros x Hx. destruct (Hl x) as (bx & ? & ?); [by right|]. exists bx. split; [|done].
  cbn. rewrite lookup_alter_ne; [done|]. by intros ->.
Qed.

Lemma dependents_NoDup h a s bs ss :
  drv_inj h → hp_steps h !! a = Some s → Step.dependents h a = Some (bs, ss) → NoDup (iter_values bs).
Proof.
  intros Hinj Ha Hd. destruct (dependents_correct h a s Hinj Ha) as (bs' & ss' & Hd' & Hok).
  rewrite Hd in Hd'. injection Hd' as <- <-. unfold iter_values.
  apply NoDup_fmap_2_strong.
  - intros [d1 b1] [d2 b2] H1%elem_of_iter H2%elem_of_iter E. cbn in E. subst b2. f_equal.
    destruct (dep_builds_sound _ _ _ _ Hok _ _ H1) as (_ & _ & bd & _ & _ & _ & ? & _ & <-).
    destruct (dep_builds_sound _ _ _ _ Hok _ _ H2) as (_ & _ & bd' & _ & _ & _ & ? & _ & <-). congruence.
  - eapply NoDup_fmap_1, NoDup_iter_keys.
Qed.

Lemma finish_all_drv_inj l h : drv_inj h → drv_inj (finish_all l h).
Proof. apply drv_inj_same, finish_all_steps. Qed.

(** The loop ends: the fuel is enough and no request is refused. *)
Lemma fail_loop_total fuel machine job step s (fin : bool) ids w t k :
  drv_inj (w_heap w) → hp_steps (w_heap w) !! step = Some s → w_db w = db_ok t → 0 ≤ k →
  roomy (k + Z.of_nat (open_builds (w_heap w))) t → times_ok (j_result job) → rb_can_cache (j_result job) = false →
  ((if fin then 1 else 2) + open_builds (w_heap w) ≤ fuel)%nat →
  ∃ ids' w' t', fail_loop fuel machine job step fin ids w = (Ok ids', w') ∧ w_db w' = db_ok t' ∧
    w_machines w' = w_machines w ∧ roomy k t'.
Proof.
  revert fin ids w t. induction fuel as [|fuel IH]; intros fin ids w t Hinj Hs Hdb Hk Hroom Ht Hc Hfuel.
  { destruct fin; lia. }
  cbn [fail_loop]. rewrite bind_run. destruct (get_all_indirect_builds step w) as [r w1] eqn:Hi.
  assert (w_machines w1 = w_machines w) as Hm1.
  { revert Hi. unfold get_all_indirect_builds. rewrite bind_run. unfold dependents.
    destruct (Step.dependents (w_heap w) step) as [[? ?]|]; cbn; [destruct (decide _)|]; by intros [= _ <-]. }
  apply indirect_run in Hi as ((Hh & _) & Hdb1 & Hd).
  destruct (dependents_correct _ _ _ Hinj Hs) as (bs & ss & Hdep & _). rewrite Hdep in Hd. subst r. cbn [fst].
  destruct (dependents_values _ _ _ _ _ Hinj Hs Hdep) as [_ Hvals].
  pose proof (dependents_NoDup _ _ _ _ _ Hinj Hs Hdep) as Hnd.
  pose proof (open_builds_finish_all _ _ Hnd Hvals) as Hopen.
  destruct (bool_decide (bs = ∅) && fin) eqn:Ex.
  { exists ids, w1, t. rewrite Hdb1. repeat (split; [done|]). eapply roomy_mono, Hroom. lia. }
  rewrite bind_run. unfold db at 1, zoom. rewrite Hdb1, Hdb.
  change (get (db_ok t)) with (@Ok Error unit tt, db_ok t).
  cbn [upd set_w_db]. rewrite bind_run. unfold step_at. cbn [w_heap]. rewrite Hh, Hs. cbn [ok_or].
  rewrite bind_run. cbn [gets w_heap]. rewrite bind_run.
  assert (length (builds_data (iter_values bs) (w_heap w)) = length (iter_values bs)) as Hlen.
  { clear -Hvals. induction (iter_values bs) as [|a l IH]; [done|]. unfold builds_data. cbn.
    destruct (Hvals a) as (b & -> & _); [left|]. cbn. f_equal. apply IH. intros x Hx. apply Hvals. by right. }
  destruct (fail_tx_ok (k + Z.of_nat (open_builds (finish_all (iter_values bs) (w_heap w)))) machine job s
    (builds_data (iter_values bs) (w_heap w)) t) as (t2 & Htx & Hr2); [lia| |done|done|].
  { rewrite Hlen. replace (_ + _ + _) with (k + Z.of_nat (open_builds (w_heap w))) by lia. done. }
  unfold db, zoom. cbn [w_db]. rewrite (run_tx_ok _ _ _ _ Htx). rewrite bind_run, retire_run.
  match goal with |- context [fail_loop fuel machine job step true ?i ?w'] => set (w2 := w'); set (ids2 := i) end.
  assert (w_heap w2 = finish_all (iter_values bs) (w_heap w)) as Hh2 by (unfold w2; cbn; by rewrite ?Hh).
  destruct (IH true ids2 w2 t2) as (ids' & w' & t' & E & Hdb' & Hm' & Hr').
  - rewrite Hh2. by apply finish_all_drv_inj.
  - rewrite Hh2, finish_all_steps. done.
  - done.
  - done.
  - by rewrite Hh2.
  - done.
  - done.
  - rewrite Hh2. destruct fin; [|lia]. rewrite andb_true_r in Ex. apply bool_decide_eq_false in Ex.
    assert (length (iter_values bs) ≠ 0)%nat; [|lia]. unfold iter_values. rewrite length_fmap, length_iter.
    by apply map_size_ne_0_non_empty || (intros E0%map_size_empty_inv; done).
  - exists ids', w', t'. rewrite E. split; [done|]. split; [done|]. split; [|done].
    rewrite Hm'. unfold w2. cbn. done.
Qed.

(** ** The whole handler *)

Definition same_graph (w w' : World) : Prop :=
  hp_steps (w_heap w') = hp_steps (w_heap w) ∧ hp_builds (w_heap w') = hp_builds (w_heap w) ∧
  w_builds w' = w_builds w.

#[export] Instance same_graph_refl : Reflexive same_graph.
Proof. done. Qed.
#[export] Instance same_graph_trans : Transitive same_graph.
Proof. intros w1 w2 w3 (?&?&?) (?&?&?). split_and!; congruence. Qed.

Lemma failing_start w0 w : same_graph w0 w → failing w0 w [].
Proof.
  intros (E1 & E2 & E3). split; [done| |by intros id ?%not_elem_of_nil].
  intros a. rewrite E2. destruct (hp_builds (w_heap w0) !! a); auto.
Qed.

Lemma edge_same h h' x y : hp_steps h' = hp_steps h → rtc (edge h) x y → rtc (edge h') x y.
Proof. intros E. apply rtc_subrel. intros a b. unfold edge. by rewrite E. Qed.

Lemma db_graph {A} (m : DbM A) w r w' : db m w = (r, w') → same_graph w w'.
Proof. unfold db, zoom. destruct (m (w_db w)). by intros [= _ <-]. Qed.

Lemma finish_build_step_graph b n res m w r w' :
  finish_build_step b n res m w = (r, w') → same_graph w w'.
Proof.
  unfold finish_build_step. rewrite bind_run. destruct (db get w) as [[[]|] w1] eqn:E1.
  2: by intros [= _ <-]; eapply db_graph.
  apply db_graph in E1. rewrite bind_run. cbn [query].
  intros H%db_graph. etrans; [exact E1|]. etrans; [|exact H]. done.
Qed.

(** The job with its stop time set. *)
Definition stopped (job : Job) (w : World) : Job :=
  if RemoteBuild.has_stop_time (j_result job) then job
  else job <| j_result ::= RemoteBuild.set_stop_time_now (now (w_heap w)).1 |>.

Lemma stop_run job w : ∃ w1,
  (if RemoteBuild.has_stop_time (j_result job) then mret job
   else t ← clock; mret (job <| j_result ::= RemoteBuild.set_stop_time_now t |>)) w =
  (Ok (stopped job w), w1) ∧ same_graph w w1 ∧ w_db w1 = w_db w ∧ w_machines w1 = w_machines w.
Proof. unfold stopped. destruct (RemoteBuild.has_stop_time _); eexists; split; done. Qed.

Lemma notify_finished_in b ids d u d' id :
  run_tx (notify_build_finished b ids) d = (Ok u, d') → finished_in id (db_tables d) →
  finished_in id (db_tables d').
Proof.
  intros H Hd. apply (run_tx_ensures (finished_in id) _ (λ _, finished_in id) _ _ _) in H; [done| |done]. apply ensures_update. intros t. by apply finished_in_same.
Qed.

Lemma failing_final w0 w ids step s ss x sx a b :
  failing w0 w ids → drv_inj (w_heap w0) → hp_steps (w_heap w0) !! step = Some s →
  Step.dependents (w_heap w) step = Some (∅, ss) →
  rtc (edge (w_heap w0)) step x → hp_steps (w_heap w0) !! x = Some sx → a ∈ st_builds sx →
  hp_builds (w_heap w0) !! a = Some b → b_finished_in_db b = false →
  hp_builds (w_heap w) !! a = Some (Build.set_finished_in_db true b) ∧ retired w ids b.
Proof.
  intros [F1 F2 F3] Hinj Hs Hdep Hr Hx Ha Hb Hf. specialize (F2 a). rewrite Hb in F2.
  destruct F2 as [F2|?]; [exfalso|done].
  destruct (dependents_correct (w_heap w) step s) as (bs' & ss' & Hdep' & Hok).
  { by eapply drv_inj_same. } { by rewrite F1. }
  rewrite Hdep in Hdep'. injection Hdep' as <- <-.
  destruct (dep_builds_complete _ _ _ _ Hok x sx a b) as [? ?]; [by eapply edge_same|by rewrite F1|done..].
Qed.

Lemma inner_fail_job_spec machine job step s w w' :
  drv_inj (w_heap w) → hp_steps (w_heap w) !! step = Some s →
  inner_fail_job machine job step w = (Ok tt, w') →
  ∃ w1 ids ss, failing w w1 ids ∧ Step.dependents (w_heap w1) step = Some (∅, ss) ∧
    same_graph w1 w' ∧ ∀ id, finished_in id (db_tables (w_db w1)) → finished_in id (db_tables (w_db w')).
Proof.
  intros Hinj Hs H. unfold inner_fail_job in H. rewrite bind_run in H.
  destruct (stop_run job w) as (w1 & E1 & G1 & _). rewrite E1 in H. clear E1.
  apply bind_Ok in H as (host & w2 & E2 & H).
  assert (same_graph w1 w2) as G2.
  { destruct machine as [a|]; [|by injection E2 as _ <-].
    apply bind_Ok in E2 as (m & w2' & E & [= _ <-]). unfold machine_at in E. by injection E as _ <-. }
  apply bind_Ok in H as ([] & w3 & E3 & H).
  assert (same_graph w2 w3) as G3.
  { destruct (j_step_nr (stopped job w) =? 0); [by injection E3 as <-|by eapply finish_build_step_graph]. }
  apply bind_Ok in H as (fuel & w3' & [= _ <-] & H).
  apply bind_Ok in H as (ids & w4 & E4 & H).
  assert (same_graph w w3) as G by (etrans; [exact G1|etrans; [exact G2|exact G3]]).
  eapply (fail_loop_spec _ w) in E4 as (Hfail & ss & Hdep); [|done..|by apply failing_start].
  apply bind_Ok in H as ([] & w5 & E5 & H). apply bind_Ok in H as ([] & w6 & E6 & [= <-]).
  exists w4, ids, ss. split; [done|]. split; [done|].
  pose proof (db_graph _ _ _ _ E5) as G5. pose proof (db_graph _ _ _ _ E6) as G6.
  split; [etrans; [exact G5|exact G6]|]. intros id Hid. cbn.
  apply db_get_run in E5 as (_ & _ & E5). unfold db, zoom in E6.
  destruct (run_tx _ (w_db w5)) as [[[]|] d] eqn:Hrun; [|done]. injection E6 as <-. cbn.
  eapply notify_finished_in; [done|]. by rewrite E5.
Qed.

(** Writing the result of a step changes no step number. *)
Lemma finish_build_step_ok b n res m w t :
  w_db w = db_ok t → times_ok res → rb_step_status res ≠ Success →
  ∃ w' t', finish_build_step b n res m w = (Ok tt, w') ∧ w_db w' = db_ok t' ∧
    w_heap w' = w_heap w ∧ w_machines w' = w_machines w ∧ ∀ k, roomy k t → roomy k t'.
Proof.
  intros Hdb [Hst Hsp] Hne. unfold finish_build_step. rewrite bind_run.
  unfold db at 1, zoom. rewrite Hdb. change (get (db_ok t)) with (@Ok Error unit tt, db_ok t).
  cbn [upd set_w_db]. rewrite bind_run. cbn [query].
  destruct (RemoteBuild.get_start_time_as_i32 res) as [st|] eqn:E1; [|done].
  destruct (RemoteBuild.get_stop_time_as_i32 res) as [sp|] eqn:E2; [|done].
  assert (∃ t', finish_tx (w_queries w) b n res m (tx_ok t) = (Ok tt, tx_ok t') ∧
    ∀ k, roomy k t → roomy k t') as (t' & Htx & Hroom).
  { unfold finish_tx. rewrite E1, E2. rewrite decide_False by done. eexists. split; [done|].
    intros k [Hk Hr]. split; [done|]. intros s Hs. cbn in Hs.
    apply list_elem_of_fmap in Hs as (s0 & -> & Hs0). specialize (Hr s0 Hs0).
    by destruct ((s_build s0 =? b) && (s_stepnr s0 =? n)). }
  unfold db, zoom. cbn [w_db set_w_queries upd w_queries]. rewrite (run_tx_ok _ _ _ _ Htx).
  do 2 eexists. split; [done|]. done.
Qed.

(** ** Properties *)

(** C3: when [inner_fail_job] reports success, every unfinished build that
    depended on the step, directly or through other steps, is finished in
    memory, has left the registry of builds, and is finished in the database;
    no failure of the database in between can hide one. *)
Theorem inner_fail_job_fails_dependents machine job step s w w' :
  drv_inj (w_heap w) → hp_steps (w_heap w) !! step = Some s →
  inner_fail_job machine job step w = (Ok tt, w') →
  ∀ x sx a b, rtc (edge (w_heap w)) step x → hp_steps (w_heap w) !! x = Some sx → a ∈ st_builds sx →
    hp_builds (w_heap w) !! a = Some b → b_finished_in_db b = false →
    hp_builds (w_heap w') !! a = Some (Build.set_finished_in_db true b) ∧
    w_builds w' !! b_id b = None ∧ finished_in (b_id b) (db_tables (w_db w')).
Proof.
  intros Hinj Hs H x sx a b Hr Hx Ha Hb Hf.
  destruct (inner_fail_job_spec _ _ _ _ _ _ Hinj Hs H) as (w1 & ids & ss & Hfail & Hdep & (_ & Eb & Er) & Hfin).
  destruct (failing_final _ _ _ _ _ _ _ _ _ _ Hfail Hinj Hs Hdep Hr Hx Ha Hb Hf) as (H1 & H2 & H3 & _).
  rewrite Eb, Er. auto.
Qed.

(** C4: on a database that answers, [inner_fail_job] ends and reports success:
    the loop over the dependent builds terminates within the number of builds,
    even when several builds share a derivation. *)
Theorem inner_fail_job_terminates machine job step s w t :
  drv_inj (w_heap w) → hp_steps (w_heap w) !! step = Some s →
  match machine with Some a => is_Some (ms_objs (w_machines w) !! a) | None => True end →
  w_db w = db_ok t → roomy (Z.of_nat (open_builds (w_heap w))) t →
  times_ok (j_result (stopped job w)) → rb_step_status (j_result job) ≠ Success →
  rb_can_cache (j_result job) = false →
  ∃ w', inner_fail_job machine job step w = (Ok tt, w').
Proof.
  intros Hinj Hs Hm Hdb Hroom Htimes Hne Hc. unfold inner_fail_job. rewrite bind_run.
  destruct (stop_run job w) as (w1 & -> & (G1 & G2 & G3) & Hdb1 & Hm1).
  set (job' := stopped job w) in *.
  assert (rb_step_status (j_result job') ≠ Success ∧ rb_can_cache (j_result job') = false) as [Hne' Hc'].
  { unfold job', stopped. by destruct (RemoteBuild.has_stop_time _). }
  rewrite bind_run.
  assert (∃ host, (match machine with
    | None => mret None | Some a => m ← machine_at a; mret (Some (mc_hostname m)) end : WM (option string)) w1
    = (Ok host, w1)) as (host & ->).
  { destruct machine as [a|]; [|by eexists]. destruct Hm as [m Hm]. rewrite bind_run. unfold machine_at.
    rewrite Hm1, Hm. by eexists. }
  rewrite bind_run.
  assert (∃ w2 t2, (if j_step_nr job' =? 0 then mret tt else
      finish_build_step (j_build_id job') (j_step_nr job') (j_result job') host : WM unit) w1 = (Ok tt, w2) ∧
    w_db w2 = db_ok t2 ∧ w_heap w2 = w_heap w1 ∧ roomy (Z.of_nat (open_builds (w_heap w))) t2)
    as (w2 & t2 & -> & Hdb2 & Hh2 & Hroom2).
  { destruct (j_step_nr job' =? 0).
    - exists w1, t. by rewrite Hdb1.
    - destruct (finish_build_step_ok (j_build_id job') (j_step_nr job') (j_result job') host w1 t)
        as (w2 & t2 & ? & ? & ? & _ & Hr); [congruence|done|done|]. exists w2, t2. auto. }
  rewrite bind_run. cbn [gets]. rewrite bind_run.
  assert (open_builds (w_heap w2) = open_builds (w_heap w)) as Ho by (unfold open_builds; by rewrite Hh2, G2).
  destruct (fail_loop_total (fail_fuel (w_heap w2)) (default "" host) job' step s false [] w2 t2 0)
    as (ids & w3 & t3 & -> & Hdb3 & _); try done.
  - rewrite Hh2. by eapply drv_inj_same.
  - by rewrite Hh2, G1.
  - by rewrite Ho.
  - unfold fail_fuel. pose proof (open_builds_size (w_heap w2)). cbn. lia.
  - rewrite bind_run. unfold db at 1, zoom. rewrite Hdb3.
    change (get (db_ok t3)) with (@Ok Error unit tt, db_ok t3).
    cbn [upd set_w_db]. rewrite bind_run. unfold db, zoom. cbn [w_db]. by eexists.
Qed.

End Env.
