(* ===== verification/SucceedJob.v ===== *)
(** * SucceedJob: a successful step finishes its builds and frees its dependents

    [succeed_step]: when it reports success, the builds of which the step is
    the top level are finished in memory, in the registry and in the database,
    and no step waits for the step any more. *)

From Stdlib Require Import Ascii String.
From S2P Require Import Prelude Floats RustStr Nix Db Support Jobset Graph Dependents GraphInv Result.
From S2P Require Import Machine MachineInv Queue Config Uploader FodChecker State StateInv FailJob.
Local Open Scope list_scope.
Local Open Scope Z_scope.

(** ** Operations that leave the graph alone *)

Definition graph_pure {A} (m : WM A) : Prop := ∀ w, same_graph w (m w).2.

Section Pure.
Context {A B : Type}.

Lemma pure_bind (m : WM A) (f : A → WM B) :
  graph_pure m → (∀ a, graph_pure (f a)) → graph_pure (m ≫= f).
Proof.
  intros Hm Hf w. rewrite bind_run. specialize (Hm w). destruct (m w) as [[a|e] w1]; [|done].
  etrans; [exact Hm|apply Hf].
Qed.
Lemma pure_ret (a : A) : graph_pure (mret a).
Proof. done. Qed.
Lemma pure_gets (f : World → A) : graph_pure (gets f).
Proof. done. Qed.
Lemma pure_lift (r : result Error A) : graph_pure (lift_result r).
Proof. done. Qed.
Lemma pure_db (m : DbM A) : graph_pure (db m).
Proof. intros w. destruct (db m w) as [r w1] eqn:E. by eapply db_graph. Qed.
End Pure.

Lemma pure_modify (f : World → World) : (∀ w, same_graph w (f w)) → graph_pure (modify f).
Proof. intros H w. apply H. Qed.

(** The clock of a heap has moved. *)
Definition same_objects (h h' : Heap) : Prop :=
  hp_steps h' = hp_steps h ∧ hp_builds h' = hp_builds h.

Lemma pure_on_machine {A} a (f : Machine → Heap → A * (Machine * Heap)) :
  (∀ m h, same_objects h (f m h).2.2) → graph_pure (on_machine a f).
Proof.
  intros H w. unfold on_machine. destruct (ms_objs (w_machines w) !! a) as [m|]; [|done].
  specialize (H m (w_heap w)). destruct (f m (w_heap w)) as [r [m' h']].
  destruct H as [H1 H2]. split_and!; done.
Qed.

Lemma store_current_jobs_objects c s h : same_objects h (Stats.store_current_jobs c s h).2.
Proof. unfold Stats.store_current_jobs. by destruct (_ && _). Qed.

Lemma remove_job_objects drv m h : same_objects h (Machine.remove_job drv m h).2.2.
Proof.
  unfold Machine.remove_job.
  pose proof (store_current_jobs_objects (Z.of_nat (length (filter (λ j, j_path j ≠ drv) (mc_jobs m))))
    (Stats.incr_nr_steps_done (mc_stats m)) h) as [H1 H2].
  destruct (Stats.store_current_jobs _ _ _) as [st h1]. by split.
Qed.

Section Env.
Context `{HI : HashIter} `{FE : FloatEnv} `{TL : TimeLib} `{NE : NixEnv} `{DE : DbEnv} `{SE : StateEnv}.

Lemma finish_build_step_pure b n res m : graph_pure (finish_build_step b n res m).
Proof. intros w. destruct (finish_build_step b n res m w) eqn:E. by eapply finish_build_step_graph. Qed.

(** ** Marking a build as succeeded *)

Lemma mark_succeeded_build_ensures d c st sp (done : list BuildID) :
  mb_finished_in_db d = false →
  tx_ensures (λ t, ∀ id, id ∈ done → finished_in id t) (mark_succeeded_build d c st sp)
    (λ _ t, ∀ id, id ∈ done ++ [mb_id d] → finished_in id t).
Proof.
  intros Hd. unfold mark_succeeded_build. rewrite Hd.
  set (P := λ t, ∀ id, id ∈ done → finished_in id t).
  set (Q := λ t, ∀ id, id ∈ done ++ [mb_id d] → finished_in id t).
  assert (∀ t t', t_builds t' = t_builds t → Q t → Q t') as HQ.
  { intros t t' E H id Hid. by eapply finished_in_same, H. }
  apply (ensures_bind _ _ (λ nf t, P t ∧ (nf = false → finished_in (mb_id d) t))).
  { apply ensures_exec. intros t a t' Ht [= <- <-]. split; [done|]. intros Hn r Hr Hid Hf.
    apply bool_decide_eq_false in Hn. apply Hn.
    destruct (row_order (filter (λ r, r_id r = mb_id d ∧ r_finished r = 0) (t_builds t))) as [|x l] eqn:E; [|by eexists].
    exfalso. pose proof (row_order_perm (filter (λ r, r_id r = mb_id d ∧ r_finished r = 0) (t_builds t))) as Hp.
    rewrite E in Hp. apply Permutation_nil in Hp.
    assert (r ∈ filter (λ r, r_id r = mb_id d ∧ r_finished r = 0) (t_builds t)) as Hin
      by (apply list_elem_of_filter; auto).
    rewrite Hp in Hin. by apply not_elem_of_nil in Hin. }
  intros nf. destruct nf; cbn [negb].
  2:{ intros tx Ha [Hp Hn]. split; [done|]. intros id [Hid| ->%list_elem_of_singleton]%elem_of_app; auto. }
  do 2 (apply (ensures_bind _ _ (λ _, P));
    [intros tx Ha Hp; unfold try_i64, lift_opt, lift_result; by destruct (ok_or _ _); try destruct Hp|intros ?]).
  apply (ensures_bind _ _ (λ _, Q)).
  { apply ensures_update. intros t Ht id [Hid| ->%list_elem_of_singleton]%elem_of_app.
    - apply finished_in_update; [done|auto].
    - intros r Hr Hid. cbn in Hr. apply list_elem_of_fmap in Hr as (r0 & -> & _).
      destruct (r_id r0 =? mb_id d) eqn:E; [cbn; lia|]. lia. }
  intros _. apply (ensures_bind _ _ (λ _, Q)).
  { apply ensures_for_each_keep. intros np _. by apply ensures_other. }
  intros _. apply (ensures_bind _ _ (λ _, Q)); [by apply ensures_other|intros _].
  apply (ensures_bind _ _ (λ _, Q)).
  { generalize 0%Z. induction (mb_products d) as [|p ps IH]; intros nr; cbn [insert_products]; [apply ensures_ret|].
    apply (ensures_bind _ _ (λ _, Q)); [apply ensures_lift|intros ?].
    apply (ensures_bind _ _ (λ _, Q)); [by apply ensures_other|intros _; apply IH]. }
  intros _. apply (ensures_bind _ _ (λ _, Q)); [by apply ensures_other|intros _].
  apply ensures_for_each_keep. intros m _.
  apply (ensures_bind _ _ (λ _, Q)); [apply ensures_lift|intros ?; by apply ensures_other].
Qed.

Lemma succeed_tx_ensures job output bs (done : list BuildID) :
  Forall (λ b, b_finished_in_db b = false) bs →
  tx_ensures (λ t, ∀ id, id ∈ done → finished_in id t) (succeed_tx job output bs)
    (λ _ t, ∀ id, id ∈ done ++ (b_id <$> bs) → finished_in id t).
Proof.
  intros Hbs. unfold succeed_tx. do 2 (eapply ensures_bind; [apply ensures_lift|intros ?]).
  revert done. induction Hbs as [|b bs Hb _ IH]; intros dn; cbn [for_each].
  { cbn. rewrite app_nil_r. apply ensures_ret. }
  eapply ensures_bind; [by apply mark_succeeded_build_ensures|]. intros [].
  rewrite fmap_cons. change (b_id b :: (b_id <$> bs)) with ([b_id b] ++ (b_id <$> bs)).
  rewrite app_assoc. apply IH.
Qed.

Ltac pure :=
  repeat first
    [ apply pure_ret | apply pure_gets | apply pure_lift | apply pure_db
    | apply finish_build_step_pure
    | (apply pure_modify; intros ?; done)
    | (apply pure_on_machine; intros ? ?; done)
    | apply pure_bind; [|intros ?]
    | match goal with |- graph_pure (if ?b then _ else _) => destruct b end
    | (intros ?; done) ].

Lemma pure_Ok {A} (m : WM A) w r w' : graph_pure m → m w = (r, w') → same_graph w w'.
Proof. intros H E. specialize (H w). by rewrite E in H. Qed.

Lemma direct_builds_data h s :
  Forall (λ b, b_finished_in_db b = false) (builds_data (Step.get_direct_builds h s) h).
Proof.
  apply Forall_forall. intros b Hb. unfold builds_data in Hb. apply list_elem_of_omap in Hb as (a & Ha & Hb).
  apply list_elem_of_filter in Ha as [Hu _]. unfold unfinished in Hu. rewrite Hb in Hu. by apply negb_true_iff.
Qed.

(** The part of [succeed_taken] that precedes the transaction on the builds. *)
Lemma succeed_taken_Ok item step job output w w' :
  succeed_taken item step job output w = (Ok tt, w') →
  ∃ w1 s job' d ids w2 w3,
    same_graph w w1 ∧ hp_steps (w_heap w1) !! step = Some s ∧
    let direct := Step.get_direct_builds (w_heap w1) s in
    run_tx (succeed_tx job' output (builds_data direct (w_heap w1))) (w_db w1) = (Ok tt, d) ∧
    retire direct (w1 <| w_db := d |>) = (Ok ids, w2) ∧
    same_graph w2 w3 ∧ (∀ id, finished_in id (db_tables (w_db w2)) → finished_in id (db_tables (w_db w3))) ∧
    w' = w3 <| w_heap ::= Step.make_rdeps_runnable step |> <| w_notify_dispatch := true |>.
Proof.
  unfold succeed_taken. intros H.
  apply bind_Ok in H as (? & wa & Ea & H). apply pure_Ok in Ea; [|pure].
  apply bind_Ok in H as (? & wb & Eb & H). apply pure_Ok in Eb; [|pure].
  apply bind_Ok in H as (? & wc & Ec & H). apply pure_Ok in Ec; [|pure].
  apply bind_Ok in H as (? & wd & Ed & H). apply pure_Ok in Ed; [|pure].
  apply bind_Ok in H as (? & we & Ee & H). apply pure_Ok in Ee; [|pure].
  apply bind_Ok in H as (? & wf & Ef & H). apply pure_Ok in Ef; [|pure].
  apply bind_Ok in H as (? & wg & Eg & H). apply pure_Ok in Eg; [|pure].
  apply bind_Ok in H as (? & wh & Eh & H). apply pure_Ok in Eh; [|unfold schedule_upload; pure].
  apply bind_Ok in H as (s & wi & Ei & H). unfold step_at in Ei. injection Ei as Ei <-.
  apply ok_or_Ok in Ei.
  apply bind_Ok in H as (direct & wj & Ej & H). injection Ej as <- <-.
  apply bind_Ok in H as (? & wk & Ek & H).
  assert (same_graph wh wk ∧ w_heap wk = w_heap wh) as [Gk Hk] by (destruct (decide _); by injection Ek as _ <-).
  apply bind_Ok in H as (bs & wl & El & H). injection El as <- <-.
  apply bind_Ok in H as ([] & wm & Em & H). pose proof (db_graph _ _ _ _ Em) as Gm.
  apply db_get_run in Em as (Hm & _).
  apply bind_Ok in H as ([] & wn & En & H). unfold db, zoom in En.
  destruct (run_tx _ (w_db wm)) as [[[]|] d] eqn:Hrun; [|done]. injection En as <-.
  apply bind_Ok in H as (ids & wo & Eo & H).
  apply bind_Ok in H as ([] & wp & Ep & H). pose proof (db_graph _ _ _ _ Ep) as Gp.
  apply db_get_run in Ep as (_ & _ & Hp).
  apply bind_Ok in H as ([] & wq & Eq & H). pose proof (db_graph _ _ _ _ Eq) as Gq.
  apply bind_Ok in H as ([] & wr & [= <-] & [= <-]).
  assert (same_graph w wm) as G by (repeat (etrans; [eassumption|]); done).
  rewrite <-Hk, <-Hm in *. do 7 eexists. split; [exact G|]. split; [exact Ei|].
  split; [exact Hrun|]. split; [exact Eo|]. split; [etrans; [exact Gp|exact Gq]|]. split; [|done].
  intros id Hid. unfold db, zoom in Eq. destruct (run_tx _ (w_db wp)) as [[[]|] d'] eqn:Hrun'; [|done].
  injection Eq as <-. cbn.
  apply (run_tx_ensures (finished_in id) _ (λ _, finished_in id)) in Hrun'; [done| |by rewrite Hp].
  apply ensures_for_each_keep. intros ? _. apply ensures_other; [|done]. intros t t'. apply finished_in_same.
Qed.

(** What success means for the step at [step], found as [s]. *)
Record succeeded (w w' : World) (step : addr) (s : Step) : Prop := {
  su_builds : ∀ a b, a ∈ st_builds s → hp_builds (w_heap w) !! a = Some b → b_finished_in_db b = false →
    hp_builds (w_heap w') !! a = Some (Build.set_finished_in_db true b) ∧
    w_builds w' !! b_id b = None ∧ finished_in (b_id b) (db_tables (w_db w'));
  su_rdeps : ∀ x sx, x ∈ st_rdeps s → hp_steps (w_heap w) !! x = Some sx →
    ∃ sx', hp_steps (w_heap w') !! x = Some sx' ∧ released (st_drv_path s) sx sx'
}.

Lemma succeed_taken_spec item step job output w w' s :
  hp_steps (w_heap w) !! step = Some s → st_finished s = true → step ∉ st_rdeps s →
  succeed_taken item step job output w = (Ok tt, w') → succeeded w w' step s.
Proof.
  intros Hs Hfin Hself H.
  apply succeed_taken_Ok in H as (w1 & s1 & job' & d & ids & w2 & w3 & (E1 & E2 & E3) & Hs1 & Hrun & Hret & G & Hf & ->).
  rewrite E1, Hs in Hs1. injection Hs1 as <-.
  pose proof (run_tx_ensures _ _ _ _ _ _ (succeed_tx_ensures job' output _ [] (direct_builds_data (w_heap w1) s))
    (λ id Hid, False_ind _ (not_elem_of_nil _ Hid)) Hrun) as Hrun'. clear Hrun. rename Hrun' into Hrun.
  cbn [app] in Hrun. rewrite retire_run in Hret. injection Hret as _ <-. destruct G as (G1 & G2 & G3).
  cbn -[Step.make_rdeps_runnable finish_all remove_all Step.get_direct_builds finished_in] in *.
  assert (hp_steps (w_heap w3) = hp_steps (w_heap w)) as Hst by (rewrite G1, finish_all_steps; done).
  destruct (make_rdeps_runnable_lookup step s (w_heap w3)) as ([F1 _ _ _] & _ & _ & Hrel & _); [by rewrite Hst|done|done|].
  split.
  - intros a b Ha Hb Hfb.
    cbn -[Step.make_rdeps_runnable finish_all remove_all Step.get_direct_builds finished_in].
    rewrite <-E2 in Hb.
    assert (a ∈ Step.get_direct_builds (w_heap w1) s) as Hdir.
    { apply list_elem_of_filter. split; [|done]. unfold unfinished. by rewrite Hb, Hfb. }
    assert (b_id b ∈ b_id <$> builds_data (Step.get_direct_builds (w_heap w1) s) (w_heap w1)) as Hid.
    { apply list_elem_of_fmap_2. unfold builds_data. apply list_elem_of_omap. eauto. }
    split_and!.
    + rewrite F1, G2, finish_all_lookup, decide_True by done. by rewrite Hb.
    + rewrite G3, remove_all_lookup, decide_True by done. done.
    + apply Hf, Hrun. done.
  - intros x sx Hx Hsx. rewrite <-Hst in Hsx. cbn -[Step.make_rdeps_runnable]. by apply Hrel.
Qed.

(** ** Queues and machines *)

(** The derivation is not scheduled, and not among the jobs of machine [a]. *)
Definition taken_off (drv : StorePath) (a : addr) (w : World) : Prop :=
  iq_scheduled (w_queues w) !! drv = None ∧
  ∃ m, ms_objs (w_machines w) !! a = Some m ∧ Forall (λ j, j_path j ≠ drv) (mc_jobs m).

Lemma taken_off_same drv a {A} (m : WM A) :
  (∀ w, w_queues (m w).2 = w_queues w ∧ w_machines (m w).2 = w_machines w) → preserves (taken_off drv a) m.
Proof. intros H w. unfold taken_off. destruct (H w) as [-> ->]. done. Qed.

Lemma taken_off_db drv a {A} (m : DbM A) : preserves (taken_off drv a) (db m).
Proof. apply taken_off_same. intros w. unfold db, zoom. by destruct (m (w_db w)). Qed.

Lemma taken_off_queues drv a f :
  (∀ h iq, iq_scheduled (f h iq) = iq_scheduled iq) → preserves (taken_off drv a) (on_queues f).
Proof. intros H w. unfold taken_off. cbn. by rewrite H. Qed.

Lemma taken_off_stats drv a b {A} (f : Machine → Heap → A * (Machine * Heap)) :
  (∀ m h, mc_jobs (f m h).2.1 = mc_jobs m) → preserves (taken_off drv a) (on_machine b f).
Proof.
  intros H w [Hs (m & Hm & Hj)]. unfold on_machine. destruct (ms_objs (w_machines w) !! b) as [mb|] eqn:Eb; [|by split; eauto].
  specialize (H mb (w_heap w)). destruct (f mb (w_heap w)) as [r [mb' h']]. cbn in H.
  split; [done|]. cbn. destruct (decide (b = a)) as [->|Hne].
  - rewrite lookup_insert_eq. exists mb'. rewrite H. by simplify_eq.
  - rewrite lookup_insert_ne by done. eauto.
Qed.

Lemma remove_job_scheduled h a system iq :
  iq_scheduled (Queues.remove_job h a system iq) = iq_scheduled iq.
Proof. unfold Queues.remove_job. by destruct (_ ≫= _). Qed.

Ltac off :=
  repeat first
    [ apply taken_off_db
    | (apply taken_off_queues; intros ? ?; first [apply remove_job_scheduled|reflexivity])
    | (apply taken_off_stats; intros ? ?; reflexivity)
    | (apply taken_off_same; intros ?; split; reflexivity)
    | apply preserves_bind; [|intros ?]
    | match goal with
      | |- preserves _ (if ?b then _ else _) => destruct b
      | |- preserves _ (match ?b with _ => _ end) => destruct b
      end ].

Lemma succeed_taken_off drv a item step job output :
  preserves (taken_off drv a) (succeed_taken item step job output).
Proof. unfold succeed_taken, schedule_upload, finish_build_step, retire. off. Qed.

Lemma fail_loop_off drv a fuel machine job step fin ids :
  preserves (taken_off drv a) (fail_loop fuel machine job step fin ids).
Proof.
  revert fin ids. induction fuel as [|fuel IH]; intros fin ids; cbn [fail_loop]; [by intros w|].
  unfold get_all_indirect_builds, retire. off. apply IH.
Qed.

Lemma fail_taken_off drv a item step job state timings :
  preserves (taken_off drv a) (fail_taken item step job state timings).
Proof. unfold fail_taken, inner_fail_job, finish_build_step. off. all: apply fail_loop_off. Qed.

Lemma take_job_off drv a w job w' :
  iq_scheduled (w_queues w) !! drv = None → take_job a drv w = (Ok job, w') →
  taken_off drv a w' ∧ j_path job = drv ∧
  ∃ m, ms_objs (w_machines w) !! a = Some m ∧ job ∈ mc_jobs m.
Proof.
  intros Hs H. unfold take_job in H. apply bind_Ok in H as (o & w1 & Hm & Ho).
  unfold on_machine in Hm. destruct (ms_objs (w_machines w) !! a) as [m|] eqn:Ea; [|done].
  pose proof (remove_job_spec drv m (w_heap w)) as Hr.
  destruct (Machine.remove_job drv m (w_heap w)) as [o' [m' h']]. destruct Hr as (_ & _ & _ & -> & Hj).
  injection Hm as <- <-. unfold lift_opt, lift_result in Ho. injection Ho as Ho <-.
  apply ok_or_Ok in Ho. apply find_some in Ho as [Hin Hp%bool_decide_eq_true].
  split; [split; [done|]|split; [done|exists m; split; [done|by apply list_elem_of_In]]].
  cbn. rewrite lookup_insert_eq. exists m'. split; [done|]. rewrite Hj.
  apply Forall_forall. by intros j [? _]%list_elem_of_filter.
Qed.

Lemma take_and_Ok drv fin k w w' item info s :
  iq_scheduled (w_queues w) !! drv = Some item →
  iq_infos (w_queues w) !! it_step_info item = Some info →
  hp_steps (w_heap w) !! si_step info = Some s →
  take_and drv fin k w = (Ok tt, w') →
  ∃ job w1 w2,
    k item (si_step info) job w1 = (Ok tt, w2) ∧ w' = w2 <| w_queues ::= λ iq, iq <| iq_held ::= tail |> |> ∧
    taken_off drv (it_machine item) w1 ∧ j_path job = drv ∧
    (∃ m, ms_objs (w_machines w) !! it_machine item = Some m ∧ job ∈ mc_jobs m) ∧
    hp_steps (w_heap w1) = alter (Step.set_finished fin) (si_step info) (hp_steps (w_heap w)) ∧
    hp_builds (w_heap w1) = hp_builds (w_heap w) ∧ w_builds w1 = w_builds w ∧ w_db w1 = w_db w ∧
    w_config w1 = w_config w ∧
    iq_infos (w_queues w1) !! it_step_info item = Some (info <| si_already_scheduled := false |>).
Proof.
  intros Hsch Hinfo Hs H. unfold take_and in H.
  apply bind_Ok in H as (item' & w1 & Ht & H). unfold take_scheduled, Queues.remove_job_from_scheduled in Ht.
  rewrite Hsch in Ht. injection Ht as <- <-.
  unfold with_held in H. apply bind_Ok in H as ([] & w2 & [= <-] & H).
  apply bind_Ok in H as (r & w3 & Hatt & H). unfold attempt in Hatt.
  match type of Hatt with (let '(_, _) := ?m ?w in _) = _ => destruct (m w) as [r' w3'] eqn:Hbody end.
  injection Hatt as <- <-.
  apply bind_Ok in H as ([] & w4 & [= <-] & [= Hr <-]). subst r'.
  apply bind_Ok in Hbody as (step & w5 & Hstep & Hbody).
  unfold step_of_item in Hstep. cbn -[lookup] in Hstep. rewrite lookup_alter_eq, Hinfo in Hstep.
  injection Hstep as <- <-. cbn [si_step upd set_si_already_scheduled] in Hbody.
  apply bind_Ok in Hbody as ([] & w6 & [= <-] & Hbody).
  apply bind_Ok in Hbody as (job & w7 & Hj & Hbody).
  exists job, w7, w3'. split; [exact Hbody|]. split; [done|].
  pose proof (pure_Ok _ _ _ _ (pure_bind _ _ (pure_on_machine _ _ (remove_job_objects drv)) (λ o, pure_lift _)) Hj) as (G1 & G2 & G3).
  assert (w_db w7 = w_db w ∧ w_config w7 = w_config w ∧
    iq_infos (w_queues w7) !! it_step_info item = Some (info <| si_already_scheduled := false |>)) as (D1 & D2 & D3).
  { revert Hj. unfold take_job. rewrite bind_run. unfold on_machine. cbn -[lookup Machine.remove_job upd_step].
    destruct (ms_objs _ !! it_machine item); [|done].
    destruct (Machine.remove_job _ _ _) as [[j|] [m' h']]; [|done]. intros [= _ <-].
    cbn -[lookup]. by rewrite lookup_alter_eq, Hinfo. }
  apply take_job_off in Hj as (Hoff & Hp & Hm); [|cbn; apply lookup_delete_eq].
  split; [exact Hoff|]. split; [done|]. split; [exact Hm|]. split_and!; done.
Qed.

Lemma finish_build_step_rest b n res m w r w' :
  finish_build_step b n res m w = (r, w') → w_queues w' = w_queues w ∧ w_heap w' = w_heap w.
Proof.
  unfold finish_build_step. rewrite bind_run. unfold db at 1, zoom. destruct (get (w_db w)) as [[[]|] d].
  - cbn [upd set_w_db]. rewrite bind_run. cbn [query]. unfold db, zoom.
    destruct (run_tx _ _) as [r' d']. by intros [= <- <-].
  - by intros [= <- <-].
Qed.

(** The branch of [fail_taken] that retries. *)
Lemma fail_taken_retry item step job state timings w w' s info :
  hp_steps (w_heap w) !! step = Some s → iq_infos (w_queues w) !! it_step_info item = Some info →
  state ∉ [RsBuildFailure; RsSuccess] →
  u32_wrap (st_tries s + 1) < pa_max_retries (w_config w) →
  fail_taken item step job state timings w = (Ok tt, w') →
  (∃ t after, add_secs t (retry_delta (pa_retry_interval (w_config w)) (pa_retry_backoff (w_config w))
                            (u32_wrap (st_tries s + 1))) = Ok after ∧
     hp_steps (w_heap w') !! step = Some (Step.set_after after (s <| st_tries := u32_wrap (st_tries s + 1) |>))) ∧
  hp_builds (w_heap w') = hp_builds (w_heap w) ∧ w_builds w' = w_builds w ∧
  (si_already_scheduled <$> iq_infos (w_queues w') !! it_step_info item) = Some false.
Proof.
  intros Hs Hinfo Hstate Htries H. unfold fail_taken in H.
  apply bind_Ok in H as (t & wa & [= <- <-] & H). apply bind_Ok in H as (res & wb & Hres & H).
  unfold lift_result in Hres. injection Hres as Hres <-.
  assert (rb_can_retry res = true) as Hcan.
  { unfold RemoteBuild.set_overhead in Hres. apply bind_Ok_inv in Hres as (o & _ & [= <-]). cbn.
    destruct state; try done; exfalso; apply Hstate; set_solver. }
  apply bind_Ok in H as ([] & wc & Em & H).
  assert (hp_steps (w_heap wc) = hp_steps (w_heap w) ∧ hp_builds (w_heap wc) = hp_builds (w_heap w) ∧
    w_builds wc = w_builds w ∧ w_config wc = w_config w ∧ w_queues wc = w_queues w) as (C1 & C2 & C3 & C4 & C5).
  { unfold on_machine in Em. cbn -[lookup Stats.track_build_failure] in Em.
    destruct (ms_objs _ !! it_machine item); [|done]. by injection Em as <-. }
  clear Em Hres. rewrite Hcan in H. apply bind_Ok in H as (retry & wd & Er & H).
  rewrite bind_run in Er. cbn [on_heap modify] in Er. rewrite bind_run in Er. unfold step_at in Er.
  cbn -[lookup u_wrap Z.ltb Z.add] in Er. rewrite lookup_alter_eq, C1, Hs in Er.
  cbn -[lookup u_wrap Z.ltb Z.add] in Er.
  rewrite bind_run in Er. cbn [gets w_config] in Er.
  rewrite C4 in Er. apply Z.ltb_lt in Htries. rewrite Htries in Er. injection Er as <- <-.
  apply bind_Ok in H as (cfg & we & [= <- <-] & H). apply bind_Ok in H as (t' & wf & [= <- <-] & H).
  apply bind_Ok in H as (after & wg & Hafter & H). unfold lift_result in Hafter. injection Hafter as Hafter <-.
  apply bind_Ok in H as ([] & wh & [= <-] & H). apply bind_Ok in H as ([] & wi & [= <-] & H).
  apply bind_Ok in H as (m & wj & Hm & H). unfold machine_at in Hm. injection Hm as _ <-.
  apply bind_Ok in H as ([] & wk & Hfin & [= <-]).
  pose proof (finish_build_step_graph _ _ _ _ _ _ _ Hfin) as (F1 & F2 & F3).
  apply finish_build_step_rest in Hfin as [Hq _].
  cbn -[lookup u_wrap Z.add] in *. rewrite F1, F2, F3, Hq. cbn -[lookup u_wrap Z.add].
  split_and!.
  - do 2 eexists. split; [exact Hafter|]. by rewrite !lookup_alter_eq, ?C1, ?Hs.
  - done.
  - done.
  - by rewrite lookup_alter_eq, C5, Hinfo.
Qed.

(** ** Properties *)

(** C5: when [succeed_step] reports success, the derivation is no longer
    scheduled and no longer a job of its machine; the unfinished builds of
    which the step is the top level are finished in memory, have left the
    registry, and are finished in the database; and every step that depended
    on it has lost the dependency and is runnable if it was the last one. *)
Theorem succeed_step_correct drv output w w' item info s :
  iq_scheduled (w_queues w) !! drv = Some item →
  iq_infos (w_queues w) !! it_step_info item = Some info →
  hp_steps (w_heap w) !! si_step info = Some s → si_step info ∉ st_rdeps s →
  succeed_step drv output w = (Ok tt, w') →
  succeeded w w' (si_step info) s ∧ taken_off drv (it_machine item) w'.
Proof.
  intros Hsch Hinfo Hs Hself H. unfold succeed_step in H.
  apply (take_and_Ok drv true (λ item step job, succeed_taken item step job output) _ _ _ _ _ Hsch Hinfo Hs) in H
    as (job & w1 & w2 & Hbody & -> & Hoff & _ & _ & G1 & G2 & _).
  pose proof (succeed_taken_off _ _ item (si_step info) job output w1 Hoff) as Hoff'.
  rewrite Hbody in Hoff'. cbn [snd] in Hoff'. split; [|exact Hoff'].
  apply (succeed_taken_spec _ _ _ _ _ _ (Step.set_finished true s)) in Hbody as [Hb Hr]; [|by rewrite G1, lookup_alter_eq, Hs|done|done].
  split.
  - intros a b Ha Hb0 Hf. apply Hb; [done| |done]. by rewrite G2.
  - intros x sx Hx Hsx. apply Hr; [done|]. rewrite G1, lookup_alter_ne; [done|]. by intros <-.
Qed.

End Env.
