(* ===== verification/Reclaim.v ===== *)
(** * Reclaim: when steps and builds are dropped

    The registry of steps and the references from a step to its dependents and
    builds are weak. What keeps a build alive is the registry of builds; what
    keeps a step alive is a live build whose top-level step it is, a queue
    entry, or a live step that depends on it. [reclaim] drops the rest from
    the heap: it stands for the reference counts between two handlers, when no
    task holds a further reference. *)

From Stdlib Require Import Ascii String.
From S2P Require Import Prelude Floats RustStr Nix Db Support Jobset Graph Result Machine Queue.
From S2P Require Import Config Uploader FodChecker State GraphInv.
Local Open Scope Z_scope.

(** ** What is alive *)

(** The builds the registry owns. *)
Definition live_builds (w : World) : gset addr := list_to_set (map_to_list (w_builds w)).*2.

Definition toplevel_steps (w : World) : list addr :=
  omap (λ a, hp_builds (w_heap w) !! a ≫= b_toplevel) (elements (live_builds w)).
Definition queued_steps (w : World) : list addr :=
  omap (λ '(a, i), if Queues.owned (w_queues w) a then Some (si_step i) else None)
    (map_to_list (iq_infos (w_queues w))).

Definition step_roots (w : World) : gset addr := list_to_set (toplevel_steps w ++ queued_steps w).

Definition deps_of (h : Heap) (a : addr) : list addr :=
  match hp_steps h !! a with Some s => (map_to_list (st_deps s)).*2 | None => [] end.

(** One level of strong references. *)
Definition grow (h : Heap) (s : gset addr) : gset addr :=
  s ∪ list_to_set (elements s ≫= deps_of h).

Definition live_steps (w : World) : gset addr :=
  Nat.iter (S (size (hp_steps (w_heap w)))) (grow (w_heap w)) (step_roots w).

Definition reclaim (w : World) : World :=
  w <| w_heap ::= λ h,
    h <| hp_steps ::= filter (λ ks, ks.1 ∈ live_steps w) |>
      <| hp_builds ::= filter (λ kb, kb.1 ∈ live_builds w) |> |>.

(** ** The set is exact *)

(** [b] is a step some other step [a] has as a dependency. *)
Definition depends (h : Heap) (a b : addr) : Prop := b ∈ deps_of h a.

Lemma elem_of_grow h s x : x ∈ grow h s ↔ x ∈ s ∨ ∃ y, y ∈ s ∧ depends h y x.
Proof.
  unfold grow, depends. rewrite elem_of_union, elem_of_list_to_set, list_elem_of_bind.
  split; [intros [?|(y & ? & ?)]|intros [?|(y & ? & ?)]]; set_solver.
Qed.

(** [s] contains everything its steps depend on. *)
Definition closed (h : Heap) (s : gset addr) : Prop := ∀ x y, x ∈ s → depends h x y → y ∈ s.

Lemma grow_closed_eq h s : closed h s → grow h s = s.
Proof. intros H. apply set_eq. intros x. rewrite elem_of_grow. naive_solver. Qed.

Lemma iter_closed h n s : closed h s → Nat.iter n (grow h) s = s.
Proof. intros H. induction n as [|n IH]; [done|]. rewrite Nat.iter_succ, IH. by apply grow_closed_eq. Qed.

Lemma depends_dom h x y : depends h x y → x ∈ dom (hp_steps h).
Proof.
  unfold depends, deps_of. intros H. apply elem_of_dom.
  destruct (hp_steps h !! x); [done|]. by apply not_elem_of_nil in H.
Qed.

Lemma iter_grow_closed h n s :
  (size (dom (hp_steps h) ∖ s) < n)%nat → closed h (Nat.iter n (grow h) s).
Proof.
  revert s. induction n as [|n IH]; intros s Hn; [lia|]. rewrite Nat.iter_succ_r.
  destruct (decide (dom (hp_steps h) ∖ grow h s = dom (hp_steps h) ∖ s)) as [E|E].
  - assert (closed h (grow h s)) as Hc; [|by rewrite iter_closed].
    intros x y Hx Hxy. apply elem_of_grow. destruct (decide (x ∈ s)) as [|Hs]; [by right; exists x|].
    exfalso. apply depends_dom in Hxy. set_solver.
  - apply IH. assert (dom (hp_steps h) ∖ grow h s ⊂ dom (hp_steps h) ∖ s) as Hlt%subset_size; [|lia].
    assert (s ⊆ grow h s) by (intros x Hx; apply elem_of_grow; by left). set_solver.
Qed.

Lemma elem_of_iter_grow h n s x : x ∈ Nat.iter n (grow h) s → ∃ r, r ∈ s ∧ rtc (depends h) r x.
Proof.
  revert x. induction n as [|n IH]; intros x; [intros H; exists x; by split|].
  rewrite Nat.iter_succ, elem_of_grow. intros [H|(y & Hy & Hxy)]; [by apply IH|].
  destruct (IH y Hy) as (r & ? & ?). exists r. split; [done|]. by eapply rtc_r.
Qed.

Lemma iter_grow_mono h n s : s ⊆ Nat.iter n (grow h) s.
Proof. induction n as [|n IH]; [done|]. intros x Hx. rewrite Nat.iter_succ. apply elem_of_grow. left. by apply IH. Qed.

Lemma elem_of_live_steps w x :
  x ∈ live_steps w ↔ ∃ r, r ∈ step_roots w ∧ rtc (depends (w_heap w)) r x.
Proof.
  split; [apply elem_of_iter_grow|]. intros (r & Hr & Hx).
  assert (r ∈ live_steps w) as H by (by apply iter_grow_mono).
  assert (closed (w_heap w) (live_steps w)) as Hc.
  { apply iter_grow_closed. pose proof (subseteq_size (dom (hp_steps (w_heap w)) ∖ step_roots w)
      (dom (hp_steps (w_heap w))) ltac:(set_solver)) as Hs. rewrite size_dom in Hs. lia. }
  clear Hr. induction Hx as [|x y z Hxy _ IH]; [done|]. apply IH. by eapply Hc.
Qed.

Lemma reclaim_lookup w x s :
  hp_steps (w_heap (reclaim w)) !! x = Some s ↔
  hp_steps (w_heap w) !! x = Some s ∧ x ∈ live_steps w.
Proof. apply map_lookup_filter_Some. Qed.

Lemma reclaim_wf w : graph_wf (w_heap w) → graph_wf (w_heap (reclaim w)).
Proof.
  intros H x s [Hx Hl]%reclaim_lookup. destruct (H x s Hx) as [Hd Hr Hdep Hrun Hf].
  split; [done|done| |done|done]. intros d y Hy.
  destruct (Hdep d y Hy) as (sy & Hsy & Hdrv & Hin). exists sy.
  split; [|done]. apply reclaim_lookup. split; [done|].
  apply elem_of_live_steps in Hl as (r & Hroot & Hrx). apply elem_of_live_steps.
  exists r. split; [done|]. eapply rtc_r; [done|]. unfold depends, deps_of. rewrite Hx.
  apply list_elem_of_fmap. exists (d, y). split; [done|]. by apply elem_of_map_to_list.
Qed.

(** Dropping what is no longer referred to keeps exactly the steps that a
    live build's top-level step or a queue entry leads to through strong
    references, and exactly the registered builds; the rest of the graph is as
    before and still well formed. *)
Theorem reclaim_exact (w : World) (Hw : graph_wf (w_heap w)) :
  (∀ x s, hp_steps (w_heap (reclaim w)) !! x = Some s ↔
     hp_steps (w_heap w) !! x = Some s ∧ ∃ r, r ∈ step_roots w ∧ rtc (depends (w_heap w)) r x) ∧
  (∀ x b, hp_builds (w_heap (reclaim w)) !! x = Some b ↔
     hp_builds (w_heap w) !! x = Some b ∧ ∃ id, w_builds w !! id = Some x) ∧
  graph_wf (w_heap (reclaim w)).
Proof.
  split; [|split; [|by apply reclaim_wf]].
  - intros x s. by rewrite reclaim_lookup, elem_of_live_steps.
  - intros x b. cbn. rewrite map_lookup_filter_Some. unfold live_builds. cbn.
    rewrite elem_of_list_to_set, list_elem_of_fmap. split; intros [? Hx]; (split; [done|]).
    + destruct Hx as ([id y] & -> & Hin). exists id. by apply elem_of_map_to_list in Hin.
    + destruct Hx as [id Hid]. exists (id, x). split; [done|]. by apply elem_of_map_to_list.
Qed.
