(* ===== verification/Intake.v ===== *)
(** * Intake: from the builds of the database to steps ([queue-runner/src/state/mod.rs])

    [create_step] adds a derivation and its inputs to the graph,
    [create_build] a build with its steps, [get_queued_builds] all builds that
    are not finished. The sets the recursive calls share are fields of the
    state [Intake]. The concurrent branches of a stream run one after the
    other, in the order of the stream. *)

From Stdlib Require Import Ascii String.
From S2P Require Import NarInfo CacheCfg Stream BinaryCache.
From S2P Require Import Prelude Floats RustStr Nix Db Support Jobset Graph Result Machine Queue.
From S2P Require Import Config Uploader FodChecker State.
Local Open Scope string_scope.
Local Open Scope list_scope.
Local Open Scope Z_scope.

Inductive CreateStepResult :=
| CNone
| CValid (step : addr)
| CPreviousFailure (step : addr).

Record Intake := mkIntake {
  in_world : World;
  in_finished_drvs : gset StorePath;
  in_new_steps : gmap StorePath addr;
  in_new_runnable : gmap StorePath addr;
  in_new_builds_by_id : gmap BuildID addr
}.
#[export] Instance eta_Intake : Eta Intake := λ r,
  mkIntake (in_world r) (in_finished_drvs r) (in_new_steps r) (in_new_runnable r) (in_new_builds_by_id r).
#[export] Instance set_in_world : Setter in_world := ltac:(mk_setter in_world).
#[export] Instance set_in_finished_drvs : Setter in_finished_drvs := ltac:(mk_setter in_finished_drvs).
#[export] Instance set_in_new_steps : Setter in_new_steps := ltac:(mk_setter in_new_steps).
#[export] Instance set_in_new_runnable : Setter in_new_runnable := ltac:(mk_setter in_new_runnable).
#[export] Instance set_in_by_id : Setter in_new_builds_by_id := ltac:(mk_setter in_new_builds_by_id).

Abbreviation IM := (M Intake Error).

Section Env.
Context `{HI : HashIter} `{FE : FloatEnv} `{TL : TimeLib} `{NE : NixEnv} `{DE : DbEnv} `{SE : StateEnv}
  `{FS : FsEnv} `{SL : SignLib} `{SHA : Sha256Lib} `{CE : CacheEnv}.

Definition world {A} (m : WM A) : IM A := zoom in_world m.

(** ** Steps *)

Definition create (drv : StorePath) (rb rs : option addr) : WM (addr * bool) := λ w,
  let '(r, (steps, h)) := Steps.create drv rb rs (w_steps w) (w_heap w) in
  (Ok r, w <| w_steps := steps |> <| w_heap := h |>).

Definition on_fod (f : FodChecker → FodChecker) : WM unit := modify (λ w, w <| w_fod_checker ::= fmap f |>).

(** The outputs that have to be built or substituted. *)
Definition find_missing (drv_path : StorePath) (outputs : list Output) : WM (list Output) :=
  remote ← gets (λ w, head (w_remote_stores w));
  match remote with
  | None =>
      q ← queries (length outputs);
      mret (query_missing_outputs q outputs)
  | Some _ =>
      r ← on_first_store (query_missing_remote_outputs outputs);
      let missing := match r with Some (Ok l) => l | _ => [] end in
      if decide (missing = []) then mret missing
      else
        q ← queries (length outputs);
        if decide (query_missing_outputs q outputs = []) then
          log_dir ← gets w_log_dir;
          log_file ← lift_opt (Anyhow "split_at") (construct_log_file_path log_dir drv_path);
          schedule_upload (omap o_path missing) ("log/" +:+ StorePath.base_name drv_path) log_file;;
          mret []
        else mret missing
  end.

(** The number of outputs that were substituted. *)
Fixpoint substitute_all (build_id : BuildID) (drv_path : StorePath) (outputs : list Output) (n : nat) : WM nat :=
  match outputs with
  | [] => mret n
  | o :: os =>
      r ← attempt (substitute_output o build_id drv_path);
      substitute_all build_id drv_path os (match r with Ok true => S n | _ => n end)
  end.

(** The loop over the results for the inputs of [step]. *)
Fixpoint add_inputs (create_input : StorePath → IM CreateStepResult) (step : addr) (inputs : list string)
  : IM (option addr) :=
  match inputs with
  | [] => mret None
  | i :: inputs' =>
      r ← create_input (store_path_new i);
      match r with
      | CNone => add_inputs create_input step inputs'
      | CValid dep =>
          s ← world (step_at dep);
          (if negb (st_finished s) && negb (st_previous_failure s)
           then world (on_heap (upd_step step (Step.add_dep (st_drv_path s) dep))) else mret tt);;
          add_inputs create_input step inputs'
      | CPreviousFailure failed => mret (Some failed)
      end
  end.

(** [step] with derivation [drv] is new: its outputs are looked for, and its
    inputs become steps by [create_input]. *)
Definition create_new_step (create_input : addr → StorePath → IM CreateStepResult) (build_id : BuildID)
    (drv_path : StorePath) (step : addr) (drv : Derivation) : IM CreateStepResult :=
  world (on_fod (FodChecker.add_ca_drv_parsed drv_path drv));;
  use_substitutes ← gets (λ i, pa_use_substitutes (w_config (in_world i)));
  missing ← world (find_missing drv_path (drv_outputs drv));
  world (on_heap (upd_step step (Step.set_drv drv)));;
  failed ← world (check_cached_failure step);
  if failed : bool then
    world (on_heap (upd_step step (Step.set_previous_failure true)));;
    mret (CPreviousFailure step)
  else
    finished ← (if negb (bool_decide (missing = [])) && use_substitutes then
                  n ← world (substitute_all build_id drv_path missing 0);
                  mret (bool_decide (n = length missing))
                else mret (bool_decide (missing = [])));
    if finished : bool then
      world (on_fod (FodChecker.to_traverse drv_path));;
      modify (λ i, i <| in_finished_drvs ::= λ s, {[drv_path]} ∪ s |>);;
      world (on_heap (upd_step step (Step.set_finished true)));;
      mret CNone
    else
      failed ← add_inputs (create_input step) step (drv_input_drvs drv);
      match failed with
      | Some f => mret (CPreviousFailure f)
      | None =>
          world (on_heap (upd_step step (Step.set_created true)));;
          s ← world (step_at step);
          (if st_deps_len s =? 0 then modify (λ i, i <| in_new_runnable ::= hset_insert drv_path step |>)
           else mret tt);;
          modify (λ i, i <| in_new_steps ::= hset_insert drv_path step |>);;
          mret (CValid step)
      end.

Fixpoint create_step (fuel : nat) (build_id : BuildID) (drv_path : StorePath)
    (referring_build referring_step : option addr) : IM CreateStepResult :=
  match fuel with
  | O => throw Fuel
  | S fuel' =>
      known ← gets (λ i, bool_decide (drv_path ∈ in_finished_drvs i));
      if known : bool then mret CNone
      else
        '(step, is_new) ← world (create drv_path referring_build referring_step);
        if negb is_new then mret (CValid step)
        else
          q ← world query;
          match FodChecker.parsed_drv q drv_path with
          | None => mret CNone
          | Some drv =>
              create_new_step (λ step i, create_step fuel' build_id i None (Some step))
                build_id drv_path step drv
          end
  end.

(** ** Builds *)

(** The first output the database knows a successful build of. *)
Fixpoint cached_output (outputs : list Output) : WM (option BuildOutput) :=
  match outputs with
  | [] => mret None
  | o :: os =>
      match o_path o with
      | None => cached_output os
      | Some out_path =>
          row ← db (get_build_output_for_path (print_store_path out_path));
          match row with
          | None => cached_output os
          | Some m =>
              match BuildOutput.try_from_db m with
              | Err _ => cached_output os
              | Ok res =>
                  products ← db (get_build_products_for_build_id (bo_id m));
                  metrics ← db (get_build_metrics_for_build_id (bo_id m));
                  mret (Some (res <| out_products := product_from_db <$> products |>
                                  <| out_metrics := metric_from_db <$> metrics |>))
              end
          end
      end
  end.

Definition get_build_output_cached (drv_path : StorePath) : WM BuildOutput :=
  q ← query;
  drv ← lift_result (map_err Anyhow (query_drv q drv_path));
  drv ← lift_opt (Anyhow "Derivation not found") drv;
  db get;;
  cached ← cached_output (drv_outputs drv);
  match cached with
  | Some res => mret res
  | None => q ← query; lift_result (BuildOutput.new q (drv_outputs drv))
  end.

Definition cached_tx (now : Z) (b : Build) (res : BuildOutput) : TxM unit :=
  t ← try_i32 now;
  mark_succeeded_build (get_mark_build_sccuess_data b res) true t t;;
  notify_build_finished (b_id b) [].

Definition handle_cached_build (build : addr) : WM unit :=
  b ← build_at build;
  res ← get_build_output_cached (b_drv_path b);
  db get;;
  t ← clock;
  db (run_tx (cached_tx (as_second t) b res));;
  on_heap (upd_build build (Build.set_finished_in_db true)).

(** A build whose derivation is gone is aborted. *)
Definition abort_collected (build : addr) (b : Build) : WM unit :=
  (if b_finished_in_db b then mret tt
   else conn ← attempt (db get);
        match conn with
        | Ok _ => t ← clock; attempt (db (abort_build (as_second t) (b_id b)));; mret tt
        | Err _ => mret tt
        end);;
  on_heap (upd_build build (Build.set_finished_in_db true)).

Definition propagate (b : Build) : WM unit := λ w,
  match Build.propagate_priorities b (w_heap w) with
  | Some h => (Ok tt, w <| w_heap := h |>)
  | None => (Err Fuel, w)
  end.

(** The build gets its top-level step and takes part in the priorities. *)
Definition attach_build (build step : addr) : WM unit :=
  b ← build_at build;
  (if b_finished_in_db b then mret tt
   else modify (λ w, w <| w_builds ::= Builds.insert_new_build (b_id b) build |>));;
  on_heap (upd_build build (Build.set_toplevel_step step));;
  b ← build_at build;
  propagate b.

Abbreviation BuildsByPath := (gmap StorePath (gmap BuildID ())).

(** The new builds of the derivations of new steps. *)
Definition builds_of_steps (by_path : BuildsByPath) (new_steps : gmap StorePath addr) : list BuildID :=
  mjoin ((λ d, default [] (iter_keys <$> by_path !! d)) <$> iter_keys new_steps).

(** [fuel] bounds the nesting of builds, [step_fuel] that of steps. *)
Fixpoint create_build (fuel step_fuel : nat) (by_path : BuildsByPath) (build : addr) : IM unit :=
  match fuel with
  | O => throw Fuel
  | S fuel' =>
      b ← world (build_at build);
      modify (λ i, i <| in_new_builds_by_id ::= delete (b_id b) |>);;
      q ← world query;
      if negb (is_valid_path q (b_drv_path b)) then world (abort_collected build b)
      else
        outer ← gets in_new_steps;
        modify (λ i, i <| in_new_steps := ∅ |>);;
        r ← create_step step_fuel (b_id b) (b_drv_path b) (Some build) None;
        new_steps ← gets in_new_steps;
        (match r with
         | CPreviousFailure step => world (attempt (handle_previous_failure build step));; mret tt
         | _ =>
             for_each (builds_of_steps by_path new_steps) (λ id,
               j ← gets (λ i, in_new_builds_by_id i !! id);
               match j with
               | None => mret tt
               | Some j => create_build fuel' step_fuel by_path j
               end);;
             match r with
             | CValid step => world (attach_build build step)
             | _ => world (attempt (handle_cached_build build));; mret tt
             end
         end);;
        modify (λ i, i <| in_new_steps := outer |>)
  end.

(** [now > starttime + stop_queue_run_after] *)
Definition run_over (starttime now : Timestamp) (limit : option Z) : bool :=
  match limit with Some s => starttime + s * 10 ^ 9 <? now | None => false end.

Fixpoint process_builds (step_fuel : nat) (by_path : BuildsByPath) (starttime : Timestamp)
    (new_ids : list BuildID) : IM unit :=
  match new_ids with
  | [] => mret tt
  | id :: ids =>
      build ← gets (λ i, in_new_builds_by_id i !! id);
      match build with
      | None => process_builds step_fuel by_path starttime ids
      | Some build =>
          modify (λ i, i <| in_new_runnable := ∅ |>);;
          fuel ← gets (λ i, S (size (in_new_builds_by_id i)));
          create_build fuel step_fuel by_path build;;
          runnable ← gets (λ i, iter_values (in_new_runnable i));
          world (on_heap (λ h, foldl (λ h a, Step.make_runnable a h) h runnable));;
          limit ← gets (λ i, pa_stop_queue_run_after (w_config (in_world i)));
          (match limit with
           | None => process_builds step_fuel by_path starttime ids
           | Some _ =>
               now ← world clock;
               if run_over starttime now limit then mret tt
               else process_builds step_fuel by_path starttime ids
           end)
      end
  end.

Definition process_new_builds (step_fuel : nat) (new_ids : list BuildID) (by_id : gmap BuildID addr)
    (by_path : BuildsByPath) : WM unit := λ w,
  let '(r, i) :=
    (starttime ← world clock; process_builds step_fuel by_path starttime new_ids)
      (mkIntake w ∅ ∅ ∅ by_id) in
  match r with
  | Err e => (Err e, in_world i)
  | Ok _ =>
      (on_heap (λ h, Steps.make_rdeps_runnable (w_steps (in_world i)) h);;
       trigger_dispatch;;
       on_fod FodChecker.trigger_traverse) (in_world i)
  end.

(** ** Reading the queue *)

Definition create_jobset_at (t : Timestamp) (m : BuildModel) : WM JobsetName := λ w,
  let '(r, (js, d)) := Jobsets.create t (bm_jobset_id m) (bm_project m) (bm_jobset m)
                         (hp_jobsets (w_heap w), w_db w) in
  (r, w <| w_heap ::= (λ h, h <| hp_jobsets := js |>) |> <| w_db := d |>).

Definition create_jobset (m : BuildModel) : WM JobsetName := t ← clock; create_jobset_at t m.

Definition alloc_build (b : Build) : WM addr := λ w,
  let a := hp_next (w_heap w) in
  (Ok a, w <| w_heap ::= λ h, h <| hp_builds ::= <[a := b]> |> <| hp_next ::= Pos.succ |> |>).

(** The ids in order, the builds by id and by derivation path. *)
Record NewBuilds := mkNewBuilds {
  nb_ids : list BuildID; nb_by_id : gmap BuildID addr; nb_by_path : BuildsByPath }.

Definition add_new_build (acc : NewBuilds) (m : BuildModel) : WM NewBuilds :=
  jobset ← create_jobset m;
  b ← lift_result (Build.new m jobset);
  a ← alloc_build b;
  mret (mkNewBuilds (nb_ids acc ++ [b_id b]) (<[b_id b := a]> (nb_by_id acc))
          (<[b_drv_path b := <[b_id b := tt]> (default ∅ (nb_by_path acc !! b_drv_path b))]> (nb_by_path acc))).

Fixpoint read_builds (acc : NewBuilds) (ms : list BuildModel) : WM NewBuilds :=
  match ms with
  | [] => mret acc
  | m :: ms' => acc ← add_new_build acc m; read_builds acc ms'
  end.

Definition get_queued_builds (step_fuel : nat) : WM unit :=
  db get;;
  ms ← db get_not_finished_builds;
  nb ← read_builds (mkNewBuilds [] ∅ ∅) ms;
  process_new_builds step_fuel (nb_ids nb) (nb_by_id nb) (nb_by_path nb).

Definition manually_add_queue_build (step_fuel : nat) (build_id : BuildID) : WM bool :=
  db get;;
  ms ← db get_not_finished_builds;
  nb ← read_builds (mkNewBuilds [] ∅ ∅) (filter (λ m, bm_id m = build_id) ms);
  if decide (nb_ids nb = []) then mret false
  else process_new_builds step_fuel (nb_ids nb) (nb_by_id nb) (nb_by_path nb);; mret true.

Definition queue_one_build (jobset_id : Z) (drv_path : StorePath) : WM unit :=
  db get;;
  q ← query;
  drv ← lift_result (map_err Anyhow (query_drv q drv_path));
  drv ← lift_opt (Anyhow "drv not found") drv;
  t ← clock;
  db (insert_debug_build t jobset_id (print_store_path drv_path) (drv_system drv));;
  db (run_tx notify_builds_added).

End Env.
