(* ===== verification/IntakeInv.v ===== *)
(** * IntakeInv: reading builds ends and keeps the graph well formed

    Steps are created depth first through the inputs of derivations, while
    builds are created through the steps. Both recursions end: a nested call
    means a derivation that had no step, or a build that was still waiting to
    be loaded. Along the way the graph stays well formed, and what is marked
    runnable waits for nothing. *)

From Stdlib Require Import Ascii String.
From S2P Require Import NarInfo CacheCfg Stream BinaryCache.
From S2P Require Import Prelude Floats RustStr Nix Db Support Jobset Graph Dependents Priorities.
From S2P Require Import GraphInv Result Machine Queue Config Uploader FodChecker State Intake.
Local Open Scope list_scope.
Local Open Scope Z_scope.

(** ** How the graph may change *)

(** Steps and builds stay, under their names; none becomes created or runnable;
    a created step keeps its dependencies; reverse dependencies only grow. *)
Record grown_step (s s' : Step) : Prop := {
  gs_drv : st_drv_path s' = st_drv_path s;
  gs_runnable : st_runnable s' = st_runnable s;
  gs_rdeps : ∀ r, r ∈ st_rdeps s → r ∈ st_rdeps s';
  gs_created : st_created s' = st_created s;
  gs_deps : st_created s = true → st_deps s' = st_deps s
}.
Record grown (h h' : Heap) : Prop := {
  gr_steps : ∀ a s, hp_steps h !! a = Some s → ∃ s', hp_steps h' !! a = Some s' ∧ grown_step s s';
  gr_builds : ∀ a b, hp_builds h !! a = Some b → 
    ∃ b', hp_builds h' !! a = Some b' ∧ b_id b' = b_id b ∧ b_drv_path b' = b_drv_path b
}.

Lemma grown_step_refl s : grown_step s s.
Proof. by split. Qed.
Lemma grown_step_trans s1 s2 s3 : grown_step s1 s2 → grown_step s2 s3 → grown_step s1 s3.
Proof.
  intros [A1 B1 C1 D1 E1] [A2 B2 C2 D2 E2]. split; [congruence|congruence|auto|congruence|].
  intros H. rewrite E2 by congruence. auto.
Qed.
Lemma grown_refl h : grown h h.
Proof. split; [intros a s Hs; exists s; split; [done|apply grown_step_refl]|eauto]. Qed.
Lemma grown_trans h1 h2 h3 : grown h1 h2 → grown h2 h3 → grown h1 h3.
Proof.
  intros [S1 B1] [S2 B2]. split.
  - intros a s (s' & Hs' & G1)%S1. destruct (S2 _ _ Hs') as (s'' & ? & G2).
    exists s''. split; [done|]. by eapply grown_step_trans.
  - intros a b (b' & Hb' & ? & ?)%B1. destruct (B2 _ _ Hb') as (b'' & ? & ? & ?). exists b''. split_and!; congruence.
Qed.
#[export] Instance grown_preorder : PreOrder grown.
Proof. split; [intros h; apply grown_refl|intros ???; apply grown_trans]. Qed.

(** Objects are as before. *)
Definition core (w : World) := (hp_steps (w_heap w), hp_builds (w_heap w), hp_next (w_heap w), w_steps w).

(** A step never waits for itself. *)
Definition no_self (h : Heap) : Prop := ∀ x s, hp_steps h !! x = Some s → x ∉ st_rdeps s.

Record graph_ok (w : World) : Prop := {
  go_wf : graph_wf (w_heap w);
  go_reg : registered (w_heap w) (w_steps w);
  go_self : no_self (w_heap w)
}.

(** An operation that leaves the graph in order and only lets it grow. *)
Definition gentle {A} (m : WM A) : Prop :=
  ∀ w, graph_ok w → graph_ok (m w).2 ∧ grown (w_heap w) (w_heap (m w).2).

Lemma gentle_ret {A} (a : A) : gentle (mret a).
Proof. intros w Hw. by split. Qed.
Lemma gentle_bind {A B} (m : WM A) (f : A → WM B) :
  gentle m → (∀ a, gentle (f a)) → gentle (m ≫= f).
Proof.
  intros Hm Hf w Hw. rewrite bind_run. destruct (Hm w Hw) as [H1 G1].
  destruct (m w) as [[a|e] w1]; [|done]. destruct (Hf a w1 H1) as [H2 G2].
  split; [done|]. by etrans.
Qed.
Lemma gentle_attempt {A} (m : WM A) : gentle m → gentle (attempt m).
Proof. intros Hm w Hw. specialize (Hm w Hw). unfold attempt. by destruct (m w). Qed.

Lemma graph_ok_same w w' :
  hp_steps (w_heap w') = hp_steps (w_heap w) → hp_next (w_heap w') = hp_next (w_heap w) →
  w_steps w' = w_steps w → graph_ok w → graph_ok w'.
Proof.
  intros E1 E3 E4 [H1 H2 H3]. split.
  - intros x s Hx. rewrite E1 in Hx. destruct (H1 x s Hx) as [W1 W2 W3 W4 W5].
    split; [done|done| |done|congruence]. by rewrite E1.
  - revert H2. unfold registered. by rewrite E1, E3, E4.
  - intros x s. rewrite E1. apply H3.
Qed.

Lemma core_ok w w' : core w' = core w → graph_ok w → graph_ok w' ∧ grown (w_heap w) (w_heap w').
Proof.
  unfold core. intros [= E1 E2 E3 E4] H. split; [by eapply graph_ok_same|].
  split; [intros a s Ha; exists s|intros a b Hb; exists b]; rewrite ?E1, ?E2; [|done].
  split; [done|apply grown_step_refl].
Qed.
Lemma gentle_core {A} (m : WM A) : (∀ w, core (m w).2 = core w) → gentle m.
Proof. intros H w. apply core_ok, H. Qed.
Lemma gentle_for_each {A} (l : list A) (f : A → WM unit) : (∀ x, gentle (f x)) → gentle (for_each l f).
Proof. intros Hf. induction l; cbn; [apply gentle_ret|]. by apply gentle_bind. Qed.
Lemma gentle_lift {A} (r : result Error A) : gentle (lift_result r).
Proof. by apply gentle_core. Qed.
Lemma gentle_gets {A} (f : World → A) : gentle (gets f).
Proof. by apply gentle_core. Qed.
Lemma gentle_db {A} (m : DbM A) : gentle (db m).
Proof. apply gentle_core. intros w. unfold db, zoom. by destruct (m (w_db w)). Qed.
Lemma gentle_throw {A} e : gentle (throw e : WM A).
Proof. by apply gentle_core. Qed.

(** Writing fields of a build other than its id and derivation. *)
Lemma gentle_upd_build a f :
  (∀ b, b_id (f b) = b_id b ∧ b_drv_path (f b) = b_drv_path b) → gentle (on_heap (upd_build a f)).
Proof.
  intros Hf w Hw. split; [by apply (graph_ok_same w)|]. split.
  - intros x s Hx. exists s. split; [done|apply grown_step_refl].
  - intros x b Hx. unfold on_heap, modify. cbn [snd w_heap upd set_w_heap upd_build set_hp_builds hp_builds].
    destruct (decide (x = a)) as [->|Hne].
    + rewrite lookup_alter_eq, Hx. cbn. eexists. split; [done|apply Hf].
    + rewrite lookup_alter_ne by done. eauto.
Qed.

(** Writing fields of a step that are not part of the graph. *)
Record plain (f : Step → Step) : Prop := {
  pl_drv : ∀ s, st_drv_path (f s) = st_drv_path s;
  pl_deps : ∀ s, st_deps (f s) = st_deps s;
  pl_deps_len : ∀ s, st_deps_len (f s) = st_deps_len s;
  pl_rdeps : ∀ s, st_rdeps (f s) = st_rdeps s;
  pl_rdeps_len : ∀ s, st_rdeps_len (f s) = st_rdeps_len s;
  pl_runnable : ∀ s, st_runnable (f s) = st_runnable s;
  pl_created : ∀ s, st_created (f s) = st_created s
}.

Lemma plain_grown f s : plain f → grown_step s (f s).
Proof. intros []. split; auto. congruence. Qed.

Lemma upd_step_grown a f h :
  (∀ s, hp_steps h !! a = Some s → grown_step s (f s)) → grown h (upd_step a f h).
Proof.
  intros Hf. split; [|eauto]. intros x s Hx. destruct (decide (x = a)) as [->|Hne].
  - rewrite upd_step_lookup, Hx. eexists. split; [done|]. by apply Hf.
  - rewrite upd_step_lookup_ne by done. exists s. split; [done|apply grown_step_refl].
Qed.

Lemma upd_step_registered a f h steps :
  (∀ s, st_drv_path (f s) = st_drv_path s) → registered h steps → registered (upd_step a f h) steps.
Proof.
  intros Hf [R1 [R2 R3]].
  assert (∀ x s', hp_steps (upd_step a f h) !! x = Some s' →
    ∃ s, hp_steps h !! x = Some s ∧ st_drv_path s' = st_drv_path s) as Hback.
  { intros x s'. destruct (decide (x = a)) as [->|Hne].
    - rewrite upd_step_lookup. destruct (hp_steps h !! a) as [s|] eqn:E; [|done]. intros [= <-]. eauto.
    - rewrite upd_step_lookup_ne by done. eauto. }
  split_and!; [| |done].
  - intros x s' (s & Hx & ->)%Hback. by apply R1.
  - intros d x s' Hd (s & Hx & ->)%Hback. by eapply R2.
Qed.

Lemma upd_step_no_self a f h :
  (∀ s, hp_steps h !! a = Some s → ∀ r, r ∈ st_rdeps (f s) → r ∈ st_rdeps s ∨ r ≠ a) →
  no_self h → no_self (upd_step a f h).
Proof.
  intros Hf H x s. destruct (decide (x = a)) as [->|Hne].
  - rewrite upd_step_lookup. destruct (hp_steps h !! a) as [s0|] eqn:E; [|done].
    intros [= <-] Hin. destruct (Hf s0 eq_refl _ Hin) as [H'|]; [|done]. by eapply H.
  - rewrite upd_step_lookup_ne by done. apply H.
Qed.

Lemma gentle_upd_step a f : plain f → gentle (on_heap (upd_step a f)).
Proof.
  intros Hf w [H1 H2 H3]. pose proof Hf as [P1 P2 P3 P4 P5 P6 P7]. split.
  - split; cbn.
    + apply upd_step_other_wf; [done| |done]. intros s Hs Hr. rewrite P6 in Hr.
      rewrite P7. by apply (sw_runnable _ _ _ (H1 a s Hs)).
    + by apply upd_step_registered.
    + apply upd_step_no_self; [|done]. intros s _ r. rewrite P4. auto.
  - apply upd_step_grown. intros s _. by apply plain_grown.
Qed.

(** Run through a handler, an operation at a time. *)
Create HintDb gentle.
Ltac gentle :=
  repeat first
    [ solve [auto with gentle nocore]
    | apply gentle_ret | apply gentle_lift | apply gentle_gets | apply gentle_db | apply gentle_throw
    | apply gentle_attempt
    | apply gentle_bind; [|intros ?]
    | apply gentle_for_each; intros ?
    | (apply gentle_upd_build; intros ?; split; reflexivity)
    | (apply gentle_upd_step; split; intros ?; first [reflexivity | done])
    | (apply gentle_core; intros ?; reflexivity)
    | match goal with
      | |- gentle (if ?b then _ else _) => destruct b
      | |- gentle (match ?b with _ => _ end) => destruct b
      | |- gentle (lift_opt _ _) => apply gentle_lift
      end ].

(** An operation that does not run out of fuel. *)
Definition nofuel {S A} (m : M S Error A) : Prop := ∀ w, (m w).1 ≠ Err Fuel.

Lemma nofuel_bind {S A B} (m : M S Error A) (f : A → M S Error B) : nofuel m → (∀ a, nofuel (f a)) → nofuel (m ≫= f).
Proof.
  intros Hm Hf w. rewrite bind_run. specialize (Hm w). destruct (m w) as [[a|e] w1]; cbn in *; [apply Hf|congruence].
Qed.
Lemma nofuel_attempt {S A} (m : M S Error A) : nofuel (attempt m).
Proof. intros w. unfold attempt. by destruct (m w). Qed.

Ltac nofuel :=
  repeat first
    [ apply nofuel_attempt
    | apply nofuel_bind; [|intros ?]
    | (intros ?; discriminate)
    | match goal with
      | |- nofuel (if ?b then _ else _) => destruct b
      | |- nofuel (match ?b with _ => _ end) => destruct b
      | |- nofuel (lift_opt _ ?o) => destruct o
      end ].

Section Env.
Context `{HI : HashIter} `{FE : FloatEnv} `{TL : TimeLib} `{NE : NixEnv} `{DE : DbEnv} `{SE : StateEnv}
  `{FS : FsEnv} `{SL : SignLib} `{SHA : Sha256Lib} `{CE : CacheEnv}.

Lemma step_at_nofuel a : nofuel (step_at a).
Proof. intros w. unfold step_at. by destruct (hp_steps _ !! a). Qed.
Lemma build_at_nofuel a : nofuel (build_at a).
Proof. intros w. unfold build_at. by destruct (hp_builds _ !! a). Qed.

Lemma first_store_gentle {A} (m : M S3BinaryCacheClient CacheError A) : gentle (on_first_store m).
Proof. apply gentle_core. intros w. by destruct (on_first_store_frame m w) as [l ->]. Qed.
Lemma first_store_nofuel {A} (m : M S3BinaryCacheClient CacheError A) : nofuel (on_first_store m).
Proof. intros w. unfold on_first_store. destruct (w_remote_stores w); [done|]. by destruct (m _) as [[?|[]] ?]. Qed.
#[local] Hint Resolve first_store_gentle : gentle.
Lemma find_missing_gentle d os : gentle (find_missing d os).
Proof. unfold find_missing, schedule_upload. gentle. Qed.
Lemma find_missing_nofuel d os : nofuel (find_missing d os).
Proof. unfold find_missing, schedule_upload. nofuel. apply first_store_nofuel. Qed.
Lemma substitute_all_gentle b d os n : gentle (substitute_all b d os n).
Proof. revert n. induction os; intros n; cbn; unfold substitute_output, copy_to_first_store; gentle. Qed.
Lemma substitute_all_nofuel b d os n : nofuel (substitute_all b d os n).
Proof. revert n. induction os; intros n; cbn; nofuel. done. Qed.
Lemma check_cached_failure_gentle s : gentle (check_cached_failure s).
Proof. unfold check_cached_failure. gentle. Qed.
Lemma check_cached_failure_nofuel s : nofuel (check_cached_failure s).
Proof. unfold check_cached_failure. nofuel. apply step_at_nofuel. Qed.
Lemma handle_previous_failure_gentle b s : gentle (handle_previous_failure b s).
Proof. unfold handle_previous_failure. gentle. Qed.
Lemma cached_output_gentle os : gentle (cached_output os).
Proof. induction os; cbn; gentle. Qed.
#[local] Hint Resolve cached_output_gentle : gentle.
Lemma handle_cached_build_gentle b : gentle (handle_cached_build b).
Proof. unfold handle_cached_build, get_build_output_cached. gentle. Qed.
Lemma abort_collected_gentle a b : gentle (abort_collected a b).
Proof. unfold abort_collected. gentle. Qed.
Lemma abort_collected_nofuel a b : nofuel (abort_collected a b).
Proof. unfold abort_collected. nofuel. Qed.

(** ** Runs of the intake *)

(** What holds between two operations: the graph is in order, and the steps
    found runnable are created and wait for nothing. *)
Record intake_ok (h0 : Heap) (i : Intake) : Prop := {
  io_graph : graph_ok (in_world i);
  io_grown : grown h0 (w_heap (in_world i));
  io_runnable : ∀ d a, in_new_runnable i !! d = Some a →
    ∃ s, hp_steps (w_heap (in_world i)) !! a = Some s ∧ st_created s = true ∧ st_deps s = ∅
}.

(** From [P], [m] does not run out of fuel, and [Q] holds of what it returns. *)
Definition ends {A} (P : Intake → Prop) (m : IM A) (Q : A → Intake → Prop) : Prop :=
  ∀ i, P i → match m i with (Ok a, i') => Q a i' | (Err e, _) => e ≠ Fuel end.

Lemma ends_bind {A B} P (m : IM A) (f : A → IM B) R Q :
  ends P m R → (∀ a, ends (R a) (f a) Q) → ends P (m ≫= f) Q.
Proof.
  intros Hm Hf i Hi. rewrite bind_run. specialize (Hm i Hi).
  destruct (m i) as [[a|e] i1]; [by apply Hf|done].
Qed.
Lemma ends_weaken {A} (P P' : Intake → Prop) (m : IM A) (Q Q' : A → Intake → Prop) :
  ends P' m Q' → (∀ i, P i → P' i) → (∀ a i, Q' a i → Q a i) → ends P m Q.
Proof. intros H HP HQ i Hi. specialize (H i (HP i Hi)). destruct (m i) as [[a|e] i1]; auto. Qed.

Lemma runnable_grown h h' (m : gmap StorePath addr) :
  grown h h' →
  (∀ d a, m !! d = Some a → ∃ s, hp_steps h !! a = Some s ∧ st_created s = true ∧ st_deps s = ∅) →
  (∀ d a, m !! d = Some a → ∃ s, hp_steps h' !! a = Some s ∧ st_created s = true ∧ st_deps s = ∅).
Proof.
  intros G H d a (s & Hs & Hc & Hd)%H. destruct (gr_steps _ _ G a s Hs) as (s' & Hs' & [_ _ _ G1 G2]).
  exists s'. rewrite G1, (G2 Hc). done.
Qed.

(** A gentle operation of the world; [X] is what else is known, kept as the
    graph grows. *)
Lemma ends_world {A} (m : WM A) (P : Intake → Prop) h0 :
  gentle m → nofuel m →
  (∀ i w, P i → intake_ok h0 i → grown (w_heap (in_world i)) (w_heap w) → P (i <| in_world := w |>)) →
  ends (λ i, intake_ok h0 i ∧ P i) (world m) (λ _ i, intake_ok h0 i ∧ P i).
Proof.
  intros Hg Hn HP i [[H1 H2 H3] Hi]. unfold world, zoom. specialize (Hn (in_world i)).
  destruct (Hg (in_world i) H1) as [H1' G]. destruct (m (in_world i)) as [[a|e] w']; cbn in *; [|congruence].
  split; [|by apply HP]. split; cbn; [done|by etrans|by eapply runnable_grown].
Qed.

(** ** Creating a step *)

(** The step at [x] is the one for [d], and [rs] waits for it. *)
Definition placed (h : Heap) (x : addr) (d : StorePath) (rs : option addr) : Prop :=
  ∃ s, hp_steps h !! x = Some s ∧ st_drv_path s = d ∧ ∀ r, rs = Some r → r ∈ st_rdeps s.
(** It is still under construction. *)
Definition building (h : Heap) (x : addr) (d : StorePath) (rs : option addr) : Prop :=
  ∃ s, hp_steps h !! x = Some s ∧ st_drv_path s = d ∧ (∀ r, rs = Some r → r ∈ st_rdeps s) ∧
    st_runnable s = false ∧ st_created s = false.

Lemma placed_grown h h' x d rs : grown h h' → placed h x d rs → placed h' x d rs.
Proof.
  intros G (s & Hs & Hd & Hr). destruct (gr_steps _ _ G x s Hs) as (s' & Hs' & [? ? Hin ? ?]).
  exists s'. split; [done|]. split; [congruence|]. auto.
Qed.
Lemma building_grown h h' x d rs : grown h h' → building h x d rs → building h' x d rs.
Proof.
  intros G (s & Hs & Hd & Hr & ? & ?). destruct (gr_steps _ _ G x s Hs) as (s' & Hs' & [? ? Hin ? ?]).
  exists s'. split; [done|]. split; [congruence|]. split; [auto|]. split; congruence.
Qed.
Lemma building_placed h x d rs : building h x d rs → placed h x d rs.
Proof. intros (s & ? & ? & ? & _). by exists s. Qed.

(** The derivations that have a step. *)
Definition known (h : Heap) : gset StorePath := list_to_set (st_drv_path <$> (map_to_list (hp_steps h)).*2).

Lemma elem_of_known h d : d ∈ known h ↔ ∃ x s, hp_steps h !! x = Some s ∧ st_drv_path s = d.
Proof.
  unfold known. rewrite elem_of_list_to_set, list_elem_of_fmap. split.
  - intros (s & -> & Hs). apply list_elem_of_fmap in Hs as ([x s'] & -> & Hx%elem_of_map_to_list). eauto.
  - intros (x & s & Hx & <-). exists s. split; [done|]. apply list_elem_of_fmap. exists (x, s).
    split; [done|]. by apply elem_of_map_to_list.
Qed.

Lemma known_grown h h' : grown h h' → known h ⊆ known h'.
Proof.
  intros G d. rewrite !elem_of_known. intros (x & s & Hx & <-).
  destruct (gr_steps _ _ G x s Hx) as (s' & ? & [? _ _ _ _]). eauto.
Qed.

(** How many derivations of [D] have no step yet. *)
Definition room (D : gset StorePath) (h : Heap) : nat := size (D ∖ known h).

Lemma room_grown D h h' : grown h h' → (room D h' ≤ room D h)%nat.
Proof. intros G%known_grown. apply subseteq_size. set_solver. Qed.

Lemma create_grown d rb rs steps h r steps' h' :
  graph_wf h → Steps.create d rb rs steps h = (r, (steps', h')) → grown h h'.
Proof.
  intros Hwf H. unfold Steps.create in H.
  assert (∀ a h1, grown h1 (upd_step a (Step.add_referring_data rb rs) h1)) as Hr.
  { intros a h1. apply upd_step_grown. intros s _. rewrite add_referring_same.
    split; cbn; [done|done| |done|done]. intros x Hx. apply elem_of_app. by left. }
  destruct (steps !! d ≫= _) as [a'|]; injection H as <- <- <-; [apply Hr|].
  etrans; [|apply Hr]. change (grown h (alloc_step d h)). split; [|eauto].
  intros a s Ha. exists s. split; [by apply alloc_step_old|apply grown_step_refl].
Qed.

Lemma create_no_self d rb rs steps h a n steps' h' :
  graph_wf h → registered h steps → no_self h →
  (∀ r, rs = Some r → ∃ s, hp_steps h !! r = Some s ∧ st_drv_path s ≠ d) →
  Steps.create d rb rs steps h = ((a, n), (steps', h')) → no_self h'.
Proof.
  intros Hwf Hreg Hno Hrs H. pose proof H as H'. unfold Steps.create in H.
  assert (∀ h1, no_self h1 → (∀ r, rs = Some r → r ≠ a) →
    no_self (upd_step a (Step.add_referring_data rb rs) h1)) as Hr.
  { intros h1 H1 Ha. apply upd_step_no_self; [|done]. intros s _ r. rewrite add_referring_same. cbn.
    rewrite elem_of_app. intros [|Hin]; [by left|]. right. destruct rs; cbn in Hin;
    [apply list_elem_of_singleton in Hin as ->; by apply Ha|by apply not_elem_of_nil in Hin]. }
  assert (∀ r, rs = Some r → r ≠ a) as Hne.
  { intros r Hr' ->. destruct (Hrs a Hr') as (s & Hs & Hd).
    destruct (create_spec _ _ _ _ _ _ _ _ _ Hwf Hreg H') as (_ & _ & _ & s' & Hs' & Hd' & _).
    destruct (gr_steps _ _ (create_grown _ _ _ _ _ _ _ _ Hwf H') a s Hs) as (s'' & ? & [? _ _ _ _]). congruence. }
  destruct (steps !! d ≫= _) as [a'|]; injection H as <- <- <- <-; apply Hr; [done|done| |done].
  intros x s. cbn. destruct (decide (x = hp_next h)) as [->|Hx].
  - rewrite lookup_insert_eq. intros [= <-]. apply not_elem_of_nil.
  - rewrite lookup_insert_ne by done. apply Hno.
Qed.

Lemma create_building d rb rs steps h a steps' h' :
  Steps.create d rb rs steps h = ((a, true), (steps', h')) →
  building h' a d rs ∧ (graph_wf h → hp_steps h !! a = None).
Proof.
  intros H. unfold Steps.create in H. destruct (steps !! d ≫= _) as [a'|]; [done|].
  injection H as <- <- <-. split; [|apply fresh_addr]. eexists.
  split; [rewrite upd_step_lookup; cbn; by rewrite lookup_insert_eq|]. rewrite add_referring_same. cbn.
  split_and!; [done| |done|done]. intros r ->. cbn. left.
Qed.

Abbreviation heap i := (w_heap (in_world i)).

(** What a caller knows of the result for [d]. *)
Definition result_ok (h : Heap) (d : StorePath) (rs : option addr) (r : CreateStepResult) : Prop :=
  match r with
  | CNone => True
  | CValid a => placed h a d rs
  | CPreviousFailure a => is_Some (hp_steps h !! a)
  end.

Lemma ends_ret {A} (P : Intake → Prop) (a : A) (Q : A → Intake → Prop) :
  (∀ i, P i → Q a i) → ends P (mret a) Q.
Proof. intros H i Hi. by apply H. Qed.
Lemma ends_pure {A} (P : Intake → Prop) (φ : Prop) (m : IM A) Q :
  (φ → ends P m Q) → ends (λ i, P i ∧ φ) m Q.
Proof. intros H i [Hi Hφ]. by apply H. Qed.
Lemma ends_gets {A} (P : Intake → Prop) (f : Intake → A) : ends P (gets f) (λ a i, P i ∧ a = f i).
Proof. by intros i Hi. Qed.
Lemma ends_modify (P : Intake → Prop) (f : Intake → Intake) (Q : Intake → Prop) :
  (∀ i, P i → Q (f i)) → ends P (modify f) (λ _, Q).
Proof. intros H i Hi. by apply H. Qed.
Lemma ends_step_at (P : Intake → Prop) a :
  ends P (world (step_at a)) (λ s i, P i ∧ hp_steps (heap i) !! a = Some s).
Proof. intros [w f n r b] Hi. unfold world, zoom, step_at. cbn. by destruct (hp_steps _ !! a) eqn:E. Qed.

Section NewStep.
Context (D : gset StorePath) (h0 : Heap) (x : addr) (d : StorePath) (rs : option addr) (k : nat).
Context (Hx : hp_steps h0 !! x = None).

(** While the step is under construction. *)
Definition constructing (i : Intake) : Prop :=
  intake_ok h0 i ∧ building (heap i) x d rs ∧ (room D (heap i) < k)%nat.

Lemma constructing_world {A} (m : WM A) :
  gentle m → nofuel m → ends constructing (world m) (λ _, constructing).
Proof.
  intros Hg Hn. apply (ends_world m (λ i, building (heap i) x d rs ∧ (room D (heap i) < k)%nat) h0 Hg Hn).
  intros i w [Hb Hr] _ G. cbn. split; [by eapply building_grown|].
  pose proof (room_grown D _ _ G). lia.
Qed.

Lemma constructing_live i : constructing i → is_Some (hp_steps (heap i) !! x).
Proof. intros (_ & (s & Hs & _) & _). eauto. Qed.

(** The step itself may change while nobody else relies on it. *)
Lemma intake_own f i :
  intake_ok h0 i → graph_ok ((in_world i) <| w_heap ::= upd_step x f |>) →
  (∀ s, hp_steps (heap i) !! x = Some s → st_created s = true → st_created (f s) = true ∧ st_deps (f s) = st_deps s) →
  intake_ok h0 (i <| in_world ::= λ w, w <| w_heap ::= upd_step x f |> |>).
Proof.
  intros [H1 H2 H3] Hok Hf. split; [done| |].
  - split; cbn -[upd_step]; [|apply H2]. intros a s Ha. rewrite upd_step_lookup_ne by congruence. by apply H2.
  - intros d' a Ha. destruct (H3 d' a Ha) as (s & Hs & Hc & Hd). cbn -[upd_step].
    destruct (decide (a = x)) as [->|Hne]; [|rewrite upd_step_lookup_ne by done; eauto].
    rewrite upd_step_lookup, Hs. eexists. split; [done|]. destruct (Hf s Hs Hc) as [? ->]. done.
Qed.

Lemma add_dep_ends sd dep :
  ends (λ i, constructing i ∧ hp_steps (heap i) !! dep = Some sd ∧ x ∈ st_rdeps sd)
    (world (on_heap (upd_step x (Step.add_dep (st_drv_path sd) dep)))) (λ _, constructing).
Proof.
  intros i [(Hok & (s & Hs & Hd & Hr & Hrun & Hc) & Hroom) [Hdep Hin]].
  pose proof (io_graph _ _ Hok) as [W1 W2 W3]. cbn -[upd_step].
  assert (graph_ok ((in_world i) <| w_heap ::= upd_step x (Step.add_dep (st_drv_path sd) dep) |>)) as Hg.
  { split; cbn -[upd_step]; [by eapply add_dep_wf|by apply upd_step_registered|].
    apply upd_step_no_self; [|done]. intros ? _ r ?. by left. }
  split; [|split].
  - apply (intake_own _ _ Hok Hg). intros s' Hs'. congruence.
  - eexists. cbn -[upd_step]. rewrite upd_step_lookup, Hs. split; [done|]. done.
  - cbn -[upd_step]. assert (known (upd_step x (Step.add_dep (st_drv_path sd) dep) (heap i)) = known (heap i)) as E.
    { apply set_eq. intros d'. rewrite !elem_of_known. split.
      - intros (y & sy & Hy & <-). destruct (decide (y = x)) as [->|Hne].
        + rewrite upd_step_lookup, Hs in Hy. injection Hy as <-. eauto.
        + rewrite upd_step_lookup_ne in Hy by done. eauto.
      - intros (y & sy & Hy & <-). destruct (decide (y = x)) as [->|Hne].
        + eexists x, _. by rewrite upd_step_lookup, Hy.
        + exists y, sy. by rewrite upd_step_lookup_ne. }
    unfold room in *. by rewrite E.
Qed.

Lemma add_inputs_ends (create_input : StorePath → IM CreateStepResult) inputs :
  (∀ j, j ∈ inputs → ∀ h, ends
     (λ i, intake_ok h i ∧ building (heap i) x d rs ∧ (room D (heap i) < k)%nat)
     (create_input (store_path_new j))
     (λ r i, intake_ok h i ∧ result_ok (heap i) (store_path_new j) (Some x) r)) →
  ends constructing (add_inputs create_input x inputs)
    (λ r i, constructing i ∧ ∀ a, r = Some a → is_Some (hp_steps (heap i) !! a)).
Proof.
  induction inputs as [|j inputs IH]; intros Hc; cbn [add_inputs].
  { apply ends_ret. by intros i Hi. }
  eapply (ends_bind _ _ _ (λ r i, constructing i ∧ result_ok (heap i) (store_path_new j) (Some x) r)).
  - intros i (Hok & Hb & Hr). pose proof (Hc j ltac:(left) (heap i) i) as H.
    destruct (create_input (store_path_new j) i) as [[r|e] i'].
    + destruct H as [[G1 G2 G3] Hres]; [split; [split; [apply Hok|done|apply Hok]|done]|].
      split; [|done]. split; [split; [done| |done]|]; [by etrans; [apply Hok|]|].
      split; [by eapply building_grown|]. pose proof (room_grown D _ _ G2). lia.
    + apply H. split; [split; [apply Hok|done|apply Hok]|done].
  - intros [|dep|failed].
    + eapply ends_weaken; [apply IH; intros; apply Hc; by right| |done]. naive_solver.
    + eapply ends_bind; [apply ends_step_at|]. intros s. cbn.
      eapply (ends_bind _ _ _ (λ _, constructing)); [|intros _; apply IH; intros; apply Hc; by right].
      destruct (negb (st_finished s) && negb (st_previous_failure s)).
      * eapply ends_weaken; [apply (add_dep_ends s dep)| |done].
        intros i [[Hi (s' & Hs' & _ & Hin)] Hs]. split; [done|]. split; [done|].
        assert (s' = s) as <- by congruence. by apply Hin.
      * apply ends_ret. naive_solver.
    + apply ends_ret. intros i [Hi Hf]. split; [done|]. by intros a [= <-].
Qed.

(** The step is complete. *)
Definition constructed (i : Intake) : Prop :=
  intake_ok h0 i ∧ ∃ s, hp_steps (heap i) !! x = Some s ∧ st_drv_path s = d ∧
    (∀ r, rs = Some r → r ∈ st_rdeps s) ∧ st_created s = true.

Lemma set_created_ends :
  ends constructing (world (on_heap (upd_step x (Step.set_created true)))) (λ _, constructed).
Proof.
  intros i (Hok & (s & Hs & Hd & Hr & Hrun & Hc) & _).
  pose proof (io_graph _ _ Hok) as [W1 W2 W3]. cbn -[upd_step].
  assert (graph_ok ((in_world i) <| w_heap ::= upd_step x (Step.set_created true) |>)) as Hg.
  { split; cbn -[upd_step].
    - apply upd_step_other_wf; [done| |done]. intros s' Hs' Hr'. assert (s' = s) as -> by congruence.
      cbn in Hr'. congruence.
    - by apply upd_step_registered.
    - apply upd_step_no_self; [|done]. intros ? _ r ?. by left. }
  split; [by apply (intake_own _ _ Hok Hg)|]. eexists. cbn -[upd_step].
  rewrite upd_step_lookup, Hs. done.
Qed.

Lemma finish_construction_ends :
  ends constructed
    (s ← world (step_at x);
     (if st_deps_len s =? 0 then modify (λ i, i <| in_new_runnable ::= hset_insert d x |>) else mret tt);;
     modify (λ i, i <| in_new_steps ::= hset_insert d x |>);;
     mret (CValid x))
    (λ r i, intake_ok h0 i ∧ result_ok (heap i) d rs r).
Proof.
  eapply ends_bind; [apply ends_step_at|]. intros s. cbn.
  eapply (ends_bind _ _ _ (λ _, constructed)).
  - destruct (st_deps_len s =? 0) eqn:E; [|apply ends_ret; naive_solver].
    apply ends_modify. intros i [[Hok (s' & Hs' & Hd & Hr & Hc)] Hs].
    assert (s' = s) as -> by congruence. split; [|by exists s].
    split; [apply Hok|apply Hok|]. cbn. intros d' a [Ha|[-> ->]]%hset_insert_Some; [by apply (io_runnable _ _ Hok d')|].
    exists s. split; [done|]. split; [done|]. apply Z.eqb_eq in E.
    rewrite (sw_deps_len _ _ _ (go_wf _ (io_graph _ _ Hok) x s Hs)) in E.
    apply map_size_empty_inv. lia.
  - intros _. eapply (ends_bind _ _ _ (λ _, constructed)).
    + apply ends_modify. intros i [[H1 H2 H3] Hs]. split; [by split|done].
    + intros _. apply ends_ret. intros i [Hok (s' & ? & ? & ? & _)]. split; [done|]. by exists s'.
Qed.

Lemma create_new_step_ends (create_input : addr → StorePath → IM CreateStepResult) build_id drv :
  (∀ j, j ∈ drv_input_drvs drv → ∀ h, ends
     (λ i, intake_ok h i ∧ building (heap i) x d rs ∧ (room D (heap i) < k)%nat)
     (create_input x (store_path_new j))
     (λ r i, intake_ok h i ∧ result_ok (heap i) (store_path_new j) (Some x) r)) →
  ends constructing (create_new_step create_input build_id d x drv)
    (λ r i, intake_ok h0 i ∧ result_ok (heap i) d rs r).
Proof.
  intros Hinp. unfold create_new_step.
  eapply ends_bind; [apply constructing_world; [gentle|nofuel]|intros ?; cbn beta].
  eapply ends_bind; [apply ends_gets|intros use; cbn beta].
  eapply ends_bind; [eapply ends_weaken; [apply constructing_world|naive_solver|]|].
  1-3: eauto using find_missing_gentle, find_missing_nofuel. intros missing. cbn beta.
  eapply ends_bind; [apply constructing_world; [gentle|nofuel]|intros ?; cbn beta].
  eapply ends_bind; [apply constructing_world; [apply check_cached_failure_gentle|apply check_cached_failure_nofuel]|].
  intros [].
  { eapply ends_bind; [apply constructing_world; [gentle|nofuel]|intros ?; cbn beta].
    apply ends_ret. intros i Hi. split; [apply Hi|]. by apply constructing_live. }
  eapply (ends_bind _ _ _ (λ _, constructing)).
  { destruct (negb _ && use); [|by apply ends_ret].
    eapply ends_bind; [apply constructing_world; [apply substitute_all_gentle|apply substitute_all_nofuel]|].
    intros n. by apply ends_ret. }
  intros [].
  - eapply ends_bind; [apply constructing_world; [gentle|nofuel]|intros ?; cbn beta].
    eapply (ends_bind _ _ _ (λ _, constructing)).
    { apply ends_modify. intros i [[H1 H2 H3] H]. by split. }
    intros ?. eapply ends_bind; [apply constructing_world; [gentle|nofuel]|intros ?; cbn beta].
    apply ends_ret. intros i Hi. split; [apply Hi|done].
  - eapply ends_bind; [by apply (add_inputs_ends (create_input x))|]. intros [f|]; cbn beta iota.
    + apply ends_ret. intros i [Hi Hf]. split; [apply Hi|]. by apply Hf.
    + eapply ends_bind; [eapply ends_weaken; [apply set_created_ends|naive_solver|done]|intros ?; cbn beta].
      apply finish_construction_ends.
Qed.
End NewStep.

Section Closure.
(** A finite set of derivations, closed under inputs, none its own input. *)
Context (D : gset StorePath).
Context (Hinputs : ∀ q d drv j, d ∈ D → FodChecker.parsed_drv q d = Some drv → j ∈ drv_input_drvs drv →
  store_path_new j ∈ D ∧ store_path_new j ≠ d).

(** What a call of [create_step] for [d] needs. *)
Definition may_create (h0 : Heap) (fuel : nat) (d : StorePath) (rs : option addr) (i : Intake) : Prop :=
  intake_ok h0 i ∧ (room D (heap i) < fuel)%nat ∧
  ∀ r, rs = Some r → ∃ s, hp_steps (heap i) !! r = Some s ∧ st_drv_path s ≠ d.

Lemma create_ends h0 fuel d rb rs :
  d ∈ D → ends (may_create h0 (S fuel) d rs) (world (create d rb rs))
    (λ '(a, is_new) i, intake_ok h0 i ∧ placed (heap i) a d rs ∧
       (is_new = true → constructing D h0 a d rs fuel i ∧ hp_steps h0 !! a = None)).
Proof.
  intros Hd i ([[W1 W2 W3] G H3] & Hroom & Hrs). unfold world, zoom, create.
  destruct (Steps.create d rb rs _ _) as [[a n] [steps' h']] eqn:E. cbn.
  destruct (create_spec _ _ _ _ _ _ _ _ _ W1 W2 E) as (W1' & W2' & Hn & s & Hs & Hds & Hr & _).
  pose proof (create_grown _ _ _ _ _ _ _ _ W1 E) as G'.
  assert (intake_ok h0 (i <| in_world := (in_world i) <| w_steps := steps' |> <| w_heap := h' |> |>)) as Hok.
  { split; cbn; [split; cbn; [done|done|exact (create_no_self d rb rs _ _ _ _ _ _ W1 W2 W3 Hrs E)]|by etrans|by eapply runnable_grown]. }
  split; [done|]. split; [by exists s|]. intros ->.
  destruct (create_building _ _ _ _ _ _ _ _ E) as [Hb Hfresh]. split.
  - split; [done|]. split; [done|]. cbn. unfold room in *.
    assert (D ∖ known h' ⊂ D ∖ known (heap i)) as Hlt%subset_size; [|lia].
    assert (d ∈ known h') by (apply elem_of_known; eauto).
    assert (d ∉ known (heap i)).
    { rewrite elem_of_known. intros (y & sy & Hy & Hdy). by eapply (proj1 Hn eq_refl). }
    pose proof (known_grown _ _ G'). set_solver.
  - specialize (Hfresh W1). destruct (hp_steps h0 !! a) as [s0|] eqn:E0; [|done].
    destruct (gr_steps _ _ G a s0 E0) as (? & ? & _). congruence.
Qed.

Lemma create_step_ends fuel build_id d rb rs h0 :
  d ∈ D → ends (may_create h0 fuel d rs) (create_step fuel build_id d rb rs)
    (λ r i, intake_ok h0 i ∧ result_ok (heap i) d rs r).
Proof.
  revert d rb rs h0. induction fuel as [|fuel IH]; intros d rb rs h0 Hd; [by intros i (_ & ? & _); lia|].
  cbn [create_step]. eapply ends_bind; [apply ends_gets|]. intros [].
  { apply ends_ret. intros i [(Hok & _) _]. by split. }
  eapply ends_bind; [eapply ends_weaken; [by apply (create_ends h0 fuel)|naive_solver|done]|].
  intros [a []]; cbn [negb].
  2: { apply ends_ret. naive_solver. }
  eapply (ends_bind _ _ _ (λ _ i, constructing D h0 a d rs fuel i ∧ hp_steps h0 !! a = None)).
  { intros i (_ & _ & H). destruct (H eq_refl) as [Hi Ha].
    pose proof (constructing_world D h0 a d rs fuel query) as Hq. specialize (Hq ltac:(gentle) ltac:(nofuel) i Hi).
    unfold world, zoom in *. by destruct (query (in_world i)) as [[] ?]. }
  intros q. destruct (FodChecker.parsed_drv q d) as [drv|] eqn:Edrv.
  2: { apply ends_ret. intros i [[Hok _] _]. by split. }
  intros i [Hi Ha]. apply (create_new_step_ends D h0 a d rs fuel Ha); [|done].
  intros j Hj h i' (Hok & (s & Hs & Hds & _) & Hroom). destruct (Hinputs q d drv j Hd Edrv Hj) as [Hin Hne].
  apply (IH _ None (Some a) h Hin). split; [done|]. split; [done|]. intros r [= <-]. exists s. split; congruence.
Qed.

(** ** Creating a build *)

(** The builds that wait are there, under their ids, and within [D]. *)
Definition waiting_ok (i : Intake) : Prop := ∀ id a, in_new_builds_by_id i !! id = Some a →
  ∃ b, hp_builds (heap i) !! a = Some b ∧ b_id b = id ∧ b_drv_path b ∈ D.

Lemma waiting_grown i i' :
  grown (heap i) (heap i') → in_new_builds_by_id i' = in_new_builds_by_id i → waiting_ok i → waiting_ok i'.
Proof.
  intros G E H id a Ha. rewrite E in Ha. destruct (H id a Ha) as (b & Hb & ? & ?).
  destruct (gr_builds _ _ G a b Hb) as (b' & ? & ? & ?). exists b'. split_and!; congruence.
Qed.

(** Between operations: at most [n] builds wait. *)
Definition loading (h0 : Heap) (n : nat) (i : Intake) : Prop :=
  intake_ok h0 i ∧ waiting_ok i ∧ (size (in_new_builds_by_id i) ≤ n)%nat.

Lemma loading_restart h0 n i : loading h0 n i → loading (heap i) n i.
Proof. intros ([H1 H2 H3] & Hw & Hn). split; [by split|done]. Qed.
Lemma loading_trans h0 h n i : grown h0 h → loading h n i → loading h0 n i.
Proof. intros G ([H1 H2 H3] & Hw & Hn). split; [|done]. split; [done|by etrans|done]. Qed.

Lemma loading_world {A} (m : WM A) h0 n :
  gentle m → nofuel m → ends (loading h0 n) (world m) (λ _, loading h0 n).
Proof.
  intros Hg Hn. apply (ends_world m (λ i, waiting_ok i ∧ (size (in_new_builds_by_id i) ≤ n)%nat) h0 Hg Hn).
  intros i w [Hw Hs] _ G. split; [|done]. by eapply waiting_grown.
Qed.

Lemma loading_modify h0 n (f : Intake → Intake) :
  (∀ i, in_world (f i) = in_world i ∧ in_new_runnable (f i) = in_new_runnable i ∧
        in_new_builds_by_id (f i) = in_new_builds_by_id i) →
  ends (loading h0 n) (modify f) (λ _, loading h0 n).
Proof.
  intros Hf. apply ends_modify. intros i ([H1 H2 H3] & Hw & Hn). destruct (Hf i) as (E1 & E2 & E3).
  split; [|split; [|by rewrite E3]].
  - split; rewrite ?E1, ?E2; done.
  - eapply waiting_grown; [|exact E3|done]. rewrite E1. done.
Qed.

(** [create_step] does not touch the builds that wait. *)
Lemma create_step_waiting fuel b d rb rs m :
  preserves (λ i, in_new_builds_by_id i = m) (create_step fuel b d rb rs).
Proof.
  assert (∀ A (w : WM A), preserves (λ i, in_new_builds_by_id i = m) (world w)) as Hworld.
  { intros A w i Hi. unfold world, zoom. by destruct (w (in_world i)). }
  assert (∀ f, (∀ i, in_new_builds_by_id (f i) = in_new_builds_by_id i) →
    preserves (λ i, in_new_builds_by_id i = m) (modify f : IM unit)) as Hmod.
  { intros f Hf i Hi. cbn. by rewrite Hf. }
  revert d rb rs. induction fuel as [|fuel IH]; intros d rb rs; cbn [create_step]; [by intros i|].
  unfold create_new_step.
  repeat first [ apply Hworld | (apply Hmod; reflexivity) | apply preserves_ret | apply preserves_gets
    | apply preserves_bind; [|intros ?]
    | match goal with
      | |- preserves _ (if ?b then _ else _) => destruct b
      | |- preserves _ (add_inputs _ _ ?l) => induction l as [|? ? IHl]; cbn [add_inputs]
      | |- preserves _ (match ?b with _ => _ end) => destruct b
      end | apply IH | assumption ].
Qed.

(** ** The top-level step and its priorities *)

Lemma visited_grown h b V : grown h (visited_heap h b V).
Proof.
  split; [|eauto]. intros a s Ha. exists (if decide (a ∈ V) then Build.bump b s else s). split.
  - unfold visited_heap. cbn [hp_steps upd set_hp_steps]. rewrite visited_lookup, Ha. done.
  - destruct (decide (a ∈ V)); [by split|apply grown_step_refl].
Qed.

Lemma visited_ok w b V : graph_ok w → graph_ok (w <| w_heap := visited_heap (w_heap w) b V |>).
Proof.
  intros [H1 [R1 [R2 R3]] H3].
  assert (∀ x s', hp_steps (visited_heap (w_heap w) b V) !! x = Some s' →
    ∃ s, hp_steps (w_heap w) !! x = Some s ∧ st_drv_path s' = st_drv_path s ∧ st_rdeps s' = st_rdeps s) as Hback.
  { intros x s'. unfold visited_heap. cbn [hp_steps upd set_hp_steps]. rewrite visited_lookup.
    destruct (hp_steps (w_heap w) !! x) as [s|]; [|done]. intros [= <-]. exists s. by destruct (decide _). }
  split; cbn -[visited_heap].
  - by apply visited_heap_wf.
  - split_and!; [| |done].
    + intros x s' (s & Hx & -> & _)%Hback. by apply R1.
    + intros d' x s' Hd (s & Hx & -> & _)%Hback. by eapply R2.
  - intros x s' (s & Hx & _ & ->)%Hback. by apply H3.
Qed.

Lemma propagate_ends w b top :
  graph_ok w → b_toplevel b = Some top → is_Some (hp_steps (w_heap w) !! top) →
  ∃ w', propagate b w = (Ok tt, w') ∧ graph_ok w' ∧ grown (w_heap w) (w_heap w').
Proof.
  intros Hw Ht Hl.
  destruct (propagate_priorities_correct (w_heap w) b top) as (V & HV & _);
    [apply graph_wf_deps_wf, Hw|eapply registered_drv_inj, Hw|done|done|].
  unfold propagate. rewrite HV. eexists. split; [done|]. split; [by apply visited_ok|apply visited_grown].
Qed.

Lemma attach_build_ends w build step :
  graph_ok w → is_Some (hp_steps (w_heap w) !! step) →
  match attach_build build step w with
  | (Ok _, w') => graph_ok w' ∧ grown (w_heap w) (w_heap w')
  | (Err e, _) => e ≠ Fuel
  end.
Proof.
  intros Hw [s Hs]. unfold attach_build. rewrite bind_run. unfold build_at at 1.
  destruct (hp_builds (w_heap w) !! build) as [b|] eqn:Hb; cbn [ok_or]; [|done].
  set (pre := if b_finished_in_db b then mret tt else _). rewrite bind_run.
  assert (∃ w1, pre w = (Ok tt, w1) ∧ w_heap w1 = w_heap w ∧ w_steps w1 = w_steps w) as (w1 & -> & E1 & E2).
  { unfold pre. destruct (b_finished_in_db b); eexists; (split; [reflexivity|]); done. }
  rewrite bind_run. set (f := upd_build build (Build.set_toplevel_step step)).
  destruct (gentle_upd_build build (Build.set_toplevel_step step) ltac:(done) w1) as [H2 G2].
  { apply (graph_ok_same w); congruence. }
  change (on_heap f w1) with (Ok tt : result Error unit, w1 <| w_heap ::= f |>) in *. cbn [snd] in *.
  set (w2 := w1 <| w_heap ::= f |>) in *.
  assert (hp_builds (w_heap w2) !! build = Some (Build.set_toplevel_step step b)) as Hb2.
  { unfold w2, f. cbn. by rewrite lookup_alter_eq, E1, Hb. }
  assert (hp_steps (w_heap w2) !! step = Some s) as Hs2 by (unfold w2, f; cbn; by rewrite E1).
  rewrite bind_run. unfold build_at. rewrite Hb2. cbn [ok_or].
  destruct (propagate_ends w2 (Build.set_toplevel_step step b) step H2 eq_refl) as (w3 & -> & H3 & G3); [by eexists|].
  split; [done|]. rewrite <-E1. by etrans.
Qed.

Lemma attach_ends h0 n build step :
  ends (λ i, loading h0 n i ∧ is_Some (hp_steps (heap i) !! step)) (world (attach_build build step))
    (λ _, loading h0 n).
Proof.
  intros i [([H1 H2 H3] & Hw & Hn) Hs]. unfold world, zoom.
  pose proof (attach_build_ends (in_world i) build step H1 Hs) as H.
  destruct (attach_build build step (in_world i)) as [[u|e] w']; [|done]. destruct H as [H1' G].
  split; [split; cbn; [done|by etrans|by eapply runnable_grown]|]. split; [|done]. by eapply waiting_grown.
Qed.

Lemma create_step_loading h0 n fuel b d rb :
  d ∈ D → (size D < fuel)%nat →
  ends (loading h0 n) (create_step fuel b d rb None)
    (λ r i, loading h0 n i ∧ result_ok (heap i) d None r).
Proof.
  intros Hd Hf i Hi. pose proof (loading_restart _ _ _ Hi) as ([R1 R2 R3] & Hw & Hn).
  assert (may_create (heap i) fuel d None i) as Hm.
  { split; [by split|]. split; [|done]. unfold room.
    pose proof (subseteq_size (D ∖ known (heap i)) D ltac:(set_solver)). lia. }
  pose proof (create_step_ends fuel b d rb None (heap i) Hd i Hm) as H.
  pose proof (create_step_waiting fuel b d rb None (in_new_builds_by_id i) i eq_refl) as Hby.
  destruct (create_step fuel b d rb None i) as [[r|e] i']; [|done]. cbn [snd] in Hby.
  destruct H as [[H1 H2 H3] Hres]. split; [|done].
  apply (loading_trans h0 (heap i)); [apply Hi|]. split; [by split|].
  split; [by eapply waiting_grown|by rewrite Hby].
Qed.

Lemma for_each_ends {A} (l : list A) (f : A → IM unit) (P : Intake → Prop) :
  (∀ x, x ∈ l → ends P (f x) (λ _, P)) → ends P (for_each l f) (λ _, P).
Proof.
  induction l as [|x l IH]; intros Hf; cbn [for_each]; [by apply ends_ret|].
  eapply ends_bind; [apply Hf; left|]. intros ?. apply IH. intros y Hy. apply Hf. by right.
Qed.

(** What a call of [create_build] needs. *)
Definition may_load (h0 : Heap) (fuel : nat) (build : addr) (i : Intake) : Prop :=
  intake_ok h0 i ∧ waiting_ok i ∧
  ∃ b, hp_builds (heap i) !! build = Some b ∧ b_drv_path b ∈ D ∧
    (size (delete (b_id b) (in_new_builds_by_id i)) < fuel)%nat.

(** A nested call, for a build that still waits. *)
Lemma nested_ends (create : addr → IM unit) h0 fuel id (X : Heap → Prop) :
  (∀ build h, ends (may_load h fuel build) (create build) (λ _, loading h (pred fuel))) →
  (∀ h h', grown h h' → X h → X h') →
  ends (λ i, loading h0 fuel i ∧ X (heap i))
    (j ← gets (λ i, in_new_builds_by_id i !! id);
     match j with None => mret tt | Some j => create j end)
    (λ _ i, loading h0 fuel i ∧ X (heap i)).
Proof.
  intros Hc HX. eapply ends_bind; [apply ends_gets|]. cbn beta. intros [j|].
  2: { apply ends_ret. naive_solver. }
  intros i [[Hl Hx] Hj]. destruct (loading_restart _ _ _ Hl) as (Hok & Hw & Hn).
  assert (may_load (heap i) fuel j i) as Hm.
  { split; [done|]. split; [done|]. destruct (Hw id j) as (b & Hb & Hid & Hd); [done|].
    exists b. split; [done|]. split; [done|]. rewrite Hid.
    assert (size (in_new_builds_by_id i) = S (size (delete id (in_new_builds_by_id i)))) as E.
    { rewrite <-(insert_delete_id (in_new_builds_by_id i) id j) at 1 by done.
      apply map_size_insert_None. apply lookup_delete_eq. }
    lia. }
  specialize (Hc j (heap i) i Hm). destruct (create j i) as [[u|e] i']; [|done].
  destruct Hc as (Hok' & Hw' & Hn'). split; [|by eapply HX; [apply Hok'|]].
  apply (loading_trans h0 (heap i)); [apply Hl|]. split; [done|]. split; [done|lia].
Qed.

Lemma create_build_ends fuel step_fuel by_path build h0 :
  (size D < step_fuel)%nat →
  ends (may_load h0 fuel build) (create_build fuel step_fuel by_path build) (λ _, loading h0 (pred fuel)).
Proof.
  intros Hsf. revert build h0. induction fuel as [|fuel IH]; intros build h0.
  { intros i (_ & _ & b & _ & _ & ?). lia. }
  cbn [create_build Nat.pred].
  eapply (ends_bind _ _ _ (λ b i, may_load h0 (S fuel) build i ∧ hp_builds (heap i) !! build = Some b)).
  { intros [w f ns nr by_id] Hi. unfold world, zoom, build_at. cbn. by destruct (hp_builds _ !! build) eqn:E. }
  intros b. eapply (ends_bind _ _ _ (λ _ i, loading h0 fuel i ∧ b_drv_path b ∈ D)).
  { apply ends_modify. intros i [([H1 H2 H3] & Hw & b' & Hb' & Hd & Hs) Hb].
    assert (b' = b) as -> by congruence. split; [|done]. split; [by split|]. split.
    - intros id a. cbn. intros [_ Ha]%lookup_delete_Some. by apply (Hw id).
    - cbn. lia. }
  intros _. eapply (ends_bind _ _ _ (λ _ i, loading h0 fuel i ∧ b_drv_path b ∈ D)).
  { intros i [Hi ?]. pose proof (loading_world query h0 fuel ltac:(gentle) ltac:(nofuel) i Hi) as Hq.
    unfold world, zoom in *. by destruct (query (in_world i)) as [[] ?]. }
  intros q. apply ends_pure. intros Hd.
  destruct (negb _); [apply loading_world; [apply abort_collected_gentle|apply abort_collected_nofuel]|].
  eapply ends_bind; [apply ends_gets|]. intros outer. cbn beta.
  eapply ends_bind; [eapply ends_weaken; [by apply (loading_modify h0 fuel)|naive_solver|done]|intros ?; cbn beta].
  eapply ends_bind; [by apply (create_step_loading h0 fuel)|]. intros r. cbn beta.
  eapply ends_bind; [apply ends_gets|]. intros new_steps. cbn beta.
  eapply (ends_bind _ _ _ (λ _, loading h0 fuel)); [|intros ?; by apply loading_modify].
  assert (∀ m : WM unit, gentle m → ends (loading h0 fuel) (world (attempt m);; mret tt) (λ _, loading h0 fuel)) as Hatt.
  { intros m Hm. eapply ends_bind; [apply loading_world; [by apply gentle_attempt|apply nofuel_attempt]|].
    intros ?. by apply ends_ret. }
  assert (∀ X : Heap → Prop, (∀ h h', grown h h' → X h → X h') →
    ends (λ i, loading h0 fuel i ∧ X (heap i))
      (for_each (builds_of_steps by_path new_steps) (λ id,
         j ← gets (λ i, in_new_builds_by_id i !! id);
         match j with None => mret tt | Some j => create_build fuel step_fuel by_path j end))
      (λ _ i, loading h0 fuel i ∧ X (heap i))) as Hloop.
  { intros X HX. apply for_each_ends. intros id _. by apply nested_ends. }
  destruct r as [|step|step].
  - eapply ends_bind; [eapply ends_weaken; [apply (Hloop (λ _, True))|naive_solver|done]|intros ?; cbn beta]; [done|].
    eapply ends_weaken; [apply Hatt, handle_cached_build_gentle|naive_solver|done].
  - eapply ends_bind; [eapply ends_weaken; [apply (Hloop (λ h, is_Some (hp_steps h !! step)))| |done]|intros ?; cbn beta].
    + intros h h' G [s Hs]. destruct (gr_steps _ _ G step s Hs) as (s' & ? & _). eauto.
    + intros i [[Hi (s & Hs & _)] _]. eauto.
    + apply attach_ends.
  - eapply ends_weaken; [apply Hatt, handle_previous_failure_gentle|naive_solver|done].
Qed.

(** ** Marking steps runnable *)

(** The steps of [l] are created and wait for nothing. *)
Definition ready_steps (h : Heap) (l : list addr) : Prop := ∀ a, a ∈ l →
  ∃ s, hp_steps h !! a = Some s ∧ st_created s = true ∧ st_deps s = ∅.

Lemma make_runnable_ready a h l : ready_steps h l → ready_steps (Step.make_runnable a h) l.
Proof.
  intros H x (s & Hs & Hc & Hd)%H. destruct (decide (x = a)) as [->|Hne].
  - rewrite (make_runnable_lookup _ _ _ Hs). eexists. split; [done|]. by destruct (st_runnable s).
  - rewrite make_runnable_lookup_ne by done. eauto.
Qed.

Lemma make_runnable_ok w a :
  graph_ok w → ready_steps (w_heap w) [a] → graph_ok (w <| w_heap ::= Step.make_runnable a |>).
Proof.
  intros Hw Ha. destruct (Ha a ltac:(left)) as (s & Hs & Hc & Hd).
  unfold Step.make_runnable. destruct (st_runnable s) eqn:Hr.
  { apply (graph_ok_same w); cbn; rewrite ?Hs, ?Hr; done. }
  set (w0 := w <| w_heap ::= (λ h, h <| hp_reads ::= S |>) |>).
  assert (graph_ok w0) as [W1 W2 W3] by (by apply (graph_ok_same w)).
  set (t := AtomicDateTime.new (hp_clock (w_heap w) (hp_reads (w_heap w)))).
  set (f := λ s, s <| st_runnable := true |> <| st_runnable_since := t |> <| st_last_supported := t |>).
  assert (graph_ok (w0 <| w_heap ::= upd_step a f |>)) as Hg.
  { split; cbn -[upd_step].
    - apply upd_step_other_wf; [done| |done]. intros s' Hs' _. assert (s' = s) as -> by (cbn in Hs'; congruence). done.
    - by apply upd_step_registered.
    - apply upd_step_no_self; [|done]. intros ? _ r ?. by left. }
  apply (graph_ok_same (w0 <| w_heap ::= upd_step a f |>)); [..|done]; cbn; rewrite ?Hs, ?Hr; done.
Qed.

Lemma make_all_runnable_ok l w :
  graph_ok w → ready_steps (w_heap w) l →
  let w' := w <| w_heap ::= (λ h, foldl (λ h a, Step.make_runnable a h) h l) |> in
  graph_ok w' ∧ hp_builds (w_heap w') = hp_builds (w_heap w).
Proof.
  revert w. induction l as [|a l IH]; intros w Hw Hl; cbn [foldl].
  { split; [by apply (graph_ok_same w)|done]. }
  destruct (IH (w <| w_heap ::= Step.make_runnable a |>)) as [H1 H2].
  - apply make_runnable_ok; [done|]. intros x ->%list_elem_of_singleton. apply Hl. left.
  - apply make_runnable_ready. intros x Hx. apply Hl. by right.
  - split; [done|]. cbn in H2 |- *. rewrite H2. apply (sf_builds _ _ (make_runnable_frame a (w_heap w))).
Qed.

(** ** All builds *)

Definition running (i : Intake) : Prop := graph_ok (in_world i) ∧ waiting_ok i.

Lemma make_new_runnable_ends l :
  ends (λ i, running i ∧ ready_steps (heap i) l)
    (world (on_heap (λ h, foldl (λ h a, Step.make_runnable a h) h l))) (λ _, running).
Proof.
  intros i [[Hg Hw] Hl]. cbn. destruct (make_all_runnable_ok l (in_world i) Hg Hl) as [H1 H2].
  split; [done|]. intros id a Ha. cbn in H2 |- *. rewrite H2. by apply Hw.
Qed.

Lemma process_builds_ends step_fuel by_path t ids :
  (size D < step_fuel)%nat →
  ends running (process_builds step_fuel by_path t ids) (λ _, running).
Proof.
  intros Hsf. induction ids as [|id ids IH]; cbn [process_builds]; [by apply ends_ret|].
  eapply ends_bind; [apply ends_gets|]. cbn beta. intros [build|].
  2: { eapply ends_weaken; [exact IH|naive_solver|done]. }
  eapply (ends_bind _ _ _ (λ _ i, running i ∧ in_new_runnable i = ∅ ∧ in_new_builds_by_id i !! id = Some build)).
  { apply ends_modify. intros i [[H1 H2] H3]. done. }
  intros ?. eapply (ends_bind _ _ _ (λ fuel i, may_load (heap i) fuel build i)).
  { intros i ([Hg Hw] & He & Hb). change (may_load (heap i) (S (size (in_new_builds_by_id i))) build i).
    destruct (Hw id build Hb) as (b & Hb' & Hid & Hd).
    split; [split; [done|done|rewrite He; intros ? ?; by rewrite lookup_empty]|]. split; [done|].
    exists b. split; [done|]. split; [done|]. rewrite map_size_delete. case_match; cbn; lia. }
  intros fuel. eapply (ends_bind _ _ _ (λ _ i, running i ∧ ready_steps (heap i) (iter_values (in_new_runnable i)))).
  { intros i Hi. pose proof (create_build_ends fuel step_fuel by_path build (heap i) Hsf i Hi) as H'.
    destruct (create_build fuel step_fuel by_path build i) as [[u|e] i']; [|done].
    destruct H' as ([H1 _ H3] & Hw & _). split; [done|]. intros x Hx.
    apply elem_of_iter_values in Hx as [d Hd]. by apply (H3 d). }
  intros ?. eapply ends_bind; [apply ends_gets|]. intros runnable. cbn beta.
  eapply ends_bind; [eapply ends_weaken; [apply (make_new_runnable_ends runnable)| |done]|]; [naive_solver|].
  intros ?. cbn beta. eapply ends_bind; [apply ends_gets|]. intros [limit|]; cbn beta.
  2: { eapply ends_weaken; [exact IH|naive_solver|done]. }
  eapply (ends_bind _ _ _ (λ _, running)).
  { intros i [[Hg Hw] _]. unfold world, zoom. cbn. split; [by apply (graph_ok_same (in_world i))|].
    intros id' x Hx. by apply (Hw id'). }
  intros now. destruct (run_over _ _ _); [by apply ends_ret|exact IH].
Qed.

(** ** The steps finished meanwhile *)

Lemma make_rdeps_runnable_ok w a :
  graph_ok w → graph_ok (w <| w_heap ::= Step.make_rdeps_runnable a |>).
Proof.
  intros [W1 W2 W3]. destruct (hp_steps (w_heap w) !! a) as [s|] eqn:Ha.
  2: { apply (graph_ok_same w); [..|by split]; cbn; unfold Step.make_rdeps_runnable; by rewrite ?Ha. }
  destruct (st_finished s) eqn:Hf.
  2: { apply (graph_ok_same w); [..|by split]; cbn; unfold Step.make_rdeps_runnable; by rewrite ?Ha, ?Hf. }
  destruct (make_rdeps_runnable_lookup a s (w_heap w) Ha Hf (W3 a s Ha)) as (Hfr & Ha' & Hout & Hin & Hno).
  set (h' := Step.make_rdeps_runnable a (w_heap w)) in *.
  assert (∀ x s', hp_steps h' !! x = Some s' → ∃ s0, hp_steps (w_heap w) !! x = Some s0 ∧
    st_drv_path s' = st_drv_path s0 ∧ ∀ r, r ∈ st_rdeps s' → r ∈ st_rdeps s0) as Hback.
  { intros x s' Hx. destruct (decide (x = a)) as [->|Hne].
    - rewrite Ha' in Hx. injection Hx as <-. exists s. split; [done|]. split; [done|]. cbn.
      intros r [_ ?]%list_elem_of_filter. done.
    - destruct (hp_steps (w_heap w) !! x) as [sx|] eqn:Ex; [|by rewrite (Hno x Ex) in Hx].
      exists sx. split; [done|]. destruct (decide (x ∈ st_rdeps s)) as [Hr|Hr].
      + destruct (Hin x sx Hr Ex) as (sx' & Hx' & Hrel%released_same).
        assert (sx' = s') as -> by congruence. destruct Hrel as (-> & -> & _). done.
      + rewrite Hout in Hx by done. naive_solver congruence. }
  split; cbn -[Step.make_rdeps_runnable].
  - apply make_rdeps_runnable_wf; [|done]. intros s' Hs'. by apply W3.
  - destruct W2 as (R1 & R2 & R3). split_and!.
    + intros x s' (s0 & Hx & -> & _)%Hback. by apply R1.
    + intros d' x s' Hd (s0 & Hx & -> & _)%Hback. by eapply R2.
    + fold h'. rewrite (sf_next _ _ Hfr). done.
  - intros x s' (s0 & Hx & _ & Hr)%Hback Hself. by eapply W3, Hr.
Qed.

Lemma make_all_rdeps_ok w steps :
  graph_ok w → graph_ok (w <| w_heap ::= Steps.make_rdeps_runnable steps |>).
Proof.
  unfold Steps.make_rdeps_runnable. revert w. induction (iter_values steps) as [|a l IH]; intros w Hw.
  { by apply (graph_ok_same w). }
  cbn [foldl]. destruct (hp_steps (w_heap w) !! a) as [s|] eqn:Ha.
  2: { apply (graph_ok_same _ _ eq_refl eq_refl eq_refl) in Hw. specialize (IH w Hw).
       eapply graph_ok_same; [..|exact IH]; cbn; by rewrite ?Ha. }
  destruct (st_finished s && negb (st_previous_failure s)) eqn:Hc.
  - specialize (IH _ (make_rdeps_runnable_ok w a Hw)).
    eapply graph_ok_same; [..|exact IH]; cbn; by rewrite ?Ha, ?Hc.
  - specialize (IH w Hw). eapply graph_ok_same; [..|exact IH]; cbn; by rewrite ?Ha, ?Hc.
Qed.

Lemma process_new_builds_ends step_fuel ids by_id by_path w :
  (size D < step_fuel)%nat → graph_ok w → waiting_ok (mkIntake w ∅ ∅ ∅ by_id) →
  match process_new_builds step_fuel ids by_id by_path w with
  | (Ok _, w') => graph_ok w'
  | (Err e, _) => e ≠ Fuel
  end.
Proof.
  intros Hsf Hw Hwait. unfold process_new_builds.
  assert (ends running (starttime ← world clock; process_builds step_fuel by_path starttime ids) (λ _, running)) as He.
  { eapply (ends_bind _ _ _ (λ _, running)); [|intros t; by apply process_builds_ends].
    intros i [Hg Hi]. unfold world, zoom. cbn. split; [by apply (graph_ok_same (in_world i))|].
    intros id a Ha. by apply (Hi id). }
  specialize (He (mkIntake w ∅ ∅ ∅ by_id) (conj Hw Hwait)).
  destruct ((starttime ← world clock; process_builds step_fuel by_path starttime ids) _) as [[u|e] i']; [|done].
  destruct He as [Hg _]. rewrite !bind_run. unfold on_heap, trigger_dispatch, on_fod, modify.
  eapply graph_ok_same; [..|exact (make_all_rdeps_ok _ (w_steps (in_world i')) Hg)]; reflexivity.
Qed.

(** ** Reading the rows *)

Definition read_ok (nb : NewBuilds) (w : World) : Prop :=
  graph_ok w ∧ ∀ id a, nb_by_id nb !! id = Some a → (a < hp_next (w_heap w))%positive ∧
    ∃ b, hp_builds (w_heap w) !! a = Some b ∧ b_id b = id ∧ b_drv_path b ∈ D.

Lemma read_ok_same nb w w' : core w' = core w → read_ok nb w → read_ok nb w'.
Proof.
  intros E [Hg Hn]. split; [by apply (core_ok w)|]. unfold core in E. injection E as _ E2 E3 _.
  by rewrite E2, E3.
Qed.

Lemma conn_query_nofuel {A} (f : Tables → A) : nofuel (conn_query f).
Proof.
  intros d. unfold conn_query, conn_exec. by destruct (next_fault (db_faults d)) as [[] fs].
Qed.
Lemma set_shares_nofuel v j : Jobset.set_shares v j ≠ Err Fuel.
Proof. unfold Jobset.set_shares. by destruct (try_u 32 v). Qed.
Lemma lift_nofuel {S A} (r : result Error A) : r ≠ Err Fuel → nofuel (lift_result r : M S Error A).
Proof. by intros H w. Qed.

Lemma create_jobset_same m w : core (create_jobset m w).2 = core w ∧ (create_jobset m w).1 ≠ Err Fuel.
Proof.
  unfold create_jobset, create_jobset_at. rewrite bind_run. unfold clock. cbn [now].
  unfold Jobsets.create. cbn [fst snd].
  destruct (hp_jobsets _ !! _); [done|].
  match goal with |- context [?x (w_db ?w1)] =>
    assert (nofuel x) as Hx; [|specialize (Hx (w_db w1)); destruct (x (w_db w1)) as [[] d]] end.
  - apply nofuel_bind; [apply conn_query_nofuel|intros shares].
    apply nofuel_bind; [by destruct shares; apply lift_nofuel|intros v].
    apply nofuel_bind; [apply lift_nofuel, set_shares_nofuel|intros j].
    apply nofuel_bind; [apply conn_query_nofuel|by intros].
  - done.
  - split; [done|]. cbn in *. congruence.
Qed.

Lemma alloc_build_ok b w nb :
  read_ok nb w → b_drv_path b ∈ D →
  read_ok (mkNewBuilds (nb_ids nb ++ [b_id b]) (<[b_id b := hp_next (w_heap w)]> (nb_by_id nb)) (nb_by_path nb))
    (alloc_build b w).2.
Proof.
  intros [[W1 (R1 & R2 & R3) W3] Hn] Hb. split.
  - split; [|split_and!; [done|done|]|done].
    + intros x s Hx. destruct (W1 x s Hx) as [A1 A2 A3 A4 A5]. split; [done|done|done|done|]. cbn. lia.
    + intros d a Ha. cbn. specialize (R3 d a Ha). lia.
  - intros id a. cbn. rewrite lookup_insert_Some. intros [[<- <-]|[Hid Ha]].
    + split; [lia|]. exists b. by rewrite lookup_insert_eq.
    + destruct (Hn id a Ha) as [? (b' & ? & ?)]. split; [lia|]. exists b'. rewrite lookup_insert_ne by lia. done.
Qed.

Lemma read_builds_ends ms nb w :
  read_ok nb w → (∀ m, m ∈ ms → store_path_new (bm_drvpath m) ∈ D) →
  match read_builds nb ms w with
  | (Ok nb', w') => read_ok nb' w'
  | (Err e, _) => e ≠ Fuel
  end.
Proof.
  revert nb w. induction ms as [|m ms IH]; intros nb w Hnb Hms; cbn [read_builds]; [done|].
  unfold add_new_build. rewrite !bind_run. destruct (create_jobset_same m w) as [Hc Hnf].
  destruct (create_jobset m w) as [[j|e] w1]; cbn [fst snd] in *; [|congruence].
  rewrite bind_run. unfold Build.new at 1. destruct (ts_valid _); cbn [lift_result]; [|done].
  rewrite bind_run. set (b := mkBuild _ _ _ _ _ _ _ _ _ _ _ _ _).
  assert (read_ok nb w1) as Hnb1 by (by eapply read_ok_same).
  pose proof (alloc_build_ok b w1 nb Hnb1 (Hms m ltac:(left))) as Hnb2.
  destruct (alloc_build b w1) as [r w2] eqn:Ea. injection Ea as <- <-. cbn [snd] in Hnb2.
  apply IH; [exact Hnb2|]. intros m' Hm'. apply Hms. by right.
Qed.

Lemma not_finished_rows t m fs :
  (get_not_finished_builds (mkDatabase t fs)).1 = Ok m → ∀ x, x ∈ m →
  ∃ r, r ∈ t_builds t ∧ r_finished r = 0 ∧ bm_id x = r_id r ∧ bm_drvpath x = r_drvpath r.
Proof.
  unfold get_not_finished_builds, conn_query, conn_exec. cbn.
  destruct (next_fault fs) as [[] fs']; cbn; [done|]. intros [= <-] x Hx.
  apply list_elem_of_fmap in Hx as ([r j] & -> & Hx). rewrite (sort_by_perm _ _), row_order_perm in Hx.
  apply list_elem_of_bind in Hx as (r' & Hx & Hr'). apply list_elem_of_bind in Hx as (j' & Hx & Hj').
  destruct ((_ =? _) && (_ =? _)) eqn:E; [|by apply not_elem_of_nil in Hx].
  apply list_elem_of_singleton in Hx as [= -> ->]. bool_prop. by exists r'.
Qed.
End Closure.

(** C9: Reading the queue ends and leaves the graph well formed: when the
    derivations of the builds lie in a finite set [D] closed under inputs, in
    which none is its own input, no recursion of [create_step] or
    [create_build] goes deeper than the number of derivations of [D]; the
    counters, the mirrored dependencies, the registry and the rule that a
    runnable step waits for nothing hold for the steps that were added. *)
Theorem get_queued_builds_ends (D : gset StorePath) (fuel : nat) (w : World)
    (Hinputs : ∀ q d drv j, d ∈ D → FodChecker.parsed_drv q d = Some drv → j ∈ drv_input_drvs drv →
       store_path_new j ∈ D ∧ store_path_new j ≠ d)
    (Hrows : ∀ r, r ∈ t_builds (db_tables (w_db w)) → store_path_new (r_drvpath r) ∈ D)
    (Hw : graph_ok w) (Hfuel : (size D < fuel)%nat) :
  match get_queued_builds fuel w with
  | (Ok _, w') => graph_ok w'
  | (Err e, _) => e ≠ Fuel
  end.
Proof.
  unfold get_queued_builds. rewrite bind_run.
  destruct (gentle_db get w Hw) as [H1 _].
  assert (db_tables (w_db (db get w).2) = db_tables (w_db w)) as E1.
  { unfold db, zoom, get, conn_query, conn_exec. by destruct (next_fault _) as [[] ?]. }
  pose proof (conn_query_nofuel (λ _, tt) (w_db w)) as N1. fold get in N1.
  unfold db, zoom in N1, E1, H1 |- *. destruct (get (w_db w)) as [[u|e] d1]; cbn [fst snd] in *; [|congruence].
  set (w1 := w <| w_db := d1 |>) in *. rewrite bind_run.
  destruct (gentle_db get_not_finished_builds w1 H1) as [H2 _].
  pose proof (conn_query_nofuel _ (w_db w1) : (get_not_finished_builds (w_db w1)).1 ≠ Err Fuel) as N2.
  unfold db, zoom in N2, H2 |- *.
  destruct (get_not_finished_builds (w_db w1)) as [[ms|e] d2] eqn:Ems; cbn [fst snd] in *; [|congruence].
  rewrite bind_run. set (w2 := w1 <| w_db := d2 |>) in *.
  assert (read_ok D (mkNewBuilds [] ∅ ∅) w2) as Hnew.
  { split; [done|]. intros id a. cbn. by rewrite lookup_empty. }
  assert (∀ m, m ∈ ms → store_path_new (bm_drvpath m) ∈ D) as Hms.
  { intros m Hm. destruct (not_finished_rows (db_tables d1) ms (db_faults d1)) with (x := m) as (r & Hr & _ & _ & ->); [|done|].
    - destruct d1. cbn in *. by rewrite Ems.
    - apply Hrows. by rewrite <-E1. }
  pose proof (read_builds_ends D ms (mkNewBuilds [] ∅ ∅) w2 Hnew Hms) as Hread.
  destruct (read_builds _ ms w2) as [[nb|e] w3]; [|done]. destruct Hread as [Hg3 Hn3].
  apply (process_new_builds_ends D Hinputs); [done|done|]. intros id a Ha. by apply (Hn3 id).
Qed.
End Env.
