(* ===== verification/Io.v ===== *)
(** * Io: what the queue runner tells about itself ([queue-runner/src/io],
    speeds and costs of [binary-cache/src/lib.rs] and [nix-utils/src/lib.rs])

    The types of the status pages and how they are made from the state. The
    figures of the process come from the crate [procfs] ([SelfEnv]) and from
    the files of its control group. The counters of Prometheus
    are in [Metrics]. *)

From Stdlib Require Import Ascii String.
From S2P Require Import NarInfo CacheCfg Stream BinaryCache.
From S2P Require Import Prelude Floats RustStr Nix Db Support Jobset Graph Result Machine Queue.
From S2P Require Import Config Uploader FodChecker State.
Local Open Scope string_scope.
Local Open Scope list_scope.
Local Open Scope Z_scope.

(** ** Builds, jobsets, steps *)

Module Io.

Record Build := mkBuild {
  bu_id : BuildID; bu_drv_path : StorePath; bu_jobset_id : Z; bu_name : string; bu_timestamp : Timestamp;
  bu_max_silent_time : Z; bu_timeout : Z; bu_local_priority : Z; bu_global_priority : Z; bu_finished_in_db : bool }.
Definition build_from (b : Graph.Build) : Build :=
  mkBuild (b_id b) (b_drv_path b) (b_jobset_id b) (b_name b) (b_timestamp b) (b_max_silent_time b) (b_timeout b)
    (b_local_priority b) (b_global_priority b) (b_finished_in_db b).

Record Jobset := mkJobset {
  jo_id : Z; jo_project_name : string; jo_name : string; jo_seconds : Z; jo_shares : Z }.
Definition jobset_from (j : Jobset.Jobset) : Jobset :=
  mkJobset (Jobset.js_id j) (js_project_name j) (js_name j) (js_seconds j) (js_shares j).

Record Step := mkStep {
  so_drv_path : StorePath; so_runnable : bool; so_finished : bool; so_previous_failure : bool; so_created : bool;
  so_tries : Z; so_highest_global_priority : Z; so_highest_local_priority : Z; so_lowest_build_id : Z; so_deps_count : Z }.
Definition step_from (s : Graph.Step) : Step :=
  mkStep (st_drv_path s) (st_runnable s) (st_finished s) (st_previous_failure s) (st_created s) (st_tries s)
    (st_highest_global_priority s) (st_highest_local_priority s) (st_lowest_build_id s) (st_deps_len s).

Record StepInfo := mkStepInfo {
  io_drv_path : StorePath; io_already_scheduled : bool; io_runnable : bool; io_finished : bool; io_cancelled : bool;
  io_runnable_since : Timestamp; io_tries : Z; io_lowest_share_used : f64; io_highest_global_priority : Z;
  io_highest_local_priority : Z; io_lowest_build_id : Z }.
Definition step_info_from (s : Graph.Step) (i : Queue.StepInfo) : StepInfo :=
  mkStepInfo (st_drv_path s) (si_already_scheduled i) (st_runnable s) (st_finished s) (si_cancelled i)
    (si_runnable_since i) (st_tries s) (si_lowest_share_used i) (st_highest_global_priority s)
    (st_highest_local_priority s) (st_lowest_build_id s).

Record BuildQueueStats := mkBuildQueueStats {
  qs_active_runnable : Z; qs_total_runnable : Z; qs_nr_runnable_waiting : Z; qs_nr_runnable_disabled : Z;
  qs_avg_runnable_time : Z; qs_wait_time_ms : Z }.
(** [BuildQueue::get_stats], as the page shows it. *)
Definition get_stats (q : BuildQueue) : BuildQueueStats :=
  mkBuildQueueStats (q_active_runnable q) (q_total_runnable q) (q_nr_runnable_waiting q) (q_nr_runnable_disabled q)
    (q_avg_runnable_time q) (q_wait_time_ms q).

(** ** Machines *)

Record MachineStats := mkMachineStats {
  mo_stats : Stats;
  mo_avg_step_time_ms : Z; mo_avg_step_import_time_ms : Z; mo_avg_step_build_time_ms : Z; mo_avg_step_upload_time_ms : Z;
  mo_since_last_ping : Z }.

(** The figures themselves are shown too: they are [mo_stats]. *)
Definition machine_stats_from (item : Stats) (now : Z) : MachineStats :=
  let nr_steps_done := s_nr_steps_done item in
  let avg total := if 0 <? nr_steps_done then total / nr_steps_done else 0 in
  mkMachineStats item (avg (s_total_step_time_ms item)) (avg (s_total_step_import_time_ms item))
    (avg (s_total_step_build_time_ms item)) (avg (s_total_step_upload_time_ms item)) (now - s_last_ping item).

(** The fields of the machine are shown as they are ([io_item]), but for the
    jobs, of which only the derivations are. *)
Record Machine := mkIoMachine {
  io_item : Machine.Machine; io_uptime : f64; io_score : f32; io_stats : MachineStats; io_jobs : list StorePath;
  io_has_capacity : bool; io_has_dynamic_capacity : bool; io_has_static_capacity : bool }.

Section Machines.
Context `{FE : FloatEnv} `{TL : TimeLib}.

(** [from_state]: [has_capacity] may reset the machine's window. *)
Definition from_state (item : Machine.Machine) (sort_fn : MachineSortFn) (free_fn : MachineFreeFn) (h : Heap)
  : Machine * (Machine.Machine * Heap) :=
  let jobs := j_path <$> mc_jobs item in
  let '(time, h) := now h in
  let uptime := default (S754_zero false) (total_s (mc_joined_at item) time) in
  let stats := machine_stats_from (mc_stats item) (as_second time) in
  let '(has_capacity, (item', h)) := Machine.has_capacity free_fn item h in
  (mkIoMachine item uptime (Machine.score sort_fn item) stats jobs has_capacity
     (Machine.has_dynamic_capacity item') (Machine.has_static_capacity item'), (item', h)).
End Machines.

(** ** The process *)

Record MemoryStats := mkMemoryStats {
  me_current_bytes : Z; me_peak_bytes : Z; me_swap_current_bytes : Z; me_zswap_current_bytes : Z }.
Record IoStats := mkIoStats { is_total_read_bytes : Z; is_total_write_bytes : Z }.
Record CpuStats := mkCpuStats { cs_usage_usec : Z; cs_user_usec : Z; cs_system_usec : Z }.
Record CgroupStats := mkCgroupStats { cg_memory : MemoryStats; cg_io : IoStats; cg_cpu : CpuStats }.
Record Process := mkProcess {
  po_pid : Z; po_vsize_bytes : Z; po_rss_bytes : Z; po_shared_bytes : Z; po_cgroup : option CgroupStats }.

Class SelfEnv : Type := {
  (** [Process::myself]: the process id. *)
  self_pid : option Z;
  (** [statm]: size, resident, shared, in pages; the size of a page. *)
  self_statm : option (Z * Z * Z);
  page_size : Z;
  (** The path names of the control groups. *)
  self_cgroups : option (list string)
}.

Section Process.
Context `{FS : FsEnv} `{SF : SelfEnv}.

Definition read_number (path : string) : option Z :=
  contents ← fs_read_to_string path; ok (parse_u 64 (trim contents)).

Definition MemoryStats_new (cgroups_path : string) : option MemoryStats :=
  current ← read_number (path_join cgroups_path "memory.current");
  peak ← read_number (path_join cgroups_path "memory.peak");
  swap ← read_number (path_join cgroups_path "memory.swap.current");
  zswap ← read_number (path_join cgroups_path "memory.zswap.current");
  Some (mkMemoryStats current peak swap zswap).

(** [part.split('=').nth(1).and_then(|v| v.trim().parse().ok()).unwrap_or(0)] *)
Definition value_of (w : Z) (parts : list string) : Z :=
  default 0 (v ← parts !! 1%nat; ok (parse_u w (trim v))).

Definition io_part (acc : IoStats) (part : string) : IoStats :=
  if starts_with "rbytes=" part then
    mkIoStats (u64_wrap (is_total_read_bytes acc + value_of 64 (split_char "=" part))) (is_total_write_bytes acc)
  else if starts_with "wbytes=" part then
    mkIoStats (is_total_read_bytes acc) (u64_wrap (is_total_write_bytes acc + value_of 64 (split_char "=" part)))
  else acc.
Definition IoStats_new (cgroups_path : string) : option IoStats :=
  contents ← fs_read_to_string (path_join cgroups_path "io.stat");
  Some (foldl (λ acc line, foldl io_part acc (split_whitespace line)) (mkIoStats 0 0) (lines contents)).

Definition cpu_line (acc : CpuStats) (line : string) : CpuStats :=
  let v := value_of 128 (split_whitespace line) in
  if starts_with "usage_usec" line then mkCpuStats v (cs_user_usec acc) (cs_system_usec acc)
  else if starts_with "user_usec" line then mkCpuStats (cs_usage_usec acc) v (cs_system_usec acc)
  else if starts_with "system_usec" line then mkCpuStats (cs_usage_usec acc) (cs_user_usec acc) v
  else acc.
Definition CpuStats_new (cgroups_path : string) : option CpuStats :=
  contents ← fs_read_to_string (path_join cgroups_path "cpu.stat");
  Some (foldl cpu_line (mkCpuStats 0 0 0) (lines contents)).

Definition CgroupStats_new : option CgroupStats :=
  groups ← self_cgroups;
  pathname ← head groups;
  let cgroups_path := "/sys/fs/cgroup/" +:+ pathname in
  if negb (fs_exists cgroups_path) then None
  else
    memory ← MemoryStats_new cgroups_path;
    io ← IoStats_new cgroups_path;
    cpu ← CpuStats_new cgroups_path;
    Some (mkCgroupStats memory io cpu).

Definition Process_new : option Process :=
  pid ← self_pid;
  '(size, resident, shared) ← self_statm;
  Some (mkProcess pid (u64_wrap (size * page_size)) (u64_wrap (resident * page_size)) (u64_wrap (shared * page_size))
          CgroupStats_new).
End Process.

(** ** Stores *)

(** [StoreStats] of the C++ store, and of the page. *)
Record FfiStoreStats := mkFfiStoreStats {
  fs_nar_info_read : Z; fs_nar_info_read_averted : Z; fs_nar_info_missing : Z; fs_nar_info_write : Z;
  fs_path_info_cache_size : Z; fs_nar_read : Z; fs_nar_read_bytes : Z; fs_nar_read_compressed_bytes : Z; fs_nar_write : Z;
  fs_nar_write_averted : Z; fs_nar_write_bytes : Z; fs_nar_write_compressed_bytes : Z; fs_nar_write_compression_time_ms : Z }.
Record StoreStats := mkStoreStats { ss_ffi : FfiStoreStats; ss_nar_compression_savings : f64; ss_nar_compression_speed : f64 }.

Definition nar_compression_savings (v : FfiStoreStats) : f64 :=
  if 0 <? fs_nar_write_bytes v then
    SFsub 53 1024 (f64_of_Z 1) (f64_div (f64_of_Z (fs_nar_write_compressed_bytes v)) (f64_of_Z (fs_nar_write_bytes v)))
  else S754_zero false.

(** Bytes in a time of milliseconds, as mebibytes per second. *)
Definition speed (bytes time_ms : Z) : f64 :=
  if 0 <? time_ms then
    f64_div (f64_mul (f64_div (f64_of_Z bytes) (f64_of_Z time_ms)) (f64_of_Z 1000)) (f64_of_Z (1024 * 1024))
  else S754_zero false.
Definition put_speed (s : BinaryCache.S3Stats) : f64 := speed (st_put_bytes s) (st_put_time_ms s).
Definition get_speed (s : BinaryCache.S3Stats) : f64 := speed (st_get_bytes s) (st_get_time_ms s).

Definition nar_compression_speed (v : FfiStoreStats) : f64 :=
  speed (fs_nar_write_bytes v) (fs_nar_write_compression_time_ms v).
Definition store_stats_new (v : FfiStoreStats) : StoreStats :=
  mkStoreStats v (nar_compression_savings v) (nar_compression_speed v).

(** [f64::mul_add]: rounded once. *)
Definition dyadic (x : f64) : option (Z * Z) :=
  match x with
  | S754_zero _ => Some (0, 0)
  | S754_finite s m e => Some (if s then Z.neg m else Z.pos m, e)
  | _ => None
  end.
Definition f64_mul_add (x y z : f64) : f64 :=
  let rough := SFadd 53 1024 (f64_mul x y) z in
  match dyadic x, dyadic y, dyadic z with
  | Some (a, e1), Some (b, e2), Some (c, e3) =>
      let e := Z.min (e1 + e2) e3 in
      let sum := a * b * 2 ^ (e1 + e2 - e) + c * 2 ^ (e3 - e) in
      if sum =? 0 then rough else binary_normalize 53 1024 sum e false
  | _, _, _ => rough
  end.

Definition f64_const (m k : Z) : f64 := of_decimal f64_format false m k.
Definition cost_dollar_approx (s : BinaryCache.S3Stats) : f64 :=
  f64_mul_add (f64_div (f64_of_Z (st_get_bytes s)) (f64_of_Z (1024 * 1024 * 1024))) (f64_const 9 (-2))
    (f64_mul_add (f64_div (SFadd 53 1024 (f64_of_Z (st_get s)) (f64_of_Z (st_head s))) (f64_of_Z 10000)) (f64_const 4 (-3))
       (f64_mul (f64_div (f64_of_Z (st_put s)) (f64_of_Z 1000)) (f64_const 5 (-3)))).

(** A thousand requests to put cost half a cent. *)
Example cost_of_puts : cost_dollar_approx (mkS3Stats 1000 0 0 0 0 0 0) = f64_const 5 (-3).
Proof. vm_compute. reflexivity. Qed.

Record S3Stats := mkS3 { s3_stats : BinaryCache.S3Stats; s3_put_speed : f64; s3_get_speed : f64; s3_cost_dollar_approx : f64 }.
Definition s3_stats_new (v : BinaryCache.S3Stats) : S3Stats := mkS3 v (put_speed v) (get_speed v) (cost_dollar_approx v).

(** ** Responses *)

Record QueueRunnerStats := mkQueueRunnerStats {
  ro_time : Timestamp; ro_proc : option Process; ro_supported_features : list string;
  ro_build_count : nat; ro_jobset_count : nat; ro_step_count : nat; ro_runnable_count : nat;
  ro_queue_stats : gmap System BuildQueueStats }.

Inductive Body :=
| Empty_
| ErrorBody (error : string)
| MachinesResponse (machines : gmap string Machine) (machines_count : nat)
| DumpResponse (queue_runner : QueueRunnerStats) (machines : gmap string Machine) (jobsets : gmap string Jobset)
    (store : option StoreStats) (s3 : gmap string S3Stats)
| JobsetsResponse (jobsets : gmap string Jobset) (jobset_count : nat)
| BuildsResponse (builds : list Build) (build_count : nat)
| StepsResponse (steps : list Step) (step_count : nat)
| QueueResponse (queues : gmap System (list StepInfo))
| StepInfoResponse (steps : list StepInfo) (step_count : nat)
| UploadsResponse (paths : list StorePath) (path_count : nat)
| BuildActiveResponse (active : bool)
| MetricsText.
End Io.
