(* ===== verification/Http.v ===== *)
(** * Http: the status server ([queue-runner/src/server/http.rs], the dump of
    the status in [mod.rs])

    Requests are routed by method and path; a handler reads the state, or
    queues a build. JSON is the class [JsonLib]. An error of a handler becomes
    a response; an error of the router itself closes the connection. *)

From Stdlib Require Import Ascii String.
From S2P Require Import NarInfo CacheCfg Stream BinaryCache.
From S2P Require Import Prelude Floats RustStr Nix Db Support Jobset Graph Result Machine Queue.
From S2P Require Import Config Uploader FodChecker State Intake Io.
Local Open Scope string_scope.
Local Open Scope list_scope.
Local Open Scope Z_scope.

(** ** Routes *)

Inductive Method := GET | POST | PUT | OtherMethod.

Inductive Route :=
| RStatus | RMachines | RJobsets | RBuilds | RSteps | RRunnable | RQueues | RQueueJobs | RQueueScheduled | RUploads
| RActive (id_str : string) | RDumpStatus | RBuild | RBuildOne | RMetrics.

(** [Error]; [HNotFound] has status 404, the others 500. The text of a body is
    given without that of the error inside. *)
Inductive HttpError := HNotFound | HJson | HState (e : Error).
Definition get_status_code (e : HttpError) : Z := match e with HNotFound => 404 | _ => 500 end.
Definition error_text (e : HttpError) : string :=
  match e with
  | HNotFound => "Not found"
  | HJson => "serde json error"
  | HState Sqlx => "db error"
  | HState _ => "anyhow error"
  end.

(** ["/status" | "/status/"] *)
Definition is_path (p path : string) : bool := bool_decide (path = p ∨ path = p +:+ "/").

(** [Err] leaves the router with [?]. *)
Definition route (m : Method) (path : string) : result HttpError (option Route) :=
  match m with
  | GET =>
      if is_path "/status" path then Ok (Some RStatus)
      else if is_path "/status/machines" path then Ok (Some RMachines)
      else if is_path "/status/jobsets" path then Ok (Some RJobsets)
      else if is_path "/status/builds" path then Ok (Some RBuilds)
      else if is_path "/status/steps" path then Ok (Some RSteps)
      else if is_path "/status/runnable" path then Ok (Some RRunnable)
      else if is_path "/status/queues" path then Ok (Some RQueues)
      else if is_path "/status/queues/jobs" path then Ok (Some RQueueJobs)
      else if is_path "/status/queues/scheduled" path then Ok (Some RQueueScheduled)
      else if is_path "/status/uploads" path then Ok (Some RUploads)
      else if starts_with "/status/build/" path && ends_with "/active" path then
        id_str ← ok_or (strip_prefix "/status/build/" path ≫= strip_suffix "/active") HNotFound;
        Ok (Some (RActive id_str))
      else if is_path "/metrics" path then Ok (Some RMetrics)
      else Ok None
  | POST =>
      if is_path "/dump_status" path then Ok (Some RDumpStatus)
      else if is_path "/build_one" path then Ok (Some RBuildOne)
      else Ok None
  | PUT => if is_path "/build" path then Ok (Some RBuild) else Ok None
  | OtherMethod => Ok None
  end.

(** [collect()] into a map: a later entry replaces an earlier one. *)
Definition collect_map {K A} `{Countable K} (l : list (K * A)) : gmap K A :=
  foldl (λ m kv, <[kv.1 := kv.2]> m) ∅ l.

Class JsonLib : Type := {
  json_build : string → option (string * Z);
  json_build_one : string → option Z;
  json_dump : Io.Body → result string string;
  ffi_get_store_stats : nat → option Io.FfiStoreStats
}.

Section Http.
Context `{HI : HashIter} `{FE : FloatEnv} `{TL : TimeLib} `{NE : NixEnv} `{DE : DbEnv} `{SE : StateEnv}
  `{FS : FsEnv} `{SL : SignLib} `{SHA : Sha256Lib} `{CE : CacheEnv} `{SF : Io.SelfEnv} `{JL : JsonLib}.

(** ** What is shown *)

Fixpoint show_machines (l : list addr) : WM (list (string * Io.Machine)) :=
  match l with
  | [] => mret []
  | a :: l' =>
      cfg ← gets w_config;
      m ← machine_at a;
      io ← on_machine a (λ m h, Io.from_state m (pa_machine_sort_fn cfg) (pa_machine_free_fn cfg) h);
      rest ← show_machines l';
      mret ((mc_hostname m, io) :: rest)
  end.
Definition machines_by_hostname : WM (gmap string Io.Machine) :=
  l ← gets (λ w, Machines.get_all_machines (w_machines w)); ms ← show_machines l; mret (collect_map ms).

(** The [clone_as_io] of the registries. *)
Definition jobsets_as_io (w : World) : gmap string Io.Jobset :=
  collect_map ((λ j, (Jobset.full_name j, Io.jobset_from j)) <$> iter_values (hp_jobsets (w_heap w))).
Definition builds_as_io (w : World) : list Io.Build :=
  Io.build_from <$> omap (λ a, hp_builds (w_heap w) !! a) (iter_values (w_builds w)).
Definition steps_as_io (w : World) : list Io.Step :=
  Io.step_from <$> omap (λ a, hp_steps (w_heap w) !! a) (iter_values (w_steps w)).
Definition runnable_as_io (w : World) : list Io.Step :=
  Io.step_from <$> List.filter st_runnable (omap (λ a, hp_steps (w_heap w) !! a) (iter_values (w_steps w))).

Definition info_as_io (w : World) (i : StepInfo) : option Io.StepInfo :=
  s ← hp_steps (w_heap w) !! si_step i; Some (Io.step_info_from s i).
Definition queues_as_io (w : World) : gmap System (list Io.StepInfo) :=
  (λ q, omap (λ a, i ← Queues.upgrade (w_queues w) a; info_as_io w i) (q_jobs q)) <$> iq_inner (w_queues w).
Definition infos_as_io (w : World) (l : list addr) : list Io.StepInfo :=
  omap (λ a, i ← iq_infos (w_queues w) !! a; info_as_io w i) l.

(** [QueueRunnerStats::new]: counting drops the entries of dead steps. *)
Definition queue_runner_stats : WM Io.QueueRunnerStats :=
  build_count ← gets (λ w, size (w_builds w));
  jobset_count ← gets (λ w, size (hp_jobsets (w_heap w)));
  step_count ← (λ w, let '(n, steps) := Steps.len (w_heap w) (w_steps w) in (Ok n, w <| w_steps := steps |>));
  runnable_count ← (λ w, let '(n, steps) := Steps.len_runnable (w_heap w) (w_steps w) in (Ok n, w <| w_steps := steps |>));
  queue_stats ← gets (λ w, Io.get_stats <$> iq_inner (w_queues w));
  time ← clock;
  features ← gets (λ w, Machines.get_supported_features (w_machines w));
  mret (Io.mkQueueRunnerStats time Io.Process_new features build_count jobset_count step_count runnable_count queue_stats).

Definition s3_by_bucket (stores : list S3BinaryCacheClient) : gmap string Io.S3Stats :=
  collect_map ((λ c, (sc_bucket (cc_client_config (cl_cfg c)), Io.s3_stats_new (cl_s3_stats c))) <$> stores).

Definition dump_response : WM Io.Body :=
  queue_stats ← queue_runner_stats;
  machines ← machines_by_hostname;
  w ← gets id;
  q ← query;
  mret (Io.DumpResponse queue_stats machines (jobsets_as_io w) (Io.store_stats_new <$> ffi_get_store_stats q)
          (s3_by_bucket (w_remote_stores w))).

(** ** Handlers *)

Abbreviation HM := (M World HttpError).

Definition from_wm {A} (m : WM A) : HM A := λ w, let '(r, w) := m w in (map_err HState r, w).

Definition handle_active (id_str : string) : HM Io.Body :=
  build_id ← lift_result (map_err (λ _, HNotFound) (parse_i 32 id_str));
  from_wm (db get);;
  builds ← from_wm (db get_not_finished_builds_fast);
  mret (Io.BuildActiveResponse (existsb (λ b, bs_id b =? build_id) builds)).

Definition handle_build (body : string) : HM Io.Body :=
  '(drv, jobset_id) ← lift_opt HJson (json_build body);
  from_wm (queue_one_build jobset_id (store_path_new drv));;
  mret Io.Empty_.

Definition handle_build_one (step_fuel : nat) (body : string) : HM Io.Body :=
  build_id ← lift_opt HJson (json_build_one body);
  found ← from_wm (manually_add_queue_build step_fuel build_id);
  if found : bool then mret Io.Empty_ else throw HNotFound.

Definition handle_dump_status : HM Io.Body :=
  from_wm (db get);; from_wm (db (run_tx notify_dump_status));; mret Io.Empty_.

Definition handle (step_fuel : nat) (body : string) (r : Route) : HM Io.Body :=
  match r with
  | RStatus => from_wm dump_response
  | RMachines => ms ← from_wm machines_by_hostname; mret (Io.MachinesResponse ms (size ms))
  | RJobsets => js ← gets jobsets_as_io; mret (Io.JobsetsResponse js (size js))
  | RBuilds => l ← gets builds_as_io; mret (Io.BuildsResponse l (length l))
  | RSteps => l ← gets steps_as_io; mret (Io.StepsResponse l (length l))
  | RRunnable => l ← gets runnable_as_io; mret (Io.StepsResponse l (length l))
  | RQueues => qs ← gets queues_as_io; mret (Io.QueueResponse qs)
  | RQueueJobs => l ← gets (λ w, infos_as_io w (Queues.get_jobs (w_queues w))); mret (Io.StepInfoResponse l (length l))
  | RQueueScheduled =>
      l ← gets (λ w, infos_as_io w (Queues.get_scheduled (w_queues w))); mret (Io.StepInfoResponse l (length l))
  | RUploads => l ← gets (λ w, Uploader.paths_in_queue (w_uploader w)); mret (Io.UploadsResponse l (length l))
  | RActive id_str => handle_active id_str
  | RDumpStatus => handle_dump_status
  | RBuild => handle_build body
  | RBuildOne => handle_build_one step_fuel body
  | RMetrics => mret Io.MetricsText
  end.

(** [router]: the status and the body of the response. *)
Definition router (step_fuel : nat) (m : Method) (path body : string) : HM (Z * Io.Body) :=
  r ← lift_result (route m path);
  res ← attempt (match r with Some r => handle step_fuel body r | None => throw HNotFound end);
  mret (match res with
        | Ok b => (200, b)
        | Err e => (get_status_code e, Io.ErrorBody (error_text e))
        end).

(** ** The dump in the database *)

(** A turn of [dump_status_loop], once notified. *)
Definition dump_turn : WM unit :=
  dump_status ← dump_response;
  conn ← attempt (db get);
  match conn with
  | Ok _ =>
      attempt (db (run_tx (v ← lift_result (map_err Anyhow (json_dump dump_status));
                           upsert_status v;; notify_status_dumped)));;
      mret tt
  | Err _ => mret tt
  end.

(** What [get_status_from_main_process] prints, when it is notified. *)
Definition read_status : WM (option string) := db get_status.
End Http.

(** ** The pages are right *)

Section Claims.
Context `{HI : HashIter} `{FE : FloatEnv} `{TL : TimeLib} `{NE : NixEnv} `{DE : DbEnv} `{SE : StateEnv}
  `{FS : FsEnv} `{SL : SignLib} `{SHA : Sha256Lib} `{CE : CacheEnv} `{SF : Io.SelfEnv} `{JL : JsonLib}.

Lemma strip_suffix_app p s : strip_suffix p (s +:+ p) = Some s.
Proof. by apply strip_suffix_Some. Qed.
Lemma ends_with_app p s : ends_with p (s +:+ p) = true.
Proof. unfold ends_with. rewrite str_rev_app. apply starts_with_app. Qed.

Lemma other_path p x : starts_with "/status/build/" p = false → starts_with "/status/build/" (p +:+ "/") = false →
  is_path p ("/status/build/" +:+ x) = false.
Proof.
  intros H1 H2. apply bool_decide_eq_false. intros [E|E]; [rewrite <-E in H1|rewrite <-E in H2]; by rewrite starts_with_app in *.
Qed.

Lemma route_active id_str : route GET ("/status/build/" +:+ id_str +:+ "/active") = Ok (Some (RActive id_str)).
Proof.
  unfold route. rewrite !other_path by reflexivity. rewrite starts_with_app.
  assert (ends_with "/active" ("/status/build/" +:+ id_str +:+ "/active") = true) as ->
    by (rewrite <-str_app_assoc; apply ends_with_app).
  cbn [andb]. rewrite strip_prefix_app. cbn [mbind option_bind]. by rewrite strip_suffix_app.
Qed.

(** A query of a database that answers. *)
Lemma db_query_ok {A} (f : Tables → A) w : db_faults (w_db w) = [] →
  db (conn_query f) w = (Ok (f (db_tables (w_db w))), w).
Proof.
  intros H. unfold db, zoom, conn_query, conn_exec. rewrite H. cbn. destruct w as [? ? ? ? ? [t fs]]. cbn in *. by subst.
Qed.
Lemma from_wm_ok {A} (m : WM A) a w w' : m w = (Ok a, w') → from_wm m w = (Ok a, w').
Proof. intros H. unfold from_wm. by rewrite H. Qed.

(** The page of a build says that it is active exactly when the database
    has the build as not finished. *)
Theorem active_page_exact step_fuel body id w :
  in_u 31 id = true → db_faults (w_db w) = [] →
  ∃ active, router step_fuel GET ("/status/build/" +:+ show_Z id +:+ "/active") body w =
    (Ok (200, Io.BuildActiveResponse active), w) ∧
  (active = true ↔ ∃ r, r ∈ t_builds (db_tables (w_db w)) ∧ r_id r = id ∧ r_finished r = 0).
Proof.
  intros Hid Hdb. exists (existsb (λ b, bs_id b =? id) (row_order (map (λ r, mkBuildSmall (r_id r) (r_globalpriority r))
    (filter (λ r, r_finished r = 0) (t_builds (db_tables (w_db w))))))). split.
  - unfold router. rewrite bind_run, route_active. cbn [lift_result]. rewrite bind_run. unfold attempt.
    cbn [handle]. unfold handle_active, get, get_not_finished_builds_fast. rewrite (parse_i_show_Z 32 id Hid).
    rewrite bind_run. cbn [map_err lift_result]. rewrite bind_run, (from_wm_ok _ _ _ _ (db_query_ok _ w Hdb)).
    rewrite bind_run, (from_wm_ok _ _ _ _ (db_query_ok _ w Hdb)). reflexivity.
  - rewrite existsb_exists. setoid_rewrite <-list_elem_of_In. setoid_rewrite row_order_perm.
    setoid_rewrite list_elem_of_fmap. setoid_rewrite list_elem_of_filter. split.
    + intros (b & (r & -> & Hf & Hr) & He%Z.eqb_eq). cbn in He. eauto.
    + intros (r & Hr & Hi & Hf). eexists. split; [by exists r|]. by apply Z.eqb_eq.
Qed.
(** A path between the prefix and the suffix of the page of a build, which
    overlap in it, leaves the router with an error: the connection is closed
    without the response 404 that other unknown paths get. *)
Theorem overlapping_path_closes step_fuel body w :
  router step_fuel GET "/status/build/active" body w = (Err HNotFound, w) ∧
  router step_fuel GET "/status/unknown" body w = (Ok (404, Io.ErrorBody "Not found"), w).
Proof. split; reflexivity. Qed.

(** ** The dump *)

(** With a database that answers, a turn of the dump stores the state of
    the queue runner, and the process that asked for it reads what was
    stored. *)
Theorem dump_reads_back w d w0 v :
  dump_response w = (Ok d, w0) → json_dump d = Ok v → db_faults (w_db w0) = [] →
  ∃ w1, dump_turn w = (Ok tt, w1) ∧ read_status w1 = (Ok (Some v), w1) ∧
    t_builds (db_tables (w_db w1)) = t_builds (db_tables (w_db w0)).
Proof.
  intros Hd Hv Hdb. unfold dump_turn. rewrite bind_run, Hd. rewrite bind_run. unfold attempt at 1, get.
  rewrite (db_query_ok _ w0 Hdb). rewrite bind_run. unfold attempt, db, zoom.
  destruct (w_db w0) as [t fs] eqn:Ew. cbn in Hdb. subst fs.
  erewrite (run_tx_ok _ t tt); [|unfold lift_result; rewrite bind_run, Hv; reflexivity].
  eexists. split; [reflexivity|]. split; [|done]. unfold read_status, get_status. rewrite db_query_ok by done. cbn.
  by rewrite lookup_insert_eq.
Qed.

(** ** Machines by host name *)

Lemma capacity_hostname free_fn m h : mc_hostname (Machine.has_capacity free_fn m h).2.1 = mc_hostname m.
Proof. unfold Machine.has_capacity. destruct (now h) as [t h']. repeat (case_match; try done). Qed.

Lemma from_state_hostname m sort_fn free_fn h : mc_hostname (Io.from_state m sort_fn free_fn h).2.1 = mc_hostname m.
Proof.
  unfold Io.from_state. destruct (now h) as [t h']. pose proof (capacity_hostname free_fn m h') as H.
  by destruct (Machine.has_capacity free_fn m h') as [c [m' h'']].
Qed.

(** The names, whatever happens to the figures. *)
Definition hostname_at (w : World) (a : addr) : option string := mc_hostname <$> ms_objs (w_machines w) !! a.

Lemma show_machines_names l w ms w' : show_machines l w = (Ok ms, w') → mapM (hostname_at w) l = Some (ms.*1).
Proof.
  revert w ms w'. induction l as [|a l IH]; intros w ms w'; cbn [show_machines]; [by intros [= <- _]|].
  intros (cfg & w1 & [= _ <-] & H)%bind_Ok. apply bind_Ok in H as (m & w2 & Hm & H).
  unfold machine_at in Hm. destruct (ms_objs (w_machines w) !! a) as [m0|] eqn:E; [|done]. injection Hm as -> <-.
  apply bind_Ok in H as (io & w3 & Hio & (rest & w4 & Hr & [= <- _])%bind_Ok).
  unfold on_machine in Hio. rewrite E in Hio.
  pose proof (from_state_hostname m (pa_machine_sort_fn cfg) (pa_machine_free_fn cfg) (w_heap w)) as Hn.
  destruct (Io.from_state m _ _ (w_heap w)) as [io' [m' h']]. injection Hio as -> <-.
  apply IH in Hr. apply mapM_Some. constructor; [unfold hostname_at; by rewrite E|].
  apply mapM_Some in Hr. eapply Forall2_impl; [exact Hr|]. intros b n. unfold hostname_at. cbn.
  destruct (decide (b = a)) as [->|Hne]; [rewrite lookup_insert_eq, E; cbn; cbn in Hn; by rewrite Hn|].
  by rewrite lookup_insert_ne.
Qed.

Lemma collect_map_dom {K A} `{Countable K} (l : list (K * A)) : dom (collect_map l) = list_to_set (l.*1).
Proof.
  unfold collect_map. assert (∀ m, dom (foldl (λ m kv, <[kv.1 := kv.2]> m) m l) = list_to_set (l.*1) ∪ dom m) as ->; [|set_solver].
  induction l as [|[k a] l IH]; intros m; cbn; [set_solver|]. rewrite IH, dom_insert_L. set_solver.
Qed.

(** The page of the machines shows one machine for each host name: its
    count is the number of names, not of builders. *)
Theorem machines_shown_by_hostname step_fuel body w ms n w' :
  router step_fuel GET "/status/machines" body w = (Ok (200, Io.MachinesResponse ms n), w') →
  ∃ names, mapM (hostname_at w) (Machines.get_all_machines (w_machines w)) = Some names ∧
    dom ms = list_to_set names ∧ n = size (list_to_set names : gset string).
Proof.
  intros H. unfold router in H. cbn [route] in H. 
  change (route GET "/status/machines") with (Ok (E := HttpError) (Some RMachines)) in H.
  apply bind_Ok in H as (r & w1 & [= <- <-] & H). apply bind_Ok in H as (res & w2 & Ha & [= Hres <-]).
  unfold attempt in Ha. destruct (handle _ _ RMachines w) as [r0 w3] eqn:Eh. injection Ha as <- <-.
  destruct r0 as [b|e]; [|done]. injection Hres as ->. cbn [handle] in Eh.
  apply bind_Ok in Eh as (ms' & w4 & Hm & [= <- <- _]). unfold from_wm in Hm.
  destruct (machines_by_hostname w) as [[ms0|e] w5] eqn:Em; [|done]. injection Hm as -> <-.
  unfold machines_by_hostname in Em. apply bind_Ok in Em as (l & w6 & [= <- <-] & (ps & w7 & Hs & [= <- _])%bind_Ok).
  exists (ps.*1). split; [by apply show_machines_names in Hs|]. rewrite <-size_dom. by rewrite collect_map_dom.
Qed.
End Claims.
