(* ===== verification/Metrics.v ===== *)
(** * Metrics: the figures for Prometheus ([queue-runner/src/state/metrics.rs])

    A metric is a field of [PromMetrics]; here the fields of each kind are an
    enumeration, and the metrics map them to their values. The registry and the
    checks of names are those of the crate [prometheus] ([PromLib]); a counter
    is an unsigned and a gauge a signed number of 64 bits, and a vector has a
    number for each label that was set since its last reset, as documented
    there. The handlers count in passing; what is modelled is the creation of
    the metrics, the tracking of finished builds and the refresh before the
    figures are shown. *)

From Stdlib Require Import Ascii String.
From stdpp Require Import functions.
From S2P Require Import NarInfo CacheCfg Stream BinaryCache.
From S2P Require Import Prelude Floats RustStr Nix Db Support Jobset Graph Result Machine Queue.
From S2P Require Import Config Uploader FodChecker State Intake Io Http.
Local Open Scope string_scope.
Local Open Scope list_scope.
Local Open Scope Z_scope.

Module Metrics.

(** ** The fields *)

Inductive IntCounter :=
| queue_checks_started | queue_build_loads | queue_steps_created | queue_checks_early_exits
| queue_checks_finished | dispatcher_time_spent_running | dispatcher_time_spent_waiting
| queue_monitor_time_spent_running | queue_monitor_time_spent_waiting | nr_builds_read | build_read_time_ms
| nr_builds_done | nr_builds_succeeded | nr_builds_failed | nr_steps_started | nr_steps_done
| nr_unsupported_steps_aborted | nr_substitutes_started | nr_substitutes_failed | nr_substitutes_succeeded
| nr_retries | total_step_time_ms | total_step_import_time_ms | total_step_build_time_ms
| total_step_upload_time_ms | nr_queue_wakeups | nr_dispatcher_wakeups | dispatch_time_ms
| queue_sort_duration_ms_total | queue_aborted_jobs_total.
Inductive IntGauge :=
| nr_builds_unfinished | nr_steps_building | nr_steps_waiting | nr_steps_runnable | nr_steps_unfinished
| nr_unsupported_steps | max_nr_retries | nr_steps_copying_to | nr_steps_copying_from | avg_step_time_ms
| avg_step_import_time_ms | avg_step_build_time_ms | avg_step_upload_time_ms | machines_total
| machines_in_use | s3_uploads_pending | store_nar_info_read | store_nar_info_read_averted
| store_nar_info_missing | store_nar_info_write | store_path_info_cache_size | store_nar_read
| store_nar_read_bytes | store_nar_read_compressed_bytes | store_nar_write | store_nar_write_averted
| store_nar_write_bytes | store_nar_write_compressed_bytes | store_nar_write_compression_time_ms
| queue_runner_current_time_seconds | queue_runner_uptime_seconds.
Inductive Gauge :=
| store_nar_compression_savings | store_nar_compression_speed.
Inductive IntGaugeVec :=
| runnable_per_machine_type | running_per_machine_type | waiting_per_machine_type | disabled_per_machine_type
| avg_runnable_time_per_machine_type | wait_time_per_machine_type | machine_current_jobs | machine_steps_done
| machine_total_step_time_ms | machine_total_step_import_time_ms | machine_total_step_build_time_ms
| machine_total_step_upload_time_ms | machine_consecutive_failures | machine_last_ping_timestamp
| machine_idle_since_timestamp | s3_put | s3_put_bytes | s3_put_time_ms | s3_get | s3_get_bytes
| s3_get_time_ms | s3_head | jobset_share_used | jobset_seconds.
Inductive GaugeVec :=
| s3_put_speed | s3_get_speed | s3_cost_dollar_approx.
Inductive HistogramVec :=
| build_input_drvs_histogram | build_closure_size_bytes_histogram | queue_job_wait_time_histogram.

Inductive Field :=
| FIntCounter (c : IntCounter) | FIntGauge (g : IntGauge) | FGauge (g : Gauge)
| FIntGaugeVec (v : IntGaugeVec) | FGaugeVec (v : GaugeVec) | FHistogramVec (h : HistogramVec).
Coercion FIntCounter : IntCounter >-> Field.
Coercion FIntGauge : IntGauge >-> Field.
Coercion FGauge : Gauge >-> Field.
Coercion FIntGaugeVec : IntGaugeVec >-> Field.
Coercion FGaugeVec : GaugeVec >-> Field.
Coercion FHistogramVec : HistogramVec >-> Field.

#[export] Instance IntCounter_eq_dec : EqDecision IntCounter.
Proof. solve_decision. Defined.
#[export] Instance IntGauge_eq_dec : EqDecision IntGauge.
Proof. solve_decision. Defined.
#[export] Instance Gauge_eq_dec : EqDecision Gauge.
Proof. solve_decision. Defined.
#[export] Instance IntGaugeVec_eq_dec : EqDecision IntGaugeVec.
Proof. solve_decision. Defined.
#[export] Instance GaugeVec_eq_dec : EqDecision GaugeVec.
Proof. solve_decision. Defined.
#[export] Instance HistogramVec_eq_dec : EqDecision HistogramVec.
Proof. solve_decision. Defined.
#[export] Instance Field_eq_dec : EqDecision Field.
Proof. solve_decision. Defined.

(** [Opts::new] and [HistogramOpts::new], with the labels of a vector. *)
Record Opts := mkOpts { op_name : string; op_help : string; op_labels : list string; op_buckets : list f64 }.
Record Desc := mkDesc { de_field : Field; de_opts : Opts }.
Definition mk (f : Field) (name help : string) (labels : list string) : Desc := mkDesc f (mkOpts name help labels []).
(** The last bucket has no bound. *)
Definition mk_histogram (f : HistogramVec) (name help : string) (labels : list string) (bounds : list Z) : Desc :=
  mkDesc f (mkOpts name help labels ((f64_of_Z <$> bounds) ++ [S754_infinity false])).

Definition queue_metrics : list Desc :=
  [mk queue_checks_started "hydraqueuerunner_queue_checks_started_total"
     "Number of times State::get_queued_builds() was started" [];
   mk queue_build_loads "hydraqueuerunner_queue_build_loads_total"
     "Number of builds loaded" [];
   mk queue_steps_created "hydraqueuerunner_queue_steps_created_total"
     "Number of steps created" [];
   mk queue_checks_early_exits "hydraqueuerunner_queue_checks_early_exits_total"
     "Number of times State::get_queued_builds() yielded to potential bumps" [];
   mk queue_checks_finished "hydraqueuerunner_queue_checks_finished_total"
     "Number of times State::get_queued_builds() was completed" [];
   mk dispatcher_time_spent_running "hydraqueuerunner_dispatcher_time_spent_running_total"
     "Time (in micros) spent running the dispatcher" [];
   mk dispatcher_time_spent_waiting "hydraqueuerunner_dispatcher_time_spent_waiting_total"
     "Time (in micros) spent waiting for the dispatcher to obtain work" [];
   mk queue_monitor_time_spent_running "hydraqueuerunner_monitor_time_spent_running_total"
     "Time (in micros) spent running the queue monitor" [];
   mk queue_monitor_time_spent_waiting "hydraqueuerunner_monitor_time_spent_waiting_total"
     "Time (in micros) spent waiting for the queue monitor to obtain work" []].

Definition build_metrics : list Desc :=
  [mk nr_builds_read "hydraqueuerunner_builds_read"
     "Number of builds read from database" [];
   mk build_read_time_ms "hydraqueuerunner_builds_read_time_ms"
     "Time in milliseconds spent reading builds from database" [];
   mk nr_builds_unfinished "hydraqueuerunner_builds_unfinished"
     "Number of unfinished builds in the queue" [];
   mk nr_builds_done "hydraqueuerunner_builds_finished"
     "Number of finished builds in the queue" [];
   mk nr_builds_succeeded "hydraqueuerunner_builds_succeeded"
     "Number of successful builds in the queue" [];
   mk nr_builds_failed "hydraqueuerunner_builds_failed"
     "Number of failed builds in the queue" [];
   mk nr_steps_started "hydraqueuerunner_steps_started"
     "Number of build steps that have been started" [];
   mk nr_steps_done "hydraqueuerunner_steps_finished"
     "Number of build steps that have been completed" [];
   mk nr_steps_building "hydraqueuerunner_steps_building"
     "Number of build steps currently being built" [];
   mk nr_steps_waiting "hydraqueuerunner_steps_waiting"
     "Number of build steps waiting to be built" [];
   mk nr_steps_runnable "hydraqueuerunner_steps_runnable"
     "Number of build steps that are ready to run" [];
   mk nr_steps_unfinished "hydraqueuerunner_steps_unfinished"
     "Number of unfinished build steps" [];
   mk nr_unsupported_steps "hydraqueuerunner_steps_unsupported"
     "Number of unsupported build steps" [];
   mk nr_unsupported_steps_aborted "hydraqueuerunner_steps_unsupported_aborted"
     "Number of unsupported build steps that were aborted" [];
   mk nr_substitutes_started "hydraqueuerunner_substitutes_started"
     "Number of substitute downloads that have been started" [];
   mk nr_substitutes_failed "hydraqueuerunner_substitutes_failed"
     "Number of substitute downloads that have failed" [];
   mk nr_substitutes_succeeded "hydraqueuerunner_substitutes_succeeded"
     "Number of substitute downloads that have succeeded" [];
   mk nr_retries "hydraqueuerunner_steps_retries"
     "Number of retries for build steps" [];
   mk max_nr_retries "hydraqueuerunner_steps_max_retries"
     "Maximum number of retries allowed for build steps" [];
   mk nr_steps_copying_to "hydraqueuerunner_steps_copying_to"
     "Number of build steps currently copying inputs to machines" [];
   mk nr_steps_copying_from "hydraqueuerunner_steps_copying_from"
     "Number of build steps currently copying outputs from machines" [];
   mk avg_step_time_ms "hydraqueuerunner_steps_avg_total_time_ms"
     "Average time in milliseconds for build steps to complete" [];
   mk avg_step_import_time_ms "hydraqueuerunner_steps_avg_import_time_ms"
     "Average time in milliseconds for importing build steps" [];
   mk avg_step_build_time_ms "hydraqueuerunner_steps_avg_build_time_ms"
     "Average time in milliseconds for building build steps" [];
   mk avg_step_upload_time_ms "hydraqueuerunner_steps_avg_upload_time_ms"
     "Average time in milliseconds for uploading build steps" [];
   mk total_step_time_ms "hydraqueuerunner_steps_total_time_ms"
     "Total time in milliseconds spent on all build steps" [];
   mk total_step_import_time_ms "hydraqueuerunner_steps_total_import_time_ms"
     "Total time in milliseconds spent importing all build steps" [];
   mk total_step_build_time_ms "hydraqueuerunner_steps_total_build_time_ms"
     "Total time in milliseconds spent building all build steps" [];
   mk total_step_upload_time_ms "hydraqueuerunner_steps_total_upload_time_ms"
     "Total time in milliseconds spent uploading all build steps" [];
   mk nr_queue_wakeups "hydraqueuerunner_monitor_checks"
     "Number of times the queue monitor has been woken up" [];
   mk nr_dispatcher_wakeups "hydraqueuerunner_dispatch_wakeup"
     "Number of times the dispatcher has been woken up" [];
   mk dispatch_time_ms "hydraqueuerunner_dispatch_time_ms"
     "Time in milliseconds spent dispatching build steps" [];
   mk machines_total "hydraqueuerunner_machines_total"
     "Total number of machines available for building" [];
   mk machines_in_use "hydraqueuerunner_machines_in_use"
     "Number of machines currently in use for building" [];
   mk s3_uploads_pending "hydraqueuerunner_s3_uploads_pending"
     "Pending upload count to all remote stores." []].

Definition machine_type_metrics : list Desc :=
  [mk runnable_per_machine_type "hydraqueuerunner_machine_type_runnable"
     "Number of runnable build steps per machine type" ["machine_type"];
   mk running_per_machine_type "hydraqueuerunner_machine_type_running"
     "Number of running build steps per machine type" ["machine_type"];
   mk waiting_per_machine_type "hydraqueuerunner_machine_type_waiting"
     "Number of waiting build steps per machine type" ["machine_type"];
   mk disabled_per_machine_type "hydraqueuerunner_machine_type_disabled"
     "Number of disabled build steps per machine type" ["machine_type"];
   mk avg_runnable_time_per_machine_type "hydraqueuerunner_machine_type_avg_runnable_time"
     "Average runnable time for build steps per machine type" ["machine_type"];
   mk wait_time_per_machine_type "hydraqueuerunner_machine_type_wait_time"
     "Wait time for build steps per machine type" ["machine_type"]].

Definition machine_metrics : list Desc :=
  [mk machine_current_jobs "hydraqueuerunner_machine_current_jobs"
     "Number of currently running jobs on each machine" ["hostname"];
   mk machine_steps_done "hydraqueuerunner_machine_steps_done"
     "Total number of steps completed by each machine" ["hostname"];
   mk machine_total_step_time_ms "hydraqueuerunner_machine_total_step_time_ms"
     "Total time in milliseconds spent on all steps by each machine" ["hostname"];
   mk machine_total_step_import_time_ms "hydraqueuerunner_machine_total_step_import_time_ms"
     "Total time in milliseconds spent importing steps by each machine" ["hostname"];
   mk machine_total_step_build_time_ms "hydraqueuerunner_machine_total_step_build_time_ms"
     "Total time in milliseconds spent building steps by each machine" ["hostname"];
   mk machine_total_step_upload_time_ms "hydraqueuerunner_machine_total_step_upload_time_ms"
     "Total time in milliseconds spent uploading steps by each machine" ["hostname"];
   mk machine_consecutive_failures "hydraqueuerunner_machine_consecutive_failures"
     "Number of consecutive failures for each machine" ["hostname"];
   mk machine_last_ping_timestamp "hydraqueuerunner_machine_last_ping_timestamp"
     "Unix timestamp of the last ping received from each machine" ["hostname"];
   mk machine_idle_since_timestamp "hydraqueuerunner_machine_idle_since_timestamp"
     "Unix timestamp since when each machine has been idle (0 if currently busy)" ["hostname"]].

Definition store_metrics : list Desc :=
  [mk store_nar_info_read "hydraqueuerunner_store_nar_info_read"
     "Number of NAR info reads from store" [];
   mk store_nar_info_read_averted "hydraqueuerunner_store_nar_info_read_averted"
     "Number of NAR info reads averted from store" [];
   mk store_nar_info_missing "hydraqueuerunner_store_nar_info_missing"
     "Number of missing NAR info in store" [];
   mk store_nar_info_write "hydraqueuerunner_store_nar_info_write"
     "Number of NAR info writes to store" [];
   mk store_path_info_cache_size "hydraqueuerunner_store_path_info_cache_size"
     "Size of path info cache in store" [];
   mk store_nar_read "hydraqueuerunner_store_nar_read"
     "Number of NAR reads from store" [];
   mk store_nar_read_bytes "hydraqueuerunner_store_nar_read_bytes"
     "Number of bytes read from NARs in store" [];
   mk store_nar_read_compressed_bytes "hydraqueuerunner_store_nar_read_compressed_bytes"
     "Number of compressed bytes read from NARs in store" [];
   mk store_nar_write "hydraqueuerunner_store_nar_write"
     "Number of NAR writes to store" [];
   mk store_nar_write_averted "hydraqueuerunner_store_nar_write_averted"
     "Number of NAR writes averted to store" [];
   mk store_nar_write_bytes "hydraqueuerunner_store_nar_write_bytes"
     "Number of bytes written to NARs in store" [];
   mk store_nar_write_compressed_bytes "hydraqueuerunner_store_nar_write_compressed_bytes"
     "Number of compressed bytes written to NARs in store" [];
   mk store_nar_write_compression_time_ms "hydraqueuerunner_store_nar_write_compression_time_ms"
     "Time in milliseconds spent compressing NARs in store" [];
   mk store_nar_compression_savings "hydraqueuerunner_store_nar_compression_savings"
     "Compression savings ratio for NARs in store" [];
   mk store_nar_compression_speed "hydraqueuerunner_store_nar_compression_speed"
     "Compression speed for NARs in store" []].

Definition s3_metrics : list Desc :=
  [mk s3_put "hydraqueuerunner_s3_put"
     "Number of S3 put operations" ["remote_store"];
   mk s3_put_bytes "hydraqueuerunner_s3_put_bytes"
     "Number of bytes put to S3" ["remote_store"];
   mk s3_put_time_ms "hydraqueuerunner_s3_put_time_ms"
     "Time in milliseconds spent on S3 put operations" ["remote_store"];
   mk s3_put_speed "hydraqueuerunner_s3_put_speed"
     "Speed of S3 put operations" ["remote_store"];
   mk s3_get "hydraqueuerunner_s3_get"
     "Number of S3 get operations" ["remote_store"];
   mk s3_get_bytes "hydraqueuerunner_s3_get_bytes"
     "Number of bytes gotten from S3" ["remote_store"];
   mk s3_get_time_ms "hydraqueuerunner_s3_get_time_ms"
     "Time in milliseconds spent on S3 get operations" ["remote_store"];
   mk s3_get_speed "hydraqueuerunner_s3_get_speed"
     "Speed of S3 get operations" ["remote_store"];
   mk s3_head "hydraqueuerunner_s3_head"
     "Number of S3 head operations" ["remote_store"];
   mk s3_cost_dollar_approx "hydraqueuerunner_s3_cost_dollar_approx"
     "Approximate cost in dollars for S3 operations" ["remote_store"]].

Definition complexity_metrics : list Desc :=
  [mk_histogram build_input_drvs_histogram "hydraqueuerunner_build_input_drvs_seconds"
     "Distribution of number of input derivations per build" ["machine_type"]
     [0; 1; 5; 10; 25; 50; 100; 250; 500];
   mk_histogram build_closure_size_bytes_histogram "hydraqueuerunner_build_closure_size_bytes"
     "Distribution of build closure sizes in bytes" ["machine_type"]
     [1000; 10000; 100000; 1000000; 10000000; 100000000; 1000000000]].

Definition performance_metrics : list Desc :=
  [mk queue_sort_duration_ms_total "hydraqueuerunner_sort_duration_ms_total"
     "Total time in milliseconds spent sorting jobs in queues" [];
   mk_histogram queue_job_wait_time_histogram "hydraqueuerunner_job_wait_time_seconds"
     "Distribution of time jobs wait in queue before being scheduled" ["machine_type"]
     [1; 10; 60; 300; 900; 3600; 7200; 86400];
   mk queue_aborted_jobs_total "hydraqueuerunner_aborted_jobs_total"
     "Total number of jobs that were aborted" []].

Definition jobset_metrics : list Desc :=
  [mk jobset_share_used "hydraqueuerunner_jobset_share_used"
     "Share used by jobset" ["jobset_name"];
   mk jobset_seconds "hydraqueuerunner_jobset_seconds"
     "Seconds allocated to jobset" ["jobset_name"]].

Definition time_metrics : list Desc :=
  [mk queue_runner_current_time_seconds "hydraqueuerunner_current_time_seconds"
     "Current Unix timestamp in seconds" [];
   mk queue_runner_uptime_seconds "hydraqueuerunner_uptime_seconds"
     "Queue runner uptime in seconds" []].

(** The metrics in the order in which they are made. *)
Definition created : list Desc :=
  queue_metrics ++ build_metrics ++ machine_type_metrics ++ machine_metrics ++ store_metrics ++ s3_metrics
  ++ complexity_metrics ++ performance_metrics ++ jobset_metrics ++ time_metrics.

(** The order in which they are registered. *)
Local Notation "fields[ x ; .. ; y ]" := (@cons Field x .. (@cons Field y (@nil Field)) ..) (at level 0).
Definition registration : list Field :=
  fields[queue_checks_started; queue_build_loads; queue_steps_created; queue_checks_early_exits;
   queue_checks_finished; dispatcher_time_spent_running; dispatcher_time_spent_waiting;
   queue_monitor_time_spent_running; queue_monitor_time_spent_waiting; nr_builds_read; build_read_time_ms;
   nr_builds_unfinished; nr_builds_done; nr_builds_succeeded; nr_builds_failed; nr_steps_started; nr_steps_done;
   nr_steps_building; nr_steps_waiting; nr_steps_runnable; nr_steps_unfinished; nr_unsupported_steps;
   nr_unsupported_steps_aborted; nr_substitutes_started; nr_substitutes_failed; nr_substitutes_succeeded;
   nr_retries; max_nr_retries; nr_steps_copying_to; nr_steps_copying_from; avg_step_time_ms;
   avg_step_import_time_ms; avg_step_build_time_ms; avg_step_upload_time_ms; total_step_time_ms;
   total_step_import_time_ms; total_step_build_time_ms; total_step_upload_time_ms; nr_queue_wakeups;
   nr_dispatcher_wakeups; dispatch_time_ms; machines_total; machines_in_use; s3_uploads_pending;
   runnable_per_machine_type; running_per_machine_type; waiting_per_machine_type; disabled_per_machine_type;
   avg_runnable_time_per_machine_type; wait_time_per_machine_type; machine_current_jobs; machine_steps_done;
   machine_total_step_time_ms; machine_total_step_import_time_ms; machine_total_step_build_time_ms;
   machine_total_step_upload_time_ms; machine_consecutive_failures; machine_last_ping_timestamp;
   machine_idle_since_timestamp; store_nar_info_read; store_nar_info_read_averted; store_nar_info_missing;
   store_nar_info_write; store_path_info_cache_size; store_nar_read; store_nar_read_bytes;
   store_nar_read_compressed_bytes; store_nar_write; store_nar_write_averted; store_nar_write_bytes;
   store_nar_write_compressed_bytes; store_nar_write_compression_time_ms; store_nar_compression_savings;
   store_nar_compression_speed; s3_put; s3_put_bytes; s3_put_time_ms; s3_put_speed; s3_get; s3_get_bytes;
   s3_get_time_ms; s3_get_speed; s3_head; s3_cost_dollar_approx; build_input_drvs_histogram;
   build_closure_size_bytes_histogram; queue_sort_duration_ms_total; queue_job_wait_time_histogram;
   queue_aborted_jobs_total; jobset_share_used; jobset_seconds; queue_runner_current_time_seconds;
   queue_runner_uptime_seconds].

(** ** What the crate accepts *)

Definition is_letter (c : ascii) : bool :=
  let n := N_of_ascii c in
  ((65 <=? n) && (n <=? 90) || (97 <=? n) && (n <=? 122) || (n =? 95))%N.
Definition is_digit_ (c : ascii) : bool := let n := N_of_ascii c in ((48 <=? n) && (n <=? 57))%N.
Definition is_colon (c : ascii) : bool := (N_of_ascii c =? 58)%N.
Definition valid_label (s : string) : bool :=
  match list_ascii_of_string s with
  | [] => false
  | c :: l => is_letter c && forallb (λ c, is_letter c || is_digit_ c) l
  end.
Definition valid_name (s : string) : bool :=
  match list_ascii_of_string s with
  | [] => false
  | c :: l => (is_letter c || is_colon c) && forallb (λ c, is_letter c || is_digit_ c || is_colon c) l
  end.
Fixpoint increasing (l : list f64) : bool :=
  match l with
  | x :: (y :: _) as l' => f64_lt x y && increasing l'
  | _ => true
  end.
Definition valid_opts (o : Opts) : bool :=
  valid_name (op_name o) && negb (bool_decide (op_help o = "")) && forallb valid_label (op_labels o)
  && bool_decide (NoDup (op_labels o)) && increasing (op_buckets o).

(** [Registry], [Opts] and the constructors of the crate. *)
Class PromLib : Type := {
  Registry : Type;
  (** The names that are taken. *)
  reg_names : Registry → gset string;
  (** A metric can be made from its options. *)
  opts_ok : Opts → bool;
  register : Opts → Registry → option Registry;
  (** Documented: names and labels are made of letters, digits, underscores
      and, for names, colons, with no digit in front; a help text is needed;
      bounds increase. *)
  opts_ok_when : ∀ o, valid_opts o = true → opts_ok o = true;
  (** Documented: a name is registered once. *)
  register_names : ∀ o r,
    match register o r with
    | Some r' => (op_name o ∉ reg_names r) ∧ reg_names r' = {[op_name o]} ∪ reg_names r
    | None => op_name o ∈ reg_names r
    end
}.

(** A registry that keeps the names. *)
Program Definition names_only : PromLib := {|
  Registry := gset string;
  reg_names := id;
  opts_ok := valid_opts;
  register := λ o r, if decide (op_name o ∈ r) then None else Some ({[op_name o]} ∪ r) |}.
Next Obligation. done. Qed.
Next Obligation. intros o r. cbn. by destruct (decide _). Qed.

(** ** The values *)

Record PromMetrics := mkPromMetrics {
  mx_counters : IntCounter → Z;
  mx_gauges : IntGauge → Z;
  mx_floats : Gauge → f64;
  mx_vecs : IntGaugeVec → gmap string Z;
  mx_float_vecs : GaugeVec → gmap string f64;
  (** What was observed, the last at the end. *)
  mx_histograms : HistogramVec → gmap string (list f64)
}.
#[export] Instance eta_PromMetrics : Eta PromMetrics := λ r,
  mkPromMetrics (mx_counters r) (mx_gauges r) (mx_floats r) (mx_vecs r) (mx_float_vecs r) (mx_histograms r).
#[export] Instance set_mx_counters : Setter mx_counters := ltac:(mk_setter mx_counters).
#[export] Instance set_mx_gauges : Setter mx_gauges := ltac:(mk_setter mx_gauges).
#[export] Instance set_mx_floats : Setter mx_floats := ltac:(mk_setter mx_floats).
#[export] Instance set_mx_vecs : Setter mx_vecs := ltac:(mk_setter mx_vecs).
#[export] Instance set_mx_float_vecs : Setter mx_float_vecs := ltac:(mk_setter mx_float_vecs).
#[export] Instance set_mx_histograms : Setter mx_histograms := ltac:(mk_setter mx_histograms).

Definition zero : PromMetrics :=
  mkPromMetrics (λ _, 0) (λ _, 0) (λ _, S754_zero false) (λ _, ∅) (λ _, ∅) (λ _, ∅).

Definition inc_by (c : IntCounter) (v : Z) (m : PromMetrics) : PromMetrics :=
  m <| mx_counters ::= alter (λ n, u64_wrap (n + v)) c |>.
Definition inc (c : IntCounter) : PromMetrics → PromMetrics := inc_by c 1.
Definition sub (g : IntGauge) (v : Z) (m : PromMetrics) : PromMetrics :=
  m <| mx_gauges ::= alter (λ n, i64_wrap (n - v)) g |>.
Definition set (g : IntGauge) (v : Z) (m : PromMetrics) : PromMetrics := m <| mx_gauges ::= <[g := v]> |>.
Definition set_float (g : Gauge) (v : f64) (m : PromMetrics) : PromMetrics := m <| mx_floats ::= <[g := v]> |>.
Definition reset (v : IntGaugeVec) (m : PromMetrics) : PromMetrics := m <| mx_vecs ::= <[v := ∅]> |>.
Definition reset_float (v : GaugeVec) (m : PromMetrics) : PromMetrics := m <| mx_float_vecs ::= <[v := ∅]> |>.
Definition set_label (v : IntGaugeVec) (label : string) (z : Z) (m : PromMetrics) : PromMetrics :=
  m <| mx_vecs ::= alter <[label := z]> v |>.
Definition set_float_label (v : GaugeVec) (label : string) (x : f64) (m : PromMetrics) : PromMetrics :=
  m <| mx_float_vecs ::= alter <[label := x]> v |>.
Definition observe (h : HistogramVec) (label : string) (x : f64) (m : PromMetrics) : PromMetrics :=
  m <| mx_histograms ::= alter (λ xs, <[label := default [] (xs !! label) ++ [x]]> xs) h |>.

(** [if let Ok(v) = i64::try_from(z) { .. }] *)
Definition set_if_fits (g : IntGauge) (z : Z) (m : PromMetrics) : PromMetrics :=
  match try_i 64 z with Some v => set g v m | None => m end.
Definition set_label_if_fits (v : IntGaugeVec) (label : string) (z : Z) (m : PromMetrics) : PromMetrics :=
  match try_i 64 z with Some z => set_label v label z m | None => m end.

(** ** Making them *)

Section New.
Context `{PL : PromLib}.

Definition opts_of (f : Field) : option Opts :=
  de_opts <$> List.find (λ d, bool_decide (de_field d = f)) created.

Fixpoint register_all (l : list Field) (r : Registry) : result Error Registry :=
  match l with
  | [] => Ok r
  | f :: l' =>
      o ← ok_or (opts_of f) (Anyhow "no such metric");
      r ← ok_or (register o r) (Anyhow "Duplicate metrics collector registration attempted");
      register_all l' r
  end.

Definition new (r : Registry) : result Error (PromMetrics * Registry) :=
  if forallb (λ d, opts_ok (de_opts d)) created
  then r ← register_all registration r; Ok (zero, r)
  else Err (Anyhow "invalid metric").
End New.

(** ** Builds that end *)

Definition add_to_total_step_time_ms (v : Z) : PromMetrics → PromMetrics := inc_by total_step_time_ms v.
Definition add_if_fits (c : IntCounter) (v : Z) (m : PromMetrics) : PromMetrics :=
  match try_u 64 v with Some v => inc_by c v m | None => m end.
Definition add_to_total_step_import_time_ms (v : Z) : PromMetrics → PromMetrics := add_if_fits total_step_import_time_ms v.
Definition add_to_total_step_build_time_ms (v : Z) : PromMetrics → PromMetrics := add_if_fits total_step_build_time_ms v.
Definition add_to_total_step_upload_time_ms (v : Z) : PromMetrics → PromMetrics := add_if_fits total_step_upload_time_ms v.

Definition observe_build_input_drvs (count : f64) (machine_type : string) : PromMetrics → PromMetrics :=
  observe build_input_drvs_histogram machine_type count.
Definition observe_build_closure_size (size_bytes : f64) (machine_type : string) : PromMetrics → PromMetrics :=
  observe build_closure_size_bytes_histogram machine_type size_bytes.
Definition observe_job_wait_time (wait_seconds : f64) (machine_type : string) : PromMetrics → PromMetrics :=
  observe queue_job_wait_time_histogram machine_type wait_seconds.

Definition track_build_success (timings : BuildTimings) (total_step_time : Z) (m : PromMetrics) : PromMetrics :=
  let m := inc nr_builds_succeeded m in
  let m := inc nr_steps_done m in
  let m := sub nr_steps_building 1 m in
  let m := add_to_total_step_import_time_ms (bt_import_elapsed timings) m in
  let m := add_to_total_step_build_time_ms (bt_build_elapsed timings) m in
  let m := add_to_total_step_upload_time_ms (bt_upload_elapsed timings) m in
  add_to_total_step_time_ms total_step_time m.

Definition track_build_failure (timings : BuildTimings) (total_step_time : Z) (m : PromMetrics) : PromMetrics :=
  let m := inc nr_steps_done m in
  let m := sub nr_steps_building 1 m in
  let m := inc nr_builds_failed m in
  let m := add_to_total_step_import_time_ms (bt_import_elapsed timings) m in
  let m := add_to_total_step_build_time_ms (bt_build_elapsed timings) m in
  let m := add_to_total_step_upload_time_ms (bt_upload_elapsed timings) m in
  add_to_total_step_time_ms total_step_time m.

(** ** Refreshing them *)

(** A turn of a loop that sets vectors under one label. *)
Definition set_labels (label : string) (figures : list (IntGaugeVec * Z)) (m : PromMetrics) : PromMetrics :=
  foldl (λ m '(v, z), set_label_if_fits v label z m) m figures.
Definition resets (vs : list IntGaugeVec) (m : PromMetrics) : PromMetrics := foldl (flip reset) m vs.

Definition queue_figures (s : Io.BuildQueueStats) : list (IntGaugeVec * Z) :=
  [(runnable_per_machine_type, Io.qs_total_runnable s); (running_per_machine_type, Io.qs_active_runnable s);
   (waiting_per_machine_type, Io.qs_nr_runnable_waiting s); (disabled_per_machine_type, Io.qs_nr_runnable_disabled s);
   (avg_runnable_time_per_machine_type, Io.qs_avg_runnable_time s); (wait_time_per_machine_type, Io.qs_wait_time_ms s)].

Section Refresh.
Context `{HI : HashIter} `{FE : FloatEnv} `{TL : TimeLib} `{NE : NixEnv} `{JL : JsonLib} `{PL : PromLib}.

Definition get_stats_per_queue (iq : InnerQueues) : list (string * Io.BuildQueueStats) :=
  prod_map id Io.get_stats <$> iter (iq_inner iq).
Definition refresh_per_machine_type_metrics (w : World) (m : PromMetrics) : PromMetrics :=
  let m := resets [runnable_per_machine_type; running_per_machine_type; waiting_per_machine_type;
                   disabled_per_machine_type; avg_runnable_time_per_machine_type; wait_time_per_machine_type] m in
  foldl (λ m '(t, s), set_labels t (queue_figures s) m) m (get_stats_per_queue (w_queues w)).

(** The two times need no conversion: they are [i64] already. *)
Definition machine_figures (s : Stats) : list (IntGaugeVec * Z) :=
  [(machine_current_jobs, s_current_jobs s); (machine_steps_done, s_nr_steps_done s);
   (machine_total_step_time_ms, s_total_step_time_ms s);
   (machine_total_step_import_time_ms, s_total_step_import_time_ms s);
   (machine_total_step_build_time_ms, s_total_step_build_time_ms s);
   (machine_total_step_upload_time_ms, s_total_step_upload_time_ms s);
   (machine_consecutive_failures, s_consecutive_failures s)].
Definition show_machine (mc : Machine) (m : PromMetrics) : PromMetrics :=
  let m := set_labels (mc_hostname mc) (machine_figures (mc_stats mc)) m in
  let m := set_label machine_last_ping_timestamp (mc_hostname mc) (s_last_ping (mc_stats mc)) m in
  set_label machine_idle_since_timestamp (mc_hostname mc) (s_idle_since (mc_stats mc)) m.
Definition all_machines (w : World) : list Machine :=
  omap (λ a, ms_objs (w_machines w) !! a) (Machines.get_all_machines (w_machines w)).
Definition refresh_per_machine_metrics (w : World) (m : PromMetrics) : PromMetrics :=
  let m := resets [machine_current_jobs; machine_steps_done; machine_total_step_time_ms;
                   machine_total_step_import_time_ms; machine_total_step_build_time_ms;
                   machine_total_step_upload_time_ms; machine_consecutive_failures; machine_last_ping_timestamp;
                   machine_idle_since_timestamp] m in
  foldl (λ m mc, show_machine mc m) m (all_machines w).

Definition store_figures (s : Io.FfiStoreStats) : list (IntGauge * Z) :=
  [(store_nar_info_read, Io.fs_nar_info_read s); (store_nar_info_read_averted, Io.fs_nar_info_read_averted s);
   (store_nar_info_missing, Io.fs_nar_info_missing s); (store_nar_info_write, Io.fs_nar_info_write s);
   (store_path_info_cache_size, Io.fs_path_info_cache_size s); (store_nar_read, Io.fs_nar_read s);
   (store_nar_read_bytes, Io.fs_nar_read_bytes s); (store_nar_read_compressed_bytes, Io.fs_nar_read_compressed_bytes s);
   (store_nar_write, Io.fs_nar_write s); (store_nar_write_averted, Io.fs_nar_write_averted s);
   (store_nar_write_bytes, Io.fs_nar_write_bytes s);
   (store_nar_write_compressed_bytes, Io.fs_nar_write_compressed_bytes s);
   (store_nar_write_compression_time_ms, Io.fs_nar_write_compression_time_ms s)].
Definition set_gauges (figures : list (IntGauge * Z)) (m : PromMetrics) : PromMetrics :=
  foldl (λ m '(g, z), set_if_fits g z m) m figures.
Definition refresh_store_metrics (stats : option Io.FfiStoreStats) (m : PromMetrics) : PromMetrics :=
  match stats with
  | Some s =>
      let m := set_gauges (store_figures s) m in
      let m := set_float store_nar_compression_savings (Io.nar_compression_savings s) m in
      set_float store_nar_compression_speed (Io.nar_compression_speed s) m
  | None => m
  end.

Definition show_store (c : S3BinaryCacheClient) (m : PromMetrics) : PromMetrics :=
  let label := sc_bucket (cc_client_config (cl_cfg c)) in
  let s := cl_s3_stats c in
  let m := set_labels label [(s3_put, st_put s); (s3_put_bytes, st_put_bytes s); (s3_put_time_ms, st_put_time_ms s)] m in
  let m := set_float_label s3_put_speed label (Io.put_speed s) m in
  let m := set_labels label [(s3_get, st_get s); (s3_get_bytes, st_get_bytes s); (s3_get_time_ms, st_get_time_ms s)] m in
  let m := set_float_label s3_get_speed label (Io.get_speed s) m in
  let m := set_labels label [(s3_head, st_head s)] m in
  set_float_label s3_cost_dollar_approx label (Io.cost_dollar_approx s) m.
Definition refresh_s3_metrics (w : World) (m : PromMetrics) : PromMetrics :=
  let m := resets [s3_put; s3_put_bytes; s3_put_time_ms; s3_get; s3_get_bytes; s3_get_time_ms; s3_head] m in
  let m := foldl (flip reset_float) m [s3_put_speed; s3_get_speed; s3_cost_dollar_approx] in
  let m := set_if_fits s3_uploads_pending (Z.of_nat (Uploader.len_of_queue (w_uploader w))) m in
  foldl (λ m c, show_store c m) m (w_remote_stores w).

Definition refresh_transfer_metrics (w : World) (m : PromMetrics) : PromMetrics :=
  let total f := foldl (λ n mc, u64_wrap (n + f (mc_stats mc))) 0 (all_machines w) in
  let m := set_if_fits nr_steps_copying_to (total s_current_uploading_path_count) m in
  set_if_fits nr_steps_copying_from (total s_current_downloading_count) m.

Definition show_jobset (m : PromMetrics) (jobset : string * Io.Jobset) : PromMetrics :=
  let '(full_jobset_name, jobset) := jobset in
  let m := set_label jobset_share_used full_jobset_name (default 0 (try_i 64 (Io.jo_shares jobset))) m in
  set_label jobset_seconds full_jobset_name (Io.jo_seconds jobset) m.
Definition refresh_jobset_metrics (w : World) (m : PromMetrics) : PromMetrics :=
  foldl show_jobset (resets [jobset_share_used; jobset_seconds] m) (iter (jobsets_as_io w)).

Definition refresh_time_metrics (started_at now : Timestamp) (m : PromMetrics) : PromMetrics :=
  let m := set queue_runner_current_time_seconds (as_second now) m in
  set queue_runner_uptime_seconds (to_i64 (default (S754_zero false) (total_s started_at now))) m.

Definition refresh_averages (m : PromMetrics) : PromMetrics :=
  let steps_done := mx_counters m nr_steps_done in
  if 0 <? steps_done then
    let avg c := mx_counters m c / steps_done in
    set_gauges [(avg_step_time_ms, avg total_step_time_ms); (avg_step_import_time_ms, avg total_step_import_time_ms);
                (avg_step_upload_time_ms, avg total_step_upload_time_ms);
                (avg_step_build_time_ms, avg total_step_build_time_ms)] m
  else m.

(** Counting the steps drops the entries of dead ones; the machines are asked
    after the steps. *)
Definition refresh_dynamic_metrics (started_at : Timestamp) (m : PromMetrics) : WM PromMetrics :=
  let m := refresh_averages m in
  builds ← gets (λ w, size (w_builds w));
  steps ← (λ w, let '(n, steps) := Steps.len (w_heap w) (w_steps w) in (Ok n, w <| w_steps := steps |>));
  runnable ← (λ w, let '(n, steps) := Steps.len_runnable (w_heap w) (w_steps w) in (Ok n, w <| w_steps := steps |>));
  w ← gets id;
  let m := set_gauges [(nr_builds_unfinished, Z.of_nat builds); (nr_steps_unfinished, Z.of_nat steps);
                       (nr_steps_runnable, Z.of_nat runnable);
                       (machines_total, Z.of_nat (Machines.get_machine_count (w_machines w)));
                       (machines_in_use, Z.of_nat (Machines.get_machine_count_in_use (w_machines w)))] m in
  let m := refresh_per_machine_type_metrics w m in
  let m := refresh_per_machine_metrics w m in
  q ← query;
  let m := refresh_store_metrics (ffi_get_store_stats q) m in
  let m := refresh_s3_metrics w m in
  let m := refresh_transfer_metrics w m in
  let m := refresh_jobset_metrics w m in
  now ← clock;
  mret (refresh_time_metrics started_at now m).

(** The metrics that the status shows ([QueueRunnerStats::new], after a
    refresh), in its order. *)
Definition status_fields : list Field :=
  fields[queue_checks_started; queue_build_loads; queue_steps_created; queue_checks_early_exits;
   queue_checks_finished; dispatcher_time_spent_running; dispatcher_time_spent_waiting;
   queue_monitor_time_spent_running; queue_monitor_time_spent_waiting; nr_builds_read; build_read_time_ms;
   nr_builds_unfinished; nr_builds_done; nr_builds_succeeded; nr_builds_failed; nr_steps_started; nr_steps_done;
   nr_steps_building; nr_steps_waiting; nr_steps_runnable; nr_steps_unfinished; nr_unsupported_steps;
   nr_unsupported_steps_aborted; nr_substitutes_started; nr_substitutes_failed; nr_substitutes_succeeded;
   nr_retries; max_nr_retries; avg_step_time_ms; avg_step_import_time_ms; avg_step_build_time_ms;
   avg_step_upload_time_ms; total_step_time_ms; total_step_import_time_ms; total_step_build_time_ms;
   total_step_upload_time_ms; nr_queue_wakeups; nr_dispatcher_wakeups; dispatch_time_ms; machines_total;
   machines_in_use; s3_uploads_pending].
(** [.get()] of a counter or a gauge. *)
Definition get (f : Field) (m : PromMetrics) : option Z :=
  match f with
  | FIntCounter c => Some (mx_counters m c)
  | FIntGauge g => Some (mx_gauges m g)
  | _ => None
  end.
Definition status_metrics (started_at : Timestamp) (m : PromMetrics) : WM (list (Field * option Z) * PromMetrics) :=
  m ← refresh_dynamic_metrics started_at m;
  mret ((λ f, (f, get f m)) <$> status_fields, m).

(** The metrics have been registered: encoding reads them. *)
Definition gather_metrics (text : PromMetrics → option string) (started_at : Timestamp) (m : PromMetrics)
  : WM (PromMetrics * string) :=
  m ← refresh_dynamic_metrics started_at m;
  buffer ← lift_opt (Anyhow "encode") (text m);
  mret (m, buffer).
End Refresh.

(** ** The metrics are all registered *)

Section Registered.
Context `{PL : PromLib}.

Definition name_of (f : Field) : string := default "" (op_name <$> opts_of f).

(** Every field is made, and registered. *)
Lemma opts_of_all f : ∃ o, opts_of f = Some o.
Proof. destruct f as [[]|[]|[]|[]|[]|[]]; vm_compute; by eexists. Qed.
Lemma registration_all f : f ∈ registration.
Proof. apply list_elem_of_In. destruct f as [[]|[]|[]|[]|[]|[]]; vm_compute; tauto. Qed.
Lemma created_valid : forallb (λ d, valid_opts (de_opts d)) created = true.
Proof. vm_compute. reflexivity. Qed.
Lemma registration_names : NoDup (map name_of registration).
Proof. apply (bool_decide_unpack _). vm_compute. exact I. Qed.

Lemma name_of_inj f g : name_of f = name_of g → f = g.
Proof.
  intros H. pose proof registration_names as Hn.
  destruct (list_elem_of_lookup_1 _ _ (registration_all f)) as [i Hi].
  destruct (list_elem_of_lookup_1 _ _ (registration_all g)) as [j Hj].
  assert (i = j) as ->; [|congruence].
  eapply (NoDup_lookup _ i j (name_of f) Hn); rewrite list_lookup_fmap; [by rewrite Hi|by rewrite Hj, H].
Qed.

Lemma register_all_ok l r :
  NoDup (map name_of l) → (∀ f, f ∈ l → name_of f ∉ reg_names r) →
  ∃ r', register_all l r = Ok r' ∧ ∀ n, n ∈ reg_names r' ↔ n ∈ reg_names r ∨ n ∈ map name_of l.
Proof.
  revert r. induction l as [|f l IH]; intros r Hn Hr; cbn [register_all].
  { exists r. split; [done|]. set_solver. }
  cbn [map] in *. apply NoDup_cons in Hn as [Hf Hn].
  destruct (opts_of_all f) as [o Ho]. rewrite Ho. cbn [ok_or mbind result_bind].
  assert (name_of f = op_name o) as E by (unfold name_of; by rewrite Ho).
  pose proof (register_names o r) as Hreg. rewrite <-E in Hreg.
  destruct (register o r) as [r1|]; [|exfalso; by apply (Hr f); [left|]].
  destruct Hreg as [_ Hr1]. cbn [ok_or mbind result_bind].
  destruct (IH r1 Hn) as (r' & -> & Hr').
  { intros g Hg. rewrite Hr1, not_elem_of_union, not_elem_of_singleton. split.
    - intros Hfg. apply Hf. rewrite <-Hfg. by apply list_elem_of_fmap_2.
    - apply Hr. by right. }
  exists r'. split; [done|]. intros n. rewrite Hr', Hr1. set_solver.
Qed.

Lemma register_all_taken f l r : name_of f ∈ reg_names r → ∃ e, register_all (f :: l) r = Err e.
Proof.
  intros Hf. cbn [register_all]. destruct (opts_of_all f) as [o Ho]. rewrite Ho. cbn [ok_or mbind result_bind].
  pose proof (register_names o r) as Hreg. unfold name_of in Hf. rewrite Ho in Hf.
  destruct (register o r); [by destruct Hreg|]. by eexists.
Qed.

(** In a process whose registry has none of the names yet, the metrics
    can be made: no name, label or bucket is refused and no two metrics share
    a name, so that every field is registered under a name of its own. Made
    once more in the same process, they are refused. *)
Theorem metrics_register_once r :
  (∀ f, name_of f ∉ reg_names r) →
  ∃ r', new r = Ok (zero, r') ∧ (∀ f, name_of f ∈ reg_names r') ∧
    (∀ f g, name_of f = name_of g → f = g) ∧ ∃ e, new r' = Err e.
Proof.
  intros Hr. assert (forallb (λ d, opts_ok (de_opts d)) created = true) as Hok.
  { apply forallb_forall. intros d Hd. apply opts_ok_when.
    exact (proj1 (forallb_forall _ _) created_valid d Hd). }
  destruct (register_all_ok registration r registration_names) as (r' & Hr' & Hn); [by intros f _|].
  assert (∀ f, name_of f ∈ reg_names r') as Hall.
  { intros f. apply Hn. right. apply list_elem_of_fmap_2, registration_all. }
  exists r'. unfold new. rewrite Hok, Hr'. split; [done|]. split; [done|]. split; [apply name_of_inj|].
  destruct (register_all_taken queue_checks_started (tl registration) r' (Hall _)) as [e He].
  exists e. change registration with (FIntCounter queue_checks_started :: tl registration). by rewrite He.
Qed.
End Registered.

(** ** The refreshed metrics show the state *)

(** The numbers that a list of figures has for a field. *)
Definition figures_of {F} `{EqDecision F} (f : F) (figures : list (F * Z)) : list Z :=
  omap (λ '(g, z), if decide (g = f) then Some z else None) figures.
Definition put (label : string) (acc : gmap string Z) (z : Z) : gmap string Z :=
  match try_i 64 z with Some z => <[label := z]> acc | None => acc end.

Lemma set_gauges_at g figures m :
  mx_gauges (set_gauges figures m) g =
  foldl (λ old z, default old (try_i 64 z)) (mx_gauges m g) (figures_of g figures).
Proof.
  revert m. induction figures as [|[g' z] figures IH]; intros m; cbn; [done|].
  unfold set_gauges in IH. rewrite IH. unfold set_if_fits. destruct (decide (g' = g)) as [->|Hne]; cbn.
  - destruct (try_i 64 z); cbn; [by rewrite fn_lookup_insert|done].
  - destruct (try_i 64 z); cbn; [by rewrite fn_lookup_insert_ne|done].
Qed.
Lemma set_gauges_vecs figures m :
  mx_vecs (set_gauges figures m) = mx_vecs m ∧ mx_counters (set_gauges figures m) = mx_counters m.
Proof.
  revert m. induction figures as [|[g z] figures IH]; intros m; cbn; [done|].
  unfold set_gauges in IH. destruct (IH (set_if_fits g z m)) as [-> ->]. unfold set_if_fits. by destruct (try_i 64 z).
Qed.

Lemma set_label_at v lb z m v' :
  mx_vecs (set_label v lb z m) v' = if decide (v = v') then <[lb := z]> (mx_vecs m v') else mx_vecs m v'.
Proof.
  cbn. destruct (decide (v = v')) as [->|]; [by rewrite fn_lookup_alter|by rewrite fn_lookup_alter_ne].
Qed.
Lemma set_labels_at lb figures m v :
  mx_vecs (set_labels lb figures m) v = foldl (put lb) (mx_vecs m v) (figures_of v figures).
Proof.
  revert m. induction figures as [|[v' z] figures IH]; intros m; cbn; [done|].
  unfold set_labels in IH. rewrite IH. unfold set_label_if_fits, put.
  destruct (decide (v' = v)) as [->|Hne]; cbn [foldl]; destruct (try_i 64 z); try done; f_equal.
  - by rewrite set_label_at, decide_True.
  - by rewrite set_label_at, decide_False.
Qed.
Lemma resets_at vs m v : mx_vecs (resets vs m) v = if decide (v ∈ vs) then ∅ else mx_vecs m v.
Proof.
  revert m. induction vs as [|v' vs IH]; intros m; cbn [resets foldl].
  { by rewrite decide_False by apply not_elem_of_nil. }
  unfold resets in IH. rewrite IH. destruct (decide (v ∈ vs)) as [H|H].
  { by rewrite decide_True by (by right). }
  destruct (decide (v' = v)) as [->|]; cbn.
  - rewrite fn_lookup_insert, decide_True by left. done.
  - rewrite fn_lookup_insert_ne, decide_False by (set_solver || done). done.
Qed.

(** A loop that sets a vector for each element. *)
Lemma foldl_at {A} (f : PromMetrics → A → PromMetrics) (g : gmap string Z → A → gmap string Z) v l m :
  (∀ m x, mx_vecs (f m x) v = g (mx_vecs m v) x) → mx_vecs (foldl f m l) v = foldl g (mx_vecs m v) l.
Proof. intros H. revert m. induction l as [|x l IH]; intros m; cbn; [done|]. by rewrite IH, H. Qed.

Lemma foldl_put {A} (lb : A → string) (z : A → Z) l acc x :
  NoDup (map lb l) → x ∈ l → foldl (λ acc x, put (lb x) acc (z x)) acc l !! lb x =
    match try_i 64 (z x) with Some n => Some n | None => acc !! lb x end.
Proof.
  revert acc. induction l as [|y l IH]; intros acc; cbn; [by intros _ ?%not_elem_of_nil|].
  intros [Hy Hn]%NoDup_cons [->|Hx]%elem_of_cons.
  - assert (∀ acc', foldl (λ acc x, put (lb x) acc (z x)) acc' l !! lb y = acc' !! lb y) as Hout.
    { clear IH Hn. induction l as [|b l IHl]; intros acc'; cbn; [done|]. rewrite IHl by set_solver. unfold put.
      destruct (try_i 64 (z b)); [|done]. apply lookup_insert_ne. cbn in Hy. set_solver. }
    rewrite Hout. unfold put. destruct (try_i 64 (z y)); [by rewrite lookup_insert_eq|done].
  - rewrite IH by done. destruct (try_i 64 (z x)); [done|]. unfold put. destruct (try_i 64 (z y)); [|done].
    apply lookup_insert_ne. intros E. apply Hy. rewrite E. by apply list_elem_of_fmap_2.
Qed.
Lemma foldl_put_None {A} (lb : A → string) (z : A → Z) l acc k :
  (∀ x, x ∈ l → lb x ≠ k) → foldl (λ acc x, put (lb x) acc (z x)) acc l !! k = acc !! k.
Proof.
  revert acc. induction l as [|b l IH]; intros acc H; cbn; [done|]. rewrite IH by (intros; apply H; by right).
  unfold put. destruct (try_i 64 (z b)); [|done]. apply lookup_insert_ne, H. left.
Qed.

Lemma foldl_gauges {A} (f : PromMetrics → A → PromMetrics) l m :
  (∀ m x, mx_gauges (f m x) = mx_gauges m) → mx_gauges (foldl f m l) = mx_gauges m.
Proof. intros H. revert m. induction l as [|x l IH]; intros m; cbn; [done|]. by rewrite IH, H. Qed.
Lemma set_labels_gauges lb figures m : mx_gauges (set_labels lb figures m) = mx_gauges m.
Proof. apply foldl_gauges. intros m' [v z]. unfold set_label_if_fits. by destruct (try_i 64 z). Qed.
Lemma resets_gauges vs m : mx_gauges (resets vs m) = mx_gauges m.
Proof. by apply foldl_gauges. Qed.
Lemma set_if_fits_vecs g z m : mx_vecs (set_if_fits g z m) = mx_vecs m.
Proof. unfold set_if_fits. by destruct (try_i 64 z). Qed.

Section Shown.
Context `{HI : HashIter} `{FE : FloatEnv} `{TL : TimeLib} `{NE : NixEnv} `{JL : JsonLib}.

(** The vectors of the queues and of the machines, with what they show. *)
Definition queue_vectors : list (IntGaugeVec * (BuildQueue → Z)) :=
  [(runnable_per_machine_type, q_total_runnable); (running_per_machine_type, q_active_runnable);
   (waiting_per_machine_type, q_nr_runnable_waiting); (disabled_per_machine_type, q_nr_runnable_disabled);
   (avg_runnable_time_per_machine_type, q_avg_runnable_time); (wait_time_per_machine_type, q_wait_time_ms)].
Definition machine_vectors : list (IntGaugeVec * (Stats → Z)) :=
  [(machine_current_jobs, s_current_jobs); (machine_steps_done, s_nr_steps_done);
   (machine_total_step_time_ms, s_total_step_time_ms); (machine_total_step_import_time_ms, s_total_step_import_time_ms);
   (machine_total_step_build_time_ms, s_total_step_build_time_ms);
   (machine_total_step_upload_time_ms, s_total_step_upload_time_ms);
   (machine_consecutive_failures, s_consecutive_failures)].
Definition s3_or_jobset : list IntGaugeVec :=
  [s3_put; s3_put_bytes; s3_put_time_ms; s3_get; s3_get_bytes; s3_get_time_ms; s3_head; jobset_share_used; jobset_seconds].

(** *** What a part of the refresh leaves alone *)

Lemma show_machine_at mc m v :
  v ∈ machine_vectors.*1 ++ queue_vectors.*1 →
  mx_vecs (show_machine mc m) v =
  foldl (put (mc_hostname mc)) (mx_vecs m v) (figures_of v (machine_figures (mc_stats mc))).
Proof.
  intros Hv. unfold show_machine. rewrite !set_label_at, set_labels_at.
  rewrite !decide_False; [done|..]; intros <-; revert Hv; apply (bool_decide_unpack _); vm_compute; exact I.
Qed.

Lemma show_store_at c m v : v ∉ s3_or_jobset → mx_vecs (show_store c m) v = mx_vecs m v.
Proof.
  intros Hv. unfold show_store, set_float_label. cbn [mx_vecs upd set_mx_float_vecs]. rewrite !set_labels_at.
  cbn [mx_vecs upd set_mx_float_vecs]. rewrite !set_labels_at. cbn [mx_vecs upd set_mx_float_vecs]. rewrite !set_labels_at.
  unfold figures_of. cbn [omap list_omap]. rewrite !decide_False; [done|..]; intros <-; apply Hv; apply (bool_decide_unpack _); vm_compute; exact I.
Qed.
Lemma refresh_s3_at w m v : v ∉ s3_or_jobset → mx_vecs (refresh_s3_metrics w m) v = mx_vecs m v.
Proof.
  intros Hv. unfold refresh_s3_metrics.
  rewrite (foldl_at _ (λ acc _, acc)) by (intros; by apply show_store_at).
  rewrite set_if_fits_vecs. cbn [foldl flip reset_float mx_vecs upd set_mx_float_vecs]. rewrite resets_at, decide_False.
  - by generalize (w_remote_stores w); intros l; induction l.
  - unfold s3_or_jobset in Hv. set_solver.
Qed.
Lemma refresh_jobset_at w m v : v ∉ s3_or_jobset → mx_vecs (refresh_jobset_metrics w m) v = mx_vecs m v.
Proof.
  intros Hv. unfold refresh_jobset_metrics. rewrite (foldl_at _ (λ acc _, acc)).
  - rewrite resets_at, decide_False by (unfold s3_or_jobset in Hv; set_solver).
    by generalize (iter (jobsets_as_io w)); intros l; induction l.
  - intros m' [n j]. unfold show_jobset. rewrite !set_label_at.
    rewrite !decide_False; [done|..]; intros <-; apply Hv; apply (bool_decide_unpack _); vm_compute; exact I.
Qed.
Lemma refresh_store_at o m : mx_vecs (refresh_store_metrics o m) = mx_vecs m.
Proof. destruct o; [|done]. unfold refresh_store_metrics, set_float. cbn [mx_vecs upd set_mx_floats]. apply set_gauges_vecs. Qed.
Lemma refresh_transfer_at w m : mx_vecs (refresh_transfer_metrics w m) = mx_vecs m.
Proof. unfold refresh_transfer_metrics. by rewrite !set_if_fits_vecs. Qed.

(** *** The queues *)

Lemma queue_figures_of v f q : (v, f) ∈ queue_vectors → figures_of v (queue_figures (Io.get_stats q)) = [f q].
Proof.
  intros H. unfold queue_vectors in H. repeat (apply elem_of_cons in H as [[= -> ->]|H]; [reflexivity|]).
  by apply not_elem_of_nil in H.
Qed.
Lemma machine_figures_of v f s : (v, f) ∈ machine_vectors → figures_of v (machine_figures s) = [f s].
Proof.
  intros H. unfold machine_vectors in H. repeat (apply elem_of_cons in H as [[= -> ->]|H]; [reflexivity|]).
  by apply not_elem_of_nil in H.
Qed.

Lemma refresh_queues_at w m v f : (v, f) ∈ queue_vectors →
  mx_vecs (refresh_per_machine_type_metrics w m) v = omap (λ q, try_i 64 (f q)) (iq_inner (w_queues w)).
Proof.
  intros Hv. unfold refresh_per_machine_type_metrics, get_stats_per_queue. rewrite foldl_fmap.
  rewrite (foldl_at _ (λ acc x, put x.1 acc (f x.2))).
  2: { intros m' [t q]. cbn [prod_map fst snd id]. by rewrite set_labels_at, (queue_figures_of v f). }
  rewrite resets_at, decide_True by (apply (list_elem_of_fmap_2 fst) in Hv; exact Hv).
  apply map_eq. intros k. rewrite lookup_omap.
  assert (NoDup (map fst (iter (iq_inner (w_queues w))))) as Hn by apply NoDup_iter_keys.
  destruct (iq_inner (w_queues w) !! k) as [q|] eqn:Ek; cbn.
  - apply elem_of_iter in Ek. pose proof (foldl_put fst (λ x, f x.2) _ ∅ (k, q) Hn Ek) as E. cbn in E.
    rewrite E. by destruct (try_i 64 (f q)).
  - rewrite (foldl_put_None fst (λ x, f x.2)); [done|]. intros [t q] Hx <-. apply elem_of_iter in Hx. cbn in Ek. congruence.
Qed.

(** *** The machines *)

(** A vector of one table is not in another one. *)
Ltac other_table H :=
  repeat (apply elem_of_cons in H as [->|H]; [vm_compute; reflexivity|]); by apply not_elem_of_nil in H.

Lemma queue_vector_other v : v ∈ queue_vectors.*1 →
  bool_decide (v ∈ machine_vectors.*1 ++ [machine_last_ping_timestamp; machine_idle_since_timestamp] ++ s3_or_jobset) = false.
Proof. intros H. cbn in H. other_table H. Qed.
Lemma machine_vector_other v : v ∈ machine_vectors.*1 → bool_decide (v ∈ s3_or_jobset) = false.
Proof. intros H. cbn in H. other_table H. Qed.

Lemma refresh_machines_other w m v : v ∈ queue_vectors.*1 →
  mx_vecs (refresh_per_machine_metrics w m) v = mx_vecs m v.
Proof.
  intros Hv. pose proof (queue_vector_other v Hv) as Hn%bool_decide_eq_false. unfold refresh_per_machine_metrics.
  rewrite (foldl_at _ (λ acc _, acc)).
  - rewrite resets_at, decide_False by (intros H; apply Hn; cbn in H |- *; set_solver).
    by generalize (all_machines w); intros l; induction l.
  - intros m' mc. rewrite show_machine_at by set_solver. clear -Hv. cbn in Hv.
    repeat (apply elem_of_cons in Hv as [->|Hv]; [reflexivity|]). by apply not_elem_of_nil in Hv.
Qed.

Lemma refresh_machines_at w m v f : (v, f) ∈ machine_vectors →
  mx_vecs (refresh_per_machine_metrics w m) v =
  foldl (λ acc mc, put (mc_hostname mc) acc (f (mc_stats mc))) ∅ (all_machines w).
Proof.
  intros Hv. pose proof (list_elem_of_fmap_2 fst _ _ Hv) as Hv1. unfold refresh_per_machine_metrics.
  rewrite (foldl_at _ (λ acc mc, put (mc_hostname mc) acc (f (mc_stats mc)))).
  - rewrite resets_at, decide_True by (cbn in Hv1 |- *; set_solver). done.
  - intros m' mc. rewrite show_machine_at by set_solver. by rewrite (machine_figures_of v f).
Qed.

(** *** The counts *)

Definition counts (w : World) : list (IntGauge * Z) :=
  [(nr_builds_unfinished, Z.of_nat (size (w_builds w)));
   (nr_steps_unfinished, Z.of_nat (Steps.len (w_heap w) (w_steps w)).1);
   (nr_steps_runnable, Z.of_nat (Steps.len_runnable (w_heap w) (Steps.live (w_heap w) (w_steps w))).1);
   (machines_total, Z.of_nat (Machines.get_machine_count (w_machines w)));
   (machines_in_use, Z.of_nat (Machines.get_machine_count_in_use (w_machines w)))].
Definition later_gauges : list IntGauge :=
  [s3_uploads_pending; nr_steps_copying_to; nr_steps_copying_from; queue_runner_current_time_seconds;
   queue_runner_uptime_seconds].

Lemma set_other g g' z m : g ≠ g' → mx_gauges (set g z m) g' = mx_gauges m g'.
Proof. intros H. cbn. by rewrite fn_lookup_insert_ne. Qed.
Lemma set_if_fits_other g g' z m : g ≠ g' → mx_gauges (set_if_fits g z m) g' = mx_gauges m g'.
Proof. intros H. unfold set_if_fits. destruct (try_i 64 z); [by apply set_other|done]. Qed.

Lemma refresh_rest_gauges w o started_at now m g :
  g ∉ later_gauges → (∀ s, figures_of g (store_figures s) = []) →
  mx_gauges (refresh_time_metrics started_at now (refresh_jobset_metrics w (refresh_transfer_metrics w
    (refresh_s3_metrics w (refresh_store_metrics o (refresh_per_machine_metrics w
      (refresh_per_machine_type_metrics w m))))))) g = mx_gauges m g.
Proof.
  intros Hg Hs. unfold later_gauges in Hg. rewrite !not_elem_of_cons in Hg.
  destruct Hg as (G1 & G2 & G3 & G4 & G5 & _). unfold refresh_time_metrics. rewrite 2!set_other by congruence.
  unfold refresh_jobset_metrics. rewrite foldl_gauges by (by intros ? []). rewrite resets_gauges.
  unfold refresh_transfer_metrics. rewrite 2!set_if_fits_other by congruence.
  unfold refresh_s3_metrics. rewrite foldl_gauges.
  2: { intros m' c. unfold show_store, set_float_label. cbn [mx_gauges upd set_mx_float_vecs].
       rewrite set_labels_gauges. cbn [mx_gauges upd set_mx_float_vecs]. rewrite set_labels_gauges.
       cbn [mx_gauges upd set_mx_float_vecs]. by rewrite set_labels_gauges. }
  rewrite set_if_fits_other by congruence. cbn [foldl flip reset_float mx_gauges upd set_mx_float_vecs].
  rewrite resets_gauges.
  assert (∀ m, mx_gauges (refresh_store_metrics o m) g = mx_gauges m g) as ->.
  { intros m'. destruct o as [st|]; [|done]. unfold refresh_store_metrics, set_float. cbn [mx_gauges upd set_mx_floats].
    by rewrite set_gauges_at, Hs. }
  unfold refresh_per_machine_metrics. rewrite foldl_gauges by (intros m' c; apply set_labels_gauges).
  rewrite resets_gauges. unfold refresh_per_machine_type_metrics.
  rewrite foldl_gauges by (intros m' []; apply set_labels_gauges). by rewrite resets_gauges.
Qed.

Lemma refresh_counts started_at m w m' w' g z :
  refresh_dynamic_metrics started_at m w = (Ok m', w') →
  (g, z) ∈ counts w → in_i 64 z = true → mx_gauges m' g = z.
Proof.
  unfold refresh_dynamic_metrics. intros [= <- _] Hg Hz.
  assert ((g ∉ later_gauges) ∧ ∀ s, figures_of g (store_figures s) = []) as [H1 H2].
  { clear Hz. unfold counts in Hg. repeat (apply elem_of_cons in Hg as [[= -> _]|Hg];
      [split; [by apply (bool_decide_unpack _)|reflexivity]|]). by apply not_elem_of_nil in Hg. }
  rewrite refresh_rest_gauges by done. change (mx_gauges (set_gauges (counts w) (refresh_averages m)) g = z).
  rewrite set_gauges_at. clear H1 H2.
  assert (try_i 64 z = Some z) as Ht by (by apply try_i_Some).
  assert (figures_of g (counts w) = [z]) as ->; [|cbn [foldl]; by rewrite Ht].
  clear Hz Ht. unfold counts in Hg. repeat (apply elem_of_cons in Hg as [[= -> ->]|Hg]; [reflexivity|]).
  by apply not_elem_of_nil in Hg.
Qed.

(** *** The whole refresh *)

Lemma refresh_runs started_at m w :
  ∃ m' w', refresh_dynamic_metrics started_at m w = (Ok m', w') ∧
    w_queues w' = w_queues w ∧ w_machines w' = w_machines w ∧ w_builds w' = w_builds w ∧
    (∀ v f, (v, f) ∈ queue_vectors → mx_vecs m' v = omap (λ q, try_i 64 (f q)) (iq_inner (w_queues w))) ∧
    (∀ v f, (v, f) ∈ machine_vectors →
       mx_vecs m' v = foldl (λ acc mc, put (mc_hostname mc) acc (f (mc_stats mc))) ∅ (all_machines w)).
Proof.
  unfold refresh_dynamic_metrics. eexists _, _. split; [reflexivity|]. split; [reflexivity|].
  split; [reflexivity|]. split; [reflexivity|].
  split; intros v f Hv; pose proof (list_elem_of_fmap_2 fst _ _ Hv) as Hv1.
  - pose proof (queue_vector_other _ Hv1) as Hn%bool_decide_eq_false.
    unfold refresh_time_metrics, set. cbn [mx_vecs upd set_mx_gauges].
    rewrite refresh_jobset_at, refresh_transfer_at, refresh_s3_at, refresh_store_at by set_solver.
    rewrite refresh_machines_other by done. by rewrite (refresh_queues_at _ _ v f Hv).
  - pose proof (machine_vector_other _ Hv1) as Hn%bool_decide_eq_false.
    unfold refresh_time_metrics, set. cbn [mx_vecs upd set_mx_gauges].
    rewrite refresh_jobset_at, refresh_transfer_at, refresh_s3_at, refresh_store_at by done.
    by rewrite (refresh_machines_at _ _ v f Hv).
Qed.

End Shown.
End Metrics.
