(* ===== verification/Dispatch.v ===== *)
(** * Dispatch: machines, the dispatch loop and configuration changes
    ([queue-runner/src/state/mod.rs], [queue.rs], [config.rs])

    [realise_drv_on_valid_machine] gives a runnable step to a machine,
    [do_dispatch_once] feeds the queues and runs them, [abort_unsupported]
    fails the steps no machine supports; builders come and go with
    [insert_machine] and [remove_machine]; [process_queue_change] cancels what
    nobody waits for. *)

From Stdlib Require Import Ascii String.
From S2P Require Import NarInfo CacheCfg Stream BinaryCache.
From S2P Require Import Prelude Floats RustStr Nix Db Support Jobset Graph Result Machine Queue.
From S2P Require Import Config Uploader FodChecker State Reclaim.
Local Open Scope string_scope.
Local Open Scope list_scope.
Local Open Scope Z_scope.

(** ** Access to the machines *)

Definition on_machines {A} (f : Machines → Heap → A * (Machines * Heap)) : WM A := λ w,
  let '(r, (ms, h)) := f (w_machines w) (w_heap w) in
  (Ok r, w <| w_machines := ms |> <| w_heap := h |>).

(** [f] on the machine at [a], which may fail and leaves it as it was then. *)
Definition try_machine (a : addr) (f : Machine → Heap → result Error (Machine * Heap)) : WM unit := λ w,
  match ms_objs (w_machines w) !! a with
  | None => (Err (Anyhow "machine"), w)
  | Some m =>
      match f m (w_heap w) with
      | Err e => (Err e, w)
      | Ok (m, h) =>
          (Ok tt, w <| w_machines ::= (λ ms, ms <| ms_objs ::= <[a := m]> |>) |> <| w_heap := h |>)
      end
  end.

Section Dispatch.
Context `{HI : HashIter} `{FE : FloatEnv} `{TL : TimeLib} `{NE : NixEnv} `{DE : DbEnv} `{SE : StateEnv}
  `{UR : UrlLib}.

(** ** Giving a step to a machine *)

Definition info_at (a : addr) : WM StepInfo := λ w,
  (ok_or (iq_infos (w_queues w) !! a) (Anyhow "step_info"), w).

(** [JobConstraint::resolve] *)
Definition merged_features (s : Step) (queue_features : list string) : list string :=
  if decide (queue_features = []) then Step.get_required_features s
  else Step.get_required_features s ++ queue_features.

Definition resolve (c : Queues.JobConstraint) (free_fn : MachineFreeFn) : WM (option addr) :=
  i ← info_at (Queues.jc_job c);
  s ← step_at (si_step i);
  on_machines (Machines.get_machine_for_system (Queues.jc_system c)
    (merged_features s (Queues.jc_queue_features c)) (Some free_fn)).

(** [Iterator::max] *)
Definition maximum (l : list Z) : option Z :=
  match l with [] => None | x :: l' => Some (foldl Z.max x l') end.

(** The biggest limits of the dependent builds. *)
Definition dependents_options (bs : list Build) (b : Build) : BuildOptions.t :=
  BuildOptions.set_build_timeout (default (b_timeout b) (maximum (b_timeout <$> bs)))
    (BuildOptions.set_max_silent_time (default (b_max_silent_time b) (maximum (b_max_silent_time <$> bs)))
      (BuildOptions.new None)).

Definition presigned_opts (w : World) : option PresignedUrlOpts :=
  if pa_use_presigned_uploads (w_config w)
  then (λ s, mkPresignedUrlOpts (cc_write_debug_info (cl_cfg s))) <$> head (w_remote_stores w) else None.

(** The row of the step, its announcement, and the message to the machine. *)
Definition submit (machine : addr) (s : Step) (job : Job) (opts : BuildOptions.t) : WM unit :=
  db get;;
  m ← machine_at machine;
  step_nr ← db (run_tx (
    start ← lift_result (RemoteBuild.get_start_time_as_i32 (j_result job));
    create_build_step STEP_FUEL (Some start) (j_build_id job) (print_store_path (st_drv_path s))
      (Step.get_system s) (mc_hostname m) Busy None None (outputs_arg s)));
  let job := job <| j_step_nr := step_nr |> in
  db (run_tx (notify_build_started (j_build_id job)));;
  db get;;
  db (Db.update_build_step (mkUpdateBuildStep (j_build_id job) step_nr Connecting));;
  presigned ← gets presigned_opts;
  try_machine machine (Machine.build_drv job opts presigned).

Definition realise_drv_on_valid_machine (c : Queues.JobConstraint) : WM Queues.RealiseStepResult :=
  free_fn ← gets (λ w, pa_machine_free_fn (w_config w));
  machine ← resolve c free_fn;
  match machine with
  | None => mret Queues.RNone
  | Some machine =>
      i ← info_at (Queues.jc_job c);
      s ← step_at (si_step i);
      let drv := st_drv_path s in
      '(builds, _) ← dependents (si_step i);
      match choose_build drv builds with
      | None => mret Queues.RMaybeCancelled
      | Some b =>
          b ← build_at b;
          bs ← gets (λ w, builds_data (iter_values builds) (w_heap w));
          q ← query;
          let job := Job_new (new_v4 q) (b_id b) drv (si_resolved_drv_path i) in
          t ← clock;
          let job := job <| j_result ::= RemoteBuild.set_start_time_now t |> in
          failed ← check_cached_failure (si_step i);
          if failed : bool then
            inner_fail_job None (job <| j_result ::= λ r, r <| rb_step_status := CachedFailure |> |>)
              (si_step i);;
            mret Queues.RCachedFailure
          else
            log_dir ← gets w_log_dir;
            log_file ← lift_opt (Anyhow "split_at") (construct_log_file_path log_dir drv);
            submit machine s (job <| j_result ::= λ r, r <| rb_log_file := log_file |> |>)
              (dependents_options bs b);;
            mret (Queues.RValid machine)
      end
  end.

(** ** Unsupported steps *)

Definition unsupported_msg (system : option string) : string :=
  "unsupported system type '" +:+ default "" system +:+ "'".

(** The step was last supported less than the allowed time ago. *)
Definition supported_lately (now last : Timestamp) (max_unsupported_time : Z) : bool :=
  f64_lt (default (S754_zero false) (total_s last now)) (f64_of_Z max_unsupported_time).

Definition fail_unsupported (now : Timestamp) (step : addr) (s : Step) : WM unit :=
  '(builds, _) ← dependents step;
  match choose_build (st_drv_path s) builds with
  | None => mret tt
  | Some b =>
      b ← build_at b;
      q ← query;
      let job := (Job_new (new_v4 q) (b_id b) (st_drv_path s) None)
        <| j_result ::= λ r, (RemoteBuild.set_start_and_stop now r)
             <| rb_step_status := Unsupported |>
             <| rb_error_msg := Some (unsupported_msg (Step.get_system s)) |> |> in
      attempt (inner_fail_job None job step);;
      mret tt
  end.

(** The loop, with the steps aborted so far. *)
Fixpoint abort_loop (now : Timestamp) (limit : Z) (steps : list addr) (aborted : gmap StorePath addr)
  : WM (gmap StorePath addr) :=
  match steps with
  | [] => mret aborted
  | a :: steps' =>
      s ← step_at a;
      supported ← on_machines (Machines.support_step s);
      if supported : bool then
        t ← clock;
        on_heap (upd_step a (Step.set_last_supported t));;
        abort_loop now limit steps' aborted
      else if supported_lately now (AtomicDateTime.load (st_last_supported s)) limit
      then abort_loop now limit steps' aborted
      else
        fail_unsupported now a s;;
        abort_loop now limit steps' (hset_insert (st_drv_path s) a aborted)
  end.

(** [steps.clone_runnable()] *)
Definition clone_runnable : WM (list addr) := λ w,
  let '(l, steps) := Steps.clone_runnable (w_heap w) (w_steps w) in (Ok l, w <| w_steps := steps |>).

Definition abort_unsupported : WM unit :=
  runnable ← clone_runnable;
  now ← clock;
  limit ← gets (λ w, pa_max_unsupported_time (w_config w));
  aborted ← abort_loop now limit runnable ∅;
  on_queues (λ _ iq, foldl (λ iq d, Queues.remove_job_by_path d iq) iq (iter_keys aborted));;
  on_queues (λ _, Queues.remove_all_weak_pointer).

(** ** One round of the dispatcher *)

Definition prune_jobsets : WM unit :=
  names ← gets (λ w, iter_keys (hp_jobsets (w_heap w)));
  for_each names (λ k,
    t ← clock;
    on_heap (λ h, h <| hp_jobsets ::= alter (Jobset.prune_steps (as_second t)) k |>)).

(** The new entries by system; a step that was tried before still has its
    entry. *)
Fixpoint new_infos (runnable : list addr) (acc : gmap System (list StepInfo)) : WM (gmap System (list StepInfo)) :=
  match runnable with
  | [] => mret acc
  | a :: rs =>
      s ← step_at a;
      match Step.get_system s with
      | None => new_infos rs acc
      | Some system =>
          if 0 <? st_tries s then new_infos rs acc
          else
            q ← query;
            i ← gets (λ w, StepInfo_new q (w_heap w) a s);
            new_infos rs (<[system := default [] (acc !! system) ++ [i]]> acc)
      end
  end.

Definition do_dispatch_once : WM unit :=
  prune_jobsets;;
  new_runnable ← clone_runnable;
  now ← clock;
  new_queues ← new_infos new_runnable ∅;
  for_each (iter new_queues) (λ '(system, jobs),
    sort_fn ← gets (λ w, pa_step_sort_fn (w_config w));
    on_queues (λ h, Queues.insert_new_jobs h system jobs now sort_fn));;
  on_queues (λ _, Queues.remove_all_weak_pointer);;
  Queues.process clock realise_drv_on_valid_machine;;
  abort_unsupported.

(** ** Machines *)

Definition insert_machine (m : Machine) : WM Uuid :=
  (if decide (mc_systems m = []) then mret tt
   else on_queues (λ _, Queues.ensure_queues_for_systems (mc_systems m)));;
  sort_fn ← gets (λ w, pa_machine_sort_fn (w_config w));
  id ← on_machines (λ ms h, let '(id, ms) := Machines.insert_machine m sort_fn ms in (id, (ms, h)));
  trigger_dispatch;;
  mret id.

(** The jobs of the machine are prepared to run again. *)
Definition remove_machine (machine_id : Uuid) : WM unit :=
  a ← on_machines (λ ms h, let '(a, ms) := Machines.remove_machine machine_id ms in (a, (ms, h)));
  match a with
  | None => mret tt
  | Some a =>
      m ← machine_at a;
      for_each (mc_jobs m) (λ job,
        attempt (fail_step (j_path job) RsPreparingFailure BuildTimings.default);; mret tt)
  end.

Definition remove_all_machines : WM unit :=
  machines ← gets (λ w, Machines.get_all_machines (w_machines w));
  for_each machines (λ a, m ← machine_at a; remove_machine (mc_id m)).

Definition clear_busy : WM unit := db get;; db (Db.clear_busy 0).

(** ** Cancelled builds *)

(** The body of the loop of [kill_active_steps]: whether the step was
    cancelled and its machine told. *)
Definition kill_active_step (drv : StorePath) (item : ScheduledItem) : WM bool :=
  i ← info_at (it_step_info item);
  if si_cancelled i then mret false
  else
    '(builds, _) ← dependents (si_step i);
    if negb (bool_decide (builds = ∅)) then mret false
    else
      on_queues (λ _, Queues.upd_info (it_step_info item) (λ i, i <| si_cancelled := true |>));;
      m ← machine_at (it_machine item);
      match Machine.get_internal_build_id_for_drv drv m with
      | None => mret false
      | Some id =>
          r ← attempt (try_machine (it_machine item) (λ m h, m ← Machine.abort_build id m; Ok (m, h)));
          mret (is_ok r)
      end.

Fixpoint kill_active_loop (active : list (StorePath * ScheduledItem)) (cancelled : list StorePath)
  : WM (list StorePath) :=
  match active with
  | [] => mret cancelled
  | (drv, item) :: active' =>
      killed ← kill_active_step drv item;
      kill_active_loop active' (if killed : bool then cancelled ++ [drv] else cancelled)
  end.

Definition kill_active_steps : WM (list StorePath) :=
  active ← gets (λ w, iter (iq_scheduled (w_queues w)));
  kill_active_loop active [].

Definition update_priorities (curr_ids : gmap BuildID Z) : WM unit := λ w,
  match Builds.update_priorities curr_ids (w_builds w) (w_heap w) with
  | Some (bs, h) => (Ok tt, w <| w_builds := bs |> <| w_heap := h |>)
  | None => (Err Fuel, w)
  end.

(** The builds that left the registry are dropped before the running steps
    are looked at. *)
Definition process_queue_change : WM unit :=
  db get;;
  rows ← db get_not_finished_builds_fast;
  update_priorities (list_to_map (reverse ((λ b, (bs_id b, bs_globalpriority b)) <$> rows)));;
  modify reclaim;;
  cancelled ← kill_active_steps;
  for_each cancelled (λ drv, attempt (fail_step drv RsCancelled BuildTimings.default);; mret tt).

(** ** Configuration changes *)

(** [S3BinaryCacheClient::new(uri.parse()?)] *)
Definition open_store (uri : string) : result Error S3BinaryCacheClient :=
  cfg ← map_err (λ _, Anyhow "store uri") (S3CacheConfig.from_str uri);
  map_err (λ _, Anyhow "store") (new_client read_key_file (build_service cfg) cfg (bucket_of cfg)).

Fixpoint open_stores (uris : list string) : WM (list S3BinaryCacheClient) :=
  match uris with
  | [] => mret []
  | uri :: uris' => s ← lift_result (open_store uri); ss ← open_stores uris'; mret (s :: ss)
  end.

Definition reload_config_callback (new_config : PreparedApp) : WM unit :=
  cfg ← gets w_config;
  let stores_changed := negb (bool_decide (pa_remote_store_addr cfg = pa_remote_store_addr new_config)) in
  new_remote_stores ← (if stores_changed : bool then open_stores (pa_remote_store_addr new_config) else mret []);
  (if decide (pa_db_url cfg = pa_db_url new_config) then mret tt
   else lift_result (reconfigure_pool (pa_db_url new_config)));;
  (if decide (pa_machine_sort_fn cfg = pa_machine_sort_fn new_config) then mret tt
   else modify (λ w, w <| w_machines ::= Machines.sort (pa_machine_sort_fn new_config) |>));;
  (if decide (pa_step_sort_fn cfg = pa_step_sort_fn new_config) then mret tt
   else on_queues (λ h, Queues.sort_queues h (pa_step_sort_fn cfg)));;
  (if stores_changed : bool then modify (λ w, w <| w_remote_stores := new_remote_stores |>) else mret tt);;
  modify (λ w, w <| w_machines ::= Machines.publish_new_config
                      (mkConfigUpdate (pa_max_concurrent_downloads new_config)) |>).

(** [config::reload]: the file is only taken over when all of it worked. *)
Definition reload `{FsEnv} `{EnvLib} (toml : string → result Error AppConfig) (filepath : string) : WM unit :=
  match load_config toml filepath with
  | Err _ => mret tt
  | Ok new_config =>
      r ← attempt (reload_config_callback new_config);
      match r with
      | Ok _ => modify (λ w, w <| w_config := new_config |>)
      | Err _ => mret tt
      end
  end.

End Dispatch.
