(* ===== verification/Uploads.v ===== *)
(** * Uploads: the uploader at work ([queue-runner/src/state/uploader.rs],
    [start_uploader_queue] of [mod.rs])

    For every remote store the log goes up first, then the closure of the
    paths of the message, as far as it is missing. Both are tried again some
    times, and an error that remains is logged. A panic ends the loop. *)

From Stdlib Require Import Ascii String.
From S2P Require Import NarInfo CacheCfg Stream BinaryCache CacheInv.
From S2P Require Import Prelude Floats RustStr Nix Db Support Jobset Graph Result Machine Queue.
From S2P Require Import Config Uploader FodChecker State StateInv.
Local Open Scope string_scope.
Local Open Scope list_scope.
Local Open Scope Z_scope.

Section Uploads.
Context `{HI : HashIter} `{FE : FloatEnv} `{TL : TimeLib} `{NE : NixEnv} `{DE : DbEnv} `{SE : StateEnv}
  `{FS : FsEnv} `{SL : SignLib} `{SHA : Sha256Lib} `{CE : CacheEnv}.

(** [retry(ExponentialBuilder::default().with_max_times(times))] *)
Fixpoint retry (times : nat) (m : CM unit) : CM unit :=
  r ← attempt m;
  match r, times with
  | Ok _, _ => mret tt
  | Err Panicked, _ => throw Panicked
  | Err _, S times => retry times m
  | Err e, O => throw e
  end.

(** [if let Err(e) = .. { tracing::error!(..) }] *)
Definition logged (m : CM unit) : CM unit :=
  r ← attempt m; match r with Err Panicked => throw Panicked | _ => mret tt end.

Definition upload_log (msg : UploadMessage) : CM unit :=
  file ← lift_opt (Io "open") (fs_bytes (um_log_local_path msg));
  upsert_file_stream (um_log_remote_path msg) (cursor file) "text/plain; charset=utf-8".

(** The body of the loop over the remote stores. *)
Definition upload_to_store (msg : UploadMessage) (paths_to_copy : list StorePath) : CM unit :=
  logged (retry 3 (upload_log msg));;
  missing ← query_missing_paths paths_to_copy;
  logged (retry 5 (copy_paths missing false)).

Fixpoint each_store (m : CM unit) : M (list S3BinaryCacheClient) CacheError unit := λ cs,
  match cs with
  | [] => (Ok tt, [])
  | c :: cs' =>
      match m c with
      | (Err e, c') => (Err e, c' :: cs')
      | (Ok _, c') => let '(r, l) := each_store m cs' in (r, c' :: l)
      end
  end.

Definition upload_msg (q : nat) (msg : UploadMessage) : M (list S3BinaryCacheClient) CacheError unit :=
  match query_requisites q (um_store_paths msg) true with
  | Err _ => mret tt
  | Ok paths_to_copy => each_store (upload_to_store msg paths_to_copy)
  end.

(** In the world; [join_all] takes the messages in order. *)
Definition upload_in_world (msg : UploadMessage) : WM unit := λ w,
  let '(r, cs) := upload_msg (w_queries w) msg (w_remote_stores w) in
  (map_err (λ _, Anyhow "panic") r, w <| w_remote_stores := cs |> <| w_queries ::= S |>).

(** A turn of the loop of [start_uploader_queue]; [None] while it waits for a
    message. *)
Definition uploader_turn (w : World) : option (result Error unit * World) :=
  let limit := pa_concurrent_upload_limit (w_config w) in
  if limit <? 2 then
    '(msg, u) ← Uploader.take_one (w_uploader w);
    Some ((upload_in_world msg;; q ← query;
           modify (λ w, w <| w_uploader ::= Uploader.finish_one (state_file_written q) msg |>))
            (w <| w_uploader := u |>))
  else
    '(messages, u) ← Uploader.take_many (Z.to_nat limit) (w_uploader w);
    Some ((for_each messages upload_in_world;; q ← query;
           modify (λ w, w <| w_uploader ::= Uploader.finish_many (state_file_written q) messages |>))
            (w <| w_uploader := u |>)).

(** ** What an upload leaves behind *)

Lemma retry_spec times m c r c' : retry times m c = (r, c') →
  r = Ok tt ∧ (∃ c1, m c1 = (Ok tt, c') ∧ ∀ X, preserves (holds_objects X) m → holds_objects X c → holds_objects X c1) ∨
  ∃ c1 e, r = Err e ∧ m c1 = (Err e, c').
Proof.
  revert c. induction times as [|times IH]; intros c; cbn [retry]; rewrite bind_run; unfold attempt;
    destruct (m c) as [[[]|e] c1] eqn:E.
  - intros [= <- <-]. left. split; [done|]. exists c. split; [done|auto].
  - intros H. right. exists c, e. destruct e; by injection H as <- <-.
  - intros [= <- <-]. left. split; [done|]. exists c. split; [done|auto].
  - intros H.
    assert (e = Panicked ∧ r = Err e ∧ c' = c1 ∨ retry times m c1 = (r, c')) as [(-> & -> & ->)|H'];
      [destruct e; try (by right); injection H as <- <-; by left|right; by exists c, Panicked|].
    destruct (IH _ H') as [[-> (c2 & H2 & Hk)]|(c2 & e2 & H2)]; [left|by right; exists c2, e2].
    split; [done|]. exists c2. split; [done|]. intros X Hm Hc. apply Hk; [done|].
    specialize (Hm c Hc). by rewrite E in Hm.
Qed.

Lemma retry_holds X times m : preserves (holds_objects X) m → preserves (holds_objects X) (retry times m).
Proof.
  intros Hm. induction times as [|times IH]; cbn [retry]; apply preserves_bind; try (by apply preserves_attempt);
    intros [[]|e]; try apply preserves_ret; destruct e; first [apply throw_holds|done].
Qed.
Lemma logged_holds X m : preserves (holds_objects X) m → preserves (holds_objects X) (logged m).
Proof.
  intros Hm. apply preserves_bind; [by apply preserves_attempt|]. intros [?|[]]; first [apply preserves_ret|apply throw_holds].
Qed.
Lemma logged_Ok m c c' : logged m c = (Ok tt, c') → ∃ r, m c = (r, c').
Proof.
  unfold logged. rewrite bind_run. unfold attempt. destruct (m c) as [r c1]. intros H. exists r.
  assert (c' = c1) as -> by (destruct r as [?|[]]; by injection H). done.
Qed.
Lemma upload_log_holds X msg : preserves (holds_objects X) (upload_log msg).
Proof. apply preserves_bind; [apply preserves_lift|]. intros file. apply upsert_stream_holds. Qed.
Lemma missing_holds X ps : preserves (holds_objects X) (query_missing_paths ps).
Proof.
  induction ps as [|p ps IH]; cbn [query_missing_paths]; [apply preserves_ret|].
  apply preserves_bind; [|intros b; apply preserves_bind; [done|intros ?; apply preserves_ret]].
  apply preserves_bind; [apply preserves_attempt, has_narinfo_holds|].
  intros [?|[]]; first [apply preserves_ret|apply throw_holds].
Qed.

(** A path that is not reported missing has a description. *)
Lemma missing_described ps c missing c' : known c → query_missing_paths ps c = (Ok missing, c') →
  ∀ p key, p ∈ ps → narinfo_key p = Some key → p ∈ missing ∨ is_Some (lookup_object key (cl_bucket c')).
Proof.
  revert c missing. induction ps as [|p ps IH]; intros c missing Hk; [by intros _ q k ?%not_elem_of_nil|].
  cbn [query_missing_paths]. intros (b & c1 & H1 & (rest & c2 & H2 & [= <- <-])%bind_Ok)%bind_Ok q key Hq Hkey.
  assert (preserves (holds_objects (mkKept (cl_cfg c) ∅ true)) (has_narinfo_or_default p)) as Hh.
  { apply preserves_bind; [apply preserves_attempt, has_narinfo_holds|].
    intros [?|[]]; first [apply preserves_ret|apply throw_holds]. }
  assert (known c1) as Hk1.
  { specialize (Hh c). rewrite H1 in Hh. by apply Hh. }
  apply elem_of_cons in Hq as [->|Hq].
  - destruct b; [|by left; left]. right. eapply preserves_lookup; [intros X; apply missing_holds|exact H2|].
    unfold has_narinfo_or_default in H1. rewrite bind_run in H1. unfold attempt in H1.
    destruct (has_narinfo p c) as [[b|e] c3] eqn:E.
    + cbn in H1. injection H1 as -> ->. exact (has_narinfo_true _ _ _ _ Hk Hkey E).
    + by destruct e.
  - destruct (IH _ _ Hk1 H2 q key Hq Hkey); [|by right]. left. destruct b; [done|by right].
Qed.

(** A store that can be written to, and whether it has a description of a
    path. *)
Definition ready (c : S3BinaryCacheClient) : Prop := 0 < cc_buffer_size (cl_cfg c) ∧ known c.
Definition described (c : S3BinaryCacheClient) (p : StorePath) : Prop :=
  ∀ key, narinfo_key p = Some key → is_Some (lookup_object key (cl_bucket c)).

(** What copying comes to, which [upload_to_store] only logs. *)
Definition copy_result (msg : UploadMessage) (paths : list StorePath) (c : S3BinaryCacheClient)
  : result CacheError unit :=
  ((logged (retry 3 (upload_log msg));; missing ← query_missing_paths paths; retry 5 (copy_paths missing false)) c).1.

Lemma upload_to_store_spec msg paths c c' : answers → encoders_keep → ready c →
  upload_to_store msg paths c = (Ok tt, c') → copy_result msg paths c = Ok tt → Forall (described c') paths.
Proof.
  intros Ha He [Hb Hk]. unfold upload_to_store, copy_result. rewrite !bind_run.
  assert (∀ X, preserves (holds_objects X) (logged (retry 3 (upload_log msg)))) as K1
    by (intros X; apply logged_holds, retry_holds, upload_log_holds).
  destruct (logged (retry 3 (upload_log msg)) c) as [[[]|e] c1] eqn:E1; [|done]. rewrite !bind_run.
  pose proof (preserves_cfg _ _ _ _ K1 E1) as Hc1. pose proof (preserves_known _ _ _ _ K1 E1 Hk) as Hk1.
  destruct (query_missing_paths paths c1) as [[missing|e] c2] eqn:E2; [|done].
  pose proof (preserves_cfg _ _ _ _ (λ X, missing_holds X paths) E2) as Hc2.
  pose proof (preserves_known _ _ _ _ (λ X, missing_holds X paths) E2 Hk1) as Hk2.
  intros [r E]%logged_Ok. rewrite E. cbn [fst]. intros ->.
  destruct (retry_spec _ _ _ _ _ E) as [[_ (c4 & H4 & Hk4)]|(c4 & e & [=] & H4)].
  destruct (Hk4 (mkKept (cl_cfg c2) ∅ true)) as (Hc4 & _ & Hkn4); [apply copy_paths_holds|done|]. cbn in Hc4.
  apply Forall_forall. intros p Hp key Hkey. destruct (missing_described _ _ _ _ Hk1 E2 p key Hp Hkey) as [Hin|Hl].
  - eapply copy_paths_described; [done..| |by apply Hkn4|exact H4|done|done]. by rewrite Hc4, Hc2, Hc1.
  - eapply preserves_lookup; [|exact E|done]. intros X. apply retry_holds, copy_paths_holds.
Qed.

Lemma each_store_spec (m : CM unit) (R : S3BinaryCacheClient → S3BinaryCacheClient → Prop) (P : S3BinaryCacheClient → Prop)
    cs cs' :
  (∀ c c', P c → m c = (Ok tt, c') → R c c') → Forall P cs → each_store m cs = (Ok tt, cs') → Forall2 R cs cs'.
Proof.
  intros Hm HP. revert cs'. induction HP as [|c cs Hc HP IH]; intros cs'; cbn [each_store]; [by intros [= <-]|].
  destruct (m c) as [[[]|e] c1] eqn:E; [|done]. destruct (each_store m cs) as [r l] eqn:El. intros [= -> <-].
  constructor; [by eapply Hm|by apply IH].
Qed.

(** A turn that handles one message. *)
Lemma uploader_turn_one msg rest w : ch_queue (up_queue (w_uploader w)) = msg :: rest →
  pa_concurrent_upload_limit (w_config w) < 2 ∨ rest = [] →
  ∃ u written, uploader_turn w = Some ((upload_in_world msg;; q ← query; modify (λ w, w <| w_uploader ::= written q |>))
    (w <| w_uploader := u |>)) ∧
    ch_queue (up_queue u) = rest ∧ (∀ q u, ch_queue (up_queue (written q u)) = ch_queue (up_queue u)).
Proof.
  intros Hq Hl. unfold uploader_turn. destruct (Z.ltb_spec (pa_concurrent_upload_limit (w_config w)) 2) as [H|H].
  - unfold Uploader.take_one, Channel.recv. rewrite Hq. cbn [mbind option_bind]. eexists _, (λ q, Uploader.finish_one (state_file_written q) msg).
    split; [reflexivity|]. split; [done|]. intros q u. unfold Uploader.finish_one. by rewrite save_state_queue.
  - destruct Hl as [Hl| ->]; [lia|]. unfold Uploader.take_many, Channel.recv_many. rewrite Hq.
    replace (Z.to_nat _ `min` length [msg])%nat with 1%nat by (cbn; lia). cbn [take drop mbind option_bind].
    exists ((w_uploader w) <| up_queue := mkChannel [] (ch_notify (up_queue (w_uploader w))) |>
              <| up_current_tasks ::= λ l, l ++ [msg] |>), (λ q, Uploader.finish_many (state_file_written q) [msg]).
    split; [|split; [done|intros q u; unfold Uploader.finish_many; by rewrite save_state_queue]].
    f_equal. cbn [for_each]. rewrite !bind_run. by destruct (upload_in_world msg _) as [[[]|e] w1].
Qed.
End Uploads.

Section Claims.
Context `{HI : HashIter} `{FE : FloatEnv} `{TL : TimeLib} `{NE : NixEnv} `{DE : DbEnv} `{SE : StateEnv}
  `{FS : FsEnv} `{SL : SignLib} `{SHA : Sha256Lib} `{CE : CacheEnv}.

End Claims.
