(* ===== verification/Loops.v ===== *)
(** * Loops: the background loops of the queue runner
    ([queue-runner/src/state/mod.rs])

    A turn of [queue_monitor_loop], of [start_dispatch_loop] and of
    [start_uploader_queue] (in [Uploads]). What a loop waits for is an argument
    of its turn: the answer of the database's listener, and whether a timer
    has run out. The loops never end; times spent are metrics. *)

From Stdlib Require Import Ascii String.
From S2P Require Import NarInfo CacheCfg Stream BinaryCache.
From S2P Require Import Prelude Floats RustStr Nix Db Support Jobset Graph Result Machine Queue.
From S2P Require Import Config Uploader FodChecker State Reclaim Intake Dispatch.
Local Open Scope string_scope.
Local Open Scope list_scope.

(** What [listener.try_next()] or the timer answer. *)
Inductive Notification :=
| NTimer
| NChannel (channel : string)
| NClosed
| NError (e : string).

Section Loops.
Context `{HI : HashIter} `{FE : FloatEnv} `{TL : TimeLib} `{NE : NixEnv} `{DE : DbEnv} `{SE : StateEnv}
  `{FS : FsEnv} `{UL : UuidLib} `{SL : SignLib} `{SHA : Sha256Lib} `{CE : CacheEnv} `{UR : UrlLib}.

(** [jobsets.handle_change] *)
Definition jobset_change : WM unit := λ w,
  let '(r, (js, d)) := Jobsets.handle_change (hp_jobsets (w_heap w), w_db w) in
  (r, w <| w_heap ::= (λ h, h <| hp_jobsets := js |>) |> <| w_db := d |>).

(** What a notification leads to. *)
Definition handle_notification (notification : string) : WM unit :=
  if decide (notification ∈ ["builds_cancelled"; "builds_deleted"; "builds_bumped"]) then
    attempt process_queue_change;; mret tt
  else if decide (notification = "jobset_shares_changed") then
    conn ← attempt (db get);
    match conn with
    | Ok _ => attempt jobset_change;; mret tt
    | Err _ => mret tt
    end
  else mret tt.

(** The queue is read; unless that failed, the loop waits for a
    notification. Without a timer, only the listener is waited for. *)
Definition monitor_turn (step_fuel : nat) (n : Notification) : WM unit :=
  r ← attempt (get_queued_builds step_fuel);
  match r with
  | Err _ => mret tt
  | Ok _ =>
      queue_trigger_timer ← gets (λ w, pa_queue_trigger_timer (w_config w));
      match n, queue_trigger_timer with
      | NTimer, Some _ => handle_notification "timer_reached"
      | NTimer, None => mret tt
      | NChannel channel, _ => handle_notification channel
      | NClosed, _ | NError _, _ => mret tt
      end
  end.

(** [None] while the loop waits: a permit of [notify_dispatch] ends the wait,
    and so does the timer, if there is one. *)
Definition dispatch_turn (timer_reached : bool) (w : World) : option (result Error unit * World) :=
  if w_notify_dispatch w then Some (do_dispatch_once (w <| w_notify_dispatch := false |>))
  else
    match pa_dispatch_trigger_timer (w_config w), timer_reached with
    | Some _, true => Some (do_dispatch_once w)
    | _, _ => None
    end.

(** ** The dispatcher is woken *)

Definition notifies {A} (m : WM A) : Prop := ∀ w a w', m w = (Ok a, w') → w_notify_dispatch w' = true.

Lemma notifies_trigger : notifies trigger_dispatch.
Proof. by intros w a w' [= _ <-]. Qed.
Lemma notifies_bind {A B} (m : WM A) (f : A → WM B) : (∀ a, notifies (f a)) → notifies (m ≫= f).
Proof. intros Hf w b w' (a & w1 & _ & H)%bind_Ok. by eapply Hf. Qed.
Lemma notifies_with_held {A} a (m : WM A) : notifies m → notifies (with_held a m).
Proof.
  intros Hm w x w'. unfold with_held. intros (? & w1 & _ & (r & w2 & H & (? & w3 & [= _ <-] & H3)%bind_Ok)%bind_Ok)%bind_Ok.
  unfold attempt in H. destruct (m w1) as [r' w4] eqn:E. injection H as -> ->. destruct r as [y|e]; [|done].
  injection H3 as _ <-. cbn. by eapply Hm.
Qed.

Lemma notifies_inner_fail machine job step : notifies (inner_fail_job machine job step).
Proof. unfold inner_fail_job. repeat (apply notifies_bind; intros ?). apply notifies_trigger. Qed.
Lemma notifies_succeed item step job output : notifies (succeed_taken item step job output).
Proof. unfold succeed_taken. repeat (apply notifies_bind; intros ?). apply notifies_trigger. Qed.
Lemma notifies_fail item step job state timings : notifies (fail_taken item step job state timings).
Proof.
  unfold fail_taken. do 4 (apply notifies_bind; intros ?). case_match.
  - repeat (apply notifies_bind; intros ?). apply notifies_trigger.
  - apply notifies_bind. intros ?. apply notifies_inner_fail.
Qed.
Lemma notifies_take_and drv finished k : (∀ item step job, notifies (k item step job)) → notifies (take_and drv finished k).
Proof.
  intros Hk. unfold take_and. apply notifies_bind. intros item. apply notifies_with_held.
  repeat (apply notifies_bind; intros ?). apply Hk.
Qed.

(** C20: whenever a step has succeeded or failed, the dispatch loop runs a
    round without waiting for its timer: steps that became runnable, and the
    place on the machine, are used at once. *)
Theorem ended_step_wakes_dispatcher drv w w' :
  (∃ output, succeed_step drv output w = (Ok tt, w')) ∨ (∃ state timings, fail_step drv state timings w = (Ok tt, w')) →
  dispatch_turn false w' = Some (do_dispatch_once (w' <| w_notify_dispatch := false |>)).
Proof.
  intros H. assert (w_notify_dispatch w' = true) as Hn; [|unfold dispatch_turn; by rewrite Hn].
  destruct H as [(output & H)|(state & timings & H)]; revert H; apply notifies_take_and; intros ???.
  - apply notifies_succeed.
  - apply notifies_fail.
Qed.
End Loops.
