(* ===== verification/Grpc.v ===== *)
(** * Grpc: what builders may ask for ([queue-runner/src/server/grpc.rs])

    The requests that read or change the state: joining and leaving through
    the tunnel, pings, step updates and results. A request that is refused has
    a status; the work a handler spawns is part of it, its error is logged. *)

From Stdlib Require Import Ascii String.
From S2P Require Import Prelude Floats RustStr Nix Db Support Jobset Graph Result Machine Queue.
From S2P Require Import Config Uploader FodChecker State Dispatch.
Local Open Scope string_scope.
Local Open Scope list_scope.
Local Open Scope Z_scope.

(** [tonic::Status] *)
Inductive Status :=
| InvalidArgument (msg : string) | Internal (msg : string)
| NotFound (msg : string) | FailedPrecondition (msg : string).

(** [runner_v1::StepStatus] *)
Inductive GrpcStepStatus :=
| GPreparing | GConnecting | GSeningInputs | GBuilding | GWaitingForLocalSlot | GReceivingOutputs
| GPostProcessing.

Definition step_status_from (item : GrpcStepStatus) : StepStatus :=
  match item with
  | GPreparing => Preparing
  | GConnecting => Connecting
  | GSeningInputs => SendingInputs
  | GBuilding => Building
  | GWaitingForLocalSlot => WaitingForLocalSlot
  | GReceivingOutputs => ReceivingOutputs
  | GPostProcessing => PostProcessing
  end.

Record VersionCheckResponse := mkVersionCheckResponse { vc_compatible : bool; vc_server_version : string }.
Definition check_version (server_version version : string) : VersionCheckResponse :=
  mkVersionCheckResponse (bool_decide (version = server_version)) server_version.

Inductive BuilderMessage := BJoin (msg : JoinMessage) | BPing (msg : PingMessage).

Record StepUpdate := mkStepUpdate {
  su_build_id : string; su_machine_id : string; su_step_status : GrpcStepStatus }.

(** The first item of the builder's stream. *)
Inductive FirstItem := FMessage (m : option BuilderMessage) | FError | FEnd.

(** What the task of a tunnel can wake up for. *)
Inductive TunnelEvent :=
| TTick (sent : bool)
| TOutgoing (sent : bool)
| TOutgoingClosed
| TIncoming (m : option BuilderMessage)
| TIncomingError (broken_pipe sent : bool)
| TIncomingEnd.

Section Grpc.
Context `{HI : HashIter} `{FE : FloatEnv} `{TL : TimeLib} `{NE : NixEnv} `{DE : DbEnv} `{SE : StateEnv}
  `{UL : UuidLib}.

(** ** The tunnel *)

Definition handle_message (msg : BuilderMessage) : WM unit :=
  match msg with
  | BJoin _ => mret tt
  | BPing msg =>
      match uuid_parse (pm_machine_id msg) with
      | None => mret tt
      | Some machine_id =>
          a ← gets (λ w, Machines.get_machine_by_id machine_id (w_machines w));
          match a with
          | None => mret tt
          | Some a =>
              on_machine a (λ m h, let '(s, h) := Stats.store_ping msg (mc_stats m) h in
                                   (tt, (m <| mc_stats := s |>, h)))
          end
      end
  end.

(** [Machine::new], which reads the clock. *)
Definition new_machine (msg : JoinMessage) : WM (result Error Machine) := λ w,
  match Machine.new msg (pa_use_presigned_uploads (w_config w)) (pa_forced_substituters (w_config w))
          (w_heap w) with
  | Ok (m, h) => (Ok (Ok m), w <| w_heap := h |>)
  | Err e => (Ok (Err e), w)
  end.

(** Up to the start of the tunnel's task: the id under which the builder is
    registered, and the join response. *)
Definition open_tunnel (first : FirstItem) : WM (result Status (Uuid * (string * Z))) :=
  match first with
  | FMessage (Some (BJoin v)) =>
      m ← new_machine v;
      match m with
      | Err _ => mret (Err (InvalidArgument "Machine is not valid"))
      | Ok m =>
          id ← insert_machine m;
          limit ← gets (λ w, pa_max_concurrent_downloads (w_config w));
          mret (Ok (id, (uuid_to_string id, limit)))
      end
  | _ => mret (Err (InvalidArgument "No Ping message was sent"))
  end.

(** One round of the loop: whether the task goes on. The machine is removed
    when the task ends. *)
Definition tunnel_event (machine_id : Uuid) (ev : TunnelEvent) : WM bool :=
  let leave := remove_machine machine_id;; mret false in
  match ev with
  | TTick sent | TOutgoing sent => if sent : bool then mret true else leave
  | TOutgoingClosed | TIncomingEnd => leave
  | TIncoming (Some msg) => handle_message msg;; mret true
  | TIncoming None => mret true
  | TIncomingError broken_pipe sent =>
      if broken_pipe : bool then leave else if sent : bool then mret true else leave
  end.

Fixpoint tunnel (machine_id : Uuid) (evs : list TunnelEvent) : WM unit :=
  match evs with
  | [] => mret tt
  | ev :: evs' => go ← tunnel_event machine_id ev; if go : bool then tunnel machine_id evs' else mret tt
  end.

(** ** Requests *)

(** The two ids of a request. *)
Definition parse_ids (build_id machine_id : string) : result Status (Uuid * Uuid) :=
  b ← ok_or (uuid_parse build_id) (InvalidArgument "build_id is not a valid uuid.");
  m ← ok_or (uuid_parse machine_id) (InvalidArgument "machine_id is not a valid uuid.");
  Ok (b, m).

Definition build_step_update (req : StepUpdate) : WM (result Status unit) :=
  match parse_ids (su_build_id req) (su_machine_id req) with
  | Err e => mret (Err e)
  | Ok (b, m) => attempt (update_build_step b m (step_status_from (su_step_status req)));; mret (Ok tt)
  end.

Definition complete_build (req : BuildResultInfo) : WM (result Status unit) :=
  match parse_ids (bri_build_id req) (bri_machine_id req) with
  | Err e => mret (Err e)
  | Ok (b, m) =>
      attempt (match bri_result_state req with
               | GSuccess => succeed_step_by_uuid b m (BuildOutput.from_result_info req)
               | s => fail_step_by_uuid b m (result_state_from s)
                        (BuildTimings.new (bri_import_time_ms req) (bri_build_time_ms req)
                           (bri_upload_time_ms req))
               end);;
      mret (Ok tt)
  end.

End Grpc.
