(* ===== verification/GrpcStreams.v ===== *)
(** * GrpcStreams: logs and archives between builder and queue runner
    ([queue-runner/src/server/grpc.rs], [new_log_file] of [mod.rs], the
    streams of [builder/src/state.rs], imports and exports of
    [nix-utils/src/lib.rs])

    A stream of messages is a list of items, each a message or an error. The
    C++ store exports archives piece by piece and imports them by reading into
    buffers: [ArchiveEnv]. Files of logs are a map. *)

From Stdlib Require Import Ascii String.
From S2P Require Import NarInfo CacheCfg Stream BinaryCache.
From S2P Require Import Prelude Floats RustStr Nix Db Support Jobset Graph Result Machine Queue.
From S2P Require Import Config Uploader FodChecker State Dispatch Grpc.
Local Open Scope string_scope.
Local Open Scope list_scope.
Local Open Scope Z_scope.

Record LogChunk := mkLogChunk { lc_drv : string; lc_data : string }.

(** Contents of the log files, by path. *)
Abbreviation Files := (gmap string string).

Class LogEnv : Type := {
  open_fails : string → bool;
  write_fails : string → string → bool
}.

Class ArchiveEnv : Type := {
  (** The pieces, and how it ended. *)
  ffi_export_paths : nat → list string → list string * option string;
  (** Whether signatures are checked, and the bytes that were read. *)
  ffi_import_paths : nat → bool → string → result string unit;
  (** The room of the buffer of each read. *)
  import_room : nat → Z
}.

Inductive LogError := LogStatus (s : Status) | LogIo | LogPanicked.

Section Streams.
Context `{NE : NixEnv} `{LE : LogEnv} `{AE : ArchiveEnv}.

(** ** Logs *)

(** [log_stream] of the builder: lines of the build, up to an error. *)
Fixpoint log_stream (drv : StorePath) (log_output : list (result string string)) : list LogChunk :=
  match log_output with
  | Ok chunk :: log_output' =>
      mkLogChunk (StorePath.base_name drv) (chunk +:+ String NL "") :: log_stream drv log_output'
  | _ => []
  end.

Abbreviation LM := (M Files LogError).

(** [new_log_file]: the file is created or emptied. *)
Definition new_log_file (log_dir : string) (drv : StorePath) : LM string :=
  log_file ← lift_opt LogPanicked (construct_log_file_path log_dir drv);
  if open_fails log_file then throw (LogStatus (Internal "Failed to create log file."))
  else modify <[log_file := ""]>;; mret log_file.

(** [file.write_all(..)] at the end of the file. *)
Definition write_all (file data : string) : LM unit :=
  if write_fails file data then throw LogIo
  else modify (alter (λ content, content +:+ data) file).

Fixpoint log_loop (log_dir : string) (out_file : option string) (stream : list (result Status LogChunk)) : LM unit :=
  match stream with
  | [] => mret tt
  | Err e :: _ => throw (LogStatus e)
  | Ok chunk :: stream' =>
      match out_file with
      | Some file => write_all file (lc_data chunk);; log_loop log_dir out_file stream'
      | None =>
          file ← new_log_file log_dir (store_path_new (lc_drv chunk));
          write_all file (lc_data chunk);;
          log_loop log_dir (Some file) stream'
      end
  end.
Definition build_log (log_dir : string) (stream : list (result Status LogChunk)) : LM unit := log_loop log_dir None stream.

(** ** Queries *)

Definition fetch_drv_requisites (q : nat) (path : string) (include_outputs : bool) : result Status (list string) :=
  match query_requisites q [store_path_new path] include_outputs with
  | Err _ => Err (Internal "failed to toposort drv.")
  | Ok requisites => Ok (StorePath.base_name <$> requisites)
  end.

Definition has_path (q : nat) (path : string) : bool := is_valid_path q (store_path_new path).

(** ** Archives *)

(** [export_paths]: every piece goes to the callback, which answers whether
    to go on. *)
Definition export_paths (q : nat) (paths : list StorePath) : list string * option string :=
  ffi_export_paths q (print_store_path <$> paths).

(** The closure sends a piece into a channel without bounds; the receiver is
    there until the client goes away, and the error is dropped. *)
Definition stream_files (q : nat) (paths : list string) : list (result Status string) :=
  Ok <$> (export_paths q (store_path_new <$> paths)).1.
Definition stream_file (q : nat) (path : string) : list (result Status string) :=
  Ok <$> (export_paths q [store_path_new path]).1.

(** [StreamReader] on a stream: the pieces up to an error. *)
Fixpoint stream_pieces {E} (stream : list (result E string)) : list string * bool :=
  match stream with
  | [] => ([], false)
  | Ok p :: stream' => let '(ps, broken) := stream_pieces stream' in (p :: ps, broken)
  | Err _ :: _ => ([], true)
  end.
Definition stream_reader {E} (stream : list (result E string)) : Reader :=
  let '(ps, broken) := stream_pieces stream in mkReader ps (if broken : bool then Some "unexpected end of file" else None).

(** The callback: [reader.read(data).await.unwrap_or(0)]. *)
Definition read_callback (room : Z) (reader : Reader) : string * Reader :=
  match poll_read room reader with
  | (Ok data, reader) => (data, reader)
  | (Err _, reader) => ("", reader)
  end.

(** The store reads until nothing comes any more; [fuel] is one more than the
    bytes to come. *)
Fixpoint drain (fuel turn : nat) (reader : Reader) : string :=
  match fuel with
  | O => ""
  | S fuel =>
      let '(data, reader) := read_callback (import_room turn) reader in
      if decide (data = "") then "" else data +:+ drain fuel (S turn) reader
  end.

Definition import_paths {E} (q : nat) (stream : list (result E string)) (check_sigs : bool) : result string unit :=
  let reader := stream_reader stream in
  ffi_import_paths q check_sigs (drain (S (String.length (contents reader))) 0 reader).

(** [build_result] of the server: archives from a builder. *)
Definition build_result {E} (q : nat) (stream : list (result E string)) : result Status unit :=
  map_err (λ _, Internal "Failed to import path.") (import_paths q stream false).

(** What [upload_nars_regular] sends. *)
Definition upload_stream (q : nat) (nars : list StorePath) : list (result Status string) * option string :=
  let '(pieces, e) := export_paths q nars in (Ok <$> pieces, e).

(** ** A log is kept *)

(** The lines a builder got before an error. *)
Fixpoint good_lines (log_output : list (result string string)) : list string :=
  match log_output with Ok l :: log_output' => l :: good_lines log_output' | _ => [] end.

(** Every line with its end. *)
Fixpoint log_text (lines : list string) : string :=
  match lines with [] => "" | l :: lines' => (l +:+ String NL "") +:+ log_text lines' end.

Lemma new_log_file_run log_dir drv file fs : construct_log_file_path log_dir drv = Some file → open_fails file = false →
  new_log_file log_dir drv fs = (Ok file, <[file := ""]> fs).
Proof. intros Hf Ho. unfold new_log_file. rewrite bind_run, Hf. unfold lift_opt. cbn. by rewrite Ho. Qed.

Lemma write_all_run file data fs content : write_fails file data = false → fs !! file = Some content →
  write_all file data fs = (Ok tt, <[file := content +:+ data]> fs).
Proof.
  intros Hw Hf. unfold write_all. rewrite Hw. unfold modify. apply (f_equal (pair (Ok tt))). apply map_eq. intros i.
  destruct (decide (i = file)) as [->|]; [by rewrite lookup_alter_eq, lookup_insert_eq, Hf|].
  by rewrite lookup_alter_ne, lookup_insert_ne.
Qed.

Lemma log_loop_open log_dir file drv log_output rest fs content :
  (∀ data, write_fails file data = false) → fs !! file = Some content →
  log_loop log_dir (Some file) ((Ok <$> log_stream drv log_output) ++ rest) fs =
  log_loop log_dir (Some file) rest (<[file := content +:+ log_text (good_lines log_output)]> fs).
Proof.
  intros Hw. revert fs content. induction log_output as [|[l|e] log_output IH]; intros fs content Hf; cbn [log_stream good_lines log_text].
  1,3: by rewrite str_app_nil_r, insert_id.
  cbn [fmap list_fmap app log_loop lc_data]. rewrite bind_run, (write_all_run _ _ _ content) by done.
  rewrite (IH _ (content +:+ l +:+ String NL "")) by (by rewrite lookup_insert_eq).
  by rewrite insert_insert_eq, !str_app_assoc.
Qed.


(** ** Archives arrive *)

Lemma stream_pieces_ok {E} ps : stream_pieces (E := E) (Ok <$> ps) = (ps, false).
Proof. induction ps as [|p ps IH]; [done|]. cbn [fmap list_fmap stream_pieces]. by rewrite IH. Qed.

Lemma drain_contents fuel turn reader : (∀ n, 0 < import_room n) → (String.length (contents reader) < fuel)%nat →
  drain fuel turn reader = contents reader.
Proof.
  intros Hroom. revert turn reader. induction fuel as [|fuel IH]; intros turn reader Hf; [lia|]. cbn [drain].
  unfold read_callback. destruct (poll_read (import_room turn) reader) as [[data|e] r] eqn:E.
  - destruct (poll_Ok _ _ _ _ (Hroom turn) E) as (Hc & _ & _ & He). rewrite Hc in Hf |- *.
    case_decide as Hd; [by rewrite Hd, (He Hd)|]. rewrite IH; [done|].
    rewrite str_length_app in Hf. destruct data; [done|]. cbn [String.length] in Hf. lia.
  - cbn in E. destruct (next_piece (rd_pieces reader)) as [[p ps]|] eqn:En; [done|].
    rewrite decide_True by done. symmetry. exact (next_piece_None _ En).
Qed.

(** C36: archives arrive: the bytes that are imported, on either side, are
    those that were exported on the other for the paths that were named,
    whatever the sizes of the pieces and of the buffers. *)
Theorem archives_arrive q q' paths check_sigs :
  (∀ n, 0 < import_room n) → Forall (λ p, store_path_new (StorePath.base_name p) = p) paths →
  let bytes := join "" (export_paths q paths).1 in
  import_paths q' (stream_files q (StorePath.base_name <$> paths)) check_sigs = ffi_import_paths q' check_sigs bytes ∧
  build_result q' (upload_stream q paths).1 =
    map_err (λ _, Internal "Failed to import path.") (ffi_import_paths q' false bytes).
Proof.
  intros Hroom Hp bytes.
  assert (∀ c, import_paths (E := Status) q' (Ok <$> (export_paths q paths).1) c = ffi_import_paths q' c bytes) as Hi.
  { intros c. unfold import_paths, stream_reader. rewrite stream_pieces_ok. rewrite drain_contents; [done|done|lia]. }
  split.
  - unfold stream_files. assert (store_path_new <$> (StorePath.base_name <$> paths) = paths) as ->; [|apply Hi].
    clear -Hp. induction Hp as [|p ps Hp _ IH]; [done|]. cbn [fmap list_fmap]. by rewrite Hp, IH.
  - unfold build_result, upload_stream. destruct (export_paths q paths) as [pieces e]. cbn [fst]. by rewrite Hi.
Qed.

(** A transfer that breaks is not noticed as such: the import gets the pieces
    that came as a stream that ends there. *)
Theorem broken_transfer_looks_complete {E} q pieces (e : E) rest check_sigs :
  (∀ n, 0 < import_room n) →
  import_paths q ((Ok <$> pieces) ++ Err e :: rest) check_sigs = import_paths q (Ok (E := E) <$> pieces) check_sigs.
Proof.
  intros Hroom. assert (stream_pieces ((Ok <$> pieces) ++ Err e :: rest) = (pieces, true)) as Hs.
  { induction pieces as [|p pieces IH]; [done|]. cbn [fmap list_fmap app stream_pieces]. by rewrite IH. }
  unfold import_paths, stream_reader. rewrite Hs, stream_pieces_ok, !drain_contents by (done || lia). done.
Qed.
End Streams.
