(* ===== verification/PresignedFlow.v ===== *)
(** * PresignedFlow: an archive from the builder to the cache

    The two requests of [queue-runner/src/server/grpc.rs] that concern
    presigned URLs, and the builder's side of them:
    [upload_single_nar_presigned] and [upload_nars_presigned] of
    [builder/src/state.rs] and [request_presigned_urls] of
    [builder/src/grpc.rs]. The queue runner's client of the first remote store
    and the builder's upload client work on the same bucket. *)

From Stdlib Require Import Ascii String.
From S2P Require Import Prelude Floats RustStr Nix Db Support Jobset Graph Result Machine Queue.
From S2P Require Import Config Uploader FodChecker State Dispatch Grpc NarInfo CacheCfg Stream BinaryCache Presigned.
Local Open Scope string_scope.
Local Open Scope list_scope.
Local Open Scope Z_scope.

(** ** Messages *)

Record PresignedNarRequest := mkPresignedNarRequest {
  nq_store_path : string; nq_nar_hash : string; nq_debug_info_build_ids : list string }.

(** [runner_v1::PresignedUpload] *)
Record WireUpload := mkWireUpload {
  wu_path : string; wu_url : string; wu_compression : string; wu_compression_level : Z }.

Record PresignedNarResponse := mkPresignedNarResponse {
  ns_store_path : string; ns_nar_url : string; ns_nar_upload : option WireUpload;
  ns_ls_upload : option WireUpload; ns_debug_info_upload : list WireUpload }.

Record PresignedUploadComplete := mkPresignedUploadComplete {
  uc_build_id : string; uc_machine_id : string; uc_store_path : string; uc_url : string;
  uc_compression : string; uc_file_hash : string; uc_file_size : Z; uc_nar_hash : string; uc_nar_size : Z;
  uc_references : list string; uc_deriver : option string; uc_ca : option string }.

Definition to_wire (p : PresignedUpload) : WireUpload :=
  mkWireUpload (pu_path p) (pu_url p) (Compression.as_str (pu_compression p))
    (PresignedUpload.get_compression_level_as_i32 p).

Definition from_wire (u : WireUpload) : PresignedUpload :=
  PresignedUpload.new (wu_path u) (wu_url u)
    (match Compression.from_str (wu_compression u) with Ok c => c | Err _ => CNoCompression end)
    (wu_compression_level u).

Section Flow.
Context `{HI : HashIter} `{FE : FloatEnv} `{TL : TimeLib} `{NE : NixEnv} `{DE : DbEnv} `{SE : StateEnv}
  `{UL : UuidLib} `{SL : SignLib} `{SHA : Sha256Lib} `{CE : CacheEnv} `{HE : HttpEnv}.

(** ** The queue runner's side *)

Abbreviation RM := (M S3BinaryCacheClient Status).

(** An error of the cache becomes a status. *)
Definition with_status {A} (msg : string) (m : CM A) : RM A := λ c,
  let '(r, c) := m c in (map_err (λ _, Internal msg) r, c).

(** [c] is the client of the first remote store, when there is one. *)
Definition first_store (w : World) : RM unit :=
  match head (w_remote_stores w) with
  | Some _ => mret tt
  | None => throw (FailedPrecondition "No remote store configured")
  end.

Definition presigned_response (r : PresignedNarRequest) : RM PresignedNarResponse :=
  let store_path := store_path_new (nq_store_path r) in
  p ← with_status "Failed to generate presigned URL"
    (generate_nar_upload_presigned_url store_path (nq_nar_hash r) (nq_debug_info_build_ids r));
  mret (mkPresignedNarResponse (StorePath.base_name store_path) (pr_nar_url p) (Some (to_wire (pr_nar_upload p)))
    (to_wire <$> pr_ls_upload p) (to_wire <$> pr_debug_info_upload p)).

Fixpoint presigned_responses (rs : list PresignedNarRequest) : RM (list PresignedNarResponse) :=
  match rs with
  | [] => mret []
  | r :: rs' => x ← presigned_response r; xs ← presigned_responses rs'; mret (x :: xs)
  end.

Definition request_presigned_url (w : World) (build_id machine_id : string) (request : list PresignedNarRequest)
  : RM (list PresignedNarResponse) :=
  lift_result (parse_ids build_id machine_id);;
  first_store w;;
  presigned_responses request.

(** The machine must run a job with the build's id. *)
Definition check_job (w : World) (build_id machine_id : Uuid) : result Status StorePath :=
  m ← ok_or (a ← Machines.get_machine_by_id machine_id (w_machines w); ms_objs (w_machines w) !! a)
        (NotFound "Machine not found");
  ok_or (Machine.get_job_drv_for_build_id build_id m) (NotFound "Job not found for this build_id").

(** The description the queue runner makes of the builder's message: the
    compression is that of the store. *)
Definition narinfo_of_message (compression : Compression) (req : PresignedUploadComplete) : NarInfo :=
  mkNarInfo (store_path_new (uc_store_path req)) (uc_url req) compression (Some (uc_file_hash req))
    (Some (uc_file_size req)) (uc_nar_hash req) (uc_nar_size req) (store_path_new <$> uc_references req)
    (store_path_new <$> uc_deriver req) (uc_ca req) [].

Definition notify_presigned_upload_complete (w : World) (req : PresignedUploadComplete) : RM unit :=
  '(build_id, machine_id) ← lift_result (parse_ids (uc_build_id req) (uc_machine_id req));
  lift_result (check_job w build_id machine_id);;
  first_store w;;
  compression ← gets (λ c, cc_compression (cl_cfg c));
  with_status "Failed to upload narinfo"
    (upload_narinfo_after_presigned_upload (narinfo_of_message compression req));;
  mret tt.

(** ** The builder's side *)

(** The client of the first remote store, with the bucket, and the builder's
    counters. *)
Record Session := mkSession { ss_client : S3BinaryCacheClient; ss_metrics : PresignedUploadMetrics }.

Inductive UploadFailure :=
| CacheFailure (e : CacheError)
| GrpcFailure (e : Status)
| NarUploadMissing
| PathsMismatch (requested got : nat).

Abbreviation SM := (M Session UploadFailure).

(** A call of the builder's upload client, and one of the queue runner. *)
Definition on_upload_client {A} (m : PM A) : SM A := λ s,
  let '(r, c) := m (mkPresignedUploadClient (ss_metrics s) (cl_bucket (ss_client s))) in
  (map_err CacheFailure r, mkSession ((ss_client s) <| cl_bucket := pc_bucket c |>) (pc_metrics c)).
Definition call {A} (m : RM A) : SM A := λ s,
  let '(r, c) := m (ss_client s) in (map_err GrpcFailure r, mkSession c (ss_metrics s)).

Definition completion_message (build_id machine_id : string) (nar_path : StorePath) (n : NarInfo)
    (file_hash : string) (file_size : Z) : PresignedUploadComplete :=
  mkPresignedUploadComplete build_id machine_id (StorePath.base_name nar_path) (ni_url n)
    (Compression.as_str (ni_compression n)) file_hash file_size (ni_nar_hash n) (ni_nar_size n)
    (StorePath.base_name <$> ni_references n) (StorePath.base_name <$> ni_deriver n) (ni_ca n).

Definition upload_single_nar_presigned (w : World) (nar_path : StorePath) (build_id machine_id : string)
    (response : PresignedNarResponse) : SM unit :=
  q ← on_upload_client PresignedUploadClient.tick;
  q' ← on_upload_client PresignedUploadClient.tick;
  narinfo ← lift_result (map_err CacheFailure (simple_path_to_narinfo q q' nar_path));
  nar_upload ← lift_opt NarUploadMissing (ns_nar_upload response);
  let request := mkPresignedUploadResponse (ns_nar_url response) (from_wire nar_upload)
    (from_wire <$> ns_ls_upload response) (from_wire <$> ns_debug_info_upload response) in
  updated ← on_upload_client (PresignedUploadClient.process_presigned_request narinfo request);
  match ni_file_hash updated, ni_file_size updated with
  | Some file_hash, Some file_size =>
      call (notify_presigned_upload_complete w
        (completion_message build_id machine_id nar_path updated file_hash file_size))
  | _, _ => mret tt
  end.

(** A path with its hash and its debug information; nothing for a path the
    store has no information about. *)
Fixpoint nars_to_request (upload_debug_info : bool) (path_infos : gmap StorePath PathInfo) (paths : list StorePath)
  : SM (list PresignedNarRequest) :=
  match paths with
  | [] => mret []
  | path :: ps =>
      ids ← (if upload_debug_info
             then on_upload_client (get_debug_info_build_ids PresignedUploadClient.tick path) else mret []);
      rest ← nars_to_request upload_debug_info path_infos ps;
      mret (match path_infos !! path with
            | Some info => mkPresignedNarRequest (StorePath.base_name path) (pi_nar_hash info) ids :: rest
            | None => rest
            end)
  end.

Definition upload_nars_presigned
    (w : World) (output_paths : list StorePath) (upload_debug_info : bool) (build_id machine_id : string) : SM unit :=
  q ← on_upload_client PresignedUploadClient.tick;
  let paths_to_upload := match query_requisites q output_paths true with Ok l => l | Err _ => [] end in
  q ← on_upload_client PresignedUploadClient.tick;
  nars ← nars_to_request upload_debug_info (query_path_infos q paths_to_upload) paths_to_upload;
  if negb (length nars =? length paths_to_upload)%nat
  then throw (PathsMismatch (length paths_to_upload) (length nars))
  else
    responses ← call (request_presigned_url w build_id machine_id nars);
    if negb (length responses =? length paths_to_upload)%nat
    then throw (PathsMismatch (length paths_to_upload) (length responses))
    else
      for_each responses (λ r,
        upload_single_nar_presigned w (store_path_new (ns_store_path r)) build_id machine_id r).
End Flow.
