(* ===== verification/PresignedInv.v ===== *)
(** * PresignedInv: what an upload to presigned URLs leaves in the cache *)

From Stdlib Require Import Ascii String.
From S2P Require Import Prelude Floats RustStr Nix Db Support Jobset Graph Result Machine Queue.
From S2P Require Import Config Uploader FodChecker State Dispatch Grpc NarInfo CacheCfg Stream BinaryCache Presigned.
From S2P Require Import CacheInv PresignedFlow.
Local Open Scope string_scope.
Local Open Scope list_scope.
Local Open Scope Z_scope.

(** ** Levels of compression *)

(** The levels that travel unchanged. *)
Definition portable_level (l : Level) : bool :=
  match l with Precise n => (2 <=? n) && (n <=? 8) | _ => true end.

Lemma from_to_wire p : portable_level (pu_compression_level p) = true → from_wire (to_wire p) = p.
Proof.
  destruct p as [path url comp l]. unfold from_wire, to_wire, PresignedUpload.new. cbn. rewrite compression_roundtrip.
  destruct l as [| | |n]; [done..|]. intros [H1%Z.leb_le H2%Z.leb_le]%andb_true_iff.
  cbn. destruct (Z.eqb_spec n 1); [lia|]. rewrite (proj2 (Z.leb_le 2 n)), (proj2 (Z.leb_le n 8)) by done. done.
Qed.

Section Env.
Context `{NE : NixEnv} `{SL : SignLib} `{SHA : Sha256Lib} `{CE : CacheEnv} `{HE : HttpEnv}.
Import PresignedUploadClient.

(** ** Reading and putting *)

Lemma read_to_end_loop_spec {R} `{!AsyncRead R} `{!ReadLaws R} (P Q : R → Prop) fuel buffer r :
  keeps_reading P Q → breaks r = false → P r → (String.length (contents r) < fuel)%nat →
  ∃ r', read_to_end_loop fuel buffer r = (Ok (buffer +:+ contents r), r') ∧ Q r'.
Proof.
  intros HPQ. revert buffer r. induction fuel as [|fuel IH]; intros buffer r Hb HP Hf; [lia|].
  cbn [read_to_end_loop]. pose proof (proj1 HPQ 32 r ltac:(lia) HP) as HP1.
  destruct (poll_read 32 r) as [[data|e] r1] eqn:E; cbn [snd] in HP1.
  2:{ apply poll_Err in E. congruence. }
  destruct (poll_Ok 32 r data r1 ltac:(lia) E) as (Hc & _ & Hb1 & Hend). rewrite Hc.
  destruct (Z.eqb_spec (len data) 0) as [H0|H0].
  { apply len_zero in H0. subst data. exists r1. rewrite Hend by done.
    change ("" +:+ "") with "". rewrite str_app_nil_r. split; [done|].
    exact (proj2 HPQ 32 r r1 ltac:(lia) HP E). }
  destruct (IH (buffer +:+ data) r1) as (r' & -> & HQ); [congruence|done| |].
  { rewrite Hc, str_length_app in Hf. unfold len in H0. lia. }
  exists r'. by rewrite str_app_assoc.
Qed.

(** Of four attempts in a row, one is answered. *)
Definition http_reliable : Prop := ∀ n, ∃ k, (k ≤ RETRY_MAX_ATTEMPTS)%nat ∧ http_error (n + k) = None.

Lemma put_retry_spec times url key o b : url_object url = Some key →
  (∃ k, (k ≤ times)%nat ∧ http_error (bk_clock b + k) = None) →
  ∃ b', put_retry times url o b = (Ok tt, b') ∧ bk_objects b' = <[key := o]> (bk_objects b).
Proof.
  intros Hu. revert b. induction times as [|times IH]; intros b (k & Hk & Hn); cbn [put_retry];
    rewrite bind_run; unfold attempt, put_once, tick_bucket; rewrite bind_run.
  - assert (k = O) as -> by lia. rewrite Nat.add_0_r in Hn. rewrite Hn, Hu. by eexists.
  - destruct (http_error (bk_clock b)) as [e|] eqn:He; [|rewrite Hu; by eexists].
    destruct k as [|k]; [rewrite Nat.add_0_r in Hn; congruence|].
    destruct (IH (b <| bk_clock ::= S |>)) as (b' & Hb' & Ho); [|by exists b'].
    exists k. split; [lia|]. by rewrite <-Nat.add_succ_comm in Hn.
Qed.

(** ** Uploads *)

(** The builder goes on with the objects [objs]. *)
Definition file_result (bytes : string) : PresignedUploadResult :=
  mkPresignedUploadResult ("sha256:" +:+ default (sha256_digest bytes) (convert_sha256_nix32 (sha256_digest bytes)))
    (u64_wrap (len bytes)).

Lemma upload_any_spec upload r ct key c : http_reliable → url_object (pu_url upload) = Some key → breaks r = false →
  ∃ c', upload_any upload (HashingReader.new r) ct c = (Ok (file_result (contents r)), c') ∧
    bk_objects (pc_bucket c') =
      <[key := mkObject (contents r) (default "application/x-nix-nar" ct) ""]> (bk_objects (pc_bucket c)).
Proof.
  intros Hh Hu Hb. unfold upload_any, read_to_end.
  destruct (read_to_end_loop_spec _ _ (S (String.length (contents (HashingReader.new r)))) ""
    (HashingReader.new r) (keeps_hashing (R := Reader) (contents r))) as (h & -> & Hr); [done|split; [apply hashes_new|done]|lia|].
  change ("" +:+ contents (HashingReader.new r)) with (contents r).
  rewrite bind_run. cbn [map_err lift_result]. rewrite bind_run. unfold zoom at 1.
  destruct (put_retry_spec RETRY_MAX_ATTEMPTS (pu_url upload) key
    (mkObject (contents r) (default (content_type (pu_compression upload)) ct) (content_encoding (pu_compression upload)))
    (pc_bucket c) Hu (Hh _)) as (b' & Hp & Ho).
  cbn [fst snd]. rewrite Hp. rewrite bind_run. unfold tick, zoom at 1, tick_bucket. rewrite bind_run.
  unfold HashingReader.finalize. rewrite Hr. cbn [lift_opt ok_or lift_result]. by eexists.
Qed.

(** The bytes of the archive as the builder uploads them. *)
Definition builder_bytes (upload : PresignedUpload) (pieces : list string) : string :=
  contents (get_compression_fn (pu_compression upload) (pu_compression_level upload) false (mkReader pieces None)).

Lemma upload_nar_spec path upload pieces key c : http_reliable → encoders_keep →
  url_object (pu_url upload) = Some key → (∀ q, nar_from_path q path = (pieces, None)) →
  let bytes := builder_bytes upload pieces in
  ∃ c', upload_nar path upload c = (Ok (file_result bytes), c') ∧
    bk_objects (pc_bucket c') = <[key := mkObject bytes "application/x-nix-nar" ""]> (bk_objects (pc_bucket c)).
Proof.
  intros Hh He Hu Hn bytes. unfold upload_nar. rewrite bind_run. unfold tick, zoom at 1, tick_bucket.
  rewrite Hn, bind_run. unfold attempt.
  destruct (upload_any_spec upload (get_compression_fn (pu_compression upload) (pu_compression_level upload) false
    (mkReader pieces None)) None key (c <| pc_bucket := ((pc_bucket c) <| bk_clock ::= S |>) |>) Hh Hu)
    as (c' & -> & Ho); [by apply compression_fn_keeps|]. by exists c'.
Qed.

Lemma upload_ls_spec path upload ls key c : http_reliable → encoders_keep →
  url_object (pu_url upload) = Some key → (∀ q, list_nar_deep q path = Ok ls) →
  ∃ r c' o, upload_ls path upload c = (Ok r, c') ∧ bk_objects (pc_bucket c') = <[key := o]> (bk_objects (pc_bucket c)).
Proof.
  intros Hh He Hu Hn. unfold upload_ls. rewrite bind_run. unfold tick, zoom at 1, tick_bucket.
  rewrite Hn, bind_run. cbn [map_err lift_result].
  destruct (upload_any_spec upload (get_compression_fn (pu_compression upload) (pu_compression_level upload) false
    (cursor ls)) (Some "application/json") key (c <| pc_bucket := ((pc_bucket c) <| bk_clock ::= S |>) |>) Hh Hu)
    as (c' & -> & Ho); [by apply compression_fn_keeps|]. eexists _, c', _. by split.
Qed.

(** What the builder makes of the description of a path. *)
Definition updated (n : NarInfo) (req : PresignedUploadResponse) (bytes : string) : NarInfo :=
  n <| ni_url := pr_nar_url req |> <| ni_compression := pu_compression (pr_nar_upload req) |>
    <| ni_file_hash := Some (ur_file_hash (file_result bytes)) |>
    <| ni_file_size := Some (ur_file_size (file_result bytes)) |>.

(** The listing can be uploaded, if there is a URL for it. *)
Definition listing_ok (path : StorePath) (ls : option PresignedUpload) : Prop :=
  match ls with
  | Some u => is_Some (url_object (pu_url u)) ∧ ∃ l, ∀ q, list_nar_deep q path = Ok l
  | None => True
  end.

Lemma process_presigned_spec n req pieces key c : http_reliable → encoders_keep →
  url_object (pu_url (pr_nar_upload req)) = Some key → (∀ q, nar_from_path q (ni_store_path n) = (pieces, None)) →
  listing_ok (ni_store_path n) (pr_ls_upload req) → pr_debug_info_upload req = [] →
  let bytes := builder_bytes (pr_nar_upload req) pieces in
  ∃ objs c', process_presigned_request n req c = (Ok (updated n req bytes), c') ∧
    bk_objects (pc_bucket c') = <[key := mkObject bytes "application/x-nix-nar" ""]> objs ∧
    dom (bk_objects (pc_bucket c)) ⊆ dom objs ∧
    (∀ u k, pr_ls_upload req = Some u → url_object (pu_url u) = Some k → k ∈ dom objs).
Proof.
  intros Hh He Hu Hn Hl Hd bytes. unfold process_presigned_request. rewrite bind_run.
  assert (∃ objs c1, (match pr_ls_upload req with
      | Some ls_upload => upload_ls (ni_store_path (n <| ni_url := pr_nar_url req |>
          <| ni_compression := pu_compression (pr_nar_upload req) |>)) ls_upload;; mret tt
      | None => mret tt end) c = (Ok tt, c1) ∧ bk_objects (pc_bucket c1) = objs ∧
      dom (bk_objects (pc_bucket c)) ⊆ dom objs ∧
      (∀ u k, pr_ls_upload req = Some u → url_object (pu_url u) = Some k → k ∈ dom objs))
    as (objs & c1 & -> & Ho & Hdom & Hls).
  { destruct (pr_ls_upload req) as [u|]; [|by exists (bk_objects (pc_bucket c)), c].
    destruct Hl as [[k Hk] [l Hl]]. rewrite bind_run.
    destruct (upload_ls_spec (ni_store_path n) u l k c Hh He Hk Hl) as (r & c1 & o & Hu1 & Ho).
    cbn in *. rewrite Hu1. exists (<[k := o]> (bk_objects (pc_bucket c))), c1. rewrite dom_insert_L.
    split_and!; [done|done|set_solver|]. intros u' k' [= <-] Hk'. simplify_eq. set_solver. }
  rewrite bind_run, decide_True by done. cbn [mret M_ret]. rewrite bind_run.
  destruct (upload_nar_spec (ni_store_path n) (pr_nar_upload req) pieces key c1 Hh He Hu Hn) as (c2 & Hr & Ho2).
  exists objs, c2. cbn in *. rewrite Hr. split_and!; [done|by rewrite Ho2, Ho|done..].
Qed.

Lemma head_object_answers k c : answers →
  ∃ c', head_object k c = (Ok (bool_decide (is_Some (lookup_object k (cl_bucket c)))), c') ∧
    bk_objects (cl_bucket c') = bk_objects (cl_bucket c).
Proof.
  intros Ha. unfold head_object. rewrite bind_run. unfold attempt, zoom at 1. rewrite bind_run, request_answers by done.
  by eexists.
Qed.

(** ** Signed URLs *)

(** A signed URL stands for the object it was signed for. *)
Definition signs : Prop := ∀ n k expiry, ∃ u, sign_url n k expiry = Ok u ∧ url_object u = Some k.

Definition nar_url_of (cfg : S3CacheConfig) (u : string) : string :=
  "nar/" +:+ u +:+ "." +:+ Compression.ext (cc_compression cfg).

Lemma signed_url_spec k c : signs → ∃ u, signed_url k c = (Ok (Ok u), ticked c) ∧ url_object u = Some (object_path k).
Proof.
  intros Hs. unfold signed_url. rewrite bind_tick, bind_gets.
  destruct (Hs (bk_clock (cl_bucket c)) (object_path k) (cc_presigned_url_expiry (cl_cfg (ticked c)))) as (u & -> & Hu).
  by exists u.
Qed.

Lemma generate_spec path hash u h c : signs → NarInfo.nar_hash_url path hash = Some u → StorePath.hash_part path = Some h →
  ∃ p c', generate_nar_upload_presigned_url path hash [] c = (Ok p, c') ∧ goes_on c (bk_objects (cl_bucket c)) c' ∧
    pr_nar_url p = nar_url_of (cl_cfg c) u ∧ pr_debug_info_upload p = [] ∧
    pu_compression (pr_nar_upload p) = cc_compression (cl_cfg c) ∧
    pu_compression_level (pr_nar_upload p) = S3CacheConfig.get_compression_level (cl_cfg c) ∧
    url_object (pu_url (pr_nar_upload p)) = Some (object_path (nar_url_of (cl_cfg c) u)) ∧
    match pr_ls_upload p with
    | Some ls => cc_write_nar_listing (cl_cfg c) = true ∧ url_object (pu_url ls) = Some (object_path (h +:+ ".ls")) ∧
                 pu_compression_level ls = S3CacheConfig.get_compression_level (cl_cfg c)
    | None => cc_write_nar_listing (cl_cfg c) = false
    end.
Proof.
  intros Hs Hu Hh. unfold generate_nar_upload_presigned_url. rewrite bind_gets, Hu, bind_lift_Some.
  fold (nar_url_of (cl_cfg c) u). rewrite bind_run.
  destruct (signed_url_spec (nar_url_of (cl_cfg c) u) c Hs) as (url & -> & Hurl). rewrite bind_run. cbn [map_err lift_result].
  rewrite bind_run. destruct (cc_write_nar_listing (cl_cfg c)).
  - rewrite Hh, bind_lift_Some, bind_run.
    destruct (signed_url_spec (h +:+ ".ls") (ticked c) Hs) as (url' & -> & Hurl'). cbn [map_err]. rewrite bind_lift_Ok.
    cbn [mret M_ret]. rewrite andb_false_r, bind_run. eexists _, _. split; [reflexivity|]. by split_and!.
  - cbn [mret M_ret]. rewrite andb_false_r, bind_run. eexists _, _. split; [reflexivity|]. by split_and!.
Qed.

(** The description of the local store, as a builder sends it. *)
Lemma simple_narinfo_spec q q' path info n : (∀ q, query_path_info q path = Some info) →
  (∀ q r, r ∈ pi_refs info → is_Some (query_path_info q r)) →
  NarInfo.simple path info CNoCompression = Some n → simple_path_to_narinfo q q' path = Ok n.
Proof.
  intros Hi Hr Hn. unfold simple_path_to_narinfo. rewrite Hi. cbn [ok_or mbind result_bind]. rewrite Hn.
  cbn [ok_or mbind result_bind]. rewrite verify_references_ok; [done|].
  apply bind_Some in Hn as (u & _ & [= <-]). cbn. intros r Hin. by apply query_path_infos_some; auto.
Qed.

Lemma require_object_spec k c : answers → is_Some (lookup_object k (cl_bucket c)) →
  ∃ c', require_object k c = (Ok tt, c') ∧ goes_on c (bk_objects (cl_bucket c)) c'.
Proof.
  intros Ha Hk. unfold require_object, head_object. rewrite bind_run, bind_run. unfold attempt, zoom at 1.
  rewrite bind_run, request_answers by done. cbn [gets]. rewrite bind_run. cbn [modify]. rewrite bind_lift_Ok.
  cbn [mret M_ret]. change (lookup_object k ((cl_bucket c) <| bk_clock ::= S |>)) with (lookup_object k (cl_bucket c)).
  rewrite bool_decide_true by done. by eexists.
Qed.

(** ** The description of an uploaded archive *)

Lemma nix32_not_hex h : nix32 h = true → NarInfo.nix32_nar_hash h = h.
Proof. intros [_ Hl%Nat.eqb_eq]%andb_true_iff. unfold NarInfo.nix32_nar_hash. by rewrite Hl. Qed.

Lemma fingerprint_same n m : ni_store_path n = ni_store_path m → ni_nar_hash n = ni_nar_hash m →
  ni_nar_size n = ni_nar_size m → ni_references n = ni_references m →
  NarInfo.fingerprint_path n = NarInfo.fingerprint_path m.
Proof. intros H1 H2 H3 H4. unfold NarInfo.fingerprint_path. by rewrite H1, H2, H3, H4. Qed.

Lemma base_names_read l : forallb base_ok l = true → store_path_new <$> (StorePath.base_name <$> l) = l.
Proof.
  rewrite forallb_forall. intros H. rewrite <-list_fmap_compose. induction l as [|p l IH]; [done|].
  rewrite fmap_cons, IH by (intros x Hx; apply H; by right). f_equal.
  destruct (base_ok_spec p) as (_&_&_&He); [apply H; by left|]. exact He.
Qed.

(** The paths of a description can be sent by their base names. *)
Definition sendable (path : StorePath) (info : PathInfo) : bool :=
  base_ok path && forallb base_ok (pi_refs info) && forallb base_ok (option_list (pi_deriver info)).

(** What the queue runner signs is what it would have signed for a path of
    its own store, with the file the builder uploaded. *)
Lemma message_signed path info comp keys n n0 req bytes build_id machine_id :
  keys ≠ [] → nix32 (pi_nar_hash info) = true → sendable path info = true →
  is_Some (convert_sha256_nix32 (sha256_digest bytes)) →
  NarInfo.new path info comp keys = Some n → NarInfo.simple path info CNoCompression = Some n0 →
  pr_nar_url req = ni_url n →
  NarInfo.clear_sigs_and_sign keys (narinfo_of_message comp (completion_message build_id machine_id path
    (updated n0 req bytes) (ur_file_hash (file_result bytes)) (ur_file_size (file_result bytes)))) =
  Some (with_file bytes n).
Proof.
  intros Hk Hx Hs [h Hh] Hn H0 Hu. set (m := narinfo_of_message _ _).
  unfold NarInfo.new in Hn. apply bind_Some in Hn as (ns & Hns & Hn).
  unfold NarInfo.simple in Hns, H0. rewrite nix32_not_hex in Hns, H0 by done.
  apply bind_Some in Hns as (u & Hu1 & [= <-]). apply bind_Some in H0 as (u' & Hu' & [= <-]).
  unfold sendable in Hs. apply andb_true_iff in Hs as [[Hp Hr]%andb_true_iff Hd].
  assert (m = with_file bytes (mkNarInfo path (ni_url n) comp None None (pi_nar_hash info) (pi_nar_size info) (pi_refs info)
    (pi_deriver info) (pi_ca info) [])) as Hm.
  { subst m. unfold narinfo_of_message, completion_message, updated, file_result, with_file. cbn. rewrite Hh. cbn.
    destruct (base_ok_spec path Hp) as (_&_&_&He). rewrite He, base_names_read, Hu by done. f_equal.
    destruct (pi_deriver info) as [d|]; [|done]. cbn in *. rewrite andb_true_r in Hd.
    by destruct (base_ok_spec d Hd) as (_&_&_&->). }
  destruct (clear_sigs_and_sign_spec keys m Hk) as (fp & Hfp & ->).
  { rewrite Hm. unfold with_file. by rewrite Hh. }
  set (ns := mkNarInfo _ _ _ _ _ _ _ _ _ _ _) in Hn.
  destruct (clear_sigs_and_sign_spec keys ns Hk Hx) as (fp' & Hfp' & Hsg). rewrite Hsg in Hn. cbn [mbind option_bind] in Hn.
  assert (fp' = fp) as ->.
  { assert (NarInfo.fingerprint_path m = NarInfo.fingerprint_path ns) as E;
      [rewrite Hm; unfold with_file; rewrite Hh; by apply fingerprint_same|]. congruence. }
  rewrite bool_decide_false in Hn by (by destruct keys). cbn [andb] in Hn. apply (inj Some) in Hn.
  f_equal. rewrite Hm. unfold with_file. rewrite Hh, <-Hn. done.
Qed.

Lemma narinfo_after_upload_spec c m n key keys : answers → encoders_keep → 0 < cc_buffer_size (cl_cfg c) →
  cl_signing_keys c = keys → NarInfo.clear_sigs_and_sign keys m = Some n → narinfo_key (ni_store_path n) = Some key →
  is_Some (lookup_object (ni_url m) (cl_bucket c)) →
  (cc_write_nar_listing (cl_cfg c) = true →
   ∃ ls, NarInfo.get_ls_path m = Some ls ∧ is_Some (lookup_object ls (cl_bucket c))) →
  ∃ c', upload_narinfo_after_presigned_upload m c = (Ok key, c') ∧
    goes_on c (<[object_path key := mkObject (text_bytes (cl_cfg c) key (NarInfo.render n)) "text/x-nix-narinfo" ""]>
      (bk_objects (cl_bucket c))) c'.
Proof.
  intros Ha He Hb Hks Hn Hk Hu Hls. unfold upload_narinfo_after_presigned_upload. rewrite bind_gets, bind_run.
  assert (∃ c1, upload_optional (cc_write_nar_listing (cl_cfg c)) (ls_path ← lift_opt Panicked (NarInfo.get_ls_path m);
    require_object ls_path) c = (Ok tt, c1) ∧ goes_on c (bk_objects (cl_bucket c)) c1) as (c1 & -> & H1).
  { destruct (cc_write_nar_listing (cl_cfg c)); [|by exists c]. destruct (Hls eq_refl) as (ls & -> & Hl). cbn [upload_optional].
    rewrite bind_lift_Some. by apply require_object_spec. }
  rewrite bind_run. destruct (require_object_spec (ni_url m) c1 Ha) as (c2 & -> & H2).
  { unfold lookup_object in *. by rewrite (proj2 H1). }
  pose proof (goes_on_trans _ _ _ _ _ H1 H2) as H12. rewrite bind_gets.
  assert (cl_signing_keys c2 = keys) as -> by (rewrite <-Hks; apply H12). rewrite Hn, bind_lift_Some.
  assert (cl_cfg c2 = cl_cfg c) as Hcfg by apply H12.
  destruct (upload_narinfo_spec c2 n key Ha He) as (c3 & -> & H3); [by rewrite Hcfg|done|].
  exists c3. split; [done|]. rewrite Hcfg, (proj2 H12), (proj2 H1) in H3. by eapply goes_on_trans.
Qed.
End Env.

Section Flow.
Context `{HI : HashIter} `{FE : FloatEnv} `{TL : TimeLib} `{NE : NixEnv} `{DE : DbEnv} `{SE : StateEnv}
  `{UL : UuidLib} `{SL : SignLib} `{SHA : Sha256Lib} `{CE : CacheEnv} `{HE : HttpEnv}.

Lemma bind_call {A B} (m : M S3BinaryCacheClient Status A) (f : A → M Session UploadFailure B) s a c' :
  m (ss_client s) = (Ok a, c') → (call m ≫= f) s = f a (mkSession c' (ss_metrics s)).
Proof. intros H. rewrite bind_run. unfold call. by rewrite H. Qed.

Lemma bind_upload {A B} (m : M PresignedUploadClient CacheError A) (f : A → M Session UploadFailure B) s a c' :
  m (mkPresignedUploadClient (ss_metrics s) (cl_bucket (ss_client s))) = (Ok a, c') →
  (on_upload_client m ≫= f) s = f a (mkSession ((ss_client s) <| cl_bucket := pc_bucket c' |>) (pc_metrics c')).
Proof. intros H. rewrite bind_run. unfold on_upload_client. by rewrite H. Qed.

(** The session after an answer from outside. *)
Definition ticked_session (s : Session) : Session := mkSession (ticked (ss_client s)) (ss_metrics s).

Lemma bind_tick_session {B} (f : nat → M Session UploadFailure B) s :
  (on_upload_client PresignedUploadClient.tick ≫= f) s = f (bk_clock (cl_bucket (ss_client s))) (ticked_session s).
Proof. done. Qed.

Lemma with_status_Ok {A} msg (m : M S3BinaryCacheClient CacheError A) c a c' :
  m c = (Ok a, c') → with_status msg m c = (Ok a, c').
Proof. unfold with_status. by intros ->. Qed.

(** A path a builder can upload: it can be copied, with an archive that is
    read to its end; its hash is in base 32 and its names can be sent; the
    store signs, with a compression that travels and that does not depend on
    the number of cores, and without debug information; the queue runner knows
    the job and has a remote store. *)
Record uploadable (w : World) (c : S3BinaryCacheClient) (path : StorePath) (info : PathInfo) (pieces : list string)
    (n : NarInfo) (key build_id machine_id : string) : Prop := {
  up_copyable : copyable c path info pieces n key;
  up_archive q : (nar_from_path q path).2 = None;
  up_nix32 : nix32 (pi_nar_hash info) = true;
  up_sendable : sendable path info = true;
  up_keys : cl_signing_keys c ≠ [];
  up_level : portable_level (S3CacheConfig.get_compression_level (cl_cfg c)) = true;
  up_parallel : cc_parallel_compression (cl_cfg c) = false;
  up_hash : is_Some (convert_sha256_nix32 (sha256_digest (nar_bytes (cl_cfg c) (cc_compression (cl_cfg c)) pieces)));
  up_job : ∃ b m drv, parse_ids build_id machine_id = Ok (b, m) ∧ check_job w b m = Ok drv;
  up_store : w_remote_stores w ≠ []
}.

Lemma first_store_spec w c : w_remote_stores w ≠ [] → first_store w c = (Ok tt, c).
Proof. unfold first_store. by destruct (w_remote_stores w). Qed.

Lemma url_of_new path info comp keys n u : nix32 (pi_nar_hash info) = true →
  NarInfo.new path info comp keys = Some n → NarInfo.nar_hash_url path (pi_nar_hash info) = Some u →
  ni_url n = "nar/" +:+ u +:+ "." +:+ Compression.ext comp.
Proof.
  intros Hx Hn Hu. unfold NarInfo.new, NarInfo.simple in Hn. rewrite nix32_not_hex, Hu in Hn by done.
  apply bind_Some in Hn as (n0 & [= <-] & Hn). apply bind_Some in Hn as (n1 & Hn1 & [= <-]).
  assert (ni_url n1 = "nar/" +:+ u +:+ "." +:+ Compression.ext comp) as <-; [|by case_match].
  unfold NarInfo.clear_sigs_and_sign in Hn1. case_decide; [by injection Hn1 as <-|].
  apply bind_Some in Hn1 as ([fp|] & _ & [= <-]); done.
Qed.

(** The response the builder gets for such a path, after its own request. *)
Lemma request_spec w c path info pieces n key build_id machine_id : signs →
  uploadable w c path info pieces n key build_id machine_id →
  ∃ r c' req, request_presigned_url w build_id machine_id
      [mkPresignedNarRequest (StorePath.base_name path) (pi_nar_hash info) []] c = (Ok [r], c') ∧
    goes_on c (bk_objects (cl_bucket c)) c' ∧ store_path_new (ns_store_path r) = path ∧
    (∃ u, ns_nar_upload r = Some u ∧
      req = mkPresignedUploadResponse (ns_nar_url r) (from_wire u) (from_wire <$> ns_ls_upload r)
              (from_wire <$> ns_debug_info_upload r)) ∧
    pr_nar_url req = ni_url n ∧ pr_debug_info_upload req = [] ∧
    builder_bytes (pr_nar_upload req) pieces = nar_bytes (cl_cfg c) (cc_compression (cl_cfg c)) pieces ∧
    pu_compression (pr_nar_upload req) = cc_compression (cl_cfg c) ∧
    url_object (pu_url (pr_nar_upload req)) = Some (object_path (ni_url n)) ∧
    match pr_ls_upload req with
    | Some ls => cc_write_nar_listing (cl_cfg c) = true ∧
        ∃ l, NarInfo.get_ls_path n = Some l ∧ url_object (pu_url ls) = Some (object_path l)
    | None => cc_write_nar_listing (cl_cfg c) = false
    end.
Proof.
  intros Hs H. pose proof (up_copyable _ _ _ _ _ _ _ _ _ H) as Hc.
  destruct (up_job _ _ _ _ _ _ _ _ _ H) as (b & m & drv & Hids & _).
  unfold request_presigned_url. rewrite bind_run, Hids. cbn [lift_result]. rewrite bind_run, first_store_spec by apply H.
  cbn [presigned_responses]. rewrite bind_run. unfold presigned_response. rewrite bind_run. cbn [nq_store_path nq_nar_hash nq_debug_info_build_ids].
  pose proof (up_sendable _ _ _ _ _ _ _ _ _ H) as Hse. unfold sendable in Hse.
  apply andb_true_iff in Hse as [[Hp _]%andb_true_iff _]. destruct (base_ok_spec path Hp) as (_&_&_&Hpath). rewrite Hpath.
  pose proof (cp_key _ _ _ _ _ _ Hc) as Hk. unfold narinfo_key in Hk.
  destruct (StorePath.hash_part path) as [h|] eqn:Hh; [|done].
  assert (∃ u, NarInfo.nar_hash_url path (pi_nar_hash info) = Some u) as [u Hu].
  { unfold NarInfo.nar_hash_url. case_match; [by eexists|]. rewrite Hh. by eexists. }
  destruct (generate_spec path (pi_nar_hash info) u h c Hs Hu Hh) as (p & c' & Hg & Hgo & G1 & G2 & G3 & G4 & G5 & G6).
  rewrite (with_status_Ok _ _ _ _ _ Hg). cbn [mret M_ret]. rewrite bind_run. cbn [mret M_ret].
  pose proof (new_fields _ _ _ _ _ (cp_narinfo _ _ _ _ _ _ Hc)) as (Hnp & _ & _).
  pose proof (url_of_new _ _ _ _ _ u (up_nix32 _ _ _ _ _ _ _ _ _ H) (cp_narinfo _ _ _ _ _ _ Hc) Hu) as Hurl.
  assert (from_wire (to_wire (pr_nar_upload p)) = pr_nar_upload p) as Hw by (apply from_to_wire; rewrite G4; apply H).
  eexists _, c', _. split; [reflexivity|]. split; [done|]. split; [cbn; exact Hpath|]. split; [by eexists|].
  cbn [ns_nar_url ns_nar_upload ns_ls_upload ns_debug_info_upload pr_nar_url pr_nar_upload pr_ls_upload pr_debug_info_upload].
  rewrite Hw, G1, G2, G5, Hurl. split_and!; try done.
  - unfold builder_bytes, nar_bytes. rewrite G3, G4, (up_parallel _ _ _ _ _ _ _ _ _ H). done.
  - destruct (pr_ls_upload p) as [ls|]; cbn; [|done]. destruct G6 as (G6 & G7 & G8). split; [done|].
    exists (h +:+ ".ls"). unfold NarInfo.get_ls_path. rewrite Hnp, Hh. done.
Qed.

Lemma uploadable_same w c c' path info pieces n key build_id machine_id : same_setup c c' →
  uploadable w c path info pieces n key build_id machine_id →
  uploadable w c' path info pieces n key build_id machine_id.
Proof.
  intros Hs []. pose proof Hs as (Hcfg & Hkeys & _).
  split; rewrite ?Hcfg, ?Hkeys; try done. by eapply copyable_same.
Qed.

Lemma simple_exists path info comp keys n : NarInfo.new path info comp keys = Some n →
  ∃ n0, NarInfo.simple path info CNoCompression = Some n0 ∧ ni_store_path n0 = path.
Proof.
  unfold NarInfo.new, NarInfo.simple. intros (n1 & (u & Hu & _)%bind_Some & _)%bind_Some.
  rewrite Hu. by eexists.
Qed.

(** The message of the builder leads to the description. *)
Lemma notify_spec w c path info pieces n key build_id machine_id n0 req bytes :
  answers → encoders_keep → uploadable w c path info pieces n key build_id machine_id →
  bytes = nar_bytes (cl_cfg c) (cc_compression (cl_cfg c)) pieces →
  NarInfo.simple path info CNoCompression = Some n0 → pr_nar_url req = ni_url n →
  is_Some (lookup_object (ni_url n) (cl_bucket c)) →
  (cc_write_nar_listing (cl_cfg c) = true →
   ∃ ls, NarInfo.get_ls_path n = Some ls ∧ is_Some (lookup_object ls (cl_bucket c))) →
  let n' := with_file bytes n in
  ∃ c', notify_presigned_upload_complete w (completion_message build_id machine_id path (updated n0 req bytes)
      (ur_file_hash (file_result bytes)) (ur_file_size (file_result bytes))) c = (Ok tt, c') ∧
    goes_on c (<[object_path key := mkObject (text_bytes (cl_cfg c) key (NarInfo.render n')) "text/x-nix-narinfo" ""]>
      (bk_objects (cl_bucket c))) c'.
Proof.
  intros Ha He H Hb H0 Hurl Hu Hls n'. destruct (up_job _ _ _ _ _ _ _ _ _ H) as (b & m & drv & Hids & Hjob).
  pose proof (up_copyable _ _ _ _ _ _ _ _ _ H) as Hc.
  pose proof (new_fields _ _ _ _ _ (cp_narinfo _ _ _ _ _ _ Hc)) as (Hp & _ & _).
  unfold notify_presigned_upload_complete. rewrite bind_run. cbn [uc_build_id uc_machine_id completion_message].
  rewrite Hids. cbn [lift_result]. rewrite bind_run, Hjob. cbn [lift_result]. rewrite bind_run, first_store_spec by apply H.
  rewrite bind_run. cbn [gets]. rewrite bind_run. set (m0 := narinfo_of_message _ _).
  assert (NarInfo.clear_sigs_and_sign (cl_signing_keys c) m0 = Some n') as Hsign.
  { apply (message_signed path info _ _ n n0 req bytes);
      [apply H|apply H|apply H|rewrite Hb; apply H|apply Hc|done..]. }
  assert (store_path_new (StorePath.base_name path) = path) as Hpath.
  { pose proof (up_sendable _ _ _ _ _ _ _ _ _ H) as Hse. unfold sendable in Hse.
    apply andb_true_iff in Hse as [[Hse _]%andb_true_iff _]. by destruct (base_ok_spec path Hse) as (_&_&_&?). }
  destruct (narinfo_after_upload_spec c m0 n' key (cl_signing_keys c)) as (c' & Hup & Hgo); try done.
  - apply Hc.
  - unfold n'. rewrite with_file_path, Hp. apply Hc.
  - subst m0. cbn. by rewrite Hurl.
  - intros Hl. destruct (Hls Hl) as (ls & Hls1 & Hls2). exists ls. split; [|done].
    unfold NarInfo.get_ls_path in *. rewrite Hp in Hls1. subst m0. cbn [narinfo_of_message ni_store_path uc_store_path completion_message].
    by rewrite Hpath.
  - exists c'. by rewrite (with_status_Ok _ _ _ _ _ Hup).
Qed.

(** One path, from the response to the description. *)
Lemma upload_single_spec w s path info pieces n key build_id machine_id r req u :
  answers → http_reliable → encoders_keep →
  uploadable w (ss_client s) path info pieces n key build_id machine_id →
  ns_nar_upload r = Some u →
  req = mkPresignedUploadResponse (ns_nar_url r) (from_wire u) (from_wire <$> ns_ls_upload r)
          (from_wire <$> ns_debug_info_upload r) →
  pr_nar_url req = ni_url n → pr_debug_info_upload req = [] →
  builder_bytes (pr_nar_upload req) pieces =
    nar_bytes (cl_cfg (ss_client s)) (cc_compression (cl_cfg (ss_client s))) pieces →
  url_object (pu_url (pr_nar_upload req)) = Some (object_path (ni_url n)) →
  match pr_ls_upload req with
  | Some ls => cc_write_nar_listing (cl_cfg (ss_client s)) = true ∧
      ∃ l, NarInfo.get_ls_path n = Some l ∧ url_object (pu_url ls) = Some (object_path l)
  | None => cc_write_nar_listing (cl_cfg (ss_client s)) = false
  end →
  let bytes := nar_bytes (cl_cfg (ss_client s)) (cc_compression (cl_cfg (ss_client s))) pieces in
  let n' := with_file bytes n in
  ∃ s' objs, upload_single_nar_presigned w path build_id machine_id r s = (Ok tt, s') ∧
    bk_objects (cl_bucket (ss_client s')) =
      <[object_path key := mkObject (text_bytes (cl_cfg (ss_client s)) key (NarInfo.render n')) "text/x-nix-narinfo" ""]>
      (<[object_path (ni_url n) := mkObject bytes "application/x-nix-nar" ""]> objs).
Proof.
  intros Ha Hh He H Hu Hreq R1 R2 R3 R5 R6 bytes n'. pose proof (up_copyable _ _ _ _ _ _ _ _ _ H) as Hc.
  destruct (simple_exists _ _ _ _ _ (cp_narinfo _ _ _ _ _ _ Hc)) as (n0 & H0 & Hp0).
  pose proof (new_fields _ _ _ _ _ (cp_narinfo _ _ _ _ _ _ Hc)) as (Hp & _ & _).
  unfold upload_single_nar_presigned. rewrite !bind_tick_session, bind_run.
  rewrite (simple_narinfo_spec _ _ path info n0) by (done || apply Hc). cbn [map_err lift_result].
  rewrite bind_run, Hu. cbn [lift_opt ok_or lift_result]. rewrite <-Hreq.
  set (s1 := ticked_session (ticked_session s)).
  destruct (process_presigned_spec n0 req pieces (object_path (ni_url n))
    (mkPresignedUploadClient (ss_metrics s1) (cl_bucket (ss_client s1)))) as (objs & pc & Hpr & Ho & Hdom & Hls); try done.
  { intros q. rewrite Hp0. pose proof (cp_pieces _ _ _ _ _ _ Hc q). pose proof (up_archive _ _ _ _ _ _ _ _ _ H q).
    destruct (nar_from_path q path). by simplify_eq/=. }
  { rewrite Hp0. unfold listing_ok. destruct (pr_ls_upload req) as [ls|]; [|done]. destruct R6 as (Hl & l & _ & ->).
    split; [by eexists|]. by apply Hc. }
  rewrite (bind_upload _ _ _ _ _ Hpr). rewrite R3 in *. fold bytes in Hpr, Ho |- *.
  change (ni_file_hash (updated n0 req bytes)) with (Some (ur_file_hash (file_result bytes))).
  change (ni_file_size (updated n0 req bytes)) with (Some (ur_file_size (file_result bytes))). set (s2 := mkSession _ _).
  destruct (notify_spec w (ss_client s2) path info pieces n key build_id machine_id n0 req bytes Ha He)
    as (c' & Hn & Hgo); try done.
  - by apply (uploadable_same w (ss_client s)).
  - unfold lookup_object. cbn. rewrite Ho, lookup_insert_eq. by eexists.
  - intros Hl. destruct (pr_ls_upload req) as [ls|] eqn:El.
    + destruct R6 as (_ & l & Hl1 & Hl2). exists l. split; [done|]. unfold lookup_object. cbn. rewrite Ho.
      apply elem_of_dom. rewrite dom_insert_L. pose proof (Hls ls _ eq_refl Hl2). set_solver.
    + cbn in Hl. congruence.
  - unfold call. rewrite Hn. eexists _, objs. split; [reflexivity|]. cbn. rewrite (proj2 Hgo). cbn. by rewrite Ho.
Qed.


(** A builder that cannot find out what its outputs need uploads nothing
    and reports success: the bucket has the same objects. *)
Theorem failed_requisites_upload_nothing outputs e w s upload_debug_info build_id machine_id ids :
  (∀ q, query_requisites q outputs true = Err e) → parse_ids build_id machine_id = Ok ids → w_remote_stores w ≠ [] →
  ∃ s', upload_nars_presigned w outputs upload_debug_info build_id machine_id s = (Ok tt, s') ∧
    bk_objects (cl_bucket (ss_client s')) = bk_objects (cl_bucket (ss_client s)).
Proof.
  intros Hq Hids Hw. unfold upload_nars_presigned. rewrite bind_tick_session, Hq, bind_tick_session, bind_run.
  cbn [nars_to_request mret M_ret length Nat.eqb negb].
  set (s1 := ticked_session (ticked_session s)).
  assert (request_presigned_url w build_id machine_id [] (ss_client s1) = (Ok [], ss_client s1)) as Hr.
  { unfold request_presigned_url. rewrite bind_run, Hids. cbn [lift_result]. by rewrite bind_run, first_store_spec. }
  rewrite (bind_call _ _ _ _ _ Hr). by eexists.
Qed.

(** A link of debug information that is in the bucket already gets no URL,
    and the builder, which makes a link for every file of the path, fails on
    it. *)
Theorem existing_debug_link_is_an_error ids id c ups c' nar_url debug_path pc :
  answers → is_Some (lookup_object (debug_key id) (cl_bucket c)) → presign_debug_info ids c = (Ok ups, c') →
  PresignedUploadClient.create_debug_info_link ups nar_url id debug_path pc =
    (Err (UploadError (debug_key id) ("Presigned URL not found for build ID: " +:+ id)), pc).
Proof.
  intros Ha Hl Hp.
  assert (Forall (λ u, pu_path u ≠ debug_key id) ups) as Hups.
  { revert c ups c' Hl Hp. induction ids as [|i ids IH]; intros c ups c' Hl; cbn [presign_debug_info].
    { by intros [= <- _]. }
    rewrite bind_run. unfold attempt. destruct (head_object_answers (debug_key i) c Ha) as (c1 & -> & Ho).
    assert (is_Some (lookup_object (debug_key id) (cl_bucket c1))) as Hl1 by (unfold lookup_object in *; by rewrite Ho).
    cbn [unwrap_or_default]. case_bool_decide as Hb; [by apply IH|].
    intros (url & c2 & Hs & (u & c3 & Hu & (rest & c4 & Hrest & [= <- _])%bind_Ok)%bind_Ok)%bind_Ok.
    injection Hs as <- <-. injection Hu as _ <-. constructor; [|by refine (IH _ _ _ _ Hrest)].
    cbn. intros E. apply Hb. by rewrite E. }
  unfold PresignedUploadClient.create_debug_info_link. rewrite bind_run.
  assert (List.find (λ p, bool_decide (pu_path p = debug_key id)) ups = None) as ->; [|done].
  clear Hp. induction Hups as [|u ups Hu _ IH]; [done|]. cbn. by rewrite bool_decide_false.
Qed.

(** A builder that cannot read an archive to its end reports an error,
    whatever was uploaded. *)
Theorem broken_archive_is_reported path upload c e :
  (∀ q, (nar_from_path q path).2 = Some e) →
  ∃ c', PresignedUploadClient.upload_nar path upload c =
    (Err (UploadError (pu_path upload) ("NAR reading failed: " +:+ e)), c').
Proof.
  intros Hn. unfold PresignedUploadClient.upload_nar. rewrite bind_run.
  unfold PresignedUploadClient.tick, zoom, tick_bucket.
  destruct (nar_from_path (bk_clock (pc_bucket c)) path) as [pieces err] eqn:E.
  pose proof (Hn (bk_clock (pc_bucket c))) as Hq. rewrite E in Hq. cbn in Hq. subst err. rewrite bind_run.
  unfold attempt. destruct (PresignedUploadClient.upload_any _ _ _ _) as [r c']. by exists c'.
Qed.
End Flow.
