(* ===== verification/Builder.v ===== *)
(** * Builder: how a builder works off a build ([builder/src/state.rs],
    [metrics.rs], [types.rs])

    The inputs are imported, the build runs, the outputs are uploaded and the
    result is reported. The answers of the queue runner, of the local store
    and of the build process are the class [BuilderEnv], by their number; an
    upload with presigned URLs is that of [PresignedFlow], with both sides.
    [bd_roots] holds the garbage-collector roots that were asked for. *)

From Stdlib Require Import Ascii String.
From S2P Require Import Prelude Floats RustStr Nix Db Support Jobset Graph Result Machine Queue.
From S2P Require Import Config Uploader FodChecker State Dispatch Grpc NarInfo CacheCfg Stream BinaryCache Presigned PresignedFlow.
Local Open Scope string_scope.
Local Open Scope list_scope.
Local Open Scope Z_scope.

Inductive JobFailure :=
| JBuild (e : string) | JPreparing (e : string) | JImport (e : string) | JUpload (e : string)
| JPostProcessing (e : string) | JPanicked.

(** A panic ends the task: there is nothing to report. *)
Definition build_result_state_from (item : JobFailure) : option GrpcResultState :=
  match item with
  | JBuild _ => Some GBuildFailure
  | JPreparing _ => Some GPreparingFailure
  | JImport _ => Some GImportFailure
  | JUpload _ => Some GUploadFailure
  | JPostProcessing _ => Some GPostProcessingFailure
  | JPanicked => None
  end.

(** ** State *)

Record Metrics := mkMetrics {
  mt_substituting_path_count : Z; mt_uploading_path_count : Z; mt_downloading_path_count : Z }.
#[export] Instance eta_Metrics : Eta Metrics := λ r,
  mkMetrics (mt_substituting_path_count r) (mt_uploading_path_count r) (mt_downloading_path_count r).
#[export] Instance set_mt_substituting : Setter mt_substituting_path_count := ltac:(mk_setter mt_substituting_path_count).
#[export] Instance set_mt_uploading : Setter mt_uploading_path_count := ltac:(mk_setter mt_uploading_path_count).
#[export] Instance set_mt_downloading : Setter mt_downloading_path_count := ltac:(mk_setter mt_downloading_path_count).

Module Metrics.
Definition add_substituting_path (v : Z) (m : Metrics) : Metrics :=
  m <| mt_substituting_path_count ::= λ n, u64_wrap (n + v) |>.
Definition sub_substituting_path (v : Z) (m : Metrics) : Metrics :=
  m <| mt_substituting_path_count ::= λ n, u64_wrap (n - v) |>.
Definition add_uploading_path (v : Z) (m : Metrics) : Metrics :=
  m <| mt_uploading_path_count ::= λ n, u64_wrap (n + v) |>.
Definition sub_uploading_path (v : Z) (m : Metrics) : Metrics :=
  m <| mt_uploading_path_count ::= λ n, u64_wrap (n - v) |>.
Definition add_downloading_path (v : Z) (m : Metrics) : Metrics :=
  m <| mt_downloading_path_count ::= λ n, u64_wrap (n + v) |>.
Definition sub_downloading_path (v : Z) (m : Metrics) : Metrics :=
  m <| mt_downloading_path_count ::= λ n, u64_wrap (n - v) |>.
End Metrics.

(** What was sent to the queue runner. *)
Inductive Sent :=
| SentUpdate (status : StepStatus)
| SentResult (info : BuildResultInfo).

Record Builder := mkBuilder {
  bd_metrics : Metrics;
  bd_roots : gset StorePath;
  bd_timings : BuildTimings;
  bd_sent : list Sent;
  (** The client for uploads, and the bucket. *)
  bd_session : Session;
  bd_clock : nat
}.
#[export] Instance eta_Builder : Eta Builder := λ r,
  mkBuilder (bd_metrics r) (bd_roots r) (bd_timings r) (bd_sent r) (bd_session r) (bd_clock r).
#[export] Instance set_bd_metrics : Setter bd_metrics := ltac:(mk_setter bd_metrics).
#[export] Instance set_bd_roots : Setter bd_roots := ltac:(mk_setter bd_roots).
#[export] Instance set_bd_timings : Setter bd_timings := ltac:(mk_setter bd_timings).
#[export] Instance set_bd_sent : Setter bd_sent := ltac:(mk_setter bd_sent).
#[export] Instance set_bd_session : Setter bd_session := ltac:(mk_setter bd_session).
#[export] Instance set_bd_clock : Setter bd_clock := ltac:(mk_setter bd_clock).

Class BuilderEnv : Type := {
  rpc_error : nat → option string;
  rpc_requisites : nat → string → bool → list string;
  rpc_has_path : nat → string → bool;
  (** [ensure_path], [import_paths] and [export_paths] of the local store *)
  substitute_error : nat → StorePath → option string;
  import_error : nat → list StorePath → option string;
  export_error : nat → list StorePath → option string;
  gcroot_error : nat → option string;
  (** Starting the build, and its exit status. *)
  realise_error : nat → StorePath → BuildOptions.t → option string;
  wait_build : nat → result string bool;
  (** The time since a point, in milliseconds. *)
  elapsed : nat → Z
}.

Record BuildMessage := mkBuildMessage {
  bm_build_id : string; bm_drv : string; bm_resolved_drv : option string;
  bm_max_log_size : Z; bm_max_silent_time : Z; bm_build_timeout : Z; (** [upload_debug_info], when presigned URLs are used *)
  bm_presigned_url_opts : option bool }.

Abbreviation BM := (M Builder JobFailure).

(** [anyhow::Error], or a panic of the task. *)
Inductive Failure := Failed (e : string) | Panic.
Abbreviation AM := (M Builder Failure).

Section Env.
Context `{HI : HashIter} `{FE : FloatEnv} `{TL : TimeLib} `{NE : NixEnv} `{DE : DbEnv} `{SE : StateEnv}
  `{UL : UuidLib} `{SL : SignLib} `{SHA : Sha256Lib} `{CE : CacheEnv} `{HE : HttpEnv} `{FS : FsEnv} `{BE : BuilderEnv}.

(** The queue runner, while the outputs are uploaded. *)
Variable w : World.

Definition next {E} : M Builder E nat := λ b, (Ok (bd_clock b), b <| bd_clock ::= S |>).

(** A request to the queue runner. *)
Definition rpc : AM nat := n ← next; match rpc_error n with Some e => throw (Failed e) | None => mret n end.

Definition on_metrics {E} (f : Metrics → Metrics) : M Builder E unit := modify (λ b, b <| bd_metrics ::= f |>).

Definition add_root {E} (p : StorePath) : M Builder E unit := modify (λ b, b <| bd_roots ::= λ s, s ∪ {[p]} |>).

Fixpoint add_roots {E} (ps : list StorePath) : M Builder E unit :=
  match ps with [] => mret tt | p :: ps' => add_root p;; add_roots ps' end.

(** ** Importing *)

Definition filter_missing (path : StorePath) : AM (option StorePath) :=
  q ← next;
  if is_valid_path q path then add_root path;; mret None else mret (Some path).

(** [map(filter_missing).buffered(n).filter_map(..).collect()] *)
Fixpoint filter_missing_paths (paths : list StorePath) : AM (list StorePath) :=
  match paths with
  | [] => mret []
  | p :: ps =>
      o ← filter_missing p;
      rest ← filter_missing_paths ps;
      mret (match o with Some p => p :: rest | None => rest end)
  end.

Fixpoint substitute_paths (paths : list StorePath) : AM unit :=
  match paths with
  | [] => mret tt
  | p :: ps => q ← next; match substitute_error q p with Some e => throw (Failed e) | None => substitute_paths ps end
  end.

Definition count (ps : list StorePath) : Z := Z.of_nat (length ps).

(** The stream of the archives is imported. *)
Definition stream_and_import (paths : list StorePath) : AM unit :=
  rpc;;
  on_metrics (Metrics.add_downloading_path (count paths));;
  q ← next;
  on_metrics (Metrics.sub_downloading_path (count paths));;
  match import_error q paths with Some e => throw (Failed e) | None => mret tt end;;
  add_roots paths.

Definition import_paths (paths : list StorePath) (filter use_substitutes : bool) : AM unit :=
  paths ← (if filter then filter_missing_paths paths else mret paths);
  if use_substitutes then
    on_metrics (Metrics.add_substituting_path (count paths));;
    attempt (substitute_paths paths);;
    on_metrics (Metrics.sub_substituting_path (count paths));;
    paths ← filter_missing_paths paths;
    if decide (paths = []) then mret tt else stream_and_import paths
  else stream_and_import paths.

(** [chunks(size)]; a size of zero panics. [fuel] is the length of the list. *)
Fixpoint chunks_loop {A} (fuel : nat) (size : nat) (l : list A) : list (list A) :=
  match fuel, l with
  | S fuel, _ :: _ => take size l :: chunks_loop fuel size (drop size l)
  | _, _ => []
  end.
Definition chunks {A} (size : nat) (l : list A) : option (list (list A)) :=
  if (size =? 0)%nat then None else Some (chunks_loop (length l) size l).

Definition import_chunks (max_concurrent_downloads : nat) (paths : list StorePath) (filter use_substitutes : bool) : AM unit :=
  cs ← lift_opt Panic (chunks max_concurrent_downloads paths);
  for_each cs (λ c, import_paths c filter use_substitutes).

Definition fetch_drv_requisites (path : string) (include_outputs : bool) : AM (list string) :=
  n ← rpc; mret (rpc_requisites n path include_outputs).

Definition import_requisites (drv : StorePath) (requisites : list StorePath) (max_concurrent_downloads : nat)
    (use_substitutes : bool) : AM unit :=
  requisites ← filter_missing_paths requisites;
  let input_drvs := List.filter StorePath.is_drv requisites in
  let input_srcs := List.filter (λ p, negb (StorePath.is_drv p)) requisites in
  import_chunks max_concurrent_downloads input_srcs true use_substitutes;;
  import_chunks max_concurrent_downloads input_drvs true false;;
  full ← fetch_drv_requisites (StorePath.base_name drv) true;
  full ← filter_missing_paths (store_path_new <$> full);
  import_chunks max_concurrent_downloads full false use_substitutes.

(** ** Uploading *)

(** The paths the queue runner does not have; a failed request counts as no. *)
Fixpoint paths_to_send (nars : list StorePath) : AM (list StorePath) :=
  match nars with
  | [] => mret []
  | p :: ps =>
      r ← attempt rpc;
      rest ← paths_to_send ps;
      mret (match r with
            | Ok n => if rpc_has_path n (StorePath.base_name p) then rest else p :: rest
            | Err _ => p :: rest
            end)
  end.

(** The request and the export that feeds it run together; the upload is done
    when both are. *)
Definition upload_nars_regular (nars : list StorePath) : AM unit :=
  nars ← paths_to_send nars;
  if decide (nars = []) then mret tt
  else
    on_metrics (Metrics.add_uploading_path (count nars));;
    q ← next;
    r ← attempt rpc;
    match export_error q nars with Some e => throw (Failed e) | None => mret tt end;;
    lift_result r;;
    on_metrics (Metrics.sub_uploading_path (count nars)).

Definition on_session {A} (m : M Session UploadFailure A) : AM A := λ b,
  let '(r, s) := m (bd_session b) in (map_err (λ _, Failed "upload") r, b <| bd_session := s |>).

Definition upload_nars (nars : list StorePath) (build_id machine_id : string) (presigned_url_opts : option bool)
  : AM unit :=
  match presigned_url_opts with
  | Some upload_debug_info =>
      on_session (upload_nars_presigned w nars upload_debug_info build_id machine_id)
  | None => upload_nars_regular nars
  end.

(** ** Reporting *)

Definition grpc_output (q : nat) (pathinfos : gmap StorePath PathInfo) (o : Output) : option GrpcOutput :=
  Some (match o_path o with
        | Some p =>
            match pathinfos !! p with
            | Some info => Withpath (o_name o) (StorePath.base_name p)
                             (ffi_compute_closure_size q (print_store_path p)) (pi_nar_size info)
                             (pi_nar_hash info)
            | None => Nameonly (o_name o)
            end
        | None => Nameonly (o_name o)
        end).

Definition millis (ms : Z) : result string Z := ok_or (try_u 64 ms) "out of range integral type conversion attempted".

Definition new_success_build_result_info (q : nat) (machine_id : string) (drv_info : Derivation)
    (timings : BuildTimings) (build_id : string) : result string BuildResultInfo :=
  let pathinfos := query_path_infos q (omap o_path (drv_outputs drv_info)) in
  nix_support ← map_err (λ _, "nix support") (parse_nix_support_from_outputs (drv_outputs drv_info));
  let build_outputs := grpc_output q pathinfos <$> drv_outputs drv_info in
  import ← millis (bt_import_elapsed timings);
  build ← millis (bt_build_elapsed timings);
  upload ← millis (bt_upload_elapsed timings);
  Ok (mkBuildResultInfo build_id machine_id import build upload GSuccess
        (Some (mkGrpcNixSupport (ns_failed nix_support) (ns_hydra_release_name nix_support)
                 (ns_metrics nix_support) (ns_products nix_support)))
        build_outputs).

(** [retry_strategy()]: the default of three retries. *)
Definition RETRIES : nat := 3.

Fixpoint complete_build_retry (times : nat) (info : BuildResultInfo) : AM unit :=
  r ← attempt rpc;
  match r, times with
  | Ok _, _ => modify (λ b, b <| bd_sent ::= λ l, l ++ [SentResult info] |>)
  | Err _, S times => complete_build_retry times info
  | Err e, O => throw e
  end.

Definition build_step_update {E} (status : StepStatus) : M Builder E unit := λ b,
  match rpc b with
  | (Ok _, b) => (Ok tt, b <| bd_sent ::= λ l, l ++ [SentUpdate status] |>)
  | (Err _, b) => (Ok tt, b)
  end.

(** [map_err(JobFailure::..)], but a panic is not an error. *)
Definition failing {A} (f : string → JobFailure) (m : AM A) : BM A := λ b,
  let '(r, b) := m b in
  (map_err (λ e, match e with Failed e => f e | Panic => JPanicked end) r, b).

Definition set_timing (f : Z → BuildTimings → BuildTimings) : BM unit :=
  n ← next; modify (λ b, b <| bd_timings ::= f (elapsed n) |>).

(** The derivation that is built: the resolved one, if there is one. *)
Definition to_build (m : BuildMessage) : StorePath :=
  default (store_path_new (bm_drv m)) (store_path_new <$> bm_resolved_drv m).

(** Up to the derivation's outputs being known. *)
Definition fetch_inputs (max_concurrent_downloads : nat) (use_substitutes : bool) (m : BuildMessage) : BM Derivation :=
  failing JPreparing (q ← next; match gcroot_error q with Some e => throw (Failed e) | None => mret tt end);;
  build_step_update SendingInputs;;
  requisites ← failing JImport (fetch_drv_requisites (StorePath.base_name (to_build m)) false);
  failing JImport (import_requisites (to_build m) (store_path_new <$> requisites) max_concurrent_downloads use_substitutes);;
  set_timing (λ ms t, mkBuildTimings ms (bt_build_elapsed t) (bt_upload_elapsed t));;
  failing JImport (q ← next; o ← lift_result (map_err Failed (query_drv q (store_path_new (bm_drv m))));
    lift_opt (Failed "drv not found") o).

(** The build, its log and its exit status. *)
Definition build_outputs (m : BuildMessage) (output_paths : list StorePath) : BM unit :=
  build_step_update Building;;
  failing JBuild (q ← next;
    match realise_error q (to_build m)
            (BuildOptions.complete (bm_max_log_size m) (bm_max_silent_time m) (bm_build_timeout m)) with
    | Some e => throw (Failed e) | None => mret tt end);;
  failing JBuild (rpc;; mret tt);;
  failing JBuild (q ← next; ok ← lift_result (map_err Failed (wait_build q));
    if ok : bool then mret tt else throw (Failed "exit status"));;
  add_roots output_paths;;
  set_timing (λ ms t, mkBuildTimings (bt_import_elapsed t) ms (bt_upload_elapsed t)).

Definition send_outputs (machine_id : string) (m : BuildMessage) (output_paths : list StorePath) : BM unit :=
  build_step_update ReceivingOutputs;;
  failing JUpload (upload_nars output_paths (bm_build_id m) machine_id (bm_presigned_url_opts m));;
  set_timing (λ ms t, mkBuildTimings (bt_import_elapsed t) (bt_build_elapsed t) ms).

Definition success_result (machine_id : string) (m : BuildMessage) (drv_info : Derivation) : BM BuildResultInfo :=
  build_step_update PostProcessing;;
  timings ← gets bd_timings;
  failing JPostProcessing (q ← next;
    lift_result (map_err Failed (new_success_build_result_info q machine_id drv_info timings (bm_build_id m)))).

Definition process_build (machine_id : string) (max_concurrent_downloads : nat) (use_substitutes : bool)
    (m : BuildMessage) : BM unit :=
  drv_info ← fetch_inputs max_concurrent_downloads use_substitutes m;
  let output_paths := omap o_path (drv_outputs drv_info) in
  build_outputs m output_paths;;
  send_outputs machine_id m output_paths;;
  build_results ← success_result machine_id m drv_info;
  failing JPostProcessing (complete_build_retry RETRIES build_results).

(** [u64::try_from(..).unwrap_or_default()] *)
Definition millis_or_default (ms : Z) : Z := default 0 (try_u 64 ms).

Definition failed_build (machine_id build_id : string) (t : BuildTimings) (s : GrpcResultState) : BuildResultInfo :=
  mkBuildResultInfo build_id machine_id (millis_or_default (bt_import_elapsed t))
    (millis_or_default (bt_build_elapsed t)) (millis_or_default (bt_upload_elapsed t)) s None [].

(** The task of a build, when it is not aborted: [true] when the build leaves
    the table of active builds. *)
Definition run_task (machine_id : string) (max_concurrent_downloads : nat) (use_substitutes was_cancelled : bool)
    (m : BuildMessage) (b : Builder) : bool * Builder :=
  match process_build machine_id max_concurrent_downloads use_substitutes m (b <| bd_timings := mkBuildTimings 0 0 0 |>) with
  | (Ok _, b) => (true, b)
  | (Err e, b) =>
      match build_result_state_from e with
      | None => (false, b)
      | Some s =>
          if was_cancelled then (false, b)
          else (true, (complete_build_retry RETRIES (failed_build machine_id (bm_build_id m) (bd_timings b) s) b).2)
      end
  end.

End Env.
