(* ===== verification/BuilderInv.v ===== *)
(** * BuilderInv: roots, counters and reports of a builder *)

From Stdlib Require Import Ascii String.
From S2P Require Import Prelude Floats RustStr Nix Db Support Jobset Graph Result Machine Queue.
From S2P Require Import Config Uploader FodChecker State Dispatch Grpc NarInfo CacheCfg Stream BinaryCache Presigned PresignedFlow Builder.
Local Open Scope string_scope.
Local Open Scope list_scope.
Local Open Scope Z_scope.

(** ** Chunks *)

Lemma chunks_concat {A} (size : nat) (l : list A) cs : chunks size l = Some cs → mjoin cs = l.
Proof.
  unfold chunks. destruct (Nat.eqb_spec size 0) as [|Hs]; [done|]. intros [= <-].
  assert (∀ fuel, (length l ≤ fuel)%nat → mjoin (chunks_loop fuel size l) = l) as H; [|by apply H].
  intros fuel. revert l. induction fuel as [|fuel IH]; intros [|x l] Hf; cbn [length] in Hf; try lia; [done..|].
  cbn [chunks_loop]. cbn [mjoin]. change (take size (x :: l) ++ mjoin (chunks_loop fuel size (drop size (x :: l))) = x :: l).
  rewrite IH; [apply take_drop|]. rewrite length_drop. cbn. lia.
Qed.

Section Env.
Context `{HI : HashIter} `{FE : FloatEnv} `{TL : TimeLib} `{NE : NixEnv} `{DE : DbEnv} `{SE : StateEnv}
  `{UL : UuidLib} `{SL : SignLib} `{SHA : Sha256Lib} `{CE : CacheEnv} `{HE : HttpEnv} `{FS : FsEnv} `{BE : BuilderEnv}.
Variable w : World.

Lemma rpc_run b :
  rpc b = (match rpc_error (bd_clock b) with Some e => Err (Failed e) | None => Ok (bd_clock b) end, b <| bd_clock ::= S |>).
Proof. unfold rpc, next. rewrite bind_run. by destruct (rpc_error (bd_clock b)). Qed.

(** ** Roots *)

(** Roots are only added while a build is prepared. *)
Definition rooted (X : gset StorePath) (b : Builder) : Prop := X ⊆ bd_roots b.

Lemma rooted_core {E A} X (m : M Builder E A) : (∀ b, bd_roots b ⊆ bd_roots (m b).2) → preserves (rooted X) m.
Proof. intros Hm b Hb. unfold rooted in *. by etrans. Qed.

Lemma next_rooted {E} X : preserves (rooted X) (next (E := E)).
Proof. by apply rooted_core. Qed.
Lemma rpc_rooted X : preserves (rooted X) rpc.
Proof. apply rooted_core. intros b. by rewrite rpc_run. Qed.
Lemma on_metrics_rooted {E} X f : preserves (rooted X) (on_metrics (E := E) f).
Proof. by apply rooted_core. Qed.
Lemma add_root_rooted {E} X p : preserves (rooted X) (add_root (E := E) p).
Proof. apply rooted_core. intros b. cbn. set_solver. Qed.
Lemma throw_rooted {E A} X (e : E) : preserves (rooted X) (throw e : M Builder E A).
Proof. by intros b. Qed.
Lemma add_roots_rooted {E} X ps : preserves (rooted X) (add_roots (E := E) ps).
Proof. induction ps as [|p ps IH]; cbn; [apply preserves_ret|]. apply preserves_bind; [apply add_root_rooted|done]. Qed.

Create HintDb rooted.
#[local] Hint Resolve next_rooted rpc_rooted on_metrics_rooted add_root_rooted throw_rooted add_roots_rooted
  preserves_ret preserves_gets preserves_lift preserves_attempt : rooted.
#[local] Hint Extern 1 (preserves _ (lift_opt _ _)) => apply preserves_lift : rooted.
Ltac rooted :=
  repeat first
    [ progress auto with rooted | apply preserves_bind; [|intros ?] | apply preserves_for_each; intros ? _
    | apply preserves_attempt | case_match | case_decide ].

Lemma filter_missing_rooted X ps : preserves (rooted X) (filter_missing_paths ps).
Proof. induction ps as [|p ps IH]; cbn [filter_missing_paths]; unfold filter_missing; rooted. Qed.
Lemma substitute_rooted X ps : preserves (rooted X) (substitute_paths ps).
Proof. induction ps as [|p ps IH]; cbn [substitute_paths]; rooted. Qed.
#[local] Hint Resolve filter_missing_rooted substitute_rooted : rooted.
Lemma stream_rooted X ps : preserves (rooted X) (stream_and_import ps).
Proof. unfold stream_and_import. rooted. Qed.
#[local] Hint Resolve stream_rooted : rooted.
Lemma import_paths_rooted X ps f s : preserves (rooted X) (import_paths ps f s).
Proof. unfold import_paths. rooted. Qed.
#[local] Hint Resolve import_paths_rooted : rooted.
Lemma import_chunks_rooted X n ps f s : preserves (rooted X) (import_chunks n ps f s).
Proof. unfold import_chunks. rooted. Qed.
#[local] Hint Resolve import_chunks_rooted : rooted.

(** What an operation roots stays rooted. *)
Lemma rooted_after {A} (m : M Builder Failure A) p b r b' : (∀ X, preserves (rooted X) m) → m b = (r, b') →
  p ∈ bd_roots b → p ∈ bd_roots b'.
Proof. intros Hm E Hp. specialize (Hm {[p]} b). rewrite E in Hm. unfold rooted in Hm. cbn in Hm. set_solver. Qed.

Lemma filter_missing_paths_spec ps b l b' : filter_missing_paths ps b = (Ok l, b') →
  ∀ p, p ∈ ps → p ∈ l ∨ p ∈ bd_roots b'.
Proof.
  revert b l b'. induction ps as [|p ps IH]; intros b l b'; [by intros _ q ?%not_elem_of_nil|].
  cbn [filter_missing_paths]. intros (o & b1 & Ho & (rest & b2 & Hr & [= <- <-])%bind_Ok)%bind_Ok q [->|Hq]%elem_of_cons.
  - unfold filter_missing in Ho. rewrite bind_run in Ho. cbn [next] in Ho. case_match.
    + rewrite bind_run in Ho. cbn in Ho. injection Ho as <- <-. right.
      eapply rooted_after; [intros X; apply filter_missing_rooted|exact Hr|]. cbn. set_solver.
    + injection Ho as <- <-. left. left.
  - destruct (IH _ _ _ Hr q Hq); [|by right]. left. destruct o; [by right|done].
Qed.

Lemma add_roots_spec {E} ps b r b' : add_roots (E := E) ps b = (r, b') → r = Ok tt ∧ ∀ p, p ∈ ps → p ∈ bd_roots b'.
Proof.
  revert b. induction ps as [|p ps IH]; intros b; cbn [add_roots]; [by intros [= <- <-]; split; [|intros q ?%not_elem_of_nil]|].
  rewrite bind_run. cbn [add_root modify]. intros H. destruct (IH _ H) as [-> Hps]. split; [done|].
  intros q [->|Hq]%elem_of_cons; [|by apply Hps].
  pose proof (add_roots_rooted (E := E) {[p]} ps (b <| bd_roots ::= λ s, s ∪ {[p]} |>)) as Hp. rewrite H in Hp.
  unfold rooted in Hp. cbn in Hp. set_solver.
Qed.

Lemma stream_spec ps b b' : stream_and_import ps b = (Ok tt, b') → ∀ p, p ∈ ps → p ∈ bd_roots b'.
Proof.
  unfold stream_and_import. intros (? & b1 & _ & (? & b2 & _ & (q & b3 & _ & (? & b4 & _ & (? & b5 & _ & H)%bind_Ok)%bind_Ok)%bind_Ok)%bind_Ok)%bind_Ok.
  by destruct (add_roots_spec _ _ _ _ H).
Qed.

Lemma import_paths_spec ps f s b b' : import_paths ps f s b = (Ok tt, b') → ∀ p, p ∈ ps → p ∈ bd_roots b'.
Proof.
  unfold import_paths. intros (l & b1 & H1 & H2)%bind_Ok p Hp.
  assert (p ∈ l ∨ p ∈ bd_roots b1) as Hl.
  { destruct f; [by eapply filter_missing_paths_spec|]. injection H1 as <- <-. by left. }
  destruct s.
  - apply bind_Ok in H2 as (? & b2 & H2 & (? & b3 & H3 & (? & b4 & H4 & (l' & b5 & H5 & H6)%bind_Ok)%bind_Ok)%bind_Ok).
    assert (p ∈ l' ∨ p ∈ bd_roots b5) as [Hl'|Hb5].
    { destruct Hl as [Hl|Hb]; [by eapply filter_missing_paths_spec|]. right.
      apply (rooted_after _ p _ _ _ (λ X, filter_missing_rooted X l) H5).
      apply (rooted_after _ p _ _ _ (λ X, on_metrics_rooted X _) H4).
      apply (rooted_after _ p _ _ _ (λ X, preserves_attempt _ _ (substitute_rooted X l)) H3).
      by apply (rooted_after _ p _ _ _ (λ X, on_metrics_rooted X _) H2). }
    + case_decide; [subst l'; by apply not_elem_of_nil in Hl'|]. by eapply stream_spec.
    + case_decide; [by injection H6 as <-|]. eapply rooted_after; [intros X; apply stream_rooted|exact H6|done].
  - destruct Hl as [Hl|Hb]; [by eapply stream_spec|].
    eapply rooted_after; [intros X; apply stream_rooted|exact H2|done].
Qed.

Lemma for_each_spec {A} (l : list A) (f : A → M Builder Failure unit) (x : A) p b b' :
  (∀ y X, preserves (rooted X) (f y)) → (∀ y b b', f y b = (Ok tt, b') → y = x → p ∈ bd_roots b') →
  x ∈ l → for_each l f b = (Ok tt, b') → p ∈ bd_roots b'.
Proof.
  intros Hk Hf. revert b. induction l as [|y l IH]; intros b; [by intros ?%not_elem_of_nil|].
  intros [->|Hx]%elem_of_cons; cbn [for_each].
  - intros ([] & b1 & H1 & H2)%bind_Ok. eapply rooted_after; [|exact H2|by eapply Hf].
    intros X. by apply preserves_for_each.
  - intros ([] & b1 & H1 & H2)%bind_Ok. by eapply IH.
Qed.

Lemma import_chunks_spec n ps f s b b' : import_chunks n ps f s b = (Ok tt, b') → ∀ p, p ∈ ps → p ∈ bd_roots b'.
Proof.
  unfold import_chunks. intros (cs & b1 & Hc & H)%bind_Ok p Hp. unfold lift_opt in Hc.
  destruct (chunks n ps) as [cs'|] eqn:E; [|done]. injection Hc as -> ->. apply chunks_concat in E. subst ps.
  apply list_elem_of_join in Hp as (c & Hc & Hin).
  refine (for_each_spec _ _ c p _ _ (λ y X, import_paths_rooted X y f s) _ Hin H).
  intros y b2 b3 Hi ->. exact (import_paths_spec _ _ _ _ _ Hi p Hc).
Qed.

(** ** Counters *)

Definition counters_ok (m : Metrics) : bool :=
  in_u 64 (mt_substituting_path_count m) && in_u 64 (mt_uploading_path_count m) && in_u 64 (mt_downloading_path_count m).

Lemma wrap_add_sub n v : in_u 64 n = true → u64_wrap (u64_wrap (n + v) - v) = n.
Proof.
  intros H. unfold u_wrap. rewrite Zminus_mod_idemp_l. replace (n + v - v) with n by lia.
  apply u_wrap_small. exact H.
Qed.

Lemma downloading_restored v m : counters_ok m = true →
  Metrics.sub_downloading_path v (Metrics.add_downloading_path v m) = m.
Proof.
  destruct m as [s u d]. intros [_ Hd]%andb_true_iff. unfold Metrics.sub_downloading_path, Metrics.add_downloading_path.
  cbn in *. by rewrite wrap_add_sub.
Qed.
Lemma substituting_restored v m : counters_ok m = true →
  Metrics.sub_substituting_path v (Metrics.add_substituting_path v m) = m.
Proof.
  destruct m as [s u d]. intros [[Hs _]%andb_true_iff _]%andb_true_iff.
  unfold Metrics.sub_substituting_path, Metrics.add_substituting_path. cbn in *. by rewrite wrap_add_sub.
Qed.

(** An operation that leaves the counters as they were. *)
Definition counts (m : Metrics) (b : Builder) : Prop := bd_metrics b = m.

Lemma counts_core {E A} m (f : M Builder E A) : (∀ b, bd_metrics (f b).2 = bd_metrics b) → preserves (counts m) f.
Proof. intros Hf b Hb. unfold counts in *. by rewrite Hf. Qed.

Create HintDb counts.
#[local] Hint Resolve preserves_ret preserves_lift : counts.
#[local] Hint Extern 2 (preserves (counts _) _) => (apply counts_core; intros ?; reflexivity) : counts.
Ltac counts :=
  repeat first [ progress auto with counts | apply preserves_bind; [|intros ?] | case_match ].

Lemma filter_missing_counts m ps : preserves (counts m) (filter_missing_paths ps).
Proof. induction ps as [|p ps IH]; cbn [filter_missing_paths]; unfold filter_missing; counts. Qed.
Lemma substitute_counts m ps : preserves (counts m) (substitute_paths ps).
Proof. induction ps as [|p ps IH]; cbn [substitute_paths]; counts. Qed.
Lemma add_roots_counts {E} m ps : preserves (counts m) (add_roots (E := E) ps).
Proof. induction ps as [|p ps IH]; cbn [add_roots]; counts. Qed.

Lemma filter_missing_metrics ps b : bd_metrics (filter_missing_paths ps b).2 = bd_metrics b.
Proof. by apply (filter_missing_counts (bd_metrics b)). Qed.
Lemma substitute_metrics ps b : bd_metrics (substitute_paths ps b).2 = bd_metrics b.
Proof. by apply (substitute_counts (bd_metrics b)). Qed.
Lemma add_roots_metrics {E} ps b : bd_metrics (add_roots (E := E) ps b).2 = bd_metrics b.
Proof. by apply (add_roots_counts (bd_metrics b)). Qed.

Lemma stream_metrics ps b : counters_ok (bd_metrics b) = true → bd_metrics (stream_and_import ps b).2 = bd_metrics b.
Proof.
  intros H. unfold stream_and_import. rewrite bind_run, rpc_run. destruct (rpc_error (bd_clock b)); [done|].
  rewrite bind_run. cbn [on_metrics modify]. rewrite bind_run. cbn [next]. rewrite bind_run. cbn [on_metrics modify].
  rewrite bind_run. destruct (import_error _ ps); cbn [throw mret M_ret].
  - by apply downloading_restored.
  - rewrite add_roots_metrics. by apply downloading_restored.
Qed.

Lemma import_paths_metrics ps f s b : counters_ok (bd_metrics b) = true → bd_metrics (import_paths ps f s b).2 = bd_metrics b.
Proof.
  intros H. unfold import_paths. rewrite bind_run.
  assert (bd_metrics ((if f then filter_missing_paths ps else mret ps) b).2 = bd_metrics b) as H1
    by (destruct f; [apply filter_missing_metrics|done]).
  destruct ((if f then filter_missing_paths ps else mret ps) b) as [[l|e] b1]; cbn [snd] in H1; [|done].
  rewrite <-H1 in H. rewrite <-H1. clear H1 b. destruct s; [|by apply stream_metrics].
  rewrite bind_run. cbn [on_metrics modify]. rewrite bind_run. unfold attempt.
  pose proof (substitute_metrics l (b1 <| bd_metrics ::= Metrics.add_substituting_path (count l) |>)) as H2.
  destruct (substitute_paths l _) as [r b2]. cbn [snd] in H2. rewrite bind_run. cbn [on_metrics modify]. rewrite bind_run.
  set (b3 := b2 <| bd_metrics ::= Metrics.sub_substituting_path (count l) |>).
  assert (bd_metrics b3 = bd_metrics b1) as H3.
  { cbn. rewrite H2. cbn. by apply substituting_restored. }
  pose proof (filter_missing_metrics l b3) as H4. destruct (filter_missing_paths l b3) as [[l'|e] b4]; cbn [snd] in H4 |- *.
  2:{ by rewrite H4. }
  case_decide; [cbn; by rewrite H4|]. rewrite stream_metrics; [by rewrite H4|]. by rewrite H4, H3.
Qed.

(** The counters are within their width and have the value [m]. *)
Lemma import_paths_counts m ps f s : counters_ok m = true → preserves (counts m) (import_paths ps f s).
Proof. intros H b <-. by apply import_paths_metrics. Qed.

Lemma import_chunks_counts m n ps f s : counters_ok m = true → preserves (counts m) (import_chunks n ps f s).
Proof.
  intros H. unfold import_chunks. apply preserves_bind; [apply preserves_lift|]. intros cs.
  apply preserves_for_each. intros c _. by apply import_paths_counts.
Qed.

Lemma fetch_counts m path o : preserves (counts m) (fetch_drv_requisites path o).
Proof.
  apply counts_core. intros b. unfold fetch_drv_requisites. rewrite bind_run, rpc_run. by destruct (rpc_error _).
Qed.

(** ** Reports *)

Definition is_update (s : Sent) : bool := match s with SentUpdate _ => true | SentResult _ => false end.

(** An operation that reports no result. *)
Definition quiet {E A} (m : M Builder E A) : Prop :=
  ∀ b, ∃ l, bd_sent (m b).2 = bd_sent b ++ l ∧ forallb is_update l = true.

Lemma quiet_core {E A} (m : M Builder E A) : (∀ b, bd_sent (m b).2 = bd_sent b) → quiet m.
Proof. intros H b. exists []. by rewrite H, app_nil_r. Qed.
Lemma quiet_ret {E A} (a : A) : quiet (mret a : M Builder E A).
Proof. by apply quiet_core. Qed.
Lemma quiet_lift {E A} (r : result E A) : quiet (lift_result r).
Proof. by apply quiet_core. Qed.
Lemma quiet_gets {E A} (f : Builder → A) : quiet (gets f : M Builder E A).
Proof. by apply quiet_core. Qed.
Lemma quiet_throw {E A} (e : E) : quiet (throw e : M Builder E A).
Proof. by apply quiet_core. Qed.
Lemma quiet_bind {E A B} (m : M Builder E A) (f : A → M Builder E B) : quiet m → (∀ a, quiet (f a)) → quiet (m ≫= f).
Proof.
  intros Hm Hf b. rewrite bind_run. destruct (Hm b) as (l & Hl & Hu). destruct (m b) as [[a|e] b1]; cbn [snd] in Hl; [|by exists l].
  destruct (Hf a b1) as (l' & Hl' & Hu'). exists (l ++ l'). rewrite Hl', Hl, forallb_app, Hu, Hu'. by rewrite app_assoc.
Qed.
Lemma quiet_attempt {E A} (m : M Builder E A) : quiet m → quiet (attempt m).
Proof. intros Hm b. unfold attempt. specialize (Hm b). by destruct (m b). Qed.
Lemma quiet_for_each {E A} (l : list A) (f : A → M Builder E unit) : (∀ x, quiet (f x)) → quiet (for_each l f).
Proof. intros Hf. induction l; cbn; [apply quiet_ret|]. by apply quiet_bind. Qed.
Lemma quiet_failing {A} f (m : M Builder Failure A) : quiet m → quiet (failing f m).
Proof. intros Hm b. unfold failing. specialize (Hm b). by destruct (m b). Qed.

Lemma quiet_next {E} : quiet (next (E := E)).
Proof. by apply quiet_core. Qed.
Lemma quiet_rpc : quiet rpc.
Proof. apply quiet_core. intros b. by rewrite rpc_run. Qed.
Lemma quiet_modify {E} (f : Builder → Builder) : (∀ b, bd_sent (f b) = bd_sent b) → quiet (modify f : M Builder E unit).
Proof. intros H. by apply quiet_core. Qed.
Lemma quiet_update {E} status : quiet (build_step_update (E := E) status).
Proof.
  intros b. unfold build_step_update. rewrite rpc_run. destruct (rpc_error _); cbn; [by exists []; rewrite app_nil_r|].
  by exists [SentUpdate status].
Qed.

Create HintDb quiet.
#[local] Hint Resolve quiet_ret quiet_lift quiet_gets quiet_throw quiet_next quiet_rpc quiet_update : quiet.
#[local] Hint Extern 2 (quiet (modify _)) => apply quiet_modify; done : quiet.
#[local] Hint Extern 2 (quiet (on_metrics _)) => apply quiet_modify; done : quiet.
#[local] Hint Extern 2 (quiet (add_root _)) => apply quiet_modify; done : quiet.
#[local] Hint Extern 1 (quiet (lift_opt _ _)) => apply quiet_lift : quiet.
Ltac quiet :=
  repeat first
    [ progress auto with quiet | apply quiet_bind; [|intros ?] | apply quiet_for_each; intros ?
    | apply quiet_attempt | apply quiet_failing | case_match | case_decide ].

Lemma quiet_add_roots {E} ps : quiet (add_roots (E := E) ps).
Proof. induction ps; cbn [add_roots]; quiet. Qed.
Lemma quiet_filter_missing ps : quiet (filter_missing_paths ps).
Proof. induction ps; cbn [filter_missing_paths]; unfold filter_missing; quiet. Qed.
Lemma quiet_substitute ps : quiet (substitute_paths ps).
Proof. induction ps; cbn [substitute_paths]; quiet. Qed.
Lemma quiet_to_send ps : quiet (paths_to_send ps).
Proof. induction ps; cbn [paths_to_send]; quiet. Qed.
#[local] Hint Resolve quiet_add_roots quiet_filter_missing quiet_substitute quiet_to_send : quiet.
Lemma quiet_import_requisites drv reqs n s : quiet (import_requisites drv reqs n s).
Proof. unfold import_requisites, import_chunks, import_paths, stream_and_import, fetch_drv_requisites. quiet. Qed.
Lemma quiet_session {A} (m : M Session UploadFailure A) : quiet (on_session m).
Proof. apply quiet_core. intros b. unfold on_session. by destruct (m (bd_session b)). Qed.
#[local] Hint Resolve quiet_session : quiet.
Lemma quiet_upload_nars nars bid mid o : quiet (upload_nars w nars bid mid o).
Proof. unfold upload_nars, upload_nars_regular. quiet. Qed.
#[local] Hint Resolve quiet_import_requisites quiet_upload_nars : quiet.

(** The result that is reported, if the queue runner takes it. *)
Lemma complete_build_spec times info b : ∃ r b', complete_build_retry times info b = (r, b') ∧
  bd_sent b' = bd_sent b ++ (if is_ok r then [SentResult info] else []).
Proof.
  revert b. induction times as [|times IH]; intros b; cbn [complete_build_retry]; rewrite bind_run; unfold attempt; rewrite rpc_run;
    destruct (rpc_error (bd_clock b)) as [e|]; cbn [modify throw].
  - eexists _, _. split; [reflexivity|]. cbn. by rewrite app_nil_r.
  - by eexists _, _.
  - destruct (IH (b <| bd_clock ::= S |>)) as (r & b' & -> & H). by exists r, b'.
  - by eexists _, _.
Qed.

Lemma quiet_run {E A} (m : M Builder E A) b r b' : quiet m → m b = (r, b') →
  ∃ l, bd_sent b' = bd_sent b ++ l ∧ forallb is_update l = true.
Proof. intros Hm H. destruct (Hm b) as (l & Hl). rewrite H in Hl. by exists l. Qed.

Lemma quiet_fetch n s m : quiet (fetch_inputs n s m).
Proof. unfold fetch_inputs, set_timing, fetch_drv_requisites. quiet. Qed.
Lemma quiet_build m ps : quiet (build_outputs m ps).
Proof. unfold build_outputs, set_timing. quiet. Qed.
Lemma quiet_send mid m ps : quiet (send_outputs w mid m ps).
Proof. unfold send_outputs, set_timing. quiet. Qed.
Lemma quiet_success mid m d : quiet (success_result mid m d).
Proof. unfold success_result. quiet. Qed.

Lemma success_result_spec mid m d b info b' : success_result mid m d b = (Ok info, b') →
  bri_result_state info = GSuccess ∧ bri_build_id info = bm_build_id m ∧ bri_machine_id info = mid.
Proof.
  unfold success_result. intros (? & b1 & _ & (t & b2 & _ & H)%bind_Ok)%bind_Ok. revert H.
  unfold failing. rewrite bind_run. cbn [next lift_result].
  destruct (new_success_build_result_info _ _ _ _ _) as [i|e] eqn:E; cbn; [|done]. intros [= -> _]. revert E.
  unfold new_success_build_result_info. intros (ns & _ & (? & _ & (? & _ & (? & _ & [= <-])%bind_Ok_inv)%bind_Ok_inv)%bind_Ok_inv)%bind_Ok_inv.
  done.
Qed.

Lemma filter_missing_Ok ps b : ∃ l b', filter_missing_paths ps b = (Ok l, b').
Proof.
  revert b. induction ps as [|p ps IH]; intros b; cbn [filter_missing_paths]; [by eexists _, _|].
  assert (∃ o b1, filter_missing p b = (Ok o, b1)) as (o & b1 & H1).
  { unfold filter_missing. rewrite bind_run. cbn [next]. destruct (is_valid_path _ p); by eexists _, _. }
  rewrite bind_run, H1, bind_run. destruct (IH b1) as (l & b' & ->). by eexists _, _.
Qed.

Lemma import_panics drv reqs s b : ∃ b', import_requisites drv reqs 0 s b = (Err Panic, b').
Proof.
  unfold import_requisites. rewrite bind_run. destruct (filter_missing_Ok reqs b) as (l & b1 & ->).
  rewrite bind_run. by exists b1.
Qed.

(** What a run of [process_build] sends: updates, and the result in the end
    when it succeeds. *)
Lemma process_build_sends mid n s m b r b' : process_build w mid n s m b = (r, b') →
  ∃ l x, bd_sent b' = bd_sent b ++ l ++ x ∧ forallb is_update l = true ∧
    match r with
    | Ok _ => ∃ info, x = [SentResult info] ∧ bri_result_state info = GSuccess ∧
                bri_build_id info = bm_build_id m ∧ bri_machine_id info = mid
    | Err _ => x = []
    end.
Proof.
  unfold process_build.
  assert (∀ {A} (m : M Builder JobFailure A) (k : A → M Builder JobFailure unit) b,
    quiet m → (m ≫= k) b = (r, b') →
    (∃ e, r = Err e ∧ ∃ l, bd_sent b' = bd_sent b ++ l ∧ forallb is_update l = true) ∨
    ∃ a b1 l, m b = (Ok a, b1) ∧ k a b1 = (r, b') ∧ bd_sent b1 = bd_sent b ++ l ∧ forallb is_update l = true) as Hstep.
  { intros A m0 k b0 Hq H. rewrite bind_run in H. destruct (Hq b0) as (l & Hl & Hu).
    destruct (m0 b0) as [[a|e] b1]; cbn [snd] in Hl; [right; by exists a, b1, l|]. injection H as <- <-. left. eauto. }
  assert (∀ e l, r = Err e → bd_sent b' = bd_sent b ++ l → forallb is_update l = true →
    ∃ l x, bd_sent b' = bd_sent b ++ l ++ x ∧ forallb is_update l = true ∧
      match r with Ok _ => ∃ info, x = [SentResult info] ∧ bri_result_state info = GSuccess ∧
                bri_build_id info = bm_build_id m ∧ bri_machine_id info = mid | Err _ => x = [] end) as Herr.
  { intros e l -> Hl Hu. exists l, []. by rewrite app_nil_r. }
  intros H. destruct (Hstep _ _ _ _ (quiet_fetch n s m) H) as [(e & -> & l & Hl & Hu)|(d & b1 & l1 & _ & H1 & S1 & U1)]; [by eapply Herr|].
  destruct (Hstep _ _ _ _ (quiet_build m _) H1) as [(e & -> & l & Hl & Hu)|(? & b2 & l2 & _ & H2 & S2 & U2)].
  { eapply Herr; [done| |]; [by rewrite Hl, S1, <-app_assoc|by rewrite forallb_app, U1, Hu]. }
  destruct (Hstep _ _ _ _ (quiet_send mid m _) H2) as [(e & -> & l & Hl & Hu)|(? & b3 & l3 & _ & H3 & S3 & U3)].
  { eapply Herr; [done| |]; [by rewrite Hl, S2, S1, <-!app_assoc|by rewrite !forallb_app, U1, U2, Hu]. }
  destruct (Hstep _ _ _ _ (quiet_success mid m d) H3) as [(e & -> & l & Hl & Hu)|(info & b4 & l4 & Hi & H4 & S4 & U4)].
  { eapply Herr; [done| |]; [by rewrite Hl, S3, S2, S1, <-!app_assoc|by rewrite !forallb_app, U1, U2, U3, Hu]. }
  exists (l1 ++ l2 ++ l3 ++ l4). apply success_result_spec in Hi as Hi'. unfold failing in H4.
  destruct (complete_build_spec RETRIES info b4) as (r5 & b5 & E5 & S5). rewrite E5 in H4. injection H4 as <- <-.
  eexists. split; [by rewrite S5, S4, S3, S2, S1, <-!app_assoc|]. split; [by rewrite !forallb_app, U1, U2, U3, U4|].
  destruct r5; cbn; [|done]. by exists info.
Qed.
(** ** The result, on the other side *)

(** A path that is found again from its base name. *)
Definition sent_path_ok (p : StorePath) : bool := bool_decide (store_path_new (StorePath.base_name p) = p).
Definition outputs_ok (outs : list Output) : bool := forallb sent_path_ok (omap o_path outs).

Definition with_timings (t : BuildTimings) (o : BuildOutput) : BuildOutput :=
  mkBuildOutput (out_failed o) t (out_release_name o) (out_closure_size o) (out_size o) (out_products o)
    (out_outputs o) (out_metrics o).

Lemma outputs_agree q infos outs acc : outputs_ok outs = true →
  foldl BuildOutput.add_output acc (grpc_output q infos <$> outs) = foldl (BuildOutput.add_known_output q infos) acc outs.
Proof.
  revert acc. induction outs as [|o outs IH]; intros acc H; [done|]. rewrite fmap_cons. cbn [foldl].
  unfold outputs_ok in H, IH. cbn [omap list_omap] in H.
  assert (BuildOutput.add_output acc (grpc_output q infos o) = BuildOutput.add_known_output q infos acc o ∧
    forallb sent_path_ok (omap o_path outs) = true) as [-> Ho]; [|by apply IH].
  destruct acc as [[m c] n]. unfold grpc_output, BuildOutput.add_known_output.
  destruct (o_path o) as [p|]; [|done]. cbn in H. apply andb_true_iff in H as [Hp%bool_decide_eq_true H].
  split; [|done]. destruct (infos !! p); [|done]. cbn. by rewrite Hp.
Qed.
End Env.

Section Claims.
Context `{HI : HashIter} `{FE : FloatEnv} `{TL : TimeLib} `{NE : NixEnv} `{DE : DbEnv} `{SE : StateEnv}
  `{UL : UuidLib} `{SL : SignLib} `{SHA : Sha256Lib} `{CE : CacheEnv} `{HE : HttpEnv} `{FS : FsEnv} `{BE : BuilderEnv}.
Variable w : World.



(** With a limit of zero downloads, which the configuration allows, a
    build panics as soon as its inputs are imported: it stays in the table of
    active builds, and no result is ever reported for it. *)
Theorem zero_downloads_hang mid s cancelled m b :
  (∀ q, gcroot_error q = None) → (∀ q, rpc_error q = None) →
  ∃ b' l, run_task w mid 0 s cancelled m b = (false, b') ∧
    bd_sent b' = bd_sent b ++ l ∧ forallb is_update l = true.
Proof.
  intros Hg Hr. unfold run_task. destruct (process_build _ _ _ _ _ _) as [r b1] eqn:E.
  destruct (process_build_sends _ _ _ _ _ _ _ _ E) as (l & x & Hs & Hl & Hx).
  assert (r = Err JPanicked) as ->.
  { revert E. unfold process_build, fetch_inputs. rewrite bind_run, bind_run. unfold failing at 1. rewrite bind_run.
    cbn [next]. rewrite Hg. cbn [mret M_ret map_err]. rewrite bind_run. unfold build_step_update at 1.
    rewrite rpc_run, Hr. rewrite bind_run. unfold failing at 1, fetch_drv_requisites at 1. rewrite bind_run, rpc_run, Hr.
    cbn [mret M_ret map_err]. rewrite bind_run. unfold failing at 1.
    match goal with |- context [import_requisites ?d ?l 0 s ?b] => destruct (import_panics d l s b) as (b2 & ->) end. cbn. by intros [= <- _]. }
  exists b1, l. subst x. cbn in Hs. by rewrite app_nil_r in Hs.
Qed.

(** C22: the result a builder reports is read by the queue runner as the output
    the queue runner would have found in the store itself: the same paths,
    sizes, products, metrics, release name and failure mark, with the times of
    the builder. *)
Theorem remote_result_is_local q mid drv t build_id info :
  outputs_ok (drv_outputs drv) = true → new_success_build_result_info q mid drv t build_id = Ok info →
  ∃ out, BuildOutput.new q (drv_outputs drv) = Ok out ∧ BuildOutput.from_result_info info = with_timings t out.
Proof.
  intros Ho. unfold new_success_build_result_info, BuildOutput.new.
  destruct (parse_nix_support_from_outputs (drv_outputs drv)) as [ns|e]; cbn [map_err mbind result_bind]; [|done].
  intros (x & Hx & (y & Hy & (z & Hz & [= <-])%bind_Ok_inv)%bind_Ok_inv)%bind_Ok_inv.
  assert (∀ a v, millis a = Ok v → v = a) as Hms.
  { intros a v. unfold millis, ok_or. destruct (try_u 64 a) eqn:E; [|done]. apply try_u_Some in E as [-> _]. by intros [= ->]. }
  apply Hms in Hx, Hy, Hz. subst. unfold BuildOutput.from_result_info. cbn [bri_outputs bri_nix_support bri_import_time_ms
    bri_build_time_ms bri_upload_time_ms]. rewrite outputs_agree by done.
  destruct (foldl _ _ _) as [[outs c] n]. eexists. split; [reflexivity|]. by destruct t.
Qed.

(** C39: resolution is inverted: when the store can resolve a derivation, the
    builder is told to build the derivation itself, and when it cannot, the
    builder is told to build a path with no name. *)
Theorem resolution_is_inverted q h step s r m :
  ffi_try_resolve_drv q (print_store_path (st_drv_path s)) = Some r →
  bm_drv m = StorePath.base_name (st_drv_path s) →
  bm_resolved_drv m = StorePath.base_name <$> si_resolved_drv_path (StepInfo_new q h step s) →
  to_build m = if decide (r = "") then StorePath.mk "" else store_path_new (StorePath.base_name (st_drv_path s)).
Proof.
  intros Hr Hd Hm. unfold to_build. rewrite Hm, Hd. cbn [StepInfo_new si_resolved_drv_path]. unfold try_resolve_drv.
  rewrite Hr. cbn [mbind option_bind]. destruct (decide (r = "")) as [->|]; [|done].
  assert (store_path_new "" = StorePath.mk "") as He; [|cbn; by rewrite He].
  unfold store_path_new, StorePath.new. by destruct (StorePath.STORE_DIR get_store_dir) as [|].
Qed.

(** An upload through the queue runner that fails leaves the counter of
    uploads too high, by the number of paths that were to be sent. *)
Theorem failed_upload_leaks_counter nars b l b1 :
  paths_to_send nars b = (Ok l, b1) → l ≠ [] → (∀ q, rpc_error q = None) → (∀ q, is_Some (export_error q l)) →
  ∃ e b', upload_nars_regular nars b = (Err e, b') ∧
    mt_uploading_path_count (bd_metrics b') = u64_wrap (mt_uploading_path_count (bd_metrics b1) + count l).
Proof.
  intros Hs Hl Hr He. unfold upload_nars_regular. rewrite bind_run, Hs, decide_False by done.
  rewrite bind_run. cbn [on_metrics modify]. rewrite bind_run. cbn [next]. rewrite bind_run. unfold attempt. rewrite rpc_run, Hr.
  rewrite bind_run. match goal with |- context [export_error ?q l] => destruct (He q) as [e ->] end. by eexists _, _.
Qed.
End Claims.
