(* ===== verification/BuilderTasks.v ===== *)
(** * BuilderTasks: the table of active builds ([builder/src/state.rs])

    [schedule_build] spawns the task of a build and then enters the build in
    the table; the task removes it when it ends. Requests are handled one
    after the other, but tasks run beside them: the steps of both interleave. *)

From Stdlib Require Import Ascii String.
From S2P Require Import Prelude Floats RustStr Nix Db Support Jobset Graph Result Machine.
Local Open Scope string_scope.
Local Open Scope list_scope.

(** [BuildInfo]: the handle and the flag [was_cancelled] belong to the task. *)
Record BuildInfo := mkBuildInfo { bf_drv_path : StorePath; bf_task : nat }.

Record Task := mkTask { tk_build_id : Uuid; tk_drv : StorePath; tk_running : bool; tk_was_cancelled : bool }.
#[export] Instance eta_Task : Eta Task := λ r, mkTask (tk_build_id r) (tk_drv r) (tk_running r) (tk_was_cancelled r).
#[export] Instance set_tk_running : Setter tk_running := ltac:(mk_setter tk_running).
#[export] Instance set_tk_was_cancelled : Setter tk_was_cancelled := ltac:(mk_setter tk_was_cancelled).

(** [ta_pending]: a build whose task was spawned and that is not yet in the
    table. *)
Record Tasks := mkTasks {
  ta_active_builds : gmap Uuid BuildInfo;
  ta_tasks : gmap nat Task;
  ta_next : nat;
  ta_pending : option (Uuid * BuildInfo);
  ta_halt : bool
}.
#[export] Instance eta_Tasks : Eta Tasks := λ r,
  mkTasks (ta_active_builds r) (ta_tasks r) (ta_next r) (ta_pending r) (ta_halt r).
#[export] Instance set_ta_active : Setter ta_active_builds := ltac:(mk_setter ta_active_builds).
#[export] Instance set_ta_tasks : Setter ta_tasks := ltac:(mk_setter ta_tasks).
#[export] Instance set_ta_next : Setter ta_next := ltac:(mk_setter ta_next).
#[export] Instance set_ta_pending : Setter ta_pending := ltac:(mk_setter ta_pending).
#[export] Instance set_ta_halt : Setter ta_halt := ltac:(mk_setter ta_halt).

Section Tasks.
Context `{NE : NixEnv} `{UL : UuidLib}.

Definition no_tasks : Tasks := mkTasks ∅ ∅ 0 None false.

Definition contains_build (drv : StorePath) (s : Tasks) : bool :=
  bool_decide (map_Exists (λ _ b, bf_drv_path b = drv) (ta_active_builds s)).

Inductive ScheduleError := HaltSet | BadUuid.

(** [schedule_build], up to the spawn of the task. *)
Definition schedule_spawn (build_id drv : string) (s : Tasks) : result ScheduleError Tasks :=
  if ta_halt s then Err HaltSet
  else
    let drv := store_path_new drv in
    if contains_build drv s then Ok s
    else
      id ← ok_or (uuid_parse build_id) BadUuid;
      let t := ta_next s in
      Ok (s <| ta_tasks ::= <[t := mkTask id drv true false]> |> <| ta_next := S t |>
            <| ta_pending := Some (id, mkBuildInfo drv t) |>).

(** [insert_new_build] *)
Definition insert_new_build (s : Tasks) : Tasks :=
  match ta_pending s with
  | Some (id, b) => s <| ta_active_builds ::= <[id := b]> |> <| ta_pending := None |>
  | None => s
  end.

Definition schedule_build (build_id drv : string) (s : Tasks) : result ScheduleError Tasks :=
  insert_new_build <$> schedule_spawn build_id drv s.

Definition remove_build (id : Uuid) (s : Tasks) : Tasks := s <| ta_active_builds ::= delete id |>.

(** [BuildInfo::abort] *)
Definition abort (b : BuildInfo) (s : Tasks) : Tasks :=
  s <| ta_tasks ::= alter (λ t, t <| tk_was_cancelled := true |>) (bf_task b) |>.

Definition abort_build (build_id : string) (s : Tasks) : result ScheduleError Tasks :=
  id ← ok_or (uuid_parse build_id) BadUuid;
  Ok (match ta_active_builds s !! id with Some b => abort b (remove_build id s) | None => remove_build id s end).

Definition abort_all_active_builds `{HashIter} (s : Tasks) : Tasks :=
  (foldr abort s (iter_values (ta_active_builds s))) <| ta_active_builds := ∅ |>.

Definition enable_halt (s : Tasks) : Tasks := s <| ta_halt := true |>.

(** A task ends: with the result of [process_build], or dropped after an
    abort, or with a panic; the last two leave the table as it is. *)
Inductive TaskEnd := EndOk | EndErr | EndDropped | EndPanic.

Definition end_task (t : nat) (e : TaskEnd) (s : Tasks) : option Tasks :=
  task ← ta_tasks s !! t;
  if negb (tk_running task) then None
  else
    let s := s <| ta_tasks ::= alter (λ k, k <| tk_running := false |>) t |> in
    match e with
    | EndOk => Some (remove_build (tk_build_id task) s)
    | EndErr => Some (if tk_was_cancelled task then s else remove_build (tk_build_id task) s)
    | EndDropped => if tk_was_cancelled task then Some s else None
    | EndPanic => Some s
    end.

(** ** Interleavings *)

Inductive TaskEvent :=
| ESpawn (build_id drv : string)
| EInsert
| EAbort (build_id : string)
| EAbortAll
| EHalt
| EEnd (t : nat) (e : TaskEnd).

(** Requests wait for [schedule_build] to return. *)
Definition task_step `{HashIter} (ev : TaskEvent) (s : Tasks) : option Tasks :=
  match ev, ta_pending s with
  | ESpawn build_id drv, None => Some (match schedule_spawn build_id drv s with Ok s' => s' | Err _ => s end)
  | EInsert, Some _ => Some (insert_new_build s)
  | EAbort build_id, None => Some (match abort_build build_id s with Ok s' => s' | Err _ => s end)
  | EAbortAll, _ => Some (abort_all_active_builds s)
  | EHalt, _ => Some (enable_halt s)
  | EEnd t e, _ => end_task t e s
  | _, _ => None
  end.

Inductive reachable `{HashIter} : Tasks → Prop :=
| reach_start : reachable no_tasks
| reach_step s ev s' : reachable s → task_step ev s = Some s' → reachable s'.

Fixpoint run_events `{HashIter} (evs : list TaskEvent) (s : Tasks) : option Tasks :=
  match evs with [] => Some s | ev :: evs' => s' ← task_step ev s; run_events evs' s' end.

(** ** Invariant *)

(** Active builds are of different derivations, and so is the one that waits
    to be entered; tasks have numbers below the next. *)
Record tasks_ok (s : Tasks) : Prop := {
  to_distinct id id' b b' : ta_active_builds s !! id = Some b → ta_active_builds s !! id' = Some b' →
    bf_drv_path b = bf_drv_path b' → id = id';
  to_pending id b : ta_pending s = Some (id, b) →
    ∀ id' b', ta_active_builds s !! id' = Some b' → bf_drv_path b' ≠ bf_drv_path b;
  to_tasks t : is_Some (ta_tasks s !! t) → (t < ta_next s)%nat
}.

Lemma tasks_ok_start : tasks_ok no_tasks.
Proof. split; cbn; intros; by simplify_map_eq. Qed.

(** Removing builds, and whatever happens to the tasks, keeps the invariant. *)
Lemma tasks_ok_shrink s s' : tasks_ok s → ta_active_builds s' ⊆ ta_active_builds s → ta_pending s' = ta_pending s →
  dom (ta_tasks s') ⊆ dom (ta_tasks s) → ta_next s' = ta_next s → tasks_ok s'.
Proof.
  intros [H1 H2 H3] Ha Hp Hd Hn. split.
  - intros id id' b b' Hb Hb'. apply (H1 id id'); by eapply lookup_weaken.
  - intros id b Hpb id' b' Hb'. rewrite Hp in Hpb. eapply H2; [done|]. by eapply lookup_weaken.
  - intros t Ht. rewrite Hn. apply H3, elem_of_dom, Hd, elem_of_dom, Ht.
Qed.

Lemma contains_build_false drv s id b : contains_build drv s = false → ta_active_builds s !! id = Some b → bf_drv_path b ≠ drv.
Proof. intros H Hb E. apply bool_decide_eq_false in H. apply H. by exists id, b. Qed.

Lemma remove_build_ok id s : tasks_ok s → tasks_ok (remove_build id s).
Proof. intros H. eapply tasks_ok_shrink; [done|apply delete_subseteq|done..]. Qed.

Lemma end_tasks_ok f t s : tasks_ok s → tasks_ok (s <| ta_tasks ::= alter f t |>).
Proof. intros H. eapply tasks_ok_shrink; [done|done|done| |done]. cbn. by rewrite dom_alter_L. Qed.

Lemma tasks_ok_step `{HashIter} ev s s' : tasks_ok s → task_step ev s = Some s' → tasks_ok s'.
Proof.
  intros Hs. destruct ev as [build_id drv| |build_id| | |t e]; cbn [task_step].
  - destruct (ta_pending s) eqn:Ep; [done|]. intros [= <-]. unfold schedule_spawn. destruct (ta_halt s); [done|].
    destruct (contains_build _ s) eqn:Ec; [done|]. destruct (uuid_parse build_id) as [id|]; [|done]. cbn.
    destruct Hs as [H1 H2 H3]. split; cbn.
    + done.
    + intros id' b [= <- <-] id'' b'' Hb. by eapply contains_build_false.
    + intros t [x Hx]. destruct (decide (t = ta_next s)) as [->|Hne]; [lia|].
      rewrite lookup_insert_ne in Hx by done. specialize (H3 t ltac:(eauto)). lia.
  - destruct (ta_pending s) as [[id b]|] eqn:Ep; [|done]. intros [= <-]. unfold insert_new_build. rewrite Ep.
    destruct Hs as [H1 H2 H3]. specialize (H2 id b Ep). split; cbn; [|done..].
    intros i i' x x' [[<- <-]|[Hi Hx]]%lookup_insert_Some [[<- <-]|[Hi' Hx']]%lookup_insert_Some Hd; [done|..].
    + by apply H2 in Hx'.
    + by apply H2 in Hx.
    + by apply (H1 i i' x x').
  - destruct (ta_pending s) eqn:Ep; [done|]. intros [= <-]. unfold abort_build.
    destruct (uuid_parse build_id) as [id|]; [|done]. cbn [ok_or mbind result_bind].
    destruct (ta_active_builds s !! id); [by apply end_tasks_ok, remove_build_ok|by apply remove_build_ok].
  - intros [= <-]. unfold abort_all_active_builds.
    assert (∀ l, let s' := foldr abort s l in ta_pending s' = ta_pending s ∧ ta_next s' = ta_next s ∧ dom (ta_tasks s') = dom (ta_tasks s)) as Hl.
    { intros l. induction l as [|b l (IH1 & IH2 & IH3)]; [done|]. cbn. rewrite dom_alter_L. done. }
    destruct (Hl (iter_values (ta_active_builds s))) as (Hp & Hn & Hd).
    eapply tasks_ok_shrink; [exact Hs|apply map_empty_subseteq|done|by rewrite <-Hd|done].
  - intros [= <-]. by eapply tasks_ok_shrink.
  - unfold end_task. intros (task & Ht & He)%bind_Some. destruct (tk_running task); [|done]. cbn [negb] in He.
    destruct e; [|destruct (tk_was_cancelled task)..|]; simplify_eq;
      try apply remove_build_ok; by apply end_tasks_ok.
Qed.
End Tasks.

Section Claims.
Context `{NE : NixEnv} `{UL : UuidLib} `{HI : HashIter}.

(** C25: in every interleaving of requests and tasks, the builds in the table
    are of different derivations. *)
Theorem active_builds_distinct s id id' b b' :
  reachable s → ta_active_builds s !! id = Some b → ta_active_builds s !! id' = Some b' →
  bf_drv_path b = bf_drv_path b' → id = id'.
Proof.
  intros Hr. assert (tasks_ok s) as [H _ _]; [|apply H].
  induction Hr as [|s ev s' _ IH H]; [apply tasks_ok_start|]. by eapply tasks_ok_step.
Qed.

(** A task that ends before its build is in the table leaves the build
    there for good: the table says that the derivation is being built, no task
    runs for it, and a later request to build it starts none. *)
Theorem early_end_blocks_derivation build_id build_id' drv id e :
  uuid_parse build_id = Some id →
  e ∈ [EndOk; EndErr; EndPanic] →
  ∃ s, run_events [ESpawn build_id drv; EEnd 0 e; EInsert] no_tasks = Some s ∧
    contains_build (store_path_new drv) s = true ∧
    (∀ t task, ta_tasks s !! t = Some task → tk_running task = false) ∧
    task_step (ESpawn build_id' drv) s = Some s.
Proof.
  intros Hid He. set (d := store_path_new drv).
  exists (mkTasks {[id := mkBuildInfo d 0]} {[0 := mkTask id d false false]} 1 None false).
  assert (contains_build d no_tasks = false) as Hc by (by apply bool_decide_eq_false; intros (?&?&?&?)).
  assert (task_step (ESpawn build_id drv) no_tasks =
    Some (mkTasks ∅ {[0 := mkTask id d true false]} 1 (Some (id, mkBuildInfo d 0)) false)) as H1.
  { cbn [task_step ta_pending no_tasks]. unfold schedule_spawn. cbn [ta_halt no_tasks]. fold d.
    change (mkTasks ∅ ∅ 0 None false) with no_tasks. by rewrite Hc, Hid. }
  assert (end_task 0 e (mkTasks ∅ {[0 := mkTask id d true false]} 1 (Some (id, mkBuildInfo d 0)) false) =
    Some (mkTasks ∅ {[0 := mkTask id d false false]} 1 (Some (id, mkBuildInfo d 0)) false)) as H2.
  { unfold end_task. cbn [ta_tasks]. rewrite lookup_singleton_eq. cbn [mbind option_bind tk_running negb].
    assert (alter (λ k, k <| tk_running := false |>) 0 ({[0 := mkTask id d true false]} : gmap nat Task) =
      {[0 := mkTask id d false false]}) as Ha by (by rewrite alter_singleton).
    repeat apply elem_of_cons in He as [->|He]; [..|by apply not_elem_of_nil in He];
      unfold remove_build; cbn; cbn in Ha; rewrite Ha, ?delete_empty; done. }
  assert (contains_build d (mkTasks {[id := mkBuildInfo d 0]} {[0 := mkTask id d false false]} 1 None false) = true) as H3.
  { apply bool_decide_eq_true. exists id, (mkBuildInfo d 0). cbn [ta_active_builds]. by rewrite lookup_singleton_eq. }
  split_and!.
  - cbn [run_events]. rewrite H1. cbn [mbind option_bind task_step]. by rewrite H2.
  - done.
  - intros t task. cbn [ta_tasks]. by intros [<- <-]%lookup_singleton_Some.
  - cbn [task_step ta_pending]. unfold schedule_spawn. cbn [ta_halt]. fold d. by rewrite H3.
Qed.
End Claims.
