(* ===== verification/BuilderConn.v ===== *)
(** * BuilderConn: how a builder connects and listens ([builder/src/grpc.rs],
    [config.rs], [main.rs], and the state and messages of [state.rs])

    A builder makes its client from the command line, compares versions, opens
    the tunnel with a join message and then handles the requests that come,
    until the tunnel ends or too many messages in a row cannot be delivered.
    The network is the class [ConnEnv]; the settings of Nix are
    [NixSettings]. The other side is [Grpc]. *)

From Stdlib Require Import Ascii String.
From S2P Require Import NarInfo CacheCfg Stream BinaryCache Presigned PresignedFlow.
From S2P Require Import Prelude Floats RustStr Nix Db Support Jobset Graph Result Machine Queue.
From S2P Require Import Config Uploader FodChecker State Dispatch Grpc System Builder BuilderTasks.
Local Open Scope string_scope.
Local Open Scope list_scope.
Local Open Scope Z_scope.

(** ** The command line ([Cli]) *)

Record Cli := mkCli {
  cl_gateway_endpoint : string;
  cl_ping_interval : Z;
  cl_speed_factor : f32;
  cl_max_jobs : Z;
  cl_build_dir_avail_threshold : f32;
  cl_store_avail_threshold : f32;
  cl_load1_threshold : f32;
  cl_cpu_psi_threshold : f32;
  cl_mem_psi_threshold : f32;
  cl_io_psi_threshold : option f32;
  cl_server_root_ca_cert_path : option string;
  cl_client_cert_path : option string;
  cl_client_key_path : option string;
  cl_domain_name : option string;
  cl_systems : option (list string);
  cl_supported_features : option (list string);
  cl_mandatory_features : option (list string);
  cl_use_substitutes : bool;
  cl_authorization_file : option string
}.

(** Without any argument. *)
Definition default_Cli : Cli :=
  mkCli "http://[::1]:50051" 10 (f32_of_Z 1) 4 (f32_of_Z 10) (f32_of_Z 10) (f32_of_Z 8) (f32_of_Z 75) (f32_of_Z 80)
    None None None None None None None None false None.

Definition is_some {A} (o : option A) : bool := match o with Some _ => true | None => false end.

Definition mtls_enabled (c : Cli) : bool :=
  is_some (cl_server_root_ca_cert_path c) && is_some (cl_client_cert_path c) && is_some (cl_client_key_path c)
  && is_some (cl_domain_name c).

Definition mtls_configured_correctly (c : Cli) : bool :=
  mtls_enabled c ||
  (negb (is_some (cl_server_root_ca_cert_path c)) && negb (is_some (cl_client_cert_path c))
   && negb (is_some (cl_client_key_path c)) && negb (is_some (cl_domain_name c))).

(** How the queue runner is reached. *)
Inductive Channel :=
| ChMtls (endpoint server_root_ca_cert client_cert client_key domain_name : string)
| ChUnix (path : string)
| ChHttps (endpoint domain_name : string)
| ChPlain (endpoint : string).

Inductive BuilderInterceptor := Token (token : string) | Noop.

Class ConnEnv : Type := {
  (** A Uri of [tonic]; the domain in a Url; a value of the metadata. *)
  uri_parses : string → bool;
  url_domain : string → result string (option string);
  metadata_parses : string → bool;
  (** TLS is attached and the connection made. *)
  connect : Channel → result string unit;
  gethostname : option string
}.

Class NixSettings : Type := {
  get_this_system : string;
  get_extra_platforms : list string;
  get_system_features : list string;
  get_substituters : list string;
  get_nix_version : string;
  get_use_cgroups : bool;
  get_build_dir : string
}.

(** The state of a builder: what a build does is [Builder], the table of
    active builds [BuilderTasks]. *)
Record BuilderConfig := mkBuilderConfig {
  cf_ping_interval : Z;
  cf_speed_factor : f32;
  cf_max_jobs : Z;
  cf_build_dir_avail_threshold : f32;
  cf_store_avail_threshold : f32;
  cf_load1_threshold : f32;
  cf_cpu_psi_threshold : f32;
  cf_mem_psi_threshold : f32;
  cf_io_psi_threshold : option f32;
  cf_gcroots : string;
  cf_systems : list string;
  cf_supported_features : list string;
  cf_mandatory_features : list string;
  cf_cgroups : bool;
  cf_use_substitutes : bool
}.

Record BuilderState := mkBuilderState {
  bs_id : Uuid;
  bs_hostname : string;
  bs_config : BuilderConfig;
  bs_max_concurrent_downloads : Z;
  bs_tasks : Tasks;
  bs_client : BuilderInterceptor;
  bs_metrics : Metrics
}.
#[export] Instance eta_BuilderState : Eta BuilderState := λ r,
  mkBuilderState (bs_id r) (bs_hostname r) (bs_config r) (bs_max_concurrent_downloads r) (bs_tasks r) (bs_client r)
    (bs_metrics r).
#[export] Instance set_bs_max : Setter bs_max_concurrent_downloads := ltac:(mk_setter bs_max_concurrent_downloads).
#[export] Instance set_bs_tasks : Setter bs_tasks := ltac:(mk_setter bs_tasks).
#[export] Instance set_bs_metrics : Setter bs_metrics := ltac:(mk_setter bs_metrics).

(** What comes through the tunnel ([runner_request::Message]); an item of the
    stream may be empty or an error. *)
Inductive RunnerMessage :=
| RmJoin (machine_id : string) (max_concurrent_downloads : Z)
| RmPing (message : string)
| RmRequest (q : RunnerRequest).

Inductive Item := IMessage (m : option RunnerMessage) | IError (e : string).

Definition PROTO_MISMATCH : string := "API version mismatch".

(** [s.contains(p)] *)
Fixpoint contains_str (p s : string) : bool :=
  starts_with p s || match s with "" => false | String _ s' => contains_str p s' end.

Section Client.
Context `{FS : FsEnv} `{CN : ConnEnv} `{EL : EnvLib} `{NS : NixSettings} `{PE : ProcEnv} `{UL : UuidLib} `{NE : NixEnv}.

(** ** The client *)

Definition get_mtls (c : Cli) : result string (string * string * string * string) :=
  server_root_ca_cert_path ← ok_or (cl_server_root_ca_cert_path c) "server_root_ca_cert_path not provided";
  client_cert_path ← ok_or (cl_client_cert_path c) "client_cert_path not provided";
  client_key_path ← ok_or (cl_client_key_path c) "client_key_path not provided";
  domain_name ← ok_or (cl_domain_name c) "domain_name not provided";
  server_root_ca_cert ← ok_or (fs_read_to_string server_root_ca_cert_path) "io";
  client_cert ← ok_or (fs_read_to_string client_cert_path) "io";
  client_key ← ok_or (fs_read_to_string client_key_path) "io";
  Ok (server_root_ca_cert, client_cert, client_key, domain_name).

Definition get_authorization_token (c : Cli) : result string (option string) :=
  match cl_authorization_file c with
  | Some path => t ← ok_or (fs_read_to_string path) "io"; Ok (Some (trim t))
  | None => Ok None
  end.

Definition parse_uri (endpoint : string) : result string unit :=
  if uri_parses endpoint then Ok tt else Err "invalid uri".

Definition channel_of (c : Cli) : result string Channel :=
  let endpoint := cl_gateway_endpoint c in
  if mtls_enabled c then
    '(server_root_ca_cert, client_cert, client_key, domain_name) ← get_mtls c;
    parse_uri endpoint ≫= λ _, Ok (ChMtls endpoint server_root_ca_cert client_cert client_key domain_name)
  else
    match strip_prefix "unix://" endpoint with
    | Some path => Ok (ChUnix path)
    | None =>
        if starts_with "https://" endpoint then
          uri ← url_domain endpoint;
          domain ← ok_or uri "No domain_name found for gateway_endpoint";
          parse_uri endpoint ≫= λ _, Ok (ChHttps endpoint domain)
        else parse_uri endpoint ≫= λ _, Ok (ChPlain endpoint)
    end.

Definition init_client (c : Cli) : result string BuilderInterceptor :=
  if negb (mtls_configured_correctly c) then Err "Configuration issue"
  else
    ch ← channel_of c;
    connect ch ≫= λ _,
    token ← get_authorization_token c;
    match token with
    | Some t => if metadata_parses ("Bearer " +:+ t) then Ok (Token ("Bearer " +:+ t)) else Err "invalid metadata value"
    | None => Ok Noop
    end.

(** [BuilderInterceptor::call]: the header [authorization] of a request. *)
Definition call (i : BuilderInterceptor) : option (option string) :=
  match i with Token token => Some (Some token) | Noop => None end.

(** ** The state *)

(** [State::new]; [id] is what [Uuid::new_v4] returned. *)
Definition BuilderState_new (id : Uuid) (c : Cli) : result string BuilderState :=
  logname ← ok_or (env_var "LOGNAME") "LOGNAME not set";
  let nix_state_dir := default "/nix/var/nix/" (env_var "NIX_STATE_DIR") in
  let gcroots := path_join (path_join (path_join nix_state_dir "gcroots/per-user") logname) "hydra-roots" in
  if negb (create_dir_all gcroots) then Err "io"
  else
    hostname ← ok_or gethostname "Couldn't convert hostname to string!";
    let config :=
      mkBuilderConfig (cl_ping_interval c) (cl_speed_factor c) (cl_max_jobs c) (cl_build_dir_avail_threshold c)
        (cl_store_avail_threshold c) (cl_load1_threshold c) (cl_cpu_psi_threshold c) (cl_mem_psi_threshold c)
        (cl_io_psi_threshold c) gcroots (default (get_this_system :: get_extra_platforms) (cl_systems c))
        (default get_system_features (cl_supported_features c)) (default [] (cl_mandatory_features c))
        get_use_cgroups (cl_use_substitutes c) in
    client ← init_client c;
    Ok (mkBuilderState id hostname config 5 no_tasks client (mkMetrics 0 0 0)).

Definition get_join_message (q : nat) (s : BuilderState) : result string JoinMessage :=
  sys ← BaseSystemInfo_new q;
  cpu_count ← ok_or (try_u 32 (sy_cpu_count sys)) "out of range integral type conversion attempted";
  let c := bs_config s in
  Ok (mkJoinMessage (uuid_to_string (bs_id s)) (cf_systems c) (bs_hostname s) cpu_count (sy_bogomips sys)
        (cf_speed_factor c) (cf_max_jobs c) (cf_build_dir_avail_threshold c) (cf_store_avail_threshold c)
        (cf_load1_threshold c) (cf_cpu_psi_threshold c) (cf_mem_psi_threshold c) (cf_io_psi_threshold c)
        (sy_total_memory sys) (cf_supported_features c) (cf_mandatory_features c) (cf_cgroups c)
        get_substituters (cf_use_substitutes c) get_nix_version).

Definition get_ping_message (q : nat) (s : BuilderState) : result LoadError PingMessage :=
  sysinfo ← SystemLoad_new q get_build_dir;
  Ok (mkPingMessage (uuid_to_string (bs_id s)) (sl_load_avg_1 sysinfo) (sl_load_avg_5 sysinfo)
        (sl_load_avg_15 sysinfo) (sl_mem_usage sysinfo) (sl_pressure sysinfo) (sl_build_dir_free_percent sysinfo)
        (sl_store_free_percent sysinfo) (mt_substituting_path_count (bs_metrics s))
        (mt_uploading_path_count (bs_metrics s)) (mt_downloading_path_count (bs_metrics s))).

(** ** Requests *)

Abbreviation SM := (M BuilderState string).

Definition on_tasks (f : Tasks → result ScheduleError Tasks) : SM unit := λ s,
  match f (bs_tasks s) with
  | Ok t => (Ok tt, s <| bs_tasks := t |>)
  | Err HaltSet => (Err "State set to halt.", s)
  | Err BadUuid => (Err "invalid uuid", s)
  end.

Definition handle_request (request : RunnerMessage) : SM unit :=
  match request with
  | RmJoin _ max_concurrent_downloads | RmRequest (QConfigUpdate max_concurrent_downloads) =>
      modify (λ s, s <| bs_max_concurrent_downloads := max_concurrent_downloads |>)
  | RmPing _ => mret tt
  | RmRequest (QBuild build_id drv _ _ _ _ _) => on_tasks (BuilderTasks.schedule_build build_id drv)
  | RmRequest (QAbort build_id) => on_tasks (BuilderTasks.abort_build build_id)
  end.

(** The loop over the stream, with the number of failures in a row. *)
Fixpoint receive (consecutive_failure_count : Z) (stream : list Item) : SM unit :=
  match stream with
  | [] => mret tt
  | IMessage (Some v) :: stream' => attempt (handle_request v);; receive 0 stream'
  | IMessage None :: stream' => receive 0 stream'
  | IError _ :: stream' =>
      let n := consecutive_failure_count + 1 in
      if n =? 10 then throw "Failed to communicate 10 times over the channel. Terminating the application."
      else receive n stream'
  end.

(** [PROTO_API_VERSION] is made by the build. *)
Definition check_version_compatibility (proto_api_version : string) (response : result string VersionCheckResponse)
  : result string unit :=
  response ← response;
  if negb (vc_compatible response) then
    Err (PROTO_MISMATCH +:+ ": client has " +:+ proto_api_version +:+ ", server has " +:+ vc_server_version response)
  else Ok tt.

(** What is sent into the tunnel: a join message, and a ping at each tick; a
    ping that cannot be made is left out. *)
Fixpoint pings (ticks : list nat) (s : BuilderState) : list BuilderMessage :=
  match ticks with
  | [] => []
  | q :: ticks' =>
      match get_ping_message q s with
      | Ok v => BPing v :: pings ticks' s
      | Err (LoadFailed _) => pings ticks' s
      | Err LoadPanicked => []
      end
  end.
Definition ping_stream (join_msg : JoinMessage) (ticks : list nat) (s : BuilderState) : list BuilderMessage :=
  BJoin join_msg :: pings ticks s.

(** [tunnel]: what opening the tunnel answers to the stream of messages. *)
Definition start_bidirectional_stream (proto_api_version : string) (check : result string VersionCheckResponse)
    (q : nat) (ticks : list nat) (tunnel : list BuilderMessage → result string (list Item)) : SM unit :=
  lift_result (check_version_compatibility proto_api_version check);;
  s ← gets id;
  join_msg ← lift_result (get_join_message q s);
  match tunnel (ping_stream join_msg ticks s) with
  | Ok stream => receive 0 stream
  | Err error_str =>
      throw (if contains_str PROTO_MISMATCH error_str then PROTO_MISMATCH +:+ ": " +:+ error_str else error_str)
  end.

(** ** [main.rs] *)

(** [None]: the process ends without an error; [EX_DATAERR] is 65. *)
Definition exit_status (r : result string unit) : option Z :=
  match r with
  | Ok _ => None
  | Err error_str => Some (if contains_str PROTO_MISMATCH error_str then 65 else 1)
  end.

(** [stop_application]; the directory of roots is cleared after. *)
Definition stop_application `{HashIter} (s : Tasks) : Tasks := abort_all_active_builds (enable_halt s).

End Client.
