(* ===== verification/Tracing.v ===== *)
(** * Tracing: the trace of a request ([crates/tracing/src/propagate.rs], the
    interceptor of [builder/src/grpc.rs])

    With the feature [otel] a builder writes the context of its span into the
    headers of a request, and the queue runner takes it as the parent of its
    own span. The propagator, and what is a key or a value of the metadata,
    are the libraries'. *)

From Stdlib Require Import Ascii String.
From S2P Require Import Prelude RustStr Nix Config BuilderConn.
Local Open Scope string_scope.
Local Open Scope list_scope.

Record Request := mkRequest { rq_body : string; rq_headers : gmap string string }.
#[export] Instance eta_Request : Eta Request := λ r, mkRequest (rq_body r) (rq_headers r).
#[export] Instance set_rq_headers : Setter rq_headers := ltac:(mk_setter rq_headers).

Class Propagator : Type := {
  (** The feature [otel]. *)
  otel : bool;
  TraceContext : Type;
  (** The pairs a propagator writes, and what it reads. *)
  inject_context : TraceContext → list (string * string);
  extract : gmap string string → TraceContext;
  (** [MetadataKey::from_bytes] and [MetadataValue::try_from] *)
  metadata_key : string → option string;
  metadata_value : string → option string
}.

(** A propagator has header fields of its own. *)
Class OwnFields `{Propagator} : Prop := {
  not_authorization ctx k v : (k, v) ∈ inject_context ctx → metadata_key k ≠ Some "authorization"
}.

Section Propagate.
Context `{PG : Propagator}.

(** [MetadataInjector::set]: what cannot be written is left out. *)
Definition MetadataInjector_set (headers : gmap string string) (kv : string * string) : gmap string string :=
  match metadata_key kv.1, metadata_value kv.2 with
  | Some key, Some value => <[key := value]> headers
  | _, _ => headers
  end.

Definition send_trace (context : TraceContext) (request : Request) : result string Request :=
  Ok (if otel then request <| rq_headers ::= λ h, foldl MetadataInjector_set h (inject_context context) |> else request).

(** The request, and the parent the current span gets. *)
Definition accept_trace (request : Request) : Request * option TraceContext :=
  (request, if otel then Some (extract (rq_headers request)) else None).

(** [BuilderInterceptor::call], with all of the headers. *)
Definition intercept (i : BuilderInterceptor) (context : TraceContext) (request : Request) : result string Request :=
  request ← send_trace context request;
  Ok (match i with
      | Token token => request <| rq_headers ::= <["authorization" := token]> |>
      | Noop => request
      end).

Definition authorization (r : Request) : option (option string) := Some <$> rq_headers r !! "authorization".

Lemma injected_other headers kvs name :
  (∀ k v, (k, v) ∈ kvs → metadata_key k ≠ Some name) → foldl MetadataInjector_set headers kvs !! name = headers !! name.
Proof.
  revert headers. induction kvs as [|[k v] kvs IH]; intros headers H; cbn [foldl]; [done|].
  rewrite IH by (intros k' v' Hin; apply (H k' v'); by right). unfold MetadataInjector_set. cbn [fst snd].
  destruct (metadata_key k) as [key|] eqn:Ek; [|done]. destruct (metadata_value v); [|done].
  rewrite lookup_insert_ne; [done|]. intros ->. by apply (H k v); [left|].
Qed.

(** Tracing does not touch what is asked nor who asks: the body arrives as it
    was sent, and the queue runner checks the authorization the builder has. *)
Theorem tracing_keeps_authorization `{!OwnFields} i context body c :
  ∃ r, intercept i context (mkRequest body ∅) = Ok r ∧ rq_body (accept_trace r).1 = body ∧
    check_auth c (authorization (accept_trace r).1) = check_auth c (call i).
Proof.
  unfold intercept, send_trace. cbn [mbind result_bind]. eexists. split; [done|].
  assert (foldl MetadataInjector_set ∅ (inject_context context) !! "authorization" = None) as Hn.
  { rewrite injected_other; [done|]. intros k v. apply not_authorization. }
  cbn [accept_trace fst]. unfold authorization. split; [by destruct i, otel|].
  destruct i; [|by destruct otel; cbn; rewrite ?Hn]. destruct otel; cbn -[insert lookup]; by rewrite lookup_insert_eq.
Qed.

(** The parent of the queue runner's span is read from what the builder's span
    wrote, as far as it can be written. *)
Theorem trace_arrives i context body :
  otel = true →
  (∀ k v, (k, v) ∈ inject_context context → metadata_key k = Some k ∧ metadata_value v = Some v ∧ k ≠ "authorization") →
  NoDup (inject_context context).*1 →
  ∃ r parent, intercept i context (mkRequest body ∅) = Ok r ∧ (accept_trace r).2 = Some parent ∧ parent = extract (rq_headers r) ∧
    ∀ k v, (k, v) ∈ inject_context context → rq_headers r !! k = Some v.
Proof.
  intros Ho Hk Hnd. unfold intercept, send_trace, accept_trace. rewrite Ho. cbn [mbind result_bind].
  do 2 eexists. split; [done|]. split; [done|]. split; [done|]. intros k v Hin.
  assert (∀ kvs h, NoDup kvs.*1 → (∀ k v, (k, v) ∈ kvs → metadata_key k = Some k ∧ metadata_value v = Some v) →
    (k, v) ∈ kvs → foldl MetadataInjector_set h kvs !! k = Some v) as Hf.
  { induction kvs as [|[k' v'] kvs IH]; intros h Hd Hm; [by intros ?%not_elem_of_nil|].
    rewrite fmap_cons in Hd. apply NoDup_cons in Hd as [Hni Hd]. cbn [foldl]. intros [[= -> ->]|Hi]%elem_of_cons.
    - destruct (Hm k' v') as [E1 E2]; [left|]. rewrite injected_other.
      + unfold MetadataInjector_set. cbn [fst snd]. rewrite E1, E2. apply lookup_insert_eq.
      + intros k2 v2 H2. destruct (Hm k2 v2) as [E3 _]; [by right|]. rewrite E3. intros [= ->]. apply Hni.
        apply list_elem_of_fmap. by exists (k', v2).
    - apply IH; [done| |done]. intros ? ? ?. apply Hm. by right. }
  destruct (Hk k v Hin) as (_ & _ & Hne).
  assert (foldl MetadataInjector_set ∅ (inject_context context) !! k = Some v) as E.
  { apply Hf; [done| |done]. intros k2 v2 H2. by destruct (Hk k2 v2 H2) as (? & ? & _). }
  destruct i; cbn -[insert lookup]; [|done]. by rewrite lookup_insert_ne.
Qed.
End Propagate.
