(* ===== verification/Connection.v ===== *)
(** * Connection: a builder and the queue runner together

    The two ends of the tunnel ([BuilderConn] and [Grpc]): who is let in, what
    the queue runner knows of a builder that joined, that a request to build
    reaches the table of active builds, and when a builder gives up. *)

From Stdlib Require Import Ascii String.
From S2P Require Import NarInfo CacheCfg Stream BinaryCache Presigned PresignedFlow.
From S2P Require Import Prelude Floats RustStr Nix Db Support Jobset Graph Result Machine Queue MachineInv.
From S2P Require Import Config Uploader FodChecker State Dispatch Grpc System Builder BuilderInv BuilderTasks BuilderConn.
Local Open Scope string_scope.
Local Open Scope list_scope.
Local Open Scope Z_scope.

(** ** The loop over the stream *)

Section Receive.
Context `{FS : FsEnv} `{CN : ConnEnv} `{EL : EnvLib} `{NS : NixSettings} `{PE : ProcEnv} `{UL : UuidLib} `{NE : NixEnv}.

(** All messages handled, one after the other; an error of one is logged. *)
Definition handle_item (s : BuilderState) (i : Item) : BuilderState :=
  match i with IMessage (Some v) => (handle_request v s).2 | _ => s end.
Definition handle_all (stream : list Item) (s : BuilderState) : BuilderState := foldl handle_item s stream.

Definition is_error (i : Item) : bool := match i with IError _ => true | IMessage _ => false end.

(** Ten failures in a row, from place [k] on. *)
Definition ten_errors (stream : list Item) (k : nat) : Prop :=
  ∀ i, (i < 10)%nat → is_error <$> stream !! (k + i)%nat = Some true.

Definition GIVE_UP : string := "Failed to communicate 10 times over the channel. Terminating the application.".

(** What the loop comes to, after the failures [es]. *)
Definition outcome (es stream : list Item) (s : BuilderState) (r : result string unit * BuilderState) : Prop :=
  (∃ k, ten_errors (es ++ stream) k ∧ r = (Err GIVE_UP, handle_all (take k (es ++ stream)) s)) ∨
  (∀ k, ¬ ten_errors (es ++ stream) k) ∧ r = (Ok tt, handle_all stream s).

Lemma errors_handle es s : Forall (λ i, is_error i = true) es → handle_all es s = s.
Proof. induction 1 as [|[m|e] es He _ IH]; [done|done|]. exact IH. Qed.

Lemma ten_errors_app es stream k : ten_errors stream k → ten_errors (es ++ stream) (length es + k).
Proof.
  intros H i Hi. rewrite lookup_app_r by lia. rewrite <-(H i Hi). do 2 f_equal. lia.
Qed.
Lemma ten_errors_message es m stream k : (length es < 10)%nat →
  ten_errors (es ++ IMessage m :: stream) k → ten_errors stream (k - S (length es)) ∧ (length es < k)%nat.
Proof.
  intros He H. assert (length es < k)%nat as Hk.
  { destruct (decide (length es < k)%nat); [done|]. specialize (H (length es - k)%nat ltac:(lia)).
    replace (k + (length es - k))%nat with (length es) in H by lia. rewrite list_lookup_middle in H by done. done. }
  split; [|done]. intros i Hi. rewrite <-(H i Hi). rewrite lookup_app_r by lia.
  replace (k + i - length es)%nat with (S (k - S (length es) + i)) by lia. done.
Qed.

Lemma receive_outcome stream : ∀ es s, Forall (λ i, is_error i = true) es → (length es < 10)%nat →
  outcome es stream s (receive (Z.of_nat (length es)) stream s).
Proof.
  induction stream as [|[m|e] stream IH]; intros es s He Hl.
  - right. rewrite app_nil_r. split; [|done]. intros k H. specialize (H 9%nat ltac:(lia)).
    rewrite lookup_ge_None_2 in H by lia. done.
  - assert (receive (Z.of_nat (length es)) (IMessage m :: stream) s =
      receive 0 stream (handle_item s (IMessage m))) as ->.
    { destruct m as [v|]; [|done]. cbn [receive]. rewrite bind_run. unfold attempt.
      cbn [handle_item]. by destruct (handle_request v s) as [r s']. }
    destruct (IH [] (handle_item s (IMessage m)) ltac:(constructor) ltac:(cbn; lia)) as [(k & Hk & Hr)|(Hn & Hr)];
      cbn [app] in *; change (Z.of_nat (length [])) with 0 in Hr; rewrite Hr.
    + left. exists (length es + S k)%nat. split.
      * apply (ten_errors_app es (IMessage m :: stream)). intros i Hi. exact (Hk i Hi).
      * rewrite take_app_add. unfold handle_all. rewrite foldl_app. cbn [take foldl].
        pose proof (errors_handle es s He) as E. unfold handle_all in E. by rewrite E.
    + right. split; [|done]. intros k [H _]%ten_errors_message; [|done]. by eapply Hn.
  - cbn [receive]. destruct (decide (length es = 9%nat)) as [E|Hne].
    + rewrite E. cbn. left. exists 0%nat. split; [|done]. intros i Hi. cbn [Nat.add].
      assert (is_Some ((es ++ IError e :: stream) !! i)) as [x Hx] by (apply lookup_lt_is_Some_2; rewrite length_app; cbn; lia).
      rewrite Hx. cbn. destruct (decide (i < 9)%nat).
      * rewrite lookup_app_l in Hx by lia. f_equal. exact (Forall_lookup_1 _ _ _ _ He Hx).
      * replace i with (length es) in Hx by lia. rewrite list_lookup_middle in Hx by done. by injection Hx as <-.
    + destruct (Z.eqb_spec (Z.of_nat (length es) + 1) 10); [lia|].
      assert (Forall (λ i, is_error i = true) (es ++ [IError e])) as He' by (by apply Forall_app_2; [|constructor]).
      specialize (IH (es ++ [IError e]) s He'). rewrite length_app in IH. cbn [length] in IH.
      replace (Z.of_nat (length es + 1)) with (Z.of_nat (length es) + 1) in IH by lia.
      destruct (IH ltac:(lia)) as [(k & Hk & Hr)|(Hn & Hr)]; rewrite Hr; rewrite <-app_assoc in *; cbn [app] in *;
        [left; by exists k|right; done].
Qed.

(** A builder listens until the stream ends or ten messages in a row
    could not be delivered: in the first case every message was handled in
    order, in the second every one before the failures. *)
Theorem receive_gives_up_exactly stream s :
  (∃ k, ten_errors stream k ∧ receive 0 stream s = (Err GIVE_UP, handle_all (take k stream) s)) ∨
  (∀ k, ¬ ten_errors stream k) ∧ receive 0 stream s = (Ok tt, handle_all stream s).
Proof. apply (receive_outcome stream [] s); [constructor|cbn; lia]. Qed.
End Receive.

(** ** Who is let in *)

Section Join.
Context `{HI : HashIter} `{FE : FloatEnv} `{TL : TimeLib} `{NE : NixEnv} `{DE : DbEnv} `{SE : StateEnv} `{UL : UuidLib}
  `{FS : FsEnv} `{CN : ConnEnv} `{EL : EnvLib} `{NS : NixSettings} `{PE : ProcEnv}.

Lemma init_client_token cli i : init_client cli = Ok i →
  match cl_authorization_file cli with
  | Some path => ∃ t, fs_read_to_string path = Some t ∧ i = Token ("Bearer " +:+ trim t)
  | None => i = Noop
  end.
Proof.
  unfold init_client. destruct (negb _); [done|]. destruct (channel_of cli) as [ch|]; [|done]. cbn [mbind result_bind].
  destruct (connect ch) as [[]|]; [|done]. cbn [mbind result_bind]. unfold get_authorization_token.
  destruct (cl_authorization_file cli) as [path|]; [|by intros [= <-]].
  destruct (fs_read_to_string path) as [t|]; [|done]. cbn [ok_or mbind result_bind].
  destruct (metadata_parses _); [|done]. intros [= <-]. by exists t.
Qed.

(** C32: when the queue runner reads its token files, exactly the builders
    whose authorization file has one of the tokens, up to white space around
    it, get past the check of their requests. *)
Theorem builder_authorized val c paths tokens cli i :
  try_from val = Ok c → ac_token_list_path val = Some paths → mapM load_token paths = Some tokens →
  init_client cli = Ok i →
  check_auth c (call i) = true ↔
  ∃ path t, cl_authorization_file cli = Some path ∧ fs_read_to_string path = Some t ∧ trim t ∈ tokens.
Proof.
  intros Hc Hp Ht Hi%init_client_token. rewrite (check_auth_tokens _ _ _ _ _ Hc Hp Ht).
  destruct (cl_authorization_file cli) as [path|].
  - destruct Hi as (t & Hr & ->). split.
    + intros (t' & [= E%str_app_cancel] & Hin). exists path, t. by subst t'.
    + intros (p' & t' & [= <-] & Hr' & Hin). simplify_eq. by exists (trim t).
  - subst i. split; [by intros (? & ? & _)|by intros (? & ? & ? & _)].
Qed.

(** ** Joining *)

(** The machine is what the builder says of itself. *)
Definition mirrors (s : BuilderState) (m : Machine) : Prop :=
  let c := bs_config s in
  mc_id m = bs_id s ∧ mc_hostname m = bs_hostname s ∧ mc_systems m = cf_systems c ∧ mc_max_jobs m = cf_max_jobs c ∧
  mc_speed_factor m = cf_speed_factor c ∧ mc_supported_features m = cf_supported_features c ∧
  mc_mandatory_features m = cf_mandatory_features c ∧ mc_use_substitutes m = cf_use_substitutes c ∧
  mc_load1_threshold m = cf_load1_threshold c ∧ mc_cpu_psi_threshold m = cf_cpu_psi_threshold c ∧
  mc_mem_psi_threshold m = cf_mem_psi_threshold c ∧ mc_io_psi_threshold m = cf_io_psi_threshold c ∧
  mc_jobs m = [].

(** What the queue runner asks of a builder that is to upload by itself. *)
Definition substituters_fit (c : PreparedApp) (s : BuilderState) : bool :=
  let forced := pa_use_presigned_uploads c && negb (bool_decide (pa_forced_substituters c = [])) in
  negb forced || cf_use_substitutes (bs_config s) && forallb (λ f, bool_decide (f ∈ get_substituters)) (pa_forced_substituters c).

Lemma machine_of_join q s jm c h :
  uuid_parse (uuid_to_string (bs_id s)) = Some (bs_id s) → get_join_message q s = Ok jm → substituters_fit c s = true →
  ∃ m h', Machine.new jm (pa_use_presigned_uploads c) (pa_forced_substituters c) h = Ok (m, h') ∧ mirrors s m.
Proof.
  intros Hid. unfold get_join_message. destruct (BaseSystemInfo_new q) as [sys|]; [|done]. cbn [mbind result_bind].
  destruct (try_u 32 _) as [n|]; [|done]. cbn [ok_or mbind result_bind]. intros [= <-] Hf.
  unfold substituters_fit in Hf. unfold Machine.new. cbn [jn_use_substitutes jn_substituters].
  set (forced := pa_use_presigned_uploads c && _) in *. 
  assert (forced && negb (cf_use_substitutes (bs_config s)) = false ∧
    forced && negb (forallb (λ f, bool_decide (f ∈ get_substituters)) (pa_forced_substituters c)) = false) as [-> ->].
  { destruct forced; [|done]. cbn in *. apply andb_true_iff in Hf as [-> ->]. done. }
  cbn [jn_machine_id]. rewrite Hid. cbn [ok_or mbind result_bind]. destruct (now h) as [t h1].
  destruct (Stats.new h1) as [stats h2]. eexists _, _. split; [reflexivity|]. by repeat split.
Qed.

Lemma insert_machine_found m w : ∃ w', insert_machine m w = (Ok (mc_id m), w') ∧ w_config w' = w_config w ∧
  w_notify_dispatch w' = true ∧
  ∃ a, Machines.get_machine_by_id (mc_id m) (w_machines w') = Some a ∧ ms_objs (w_machines w') !! a = Some m.
Proof.
  unfold insert_machine. rewrite bind_run.
  assert (∃ w1, (if decide (mc_systems m = []) then mret tt
    else on_queues (λ _, Queues.ensure_queues_for_systems (mc_systems m))) w = (Ok tt, w1) ∧ w_config w1 = w_config w)
    as (w1 & -> & Hc) by (destruct (decide (mc_systems m = [])); by eexists).
  eexists. split; [reflexivity|]. split; [done|]. split; [done|]. exists (ms_next (w_machines w1)).
  unfold Machines.get_machine_by_id. cbn. by rewrite !lookup_insert_eq.
Qed.

(** A builder with the version of the queue runner joins: the queue runner
    registers, under the builder's id, a machine with the figures, limits,
    systems and features of the builder, and the builder takes over the limit
    of downloads of the queue runner. *)
Theorem join_registers_builder version q ticks s w jm :
  uuid_parse (uuid_to_string (bs_id s)) = Some (bs_id s) → get_join_message q s = Ok jm →
  substituters_fit (w_config w) s = true →
  let limit := pa_max_concurrent_downloads (w_config w) in
  ∃ w' a m,
    open_tunnel (FMessage (head (ping_stream jm ticks s))) w = (Ok (Ok (bs_id s, (uuid_to_string (bs_id s), limit))), w') ∧
    Machines.get_machine_by_id (bs_id s) (w_machines w') = Some a ∧ ms_objs (w_machines w') !! a = Some m ∧
    mirrors s m ∧ w_notify_dispatch w' = true ∧
    start_bidirectional_stream version (Ok (check_version version version)) q ticks
      (λ _, Ok [IMessage (Some (RmJoin (uuid_to_string (bs_id s)) limit))]) s
    = (Ok tt, s <| bs_max_concurrent_downloads := limit |>).
Proof.
  intros Hid Hj Hf limit. destruct (machine_of_join q s jm (w_config w) (w_heap w) Hid Hj Hf) as (m & h & Hm & Hs).
  destruct (insert_machine_found m (w <| w_heap := h |>)) as (w' & Hw & Hc & Hn & a & Ha & Ho).
  assert (mc_id m = bs_id s) as Hi by apply Hs. rewrite Hi in *.
  exists w', a, m. split_and!; [|done..|].
  - cbn [open_tunnel ping_stream head]. rewrite bind_run. unfold new_machine. rewrite Hm. rewrite bind_run, Hw.
    rewrite bind_run. cbn. rewrite Hc. reflexivity.
  - unfold start_bidirectional_stream, check_version_compatibility, check_version. cbn [mbind result_bind vc_compatible].
    rewrite bool_decide_eq_true_2 by done. cbn [negb]. rewrite bind_run. cbn [lift_result]. rewrite bind_run. cbn [gets id].
    rewrite bind_run, Hj. reflexivity.
Qed.
(** ** Requests *)

Lemma schedule_fresh id drv p t : ta_halt t = false → contains_build p t = false → store_path_new drv = p →
  uuid_parse (uuid_to_string id) = Some id →
  BuilderTasks.schedule_build (uuid_to_string id) drv t =
    Ok (t <| ta_tasks ::= <[ta_next t := mkTask id p true false]> |> <| ta_next := S (ta_next t) |>
          <| ta_active_builds ::= <[id := mkBuildInfo p (ta_next t)]> |> <| ta_pending := None |>).
Proof.
  intros Hh Hc <- Hid. unfold BuilderTasks.schedule_build, schedule_spawn. rewrite Hh, Hc, Hid. reflexivity.
Qed.

(** What a machine's channel got is handled by its builder, in order. *)
Definition delivered (msgs : list Message) (s : BuilderState) : BuilderState :=
  handle_all ((λ msg, IMessage (Some (RmRequest (into_request msg)))) <$> msgs) s.

Lemma delivered_app ms ms' s : delivered (ms ++ ms') s = delivered ms' (delivered ms s).
Proof. unfold delivered, handle_all. by rewrite fmap_app, foldl_app. Qed.


(** ** Ending *)

(** A builder of another version ends with status 65 before it sends
    anything: the tunnel is never opened, and its state is unchanged. *)
Theorem other_version_ends server_version version q ticks tunnel s :
  server_version ≠ version →
  ∃ e, start_bidirectional_stream version (Ok (check_version server_version version)) q ticks tunnel s = (Err e, s) ∧
    exit_status (Err e) = Some 65.
Proof.
  intros Hv. unfold start_bidirectional_stream, check_version_compatibility, check_version.
  cbn [mbind result_bind vc_compatible vc_server_version]. rewrite bool_decide_eq_false_2 by congruence. cbn [negb].
  eexists. split; [reflexivity|]. reflexivity.
Qed.

(** Halted, nothing active or about to be, and the tasks [X] are cancelled. *)
Record stopped (n : nat) (X : nat → Prop) (s : Tasks) : Prop := {
  sp_halt : ta_halt s = true;
  sp_active : ta_active_builds s = ∅;
  sp_pending : ta_pending s = None;
  sp_next : ta_next s = n;
  sp_cancelled t task : X t → ta_tasks s !! t = Some task → tk_was_cancelled task = true
}.

Lemma aborts_spec l s : let s' := foldr BuilderTasks.abort s l in
  ta_halt s' = ta_halt s ∧ ta_pending s' = ta_pending s ∧ ta_next s' = ta_next s ∧
  ∀ t task, ta_tasks s' !! t = Some task → (∃ b, b ∈ l ∧ bf_task b = t) ∨
    (∃ k, ta_tasks s !! t = Some k ∧ tk_was_cancelled k = true) → tk_was_cancelled task = true.
Proof.
  induction l as [|b l (IH1 & IH2 & IH3 & IH4)]; cbn [foldr].
  - split_and!; [done..|]. intros t task Ht [(b & ?%not_elem_of_nil & _)|(k & Hk & ?)]; [done|congruence].
  - split_and!; [done..|]. intros t task. cbn [BuilderTasks.abort ta_tasks]. cbn. intros Ht Hc.
    destruct (decide (bf_task b = t)) as [<-|Hne].
    + rewrite lookup_alter_eq in Ht. by apply fmap_Some in Ht as (k & _ & ->).
    + rewrite lookup_alter_ne in Ht by done. eapply IH4; [done|].
      destruct Hc as [(b' & [->|Hb']%elem_of_cons & E)|?]; [done|left; by exists b'|by right].
Qed.

Lemma aborts_dom l s : dom (ta_tasks (foldr BuilderTasks.abort s l)) = dom (ta_tasks s).
Proof. induction l as [|b l IH]; [done|]. cbn. by rewrite dom_alter_L. Qed.

Lemma stopped_step n X ev s s' : stopped n X s → task_step ev s = Some s' → stopped n X s'.
Proof.
  intros [Hh Ha Hp Hn Hc]. assert (∀ f t, (∀ k, tk_was_cancelled (f k) = tk_was_cancelled k) →
    ∀ t' task, X t' → alter f t (ta_tasks s) !! t' = Some task → tk_was_cancelled task = true) as Hk.
  { intros f t Hf t' task HX Ht. destruct (decide (t' = t)) as [->|Hne].
    - rewrite lookup_alter_eq in Ht. apply fmap_Some in Ht as (k & Hk & ->). rewrite Hf. by eapply Hc.
    - rewrite lookup_alter_ne in Ht by done. by eapply Hc. }
  destruct ev as [build_id drv| |build_id| | |t e]; cbn [task_step]; rewrite ?Hp.
  - intros [= <-]. unfold schedule_spawn. rewrite Hh. by split.
  - done.
  - intros [= <-]. unfold BuilderTasks.abort_build. destruct (uuid_parse build_id) as [id|]; [|by split].
    cbn [ok_or mbind result_bind]. rewrite Ha, lookup_empty. split; try done. cbn. by rewrite Ha, delete_empty.
  - intros [= <-]. unfold abort_all_active_builds. pose proof (aborts_spec (iter_values (ta_active_builds s)) s) as (E1 & E2 & E3 & E4).
    split; cbn; [by rewrite E1|done|by rewrite E2|by rewrite E3|]. intros t task HX Ht. eapply E4; [done|].
    assert (is_Some (ta_tasks s !! t)) as [k Hk']; [|right; exists k; split; [done|by eapply Hc]].
    apply elem_of_dom. rewrite <-(aborts_dom (iter_values (ta_active_builds s))). by apply elem_of_dom.
  - intros [= <-]. by split.
  - unfold end_task. intros (task & Ht & He)%bind_Some. destruct (tk_running task); [|done]. cbn [negb] in He.
    destruct e; [|destruct (tk_was_cancelled task)..|]; simplify_eq; split; cbn;
      rewrite ?Ha, ?delete_empty; try done; by apply Hk.
Qed.

(** After the shutdown of a builder that is not just scheduling, nothing
    is active, every task is cancelled, and whatever happens then, no build is
    entered and no task started. *)
Theorem stopped_builder_rests evs s s' :
  ta_pending s = None → run_events evs (stop_application s) = Some s' →
  ta_active_builds s' = ∅ ∧ ta_next s' = ta_next s ∧
  ∀ id b t, ta_active_builds s !! id = Some b → ta_tasks s' !! bf_task b = Some t → tk_was_cancelled t = true.
Proof.
  intros Hp. set (X t := ∃ id b, ta_active_builds s !! id = Some b ∧ bf_task b = t).
  assert (stopped (ta_next s) X (stop_application s)) as H0.
  { unfold stop_application, abort_all_active_builds.
    assert (ta_halt (enable_halt s) = true ∧ ta_pending (enable_halt s) = None ∧ ta_next (enable_halt s) = ta_next s ∧
      ta_active_builds (enable_halt s) = ta_active_builds s) as (F1 & F2 & F3 & F4) by done.
    generalize dependent (enable_halt s). intros s1 F1 F2 F3 F4.
    destruct (aborts_spec (iter_values (ta_active_builds s1)) s1) as (E1 & E2 & E3 & E4).
    split; cbn; [by rewrite E1|done|by rewrite E2|by rewrite E3|]. intros t task (id & b & Hb & Ht) Htask.
    eapply E4; [done|]. left. exists b. split; [|done]. apply elem_of_iter_values. rewrite F4. by exists id. }
  intros Hr. assert (stopped (ta_next s) X s') as [_ Ha _ Hn Hc].
  { revert H0 Hr. generalize (stop_application s). induction evs as [|ev evs IH]; cbn [run_events].
    - by intros s0 H0 [= <-].
    - intros s0 H0 (s1 & H1 & H2)%bind_Some. eapply IH; [|exact H2]. by eapply stopped_step. }
  split_and!; [done..|]. intros id b t Hb Ht. eapply Hc; [|exact Ht]. by exists id, b.
Qed.
End Join.
