(* ===== verification/Stores.v ===== *)
(** * Stores: the Nix stores behind the program ([crates/nix-utils])

    Three layers, as in the code: the Nix library ([LibNix], a parameter), the
    C++ bindings (Module [Bindings]: [nix.cpp], [cxx/utils.cpp],
    [cxx/realisation.cpp], [cxx/hash.cpp]) and the Rust crate ([lib.rs],
    [realisation.rs], [hash.rs], [realise.rs]). The trait [BaseStore] is a
    class with three instances. The state [Outside] is everything the library
    keeps: stores, caches, settings. *)

From Stdlib Require Import Ascii String.
From S2P Require Import NarInfo CacheCfg Stream BinaryCache.
From S2P Require Import Prelude Floats RustStr Nix Db Support Jobset Graph Result Machine Queue.
From S2P Require Import Config Uploader FodChecker State Dispatch Grpc GrpcStreams Io BuilderConn.
Local Open Scope string_scope.
Local Open Scope list_scope.
Local Open Scope Z_scope.

(** ** The library *)

(** [nix::Error], as its message. *)
Abbreviation Exception := string (only parsing).

(** A store path of the library is its base name; a [StorePathSet] is ordered
    by the bytes of the names. *)
Abbreviation NPath := string (only parsing).
Abbreviation PathSet := (gset string).

(** [nix::importPaths]: it reads from a source, each time into a buffer, and
    gets the bytes or an exception; at the end it changes the store. *)
Inductive Importing (O : Type) : Type :=
| Finish (done : M O Exception unit)
| Reads (room : Z) (go : result Exception string → Importing O).
Arguments Finish {O} done.
Arguments Reads {O} room go.

(** [nix::ValidPathInfo]; the hash in base 32 with its algorithm, the content
    address as [renderContentAddress] writes it. *)
Record ValidPathInfo := mkValidPathInfo {
  vp_deriver : option NPath;
  vp_narHash : string;
  vp_references : PathSet;
  vp_registrationTime : Z;
  vp_narSize : Z;
  vp_sigs : gset string;
  vp_ca : option string
}.

(** [nix::settings], as far as the bindings read them. *)
Record Settings := mkSettings {
  nixPrefix : string; nixStore : string; buildDir : option string; nixStateDir : string; nixLogDir : string;
  thisSystem : string; extraPlatforms : gset string; systemFeatures : gset string; substituters : list string;
  useCgroups : bool
}.

(** [nix::Realisation] *)
Record NixRealisation := mkNixRealisation {
  nr_id : DrvOutput;
  nr_outPath : NPath;
  nr_signatures : gset string;
  nr_dependentRealisations : list (DrvOutput * NPath)
}.
#[export] Instance eta_NixRealisation : Eta NixRealisation := λ r,
  mkNixRealisation (nr_id r) (nr_outPath r) (nr_signatures r) (nr_dependentRealisations r).
#[export] Instance set_nr_signatures : Setter nr_signatures := ltac:(mk_setter nr_signatures).

Inductive NixHashFormat := NBase64 | NNix32 | NBase16 | NSRI.
#[export] Instance NixHashFormat_eq_dec : EqDecision NixHashFormat.
Proof. solve_decision. Defined.

Class LibNix : Type := {
  Outside : Type;
  Store : Type;
  NixDrv : Type;
  NixHash : Type;
  settings : Settings;
  nixVersion : string;
  initNix : Outside → Outside;
  set_nix_verbosity : Z → Outside → Outside;
  openStore : option string → M Outside Exception Store;
  (** Paths as text; the second follows symbolic links into the store, the
      third also gives what is below the store path. *)
  parseStorePath : Store → string → result Exception NPath;
  followLinksToStorePath : Store → string → M Outside Exception NPath;
  toStorePath : Store → string → result Exception (NPath * string);
  printStorePath : Store → NPath → string;
  (** Queries *)
  isValidPath : Store → NPath → M Outside Exception bool;
  queryPathInfo : Store → NPath → M Outside Exception ValidPathInfo;
  (** The closure is added to a set: backwards, over outputs, over derivers. *)
  computeFSClosure : Store → NPath → PathSet → bool → bool → bool → M Outside Exception PathSet;
  topoSortPaths : Store → PathSet → M Outside Exception (list NPath);
  getStats : Store → Outside → Io.FfiStoreStats;
  (** The listing of what is at a path of the store, as JSON. *)
  listNarDeep : Store → string → M Outside Exception string;
  (** Changes *)
  clearPathInfoCache : Store → M Outside Exception unit;
  ensurePath : Store → NPath → M Outside Exception unit;
  (** For stores that are binary caches. *)
  upsertFile : Store → option (string → string → string → M Outside Exception unit);
  (** The sets of paths; to repair, to check signatures, to substitute. *)
  copyPaths : Store → Store → PathSet → bool → bool → bool → M Outside Exception unit;
  importPaths : Store → bool → Outside → Importing Outside;
  fd_read : Z → Z → M Outside Exception string;
  (** The pieces of an archive and the exception at its end. *)
  exportPaths : Store → PathSet → M Outside Exception (list string * option Exception);
  narFromPath : Store → NPath → M Outside Exception (list string * option Exception);
  (** Derivations *)
  readDerivation : Store → NPath → M Outside Exception NixDrv;
  tryResolve : NixDrv → Store → M Outside Exception (option NixDrv);
  writeDerivation : Store → NixDrv → M Outside Exception NPath;
  (** Name and hash of each output, in base 16 with the algorithm. *)
  staticOutputHashes : Store → NixDrv → M Outside Exception (list (string * string));
  (** Hashes and signatures *)
  signDetached : string → string → string;
  parseAny : string → option HashAlgorithm → result Exception NixHash;
  hash_to_string : NixHash → NixHashFormat → bool → string;
  (** Realisations *)
  queryRealisation : Store → DrvOutput → M Outside Exception (option NixRealisation);
  parseDrvOutput : string → result Exception DrvOutput;
  realisation_from_json : string → result Exception NixRealisation;
  realisation_to_json : NixRealisation → string;
  realisation_fingerprint : NixRealisation → string;
  realisation_signature : string → string → result Exception string;
  (** The cache on disk, unless it is disabled. *)
  upsertRealisation : option (Store → NixRealisation → M Outside Exception unit)
}.

(** What a call with [Result] does: it answers or throws. *)
Abbreviation EM := (M Outside Exception) (only parsing).

(** A set of strings in the order of its iterator. *)
Definition in_order (X : gset string) : list string := merge_sort (λ a b, Is_true (String.leb a b)) (elements X).

Lemma in_order_perm X : in_order X ≡ₚ elements X.
Proof. apply merge_sort_Permutation. Qed.
Lemma elem_of_in_order x X : x ∈ in_order X ↔ x ∈ X.
Proof. by rewrite in_order_perm, elem_of_elements. Qed.
Lemma NoDup_in_order X : NoDup (in_order X).
Proof. rewrite in_order_perm. apply NoDup_elements. Qed.

(** ** The structs that cross the bindings *)

Record StoreWrapper `{LibNix} := mkStoreWrapper { sw_store : Store }.
Arguments mkStoreWrapper {_} _.
Arguments sw_store {_} _.
Record DerivationHash := mkDerivationHash { dh_output_name : string; dh_drv_hash : string }.
Record DrvOutputPathTuple := mkDrvOutputPathTuple { dt_id : DrvOutput; dt_path : string }.
Record SharedRealisation := mkSharedRealisation {
  sr_id : DrvOutput;
  sr_out_path : string;
  sr_signatures : list string;
  sr_dependent_realisations : list DrvOutputPathTuple
}.
Inductive HashFormat := Base64 | Nix32 | Base16 | SRI.
Inductive OptionalHashAlgorithm := NoAlgorithm | OptMD5 | OptSHA1 | OptSHA256 | OptSHA512 | OptBLAKE3.

(** The library with the flag of [nix.cpp] that says whether it is ready. *)
Record Process `{LibNix} := mkProcess { pr_initializedNix : bool; pr_outside : Outside }.
Arguments mkProcess {_} _ _.
Arguments pr_initializedNix {_} _.
Arguments pr_outside {_} _.

Module Bindings.
Section Bindings.
Context `{LN : LibNix}.

Definition extract_opt_path (store : Store) (v : option NPath) : string :=
  match v with Some p => printStorePath store p | None => "" end.
Definition extract_path_set (store : Store) (set : PathSet) : list string := printStorePath store <$> in_order set.
Definition extract_paths (store : Store) (paths : list NPath) : list string := printStorePath store <$> paths.

(** Nothing else holds the mutex between the two tests: see [InitNix]. *)
Definition init_nix (p : Process) : Process :=
  if pr_initializedNix p then p else mkProcess true (initNix (pr_outside p)).
(** The bindings without [Result] end the process when the library throws. *)
Definition init (uri : string) (p : Process) : result Exception StoreWrapper * Process :=
  let p := init_nix p in
  let '(r, o) := openStore (if decide (uri = "") then None else Some uri) (pr_outside p) in
  (mkStoreWrapper <$> r, mkProcess (pr_initializedNix p) o).

Definition get_build_dir : string :=
  match buildDir settings with Some d => d | None => nixStateDir settings +:+ "/builds" end.
Definition get_extra_platforms : list string := in_order (extraPlatforms settings).
Definition get_system_features : list string := in_order (systemFeatures settings).
Definition get_substituters : list string := substituters settings.

Definition is_valid_path (w : StoreWrapper) (path : string) : EM bool :=
  p ← lift_result (parseStorePath (sw_store w) path); isValidPath (sw_store w) p.

Definition query_path_info (w : StoreWrapper) (path : string) : EM InternalPathInfo :=
  p ← lift_result (parseStorePath (sw_store w) path);
  info ← queryPathInfo (sw_store w) p;
  mret (mkInternalPathInfo (extract_opt_path (sw_store w) (vp_deriver info)) (vp_narHash info)
          (vp_registrationTime info) (vp_narSize info) (extract_path_set (sw_store w) (vp_references info))
          (in_order (vp_sigs info)) (default "" (vp_ca info))).

Fixpoint total_nar_size (store : Store) (closure : list NPath) (totalNarSize : Z) : EM Z :=
  match closure with
  | [] => mret totalNarSize
  | p :: closure' => info ← queryPathInfo store p; total_nar_size store closure' (u64_wrap (totalNarSize + vp_narSize info))
  end.
Definition compute_closure_size (w : StoreWrapper) (path : string) : EM Z :=
  p ← lift_result (parseStorePath (sw_store w) path);
  closure ← computeFSClosure (sw_store w) p ∅ false false false;
  total_nar_size (sw_store w) (in_order closure) 0.

Definition clear_path_info_cache (w : StoreWrapper) : EM unit := clearPathInfoCache (sw_store w).

Definition compute_fs_closure (w : StoreWrapper) (path : string) (flip_direction include_outputs include_derivers : bool)
  : EM (list string) :=
  p ← lift_result (parseStorePath (sw_store w) path);
  path_set ← computeFSClosure (sw_store w) p ∅ flip_direction include_outputs include_derivers;
  mret (extract_path_set (sw_store w) path_set).

Fixpoint closures (store : Store) (paths : list string) (flip_direction include_outputs include_derivers : bool)
    (path_set : PathSet) : EM PathSet :=
  match paths with
  | [] => mret path_set
  | path :: paths' =>
      p ← lift_result (parseStorePath store path);
      path_set ← computeFSClosure store p path_set flip_direction include_outputs include_derivers;
      closures store paths' flip_direction include_outputs include_derivers path_set
  end.
Definition compute_fs_closures (w : StoreWrapper) (paths : list string)
    (flip_direction include_outputs include_derivers toposort : bool) : EM (list string) :=
  path_set ← closures (sw_store w) paths flip_direction include_outputs include_derivers ∅;
  if toposort then sorted ← topoSortPaths (sw_store w) path_set; mret (extract_paths (sw_store w) sorted)
  else mret (extract_path_set (sw_store w) path_set).

Definition upsert_file (w : StoreWrapper) (path data mime_type : string) : EM unit :=
  match upsertFile (sw_store w) with
  | None => throw "Not a binary chache store"
  | Some upsert => upsert path data mime_type
  end.

Definition get_store_stats (w : StoreWrapper) : EM Io.FfiStoreStats := gets (getStats (sw_store w)).

(** The loops that collect paths in a set. *)
Fixpoint parse_all (parse : string → EM NPath) (paths : list string) (path_set : PathSet) : EM PathSet :=
  match paths with
  | [] => mret path_set
  | path :: paths' => p ← parse path; parse_all parse paths' ({[p]} ∪ path_set)
  end.

Definition copy_paths (src_store dst_store : StoreWrapper) (paths : list string) (repair check_sigs substitute : bool)
  : EM unit :=
  path_set ← parse_all (λ p, lift_result (parseStorePath (sw_store src_store) p)) paths ∅;
  copyPaths (sw_store src_store) (sw_store dst_store) path_set repair check_sigs substitute.

(** [LambdaSource]: no bytes are the end of the stream. *)
Definition END_OF_STREAM : Exception := "End of stream reached".
Fixpoint pull {R} (callback : Z → R → string * R) (i : Importing Outside) (reader : R) : EM unit :=
  match i with
  | Finish done => done
  | Reads room go =>
      let '(data, reader) := callback room reader in
      pull callback (go (if decide (data = "") then Err END_OF_STREAM else Ok data)) reader
  end.
Definition import_paths {R} (w : StoreWrapper) (check_sigs : bool) (reader : R) (callback : Z → R → string * R) : EM unit :=
  λ o, pull callback (importPaths (sw_store w) check_sigs o) reader o.

Fixpoint pull_fd (fd : Z) (i : Importing Outside) : EM unit :=
  match i with
  | Finish done => done
  | Reads room go => λ o, let '(r, o) := fd_read fd room o in pull_fd fd (go r) o
  end.
Definition import_paths_with_fd (w : StoreWrapper) (check_sigs : bool) (fd : Z) : EM unit :=
  λ o, pull_fd fd (importPaths (sw_store w) check_sigs o) o.

(** [LambdaSink]: the callback gets piece after piece; when it answers [false]
    the export stops, and that is no error. *)
Fixpoint push {C} (callback : string → C → bool * C) (pieces : list string) (error : option Exception) (user_data : C)
  : result Exception unit * C :=
  match pieces with
  | [] => (match error with Some e => Err e | None => Ok tt end, user_data)
  | v :: pieces' =>
      let '(ret, user_data) := callback v user_data in
      if ret : bool then push callback pieces' error user_data else (Ok tt, user_data)
  end.
(** An export with a callback: the outcome, the data of the callback, the rest. *)
Definition exporting {C} (m : EM (list string * option Exception)) (callback : string → C → bool * C) (user_data : C)
    (o : Outside) : result Exception unit * C * Outside :=
  match m o with
  | (Err e, o) => (Err e, user_data, o)
  | (Ok (pieces, error), o) => (push callback pieces error user_data, o)
  end.
Definition export_paths {C} (w : StoreWrapper) (paths : list string) (callback : string → C → bool * C) (user_data : C) :=
  exporting (path_set ← parse_all (followLinksToStorePath (sw_store w)) paths ∅; exportPaths (sw_store w) path_set)
    callback user_data.
Definition nar_from_path {C} (w : StoreWrapper) (path : string) (callback : string → C → bool * C) (user_data : C) :=
  exporting (p ← followLinksToStorePath (sw_store w) path; narFromPath (sw_store w) p) callback user_data.

(** Keys of a JSON object come in their order. *)
Definition in_quotes (s : string) : string := String QUOTE (s +:+ String QUOTE "").
Definition list_nar_deep (w : StoreWrapper) (path : string) : EM string :=
  '(store_path, rest) ← lift_result (toStorePath (sw_store w) path);
  root ← listNarDeep (sw_store w) (store_path +:+ rest);
  mret ("{" +:+ in_quotes "root" +:+ ":" +:+ root +:+ "," +:+ in_quotes "version" +:+ ":1}").

Definition ensure_path (w : StoreWrapper) (path : string) : EM unit :=
  p ← followLinksToStorePath (sw_store w) path; ensurePath (sw_store w) p.

Definition try_resolve_drv (w : StoreWrapper) (path : string) : EM string :=
  p ← lift_result (parseStorePath (sw_store w) path);
  drv ← readDerivation (sw_store w) p;
  resolved ← tryResolve drv (sw_store w);
  match resolved with
  | None => mret ""
  | Some resolved => resolved_path ← writeDerivation (sw_store w) resolved; mret (extract_opt_path (sw_store w) (Some resolved_path))
  end.

Definition static_output_hashes (w : StoreWrapper) (drv_path : string) : EM (list DerivationHash) :=
  p ← lift_result (parseStorePath (sw_store w) drv_path);
  drv ← readDerivation (sw_store w) p;
  hashes ← staticOutputHashes (sw_store w) drv;
  mret ((λ '(name, hash), mkDerivationHash name hash) <$> hashes).

(** [cxx/hash.cpp] *)
Definition convert_algo (algo : OptionalHashAlgorithm) : option HashAlgorithm :=
  match algo with
  | NoAlgorithm => None | OptMD5 => Some MD5 | OptSHA1 => Some SHA1 | OptSHA256 => Some SHA256
  | OptSHA512 => Some SHA512 | OptBLAKE3 => Some BLAKE3
  end.
Definition convert_format (format : HashFormat) : NixHashFormat :=
  match format with Base64 => NBase64 | Nix32 => NNix32 | Base16 => NBase16 | SRI => NSRI end.
Definition convert_hash (s : string) (algo : OptionalHashAlgorithm) (out_format : HashFormat) : result Exception string :=
  h ← parseAny s (convert_algo algo);
  let f := convert_format out_format in
  Ok (hash_to_string h f (bool_decide (f = NSRI))).

(** [cxx/realisation.cpp] *)
Definition to_rust (r : NixRealisation) (w : StoreWrapper) : SharedRealisation :=
  mkSharedRealisation (nr_id r) (printStorePath (sw_store w) (nr_outPath r)) (in_order (nr_signatures r))
    ((λ '(id, p), mkDrvOutputPathTuple id (printStorePath (sw_store w) p)) <$> nr_dependentRealisations r).
Definition sign (secret_key : string) (r : NixRealisation) : result Exception NixRealisation :=
  s ← realisation_signature secret_key (realisation_fingerprint r);
  Ok (r <| nr_signatures ::= λ ss, {[s]} ∪ ss |>).
Definition clear_signatures (r : NixRealisation) : NixRealisation := r <| nr_signatures := ∅ |>.
Definition write_to_disk_cache (r : NixRealisation) (w : StoreWrapper) : EM unit :=
  match upsertRealisation with Some upsert => upsert (sw_store w) r | None => mret tt end.
Definition query_raw_realisation (w : StoreWrapper) (output_id : string) : EM NixRealisation :=
  id ← lift_result (parseDrvOutput output_id);
  realisation ← queryRealisation (sw_store w) id;
  lift_opt ("output_id '" +:+ output_id +:+ "' isn't found") realisation.
End Bindings.
End Bindings.

(** ** The crate: errors and tasks *)

Module NixError.
Inductive t :=
| Io (e : string)
| TokioJoin (e : string)
| Utf8
| Stream
| Exit (status : option Z)
| Thrown (e : Exception)
| Anyhow (e : string)
| HashParseError (e : ParseError).
End NixError.
Abbreviation NixError := NixError.t.
Abbreviation NM := (M Outside NixError) (only parsing).

(** The code of a status; [None]: ended by a signal. *)
Definition validate_statuscode (status : option Z) : result NixError unit :=
  if decide (status = Some 0) then Ok tt else Err (NixError.Exit status).

(** [tokio]: a task that the runtime does not run any more is lost; a runtime
    may not start. *)
Class Tokio `{LibNix} : Type := {
  task_lost : Outside → bool;
  runtime_error : Outside → option string
}.

(** [url::Url::host_str] *)
Class UrlHost : Type := { host_str : Url → option string }.

Section Crate.
Context `{LN : LibNix} `{TK : !Tokio}.

Definition asyncify {A} (f : EM A) : NM A := λ o,
  if task_lost o then (Err (NixError.Io "background task failed"), o)
  else let '(r, o) := f o in (map_err NixError.Thrown r, o).

(** The result of a task when nobody looks at its error. *)
Definition ignoring {A} (d : A) (m : NM A) : Outside → A * Outside := λ o,
  match m o with (Ok a, o) => (a, o) | (Err _, o) => (d, o) end.

Definition get_nix_prefix : string := nixPrefix settings.
Definition get_store_dir (p : Process) : string * Process := (nixStore settings, Bindings.init_nix p).
Definition get_log_dir : string := nixLogDir settings.
Definition get_state_dir : string := nixStateDir settings.
Definition set_verbosity (level : Z) (o : Outside) : Outside := set_nix_verbosity level o.
Definition sign_string (secret_key msg : string) : string := signDetached secret_key msg.

(** What the builder asks of the settings. *)
#[export] Instance libnix_settings : NixSettings := {|
  get_this_system := thisSystem settings;
  get_extra_platforms := Bindings.get_extra_platforms;
  get_system_features := Bindings.get_system_features;
  get_substituters := Bindings.get_substituters;
  get_nix_version := nixVersion;
  get_use_cgroups := useCgroups settings;
  get_build_dir := Bindings.get_build_dir
|}.

(** [StorePath::new] strips the directory of the settings. *)
Definition store_path_new (p : string) : StorePath := StorePath.new (nixStore settings) p.

Definition path_info_from (val : InternalPathInfo) : PathInfo :=
  mkPathInfo
    (if decide (ipi_deriver val = "") then None else Some (store_path_new (ipi_deriver val)))
    (ipi_nar_hash val) (ipi_registration_time val) (ipi_nar_size val)
    (store_path_new <$> ipi_refs val) (ipi_sigs val)
    (if decide (ipi_ca val = "") then None else Some (ipi_ca val)).

(** ** The trait *)

(** Calls that cannot fail give their answer, others a result. *)
Class BaseStore (S : Type) : Type := {
  is_valid_path : S → StorePath → Outside → bool * Outside;
  query_path_info : S → StorePath → Outside → option PathInfo * Outside;
  query_path_infos : S → list StorePath → Outside → gmap StorePath PathInfo * Outside;
  compute_closure_size : S → StorePath → Outside → Z * Outside;
  clear_path_info_cache : S → Outside → Outside;
  compute_fs_closure : S → string → bool → bool → bool → EM (list string);
  compute_fs_closures : S → list StorePath → bool → bool → bool → bool → NM (list StorePath);
  query_requisites : S → list StorePath → bool → NM (list StorePath);
  get_store_stats : S → EM Io.FfiStoreStats;
  import_paths : S → list (result string string) → bool → NM unit;
  import_paths_with_fd : S → Z → bool → EM unit;
  export_paths : ∀ {C}, S → list StorePath → (string → C → bool * C) → C → Outside → result Exception unit * C * Outside;
  nar_from_path : ∀ {C}, S → StorePath → (string → C → bool * C) → C → Outside → result Exception unit * C * Outside;
  list_nar_deep : S → StorePath → NM string;
  ensure_path : S → StorePath → NM unit;
  try_resolve_drv : S → StorePath → Outside → option StorePath * Outside;
  static_output_hashes : S → StorePath → NM (gmap string string);
  print_store_path : S → StorePath → string
}.

End Crate.

(** ** The store behind all others *)

Record BaseStoreImpl `{LibNix} := mkBaseStoreImpl { bs_wrapper : StoreWrapper; bs_store_path_prefix : string }.
Arguments mkBaseStoreImpl {_} _ _.
Arguments bs_wrapper {_} _.
Arguments bs_store_path_prefix {_} _.

(** A pointer to a closure goes through the bindings as a number. *)
Definition import_paths_trampoline {R} (closure : Z → R → string * R) (room : Z) (reader : R) : string * R := closure room reader.
Definition export_paths_trampoline {C} (closure : string → C → bool * C) (data : string) (userdata : C) : bool * C :=
  closure data userdata.

Module BaseImpl.
Section Base.
Context `{LN : LibNix} `{TK : !Tokio}.
Definition new (store : StoreWrapper) (p : Process) : BaseStoreImpl * Process :=
  let '(dir, p) := get_store_dir p in (mkBaseStoreImpl store dir, p).

Definition print_store_path (s : BaseStoreImpl) (path : StorePath) : string :=
  bs_store_path_prefix s +:+ "/" +:+ StorePath.base_name path.

Definition is_valid_path (s : BaseStoreImpl) (path : StorePath) : Outside → bool * Outside :=
  ignoring false (asyncify (Bindings.is_valid_path (bs_wrapper s) (print_store_path s path))).

(** [.ok().map(Into::into)] on what the binding answers. *)
Definition info_of (s : BaseStoreImpl) (path : StorePath) : EM (option PathInfo) := λ o,
  match Bindings.query_path_info (bs_wrapper s) (print_store_path s path) o with
  | (Ok info, o) => (Ok (Some (path_info_from info)), o)
  | (Err _, o) => (Ok None, o)
  end.
Definition query_path_info (s : BaseStoreImpl) (path : StorePath) : Outside → option PathInfo * Outside :=
  ignoring None (asyncify (info_of s path)).

Fixpoint infos_of (s : BaseStoreImpl) (paths : list StorePath) (res : gmap StorePath PathInfo)
  : EM (gmap StorePath PathInfo) :=
  match paths with
  | [] => mret res
  | p :: paths' =>
      info ← info_of s p;
      infos_of s paths' (match info with Some info => <[p := info]> res | None => res end)
  end.
Definition query_path_infos (s : BaseStoreImpl) (paths : list StorePath) : Outside → gmap StorePath PathInfo * Outside :=
  ignoring ∅ (asyncify (infos_of s paths ∅)).

Definition compute_closure_size (s : BaseStoreImpl) (path : StorePath) : Outside → Z * Outside :=
  ignoring 0 (asyncify (Bindings.compute_closure_size (bs_wrapper s) (print_store_path s path))).

Definition clear_path_info_cache (s : BaseStoreImpl) (o : Outside) : Outside :=
  (Bindings.clear_path_info_cache (bs_wrapper s) o).2.

Definition compute_fs_closures (s : BaseStoreImpl) (paths : list StorePath)
    (flip_direction include_outputs include_derivers toposort : bool) : NM (list StorePath) :=
  asyncify (ps ← Bindings.compute_fs_closures (bs_wrapper s) (print_store_path s <$> paths)
                   flip_direction include_outputs include_derivers toposort;
            mret (store_path_new <$> ps)).

Definition query_requisites (s : BaseStoreImpl) (drvs : list StorePath) (include_outputs : bool) : NM (list StorePath) :=
  out ← compute_fs_closures s drvs false include_outputs false true;
  mret (reverse out).

(** [import_paths_with_cb] in a task of its own. *)
Definition import_paths_with_cb {R} (s : BaseStoreImpl) (callback : Z → R → string * R) (reader : R) (check_sigs : bool)
  : NM unit := λ o,
  match runtime_error o with
  | Some e => (Err (NixError.Io e), o)
  | None =>
      let '(r, o) := Bindings.import_paths (bs_wrapper s) check_sigs reader (import_paths_trampoline callback) o in
      (map_err NixError.Thrown r, o)
  end.
Definition import_paths (s : BaseStoreImpl) (stream : list (result string string)) (check_sigs : bool) : NM unit := λ o,
  if task_lost o then (Err (NixError.TokioJoin "task was cancelled"), o)
  else import_paths_with_cb s read_callback (stream_reader stream) check_sigs o.

Definition export_paths {C} (s : BaseStoreImpl) (paths : list StorePath) (callback : string → C → bool * C) (data : C)
  : Outside → result Exception unit * C * Outside :=
  Bindings.export_paths (bs_wrapper s) (print_store_path s <$> paths) (export_paths_trampoline callback) data.
Definition nar_from_path {C} (s : BaseStoreImpl) (path : StorePath) (callback : string → C → bool * C) (data : C)
  : Outside → result Exception unit * C * Outside :=
  Bindings.nar_from_path (bs_wrapper s) (print_store_path s path) (export_paths_trampoline callback) data.

Definition list_nar_deep (s : BaseStoreImpl) (path : StorePath) : NM string :=
  asyncify (Bindings.list_nar_deep (bs_wrapper s) (print_store_path s path)).
Definition ensure_path (s : BaseStoreImpl) (path : StorePath) : NM unit :=
  asyncify (Bindings.ensure_path (bs_wrapper s) (print_store_path s path)).

(** [v.is_empty().then_some(v)] *)
Definition try_resolve_drv (s : BaseStoreImpl) (path : StorePath) : Outside → option StorePath * Outside :=
  ignoring None (asyncify (v ← Bindings.try_resolve_drv (bs_wrapper s) (print_store_path s path);
                           mret (if decide (v = "") then Some (store_path_new v) else None))).

Definition static_output_hashes (s : BaseStoreImpl) (drv_path : StorePath) : NM (gmap string string) :=
  asyncify (o ← Bindings.static_output_hashes (bs_wrapper s) (print_store_path s drv_path);
            mret (foldl (λ m v, <[dh_output_name v := dh_drv_hash v]> m) ∅ o)).
End Base.
End BaseImpl.

Section Instances.
Context `{LN : LibNix} `{TK : !Tokio} `{UL : UrlLib} `{UH : UrlHost} `{FS : FsEnv}.

#[export] Instance BaseStoreImpl_store : BaseStore BaseStoreImpl := {|
  is_valid_path := BaseImpl.is_valid_path;
  query_path_info := BaseImpl.query_path_info;
  query_path_infos := BaseImpl.query_path_infos;
  compute_closure_size := BaseImpl.compute_closure_size;
  clear_path_info_cache := BaseImpl.clear_path_info_cache;
  compute_fs_closure s := Bindings.compute_fs_closure (bs_wrapper s);
  compute_fs_closures := BaseImpl.compute_fs_closures;
  query_requisites := BaseImpl.query_requisites;
  get_store_stats s := Bindings.get_store_stats (bs_wrapper s);
  import_paths := BaseImpl.import_paths;
  import_paths_with_fd s fd check_sigs := Bindings.import_paths_with_fd (bs_wrapper s) check_sigs fd;
  export_paths C := BaseImpl.export_paths;
  nar_from_path C := BaseImpl.nar_from_path;
  list_nar_deep := BaseImpl.list_nar_deep;
  ensure_path := BaseImpl.ensure_path;
  try_resolve_drv := BaseImpl.try_resolve_drv;
  static_output_hashes := BaseImpl.static_output_hashes;
  print_store_path := BaseImpl.print_store_path
|}.

(** [copy_paths]: the paths as the source prints them. *)
Definition copy_paths (src dst : BaseStoreImpl) (paths : list StorePath) (repair check_sigs substitute : bool) : NM unit :=
  asyncify (Bindings.copy_paths (bs_wrapper src) (bs_wrapper dst) (print_store_path src <$> paths)
              repair check_sigs substitute).

(** The checks of several paths, in order: [buffered] keeps it. *)
Fixpoint missing {S A} `{BaseStore S} (s : S) (path_of : A → option StorePath) (l : list A) (o : Outside) : list A * Outside :=
  match l with
  | [] => ([], o)
  | x :: l' =>
      match path_of x with
      | None => missing s path_of l' o
      | Some p =>
          let '(valid, o) := is_valid_path s p o in
          let '(r, o) := missing s path_of l' o in
          (if valid : bool then r else x :: r, o)
      end
  end.

(** ** The local store *)

Record LocalStore := mkLocalStore { ls_base : BaseStoreImpl }.

Definition LocalStore_init (p : Process) : result Exception LocalStore * Process :=
  match Bindings.init "" p with
  | (Ok w, p) => let '(base, p) := BaseImpl.new w p in (Ok (mkLocalStore base), p)
  | (Err e, p) => (Err e, p)
  end.
Definition as_base_store (s : LocalStore) : BaseStoreImpl := ls_base s.
Definition get_store_path_prefix (s : LocalStore) : string := bs_store_path_prefix (ls_base s).
Definition unsafe_set_store_path_prefix (prefix : string) (s : LocalStore) : LocalStore :=
  mkLocalStore (mkBaseStoreImpl (bs_wrapper (ls_base s)) prefix).

#[export] Instance LocalStore_store : BaseStore LocalStore := {|
  is_valid_path s := is_valid_path (ls_base s);
  query_path_info s := query_path_info (ls_base s);
  query_path_infos s := query_path_infos (ls_base s);
  compute_closure_size s := compute_closure_size (ls_base s);
  clear_path_info_cache s := clear_path_info_cache (ls_base s);
  compute_fs_closure s := compute_fs_closure (ls_base s);
  compute_fs_closures s := compute_fs_closures (ls_base s);
  query_requisites s := query_requisites (ls_base s);
  get_store_stats s := get_store_stats (ls_base s);
  import_paths s := import_paths (ls_base s);
  import_paths_with_fd s := import_paths_with_fd (ls_base s);
  export_paths C s := export_paths (ls_base s);
  nar_from_path C s := nar_from_path (ls_base s);
  list_nar_deep s := list_nar_deep (ls_base s);
  ensure_path s := ensure_path (ls_base s);
  try_resolve_drv s := try_resolve_drv (ls_base s);
  static_output_hashes s := static_output_hashes (ls_base s);
  print_store_path s := print_store_path (ls_base s)
|}.

Definition query_missing_outputs (s : LocalStore) (outputs : list Output) (o : Outside) : list Output * Outside :=
  missing s o_path outputs o.

(** ** Remote stores *)

Record RemoteStore := mkRemoteStore { rs_base : BaseStoreImpl; rs_uri : string; rs_base_uri : string }.

Definition RemoteStore_init (uri : string) (p : Process) : result Exception RemoteStore * Process :=
  let base_uri := match url_parse uri with Ok v => default "" (host_str v) | Err _ => "" end in
  match Bindings.init uri p with
  | (Ok w, p) => let '(base, p) := BaseImpl.new w p in (Ok (mkRemoteStore base uri base_uri), p)
  | (Err e, p) => (Err e, p)
  end.

#[export] Instance RemoteStore_store : BaseStore RemoteStore := {|
  is_valid_path s := is_valid_path (rs_base s);
  query_path_info s := query_path_info (rs_base s);
  query_path_infos s := query_path_infos (rs_base s);
  compute_closure_size s := compute_closure_size (rs_base s);
  clear_path_info_cache s := clear_path_info_cache (rs_base s);
  compute_fs_closure s := compute_fs_closure (rs_base s);
  compute_fs_closures s := compute_fs_closures (rs_base s);
  query_requisites s := query_requisites (rs_base s);
  get_store_stats s := get_store_stats (rs_base s);
  import_paths s := import_paths (rs_base s);
  import_paths_with_fd s := import_paths_with_fd (rs_base s);
  export_paths C s := export_paths (rs_base s);
  nar_from_path C s := nar_from_path (rs_base s);
  list_nar_deep s := list_nar_deep (rs_base s);
  ensure_path s := ensure_path (rs_base s);
  try_resolve_drv s := try_resolve_drv (rs_base s);
  static_output_hashes s := static_output_hashes (rs_base s);
  print_store_path s := print_store_path (rs_base s)
|}.

(** A file that cannot be read is no error. *)
Definition upsert_file (s : RemoteStore) (path local_path mime_type : string) : NM unit :=
  asyncify (match fs_read_to_string local_path with
            | Some data => Bindings.upsert_file (bs_wrapper (rs_base s)) path data mime_type
            | None => mret tt
            end).

Definition query_missing_paths (s : RemoteStore) (paths : list StorePath) (o : Outside) : list StorePath * Outside :=
  missing s Some paths o.
Definition query_missing_remote_outputs (s : RemoteStore) (outputs : list Output) (o : Outside) : list Output * Outside :=
  missing s o_path outputs o.
End Instances.

(** ** Realisations ([realisation.rs]) *)

Record FfiRealisation := mkFfiRealisation { fr_inner : NixRealisation }.

#[export] Instance DrvOutput_eq_dec : EqDecision DrvOutput.
Proof. solve_decision. Defined.
#[export] Instance DrvOutput_countable : Countable DrvOutput.
Proof.
  by apply (inj_countable' (λ d, (do_drv_hash d, do_output_name d)) (λ '(h, n), mkDrvOutput h n)); intros [].
Defined.

Record Realisation := mkRealisation {
  re_id : DrvOutput;
  re_out_path : StorePath;
  re_signatures : list string;
  re_dependent_realisations : gmap DrvOutput StorePath
}.

Class RealisationOperations `{LibNix} (S : Type) : Type := {
  query_raw_realisation : S → string → string → NM FfiRealisation;
  parse_realisation : S → string → NM FfiRealisation
}.

Section Realisations.
Context `{LN : LibNix} `{TK : !Tokio}.

Definition realisation_from (value : SharedRealisation) : Realisation :=
  mkRealisation (sr_id value) (store_path_new (sr_out_path value)) (sr_signatures value)
    (foldl (λ m v, <[dt_id v := store_path_new (dt_path v)]> m) ∅ (sr_dependent_realisations value)).

Definition as_json (r : FfiRealisation) : string := realisation_to_json (fr_inner r).
Definition as_rust (r : FfiRealisation) (s : BaseStoreImpl) : Realisation :=
  realisation_from (Bindings.to_rust (fr_inner r) (bs_wrapper s)).
Definition get_id (r : FfiRealisation) : DrvOutput := nr_id (fr_inner r).
Definition fingerprint (r : FfiRealisation) : string := realisation_fingerprint (fr_inner r).
(** The object is changed in place; an exception leaves it as it was. *)
Definition sign (secret_key : string) (r : FfiRealisation) : result NixError FfiRealisation :=
  map_err NixError.Thrown (mkFfiRealisation <$> Bindings.sign secret_key (fr_inner r)).
Definition clear_signatures (r : FfiRealisation) : FfiRealisation := mkFfiRealisation (Bindings.clear_signatures (fr_inner r)).

(** Calls on the thread of the caller: an exception becomes an error. *)
Definition converting {A} (m : EM A) : NM A := λ o, let '(r, o) := m o in (map_err NixError.Thrown r, o).
Definition write_to_disk_cache (r : FfiRealisation) (s : BaseStoreImpl) : NM unit :=
  converting (Bindings.write_to_disk_cache (fr_inner r) (bs_wrapper s)).

#[export] Instance BaseStoreImpl_realisations : RealisationOperations BaseStoreImpl := {|
  query_raw_realisation s output_hash output_name :=
    r ← converting (Bindings.query_raw_realisation (bs_wrapper s) (output_hash +:+ "!" +:+ output_name));
    mret (mkFfiRealisation r);
  parse_realisation s json_string :=
    r ← converting (lift_result (realisation_from_json json_string)); mret (mkFfiRealisation r)
|}.
#[export] Instance LocalStore_realisations : RealisationOperations LocalStore := {|
  query_raw_realisation s := query_raw_realisation (ls_base s);
  parse_realisation s := parse_realisation (ls_base s)
|}.

(** ** Hashes ([hash.rs]) *)

Definition optional_algorithm (value : option HashAlgorithm) : OptionalHashAlgorithm :=
  match value with
  | None => NoAlgorithm
  | Some MD5 => OptMD5 | Some SHA1 => OptSHA1 | Some SHA256 => OptSHA256 | Some SHA512 => OptSHA512
  | Some BLAKE3 => OptBLAKE3
  end.
Definition convert_hash (s : string) (algo : option HashAlgorithm) (out_format : HashFormat) : result Exception string :=
  Bindings.convert_hash s (optional_algorithm algo) out_format.

(** [CAOutput::get_sri_hash] of [drv.rs] *)
Definition get_sri_hash (o : CAOutput) : result NixError string :=
  algo ← map_err NixError.HashParseError (sri_algo o);
  map_err NixError.Thrown (convert_hash (ca_hash o) (Some algo) SRI).

(** ** The process of a build ([realise.rs]) *)

(** What is given to [tokio::process::Command]. *)
Record Command := mkCommand {
  cmd_program : string; cmd_args : list string; cmd_kill_on_drop : bool; cmd_stdout_piped : bool; cmd_stderr_piped : bool }.

Definition realise_command (s : LocalStore) (drvs : list StorePath) (opts : BuildOptions.t) (kill_on_drop : bool) : Command :=
  mkCommand "nix-store"
    (["-r"; "--quiet"; "--no-gc-warning"; "--max-silent-time"; show_Z (BuildOptions.max_silent_time opts);
      "--timeout"; show_Z (BuildOptions.build_timeout opts);
      "--option"; "max-build-log-size"; show_Z (BuildOptions.max_log_size opts);
      "--option"; "fallback"; "true"; "--option"; "substitute"; "false"; "--option"; "builders"; ""] ++
     (if BuildOptions.check opts then ["--check"] else []) ++ (print_store_path s <$> drvs))
    kill_on_drop true true.

(** A process that was started, with its output streams. *)
Class Processes : Type := {
  Child : Type;
  spawn : Command → EM Child;
  take_stdout : Child → option (list (result string string));
  take_stderr : Child → option (list (result string string));
  (** [StreamExt::merge]: the lines of both, as they come. *)
  merge : list (result string string) → list (result string string) → list (result string string)
}.

Definition realise_drvs `{Processes} (s : LocalStore) (drvs : list StorePath) (opts : BuildOptions.t) (kill_on_drop : bool)
  : NM (Child * list (result string string)) := λ o,
  match spawn (realise_command s drvs opts kill_on_drop) o with
  | (Err e, o) => (Err (NixError.Io e), o)
  | (Ok child, o) =>
      match take_stdout child, take_stderr child with
      | Some stdout, Some stderr => (Ok (child, merge stdout stderr), o)
      | _, _ => (Err NixError.Stream, o)
      end
  end.
Definition realise_drv `{Processes} (s : LocalStore) (drv : StorePath) (opts : BuildOptions.t) (kill_on_drop : bool)
  : NM (Child * list (result string string)) := realise_drvs s [drv] opts kill_on_drop.
End Realisations.

(** ** Derivations from files ([drv.rs]) *)

(** [nix_diff::types]: bytes, and ordered maps. *)
Record DiffOutput := mkDiffOutput { df_path : string; df_hash_algorithm : option string; df_hash : option string }.
Record DiffDerivation := mkDiffDerivation {
  dd_outputs : list (string * DiffOutput);
  dd_input_derivations : list string;
  dd_platform : string;
  dd_env : list (string * string)
}.
Class NixDiff : Type := { parse_derivation_string : string → result string DiffDerivation }.

(** [tokio::fs::try_exists] and [read_to_string], at a question. *)
Class DrvFiles : Type := {
  try_exists : nat → string → result string bool;
  read_drv_file : nat → string → result string string
}.

Section Derivations.
Context `{LN : LibNix} `{TK : !Tokio} `{ND : NixDiff} `{DF : DrvFiles}.

Definition from_utf8 (bytes : string) : option string := if is_text bytes then Some bytes else None.

(** [.map(String::from_utf8).transpose().ok()?.and_then(..)]: bytes that are
    not text drop the whole output, empty text counts as absent. *)
Definition optional_text (v : option string) : option (option string) :=
  match v with
  | None => Some None
  | Some bytes => text ← from_utf8 bytes; Some (if decide (text = "") then None else Some text)
  end.

Definition output_new (k : string) (v : DiffOutput) : option Output :=
  name ← from_utf8 k;
  hash ← optional_text (df_hash v);
  hash_algo ← optional_text (df_hash_algorithm v);
  Some (mkOutput name (if decide (df_path v = "") then None else store_path_new <$> from_utf8 (df_path v)) hash hash_algo).

(** Later entries of the environment replace earlier ones. *)
Definition Derivation_new (path : StorePath) (v : DiffDerivation) : Derivation :=
  mkDerivation
    (foldl (λ m '(k, v), match from_utf8 k, from_utf8 v with Some k, Some v => <[k := v]> m | _, _ => m end) ∅ (dd_env v))
    (omap from_utf8 (dd_input_derivations v))
    (omap (λ '(k, v), output_new k v) (dd_outputs v))
    path (default "" (from_utf8 (dd_platform v))).

Definition parse_drv (drv_path : StorePath) (input : string) : result NixError Derivation :=
  Derivation_new drv_path <$> map_err NixError.Anyhow (parse_derivation_string input).

Definition query_drv (q : nat) (s : LocalStore) (drv : StorePath) : result NixError (option Derivation) :=
  if negb (StorePath.is_drv drv) then Ok None
  else
    let full_path := print_store_path s drv in
    exists_ ← map_err NixError.Io (try_exists q full_path);
    if negb exists_ then Ok None
    else
      input ← map_err NixError.Io (read_drv_file q full_path);
      Some <$> parse_drv drv input.
End Derivations.
