(* ===== verification/StoresInv.v ===== *)
(** * StoresInv: what the stores of [crates/nix-utils] promise

    The laws of the Nix library that the theorems need are the classes
    [QuietLib] (queries change no answer) and [LibLaws] (paths as text,
    closures, topological order), after its documentation. *)

From Stdlib Require Import Ascii String.
From S2P Require Import NarInfo CacheCfg Stream BinaryCache.
From S2P Require Import Prelude Floats RustStr Nix Db Support Jobset Graph Result Machine Queue.
From S2P Require Import Config Uploader FodChecker State Dispatch Grpc GrpcStreams Io BuilderConn Stores.
Local Open Scope string_scope.
Local Open Scope list_scope.
Local Open Scope Z_scope.

(** ** Queries change no answer *)

(** States of the library with the same stores; caches may differ. *)
Class SameStores `{LN : LibNix} : Type := { same : relation Outside; same_equiv :: Equivalence same }.

Section Quiet.
Context `{SS : SameStores}.

(** The answer depends on the stores only, and they stay as they are. *)
Definition quiet {A} (m : Outside → A * Outside) : Prop :=
  (∀ o, same (m o).2 o) ∧ ∀ o o', same o o' → (m o).1 = (m o').1.

#[export] Instance answer_proper {A} (m : Outside → A * Outside) : quiet m → Proper (same ==> eq) (λ o, (m o).1).
Proof. intros [_ H] o o' Ho. by apply H. Qed.

Lemma reads_ret {E A} (a : A) : quiet (mret a : M Outside E A).
Proof. by split. Qed.
Lemma reads_lift {E A} (r : result E A) : quiet (lift_result r : M Outside E A).
Proof. by split. Qed.
Lemma reads_bind {E A B} (m : M Outside E A) (f : A → M Outside E B) : quiet m → (∀ a, quiet (f a)) → quiet (m ≫= f).
Proof.
  intros [S1 A1] Hf. split.
  - intros o. rewrite bind_run. specialize (S1 o). destruct (m o) as [[a|e] o1]; [|done]. by rewrite (proj1 (Hf a) o1).
  - intros o o' Ho. rewrite !bind_run. pose proof (S1 o) as S. pose proof (S1 o') as S'. specialize (A1 o o' Ho).
    destruct (m o) as [r o1], (m o') as [r' o1']. cbn in *. subst r'. destruct r as [a|e]; [|done].
    apply (proj2 (Hf a)). by rewrite S, S'.
Qed.
Lemma reads_asyncify `{TK : !Tokio} {A} (f : M Outside string A) : (∀ o, task_lost o = false) → quiet f → quiet (asyncify f).
Proof.
  intros HT [S1 A1]. split.
  - intros o. unfold asyncify. rewrite HT. specialize (S1 o). by destruct (f o).
  - intros o o' Ho. unfold asyncify. rewrite !HT. specialize (A1 o o' Ho). destruct (f o), (f o'). cbn in *. by subst.
Qed.
Lemma reads_ignoring `{TK : !Tokio} {A} (d : A) (m : M Outside NixError A) : quiet m → quiet (ignoring d m).
Proof.
  intros [S1 A1]. split.
  - intros o. unfold ignoring. specialize (S1 o). by destruct (m o) as [[]].
  - intros o o' Ho. unfold ignoring. specialize (A1 o o' Ho). destruct (m o) as [[]], (m o') as [[]]; cbn in *; congruence.
Qed.
End Quiet.
#[export] Hint Resolve reads_ret reads_lift reads_bind reads_asyncify reads_ignoring : runner.

(** The queries of the library that are quiet. *)
Class QuietLib `{SS : SameStores} : Prop := {
  isValidPath_quiet s p : quiet (isValidPath s p);
  queryPathInfo_quiet s p : quiet (queryPathInfo s p);
  computeFSClosure_quiet s p X a b c : quiet (computeFSClosure s p X a b c);
  topoSortPaths_quiet s X : quiet (topoSortPaths s X)
}.
#[export] Hint Resolve isValidPath_quiet queryPathInfo_quiet computeFSClosure_quiet topoSortPaths_quiet : runner.

(** What a client of the trait may rely on. *)
Class QuietStore `{SS : SameStores} (S : Type) `{!BaseStore S} : Prop := {
  is_valid_path_quiet (s : S) p : quiet (is_valid_path s p)
}.

Section Missing.
Context `{QL : QuietLib} `{TK : !Tokio} (running : ∀ o, task_lost o = false).

Lemma base_valid_quiet s p : quiet (BaseImpl.is_valid_path s p).
Proof using QL running. unfold BaseImpl.is_valid_path, Bindings.is_valid_path. auto 8 with runner. Qed.
Lemma BaseStoreImpl_quiet : QuietStore BaseStoreImpl.
Proof using QL running. split. apply base_valid_quiet. Qed.
Lemma LocalStore_quiet : QuietStore LocalStore.
Proof using QL running. split. intros s. apply base_valid_quiet. Qed.
Lemma RemoteStore_quiet : QuietStore RemoteStore.
Proof using QL running. split. intros s. apply base_valid_quiet. Qed.
End Missing.

Section MissingExact.
Context `{SS : SameStores} {S : Type} `{BS : !BaseStore S} `{QS : !QuietStore S}.

(** Whether a store lacks what [x] stands for, as it answers in [o]. *)
Definition lacks {A} (s : S) (path_of : A → option StorePath) (o : Outside) (x : A) : bool :=
  match path_of x with Some p => negb (is_valid_path s p o).1 | None => false end.

(** The queries for what is missing give exactly what the store lacks, in the
    order of the question, and leave the stores as they are. *)
Lemma missing_exact {A} (s : S) (path_of : A → option StorePath) l o :
  (missing s path_of l o).1 = filter (λ x, Is_true (lacks s path_of o x)) l ∧ same (missing s path_of l o).2 o.
Proof using QS.
  revert o. induction l as [|x l IH]; intros o; [by split|].
  rewrite filter_cons. cbn [missing].
  destruct (path_of x) as [p|] eqn:Ep.
  2:{ rewrite decide_False by (unfold lacks; rewrite Ep; by intros []). apply IH. }
  destruct (is_valid_path s p o) as [v o1] eqn:Ev.
  assert (same o1 o) as Ho by (pose proof (proj1 (is_valid_path_quiet s p) o) as H; by rewrite Ev in H).
  destruct (IH o1) as [H1 H2]. destruct (missing s path_of l o1) as [r o2] eqn:Er. cbn in *.
  split; [|by rewrite H2].
  assert (r = filter (λ y, Is_true (lacks s path_of o y)) l) as ->.
  { rewrite H1. apply list_filter_iff. intros y. unfold lacks. destruct (path_of y) as [p'|]; [|done].
    by rewrite (proj2 (is_valid_path_quiet s p') o1 o Ho). }
  assert (lacks s path_of o x = negb v) as Hl by (unfold lacks; by rewrite Ep, Ev).
  destruct v; [rewrite decide_False|rewrite decide_True]; rewrite ?Hl; auto.
Qed.
End MissingExact.

(** ** Closures *)

(** A set of paths with all their references, as [o] knows them. *)
Definition with_references `{LibNix} (s : Store) (o : Outside) (X : PathSet) : Prop :=
  ∀ p info, p ∈ X → (queryPathInfo s p o).1 = Ok info → vp_references info ⊆ X.

(** The name of a store path has no slash. *)
Definition plain_names (X : PathSet) : Prop := ∀ p, p ∈ X → strip_prefix "/" p = None.

Class LibLaws `{SS : SameStores} : Prop := {
  (** Paths are printed below the directory of the settings, and parsed to
      the name that was printed. *)
  printStorePath_dir s p : printStorePath s p = nixStore settings +:+ "/" +:+ p;
  parseStorePath_name s b p : parseStorePath s (nixStore settings +:+ "/" +:+ b) = Ok p → p = b;
  (** The closure of a path is added to closures. *)
  computeFSClosure_adds s p X X' outs o o' :
    computeFSClosure s p X false outs false o = (Ok X', o') →
    with_references s o X → plain_names X →
    X ⊆ X' ∧ p ∈ X' ∧ with_references s o X' ∧ plain_names X';
  (** If p refers to q, then p precedes q. *)
  topoSortPaths_sorts s X l o o' :
    topoSortPaths s X o = (Ok l, o') →
    l ≡ₚ elements X ∧
    ∀ i j p q info, l !! i = Some p → l !! j = Some q → p ≠ q →
      (queryPathInfo s p o).1 = Ok info → q ∈ vp_references info → (i < j)%nat
}.

Section Closures.
Context `{SS : SameStores} `{QL : !QuietLib} `{LL : !LibLaws} `{TK : !Tokio}.

Lemma with_references_same s o o' X : same o o' → with_references s o X → with_references s o' X.
Proof using QL.
  intros Ho HX p info Hp Hi. apply (HX p info Hp). by rewrite (proj2 (queryPathInfo_quiet s p) o o' Ho).
Qed.

Lemma closures_adds s paths outs X X' o o' :
  Bindings.closures s ((λ b, nixStore settings +:+ "/" +:+ b) <$> paths) false outs false X o = (Ok X', o') →
  with_references s o X → plain_names X →
  X ⊆ X' ∧ (∀ b, b ∈ paths → b ∈ X') ∧ with_references s o X' ∧ plain_names X' ∧ same o' o.
Proof using QL LL.
  revert X o. induction paths as [|b paths IH]; intros X o.
  { intros [= -> ->] HX HP. repeat split; try done. by intros b ?%not_elem_of_nil. }
  cbn [Bindings.closures fmap list_fmap]. rewrite bind_run. unfold lift_result.
  destruct (parseStorePath _ _) as [p|] eqn:Ep; [|done]. apply parseStorePath_name in Ep as ->.
  rewrite bind_run. destruct (computeFSClosure s b X false outs false o) as [[X1|] o1] eqn:Ec; [|done].
  intros Hrun HX HP. destruct (computeFSClosure_adds _ _ _ _ _ _ _ Ec HX HP) as (H1 & H2 & H3 & H4).
  assert (same o1 o) as Ho by (pose proof (proj1 (computeFSClosure_quiet s b X false outs false) o) as H; by rewrite Ec in H).
  destruct (IH X1 o1 Hrun) as (H5 & H6 & H7 & H8 & H9); [by eapply with_references_same; [symmetry|]|done|].
  split; [by etrans|]. split; [intros b' [->|Hb]%elem_of_cons; auto|]. split; [by eapply with_references_same|].
  split; [done|]. by rewrite H9.
Qed.

(** A printed path is read back by [StorePath::new]. *)
Lemma store_path_new_print s p : ends_with "/" (nixStore settings) = false → strip_prefix "/" p = None →
  store_path_new (printStorePath s p) = StorePath.mk p.
Proof using LL.
  intros Hd Hs. rewrite printStorePath_dir. unfold store_path_new, StorePath.new, StorePath.STORE_DIR.
  by rewrite Hd, <-str_app_assoc, strip_prefix_app, Hs.
Qed.

Lemma lookup_reverse {A} (l : list A) i x : reverse l !! i = Some x → ∃ j, l !! j = Some x ∧ (i + j + 1 = length l)%nat.
Proof.
  intros H. pose proof (lookup_lt_Some _ _ _ H) as Hl. rewrite length_reverse in Hl.
  rewrite reverse_lookup in H by done. eexists. split; [exact H|lia].
Qed.

(** What a query for requisites gives, before the paths are read. *)
Lemma requisites_names s drvs outs o l o' :
  (∀ o, task_lost o = false) → get_store_path_prefix s = nixStore settings → ends_with "/" (nixStore settings) = false →
  query_requisites s drvs outs o = (Ok l, o') →
  ∃ X sorted o1, l = StorePath.mk <$> reverse sorted ∧ (∀ d, d ∈ drvs → StorePath.base_name d ∈ X) ∧
    with_references (sw_store (bs_wrapper (ls_base s))) o X ∧ same o1 o ∧
    topoSortPaths (sw_store (bs_wrapper (ls_base s))) X o1 = (Ok sorted, o').
Proof using QL LL.
  intros HT Hp Hd. destruct s as [[w prefix]]. cbn in Hp. subst prefix.
  cbn [query_requisites LocalStore_store BaseStoreImpl_store ls_base bs_wrapper].
  unfold BaseImpl.query_requisites, BaseImpl.compute_fs_closures, asyncify, Bindings.compute_fs_closures.
  rewrite bind_run, HT, !bind_run. cbn [bs_wrapper sw_store].
  assert ((BaseImpl.print_store_path (mkBaseStoreImpl w (nixStore settings)) <$> drvs) =
    (λ b, nixStore settings +:+ "/" +:+ b) <$> (StorePath.base_name <$> drvs)) as -> by by rewrite <-list_fmap_compose.
  destruct (Bindings.closures _ _ _ _ _ _ _) as [[X|] o1] eqn:Ec; [|done].
  destruct (closures_adds _ _ _ _ _ _ _ Ec) as (_ & H1 & H2 & H3 & H4).
  { intros p info Hp. set_solver. }
  { intros p Hp. set_solver. }
  rewrite bind_run. destruct (topoSortPaths _ X o1) as [[sorted|] o2] eqn:Es; [|done]. cbn. intros [= <- <-].
  exists X, sorted, o1. split; [|split; [|done]].
  - destruct (topoSortPaths_sorts _ _ _ _ _ Es) as [Hperm _]. rewrite fmap_reverse. f_equal.
    unfold Bindings.extract_paths. rewrite <-list_fmap_compose. apply list_fmap_ext. intros i p Hi. cbn.
    apply store_path_new_print; [done|]. apply H3. apply elem_of_elements. rewrite <-Hperm. by eapply list_elem_of_lookup_2.
  - intros d Hin. apply H1. by apply list_elem_of_fmap_2.
Qed.

End Closures.

(** ** The size of a closure *)

Section Size.
Context `{SS : SameStores} `{QL : !QuietLib} `{LL : !LibLaws} `{TK : !Tokio}.

(** The size of an archive, as [o] knows it. *)
Definition nar_size_at (s : Store) (o : Outside) (p : string) : Z :=
  match (queryPathInfo s p o).1 with Ok info => vp_narSize info | Err _ => 0 end.
Definition total (f : string → Z) (l : list string) : Z := foldr (λ p n, f p + n) 0 l.

Lemma total_perm f l l' : l ≡ₚ l' → total f l = total f l'.
Proof. unfold total. induction 1; cbn; lia. Qed.

Lemma total_nar_size_run s l n o o' :
  same o' o → (∀ p, p ∈ l → ∃ info, (queryPathInfo s p o).1 = Ok info) →
  (Bindings.total_nar_size s l n o').1 = Ok (if decide (l = []) then n else u64_wrap (n + total (nar_size_at s o) l)).
Proof using QL.
  revert n o'. induction l as [|p l IH]; intros n o' Ho Hall; [done|]. cbn [Bindings.total_nar_size]. rewrite bind_run.
  destruct (Hall p) as [info Hi]; [left|]. pose proof (proj2 (queryPathInfo_quiet s p) o' o Ho) as Ha.
  pose proof (proj1 (queryPathInfo_quiet s p) o') as Hq. rewrite Hi in Ha.
  destruct (queryPathInfo s p o') as [r o1]. cbn in Ha, Hq. subst r.
  rewrite IH; [|by rewrite Hq|intros q Hin; apply Hall; by right].
  assert (total (nar_size_at s o) (p :: l) = vp_narSize info + total (nar_size_at s o) l) as ->.
  { cbn. unfold nar_size_at at 1. by rewrite Hi. }
  rewrite (decide_False (P := p :: l = [])) by done. f_equal. destruct (decide (l = [])) as [->|]; [by cbn; rewrite Z.add_0_r|].
  unfold u_wrap. rewrite Zplus_mod_idemp_l. f_equal. lia.
Qed.

(** The size of a closure is the sum of the sizes of its paths, modulo 2^64;
    it is zero when the library throws. *)
Theorem closure_size_total (s : LocalStore) p o :
  (∀ o, task_lost o = false) → get_store_path_prefix s = nixStore settings →
  let st := sw_store (bs_wrapper (ls_base s)) in
  (compute_closure_size s p o).1 =
    match Bindings.compute_closure_size (bs_wrapper (ls_base s)) (print_store_path s p) o with
    | (Err _, _) => 0
    | (Ok n, _) => n
    end ∧
  ∀ X o1, parseStorePath st (print_store_path s p) = Ok (StorePath.base_name p) →
    computeFSClosure st (StorePath.base_name p) ∅ false false false o = (Ok X, o1) →
    (∀ q, q ∈ X → ∃ info, (queryPathInfo st q o).1 = Ok info) →
    (compute_closure_size s p o).1 = u64_wrap (total (nar_size_at st o) (elements X)).
Proof using QL.
  intros HT Hp st. assert ((compute_closure_size s p o).1 =
    match Bindings.compute_closure_size (bs_wrapper (ls_base s)) (print_store_path s p) o with
    | (Err _, _) => 0 | (Ok n, _) => n end) as Heq.
  { cbn [compute_closure_size LocalStore_store BaseStoreImpl_store print_store_path].
    unfold BaseImpl.compute_closure_size, ignoring, asyncify. rewrite HT.
    by destruct (Bindings.compute_closure_size _ _ _) as [[]]. }
  split; [done|]. intros X o1 Hparse Hc Hall. rewrite Heq. unfold Bindings.compute_closure_size.
  fold st. rewrite bind_run. unfold lift_result. rewrite Hparse, bind_run, Hc.
  assert (same o1 o) as Ho.
  { pose proof (proj1 (computeFSClosure_quiet st (StorePath.base_name p) ∅ false false false) o) as H. by rewrite Hc in H. }
  pose proof (total_nar_size_run st (in_order X) 0 o o1 Ho) as H.
  destruct (Bindings.total_nar_size _ _ _ _) as [r o2]. cbn in H. rewrite H by (intros q Hq; apply Hall; by apply elem_of_in_order).
  rewrite (total_perm _ _ _ (in_order_perm X)). destruct (decide (in_order X = [])) as [E|]; [|done].
  pose proof (in_order_perm X) as Hperm. rewrite E in Hperm. apply Permutation_nil_l in Hperm as <-. done.
Qed.
End Size.

(** ** Imports and exports *)

(** A library that reads into buffers with room and passes the exceptions of
    its source on. *)
Inductive honest {O} : Importing O → Prop :=
| honest_Finish done : honest (Finish done)
| honest_Reads room go :
    0 < room → (∀ e, ∃ fail, go (Err e) = Finish fail ∧ ∀ o, (fail o).1 = Err e) →
    (∀ data, honest (go (Ok data))) → honest (Reads room go).

Lemma next_piece_app ps p ps' l : next_piece ps = Some (p, ps') → next_piece (ps ++ l) = Some (p, ps' ++ l).
Proof. induction ps as [|q ps IH]; [done|]. cbn. destruct (decide (q = "")); [done|]. by intros [= -> ->]. Qed.

Lemma stream_reader_app ps (rest : list (result string string)) :
  stream_reader ((Ok <$> ps) ++ rest) =
    mkReader (ps ++ rd_pieces (stream_reader rest)) (rd_error (stream_reader rest)).
Proof.
  induction ps as [|p ps IH]; [cbn [app fmap list_fmap]; by destruct (stream_reader rest)|]. revert IH. unfold stream_reader. cbn.
  destruct (stream_pieces (_ ++ rest)) as [l b], (stream_pieces rest) as [l' b']. cbn.
  intros [= -> H]. by rewrite H.
Qed.

Section Imports.
Context `{LN : LibNix} `{TK : !Tokio}.

(** A read at the end of the pieces gives nothing, one before gives the same
    whatever comes after them. *)
Lemma read_callback_app room ps err l err' :
  0 < room →
  (read_callback room (mkReader ps (Some err))).1 = "" ∨
  ∃ data ps', data ≠ "" ∧ read_callback room (mkReader ps (Some err)) = (data, mkReader ps' (Some err)) ∧
    read_callback room (mkReader (ps ++ l) err') = (data, mkReader (ps' ++ l) err').
Proof.
  intros Hr. unfold read_callback. cbn. destruct (next_piece ps) as [[p ps']|] eqn:E; [|by left]. right.
  exists (take_bytes room p), (drop_bytes room p :: ps'). rewrite (next_piece_app _ _ _ l E). split; [|done].
  apply next_piece_Some in E as [_ Hp]. intros H. apply Hp. pose proof (len_take_bytes room p) as Hlen. rewrite H in Hlen.
  destruct p as [|a p]; [done|]. unfold len in Hlen. cbn [String.length] in Hlen. lia.
Qed.

Lemma pull_broken i ps err l err' o :
  honest i →
  (Bindings.pull read_callback i (mkReader ps (Some err)) o).1 = Err Bindings.END_OF_STREAM ∨
  Bindings.pull read_callback i (mkReader ps (Some err)) o = Bindings.pull read_callback i (mkReader (ps ++ l) err') o.
Proof.
  intros Hi. revert ps. induction Hi as [done|room go Hr Herr _ IH]; intros ps; [by right|]. cbn [Bindings.pull].
  destruct (read_callback_app room ps err l err' Hr) as [Hend|(data & ps' & Hd & H1 & H2)].
  - left. destruct (read_callback room (mkReader ps (Some err))) as [data r]. cbn in Hend. subst data.
    rewrite decide_True by done. destruct (Herr Bindings.END_OF_STREAM) as (fail & -> & Hf). apply Hf.
  - rewrite H1, H2, decide_False by done. apply IH.
Qed.

(** C40: An import from a stream that breaks either fails, with the end of the
    stream as the reason, or does what it would do with any other stream that
    starts with the pieces that came: the archive was over. *)
Theorem broken_import_fails (s : LocalStore) check_sigs pieces e rest rest' o :
  task_lost o = false → runtime_error o = None →
  honest (importPaths (sw_store (bs_wrapper (ls_base s))) check_sigs o) →
  (import_paths s ((Ok <$> pieces) ++ Err e :: rest) check_sigs o).1 = Err (NixError.Thrown Bindings.END_OF_STREAM) ∨
  import_paths s ((Ok <$> pieces) ++ Err e :: rest) check_sigs o = import_paths s ((Ok <$> pieces) ++ rest') check_sigs o.
Proof.
  intros HT HR Hi. cbn [import_paths LocalStore_store BaseStoreImpl_store].
  unfold BaseImpl.import_paths, BaseImpl.import_paths_with_cb, Bindings.import_paths. rewrite HT, HR, !stream_reader_app.
  cbn [stream_reader stream_pieces rd_pieces rd_error]. rewrite app_nil_r.
  destruct (pull_broken _ pieces "unexpected end of file" (rd_pieces (stream_reader rest')) (rd_error (stream_reader rest')) o Hi)
    as [H|H]; change (import_paths_trampoline read_callback) with read_callback.
  - left. by destruct (Bindings.pull _ _ _ _) as [r o1]; cbn in H; subst r.
  - right. cbn. by rewrite H.
Qed.

(** A callback that always goes on gets every piece. *)
Lemma push_all {C} (callback : string → C → bool * C) pieces error c :
  (∀ v c, (callback v c).1 = true) →
  Bindings.push callback pieces error c =
    (match error with Some e => Err e | None => Ok tt end, foldl (λ c v, (callback v c).2) c pieces).
Proof.
  intros Hgo. revert c. induction pieces as [|v ps IH]; intros c; [done|]. cbn.
  specialize (Hgo v c). destruct (callback v c) as [ret c1]. cbn in *. by subst ret.
Qed.

(** One that stops gets the pieces up to the one it stops at, and no error. *)
Lemma push_stops {C} (callback : string → C → bool * C) seen v rest error c :
  (∀ w c, w ∈ seen → (callback w c).1 = true) → (∀ c, (callback v c).1 = false) →
  Bindings.push callback (seen ++ v :: rest) error c = (Ok tt, foldl (λ c v, (callback v c).2) c (seen ++ [v])).
Proof.
  revert c. induction seen as [|w seen IH]; intros c Hgo Hstop; cbn.
  - specialize (Hstop c). destruct (callback v c) as [ret c1]. cbn in *. by subst ret.
  - pose proof (Hgo w c (list_elem_of_here _ _)) as Hw. destruct (callback w c) as [ret c1]. cbn in *. subst ret.
    apply IH; [|done]. intros w' c' Hin. apply Hgo. by right.
Qed.
End Imports.

(** ** The answers of a local store

    The other files see the store as [NixEnv]: answers by the number of the
    question. A local store is one, when [at_] gives the state of the library
    at each question; derivations are read by another crate. *)

Section Answers.
Context `{SS : SameStores} `{QL : !QuietLib} `{TK : !Tokio}.
Context (s : LocalStore) (at_ : nat → Outside) (drv_at : nat → StorePath → result string (option Derivation)).

Definition answers : NixEnv := {|
  Nix.get_store_dir := nixStore settings;
  ffi_is_valid_path q p :=
    match (Bindings.is_valid_path (bs_wrapper (ls_base s)) p (at_ q)).1 with Ok b => b | Err _ => false end;
  ffi_try_resolve_drv q p :=
    match (Bindings.try_resolve_drv (bs_wrapper (ls_base s)) p (at_ q)).1 with Ok r => Some r | Err _ => None end;
  ffi_compute_fs_closures q ps flip outs derivers sort :=
    (Bindings.compute_fs_closures (bs_wrapper (ls_base s)) ps flip outs derivers sort (at_ q)).1;
  ffi_query_drv := drv_at;
  ffi_ensure_path q p :=
    match (Bindings.ensure_path (bs_wrapper (ls_base s)) p (at_ q)).1 with Ok _ => true | Err _ => false end;
  ffi_query_path_info q p :=
    match (Bindings.query_path_info (bs_wrapper (ls_base s)) p (at_ q)).1 with Ok i => Some i | Err _ => None end;
  ffi_compute_closure_size q p :=
    match (Bindings.compute_closure_size (bs_wrapper (ls_base s)) p (at_ q)).1 with Ok n => n | Err _ => 0 end
|}.

Lemma asyncify_runs {A} (f : M Outside string A) o :
  task_lost o = false → asyncify f o = (map_err NixError.Thrown (f o).1, (f o).2).
Proof. intros HT. unfold asyncify. rewrite HT. by destruct (f o). Qed.

Lemma info_of_quiet p : quiet (BaseImpl.info_of (ls_base s) p).
Proof using QL.
  assert (quiet (Bindings.query_path_info (bs_wrapper (ls_base s)) (BaseImpl.print_store_path (ls_base s) p))) as [S A].
  { unfold Bindings.query_path_info. auto 8 with runner. }
  unfold BaseImpl.info_of. split.
  - intros o. specialize (S o). by destruct (Bindings.query_path_info _ _ o) as [[]].
  - intros o o' Ho. specialize (A o o' Ho).
    destruct (Bindings.query_path_info _ _ o) as [[]], (Bindings.query_path_info _ _ o') as [[]]; cbn in *; congruence.
Qed.

Hypothesis running : ∀ o, task_lost o = false.
Hypothesis prefix_ok : get_store_path_prefix s = nixStore settings.

Lemma info_of_answers p q : (BaseImpl.info_of (ls_base s) p (at_ q)).1 = Ok (@Nix.query_path_info answers q p).
Proof using prefix_ok.
  unfold BaseImpl.info_of, Nix.query_path_info. cbn [ffi_query_path_info answers].
  unfold Nix.print_store_path, BaseImpl.print_store_path. unfold get_store_path_prefix in prefix_ok. rewrite prefix_ok.
  by destruct (Bindings.query_path_info _ _ _) as [[]].
Qed.

Lemma infos_of_answers ps q m o :
  same o (at_ q) →
  (BaseImpl.infos_of (ls_base s) ps m o).1 =
    Ok (foldl (λ m p, match @Nix.query_path_info answers q p with Some info => <[p := info]> m | None => m end) m ps).
Proof using QL prefix_ok.
  revert m o. induction ps as [|p ps IH]; intros m o Ho; [done|]. cbn [BaseImpl.infos_of foldl]. rewrite bind_run.
  pose proof (proj1 (info_of_quiet p) o) as Hs. pose proof (proj2 (info_of_quiet p) o (at_ q) Ho) as Ha.
  rewrite info_of_answers in Ha. destruct (BaseImpl.info_of (ls_base s) p o) as [r o1]. cbn in Hs, Ha. subst r.
  apply IH. by rewrite Hs.
Qed.

(** What a local store answers, as it stands at a question, is what the other
    files take for the answer of the store to that question. *)
Theorem local_store_answers q :
  (∀ p, print_store_path s p = @Nix.print_store_path answers p) ∧
  (∀ p, (is_valid_path s p (at_ q)).1 = @Nix.is_valid_path answers q p) ∧
  (∀ p, (query_path_info s p (at_ q)).1 = @Nix.query_path_info answers q p) ∧
  (∀ ps, (query_path_infos s ps (at_ q)).1 = @Nix.query_path_infos answers q ps) ∧
  (∀ p, (compute_closure_size s p (at_ q)).1 = ffi_compute_closure_size (NixEnv := answers) q (print_store_path s p)) ∧
  (∀ p, (try_resolve_drv s p (at_ q)).1 = @Nix.try_resolve_drv answers q p) ∧
  (∀ ps flip outs derivers sort, (compute_fs_closures s ps flip outs derivers sort (at_ q)).1 =
     map_err NixError.Thrown (@Nix.compute_fs_closures answers q ps flip outs derivers sort)) ∧
  (∀ ps outs, (query_requisites s ps outs (at_ q)).1 =
     map_err NixError.Thrown (@Nix.query_requisites answers q ps outs)).
Proof using QL running prefix_ok.
  assert (∀ p, print_store_path s p = @Nix.print_store_path answers p) as Hp.
  { intros p. cbn. unfold BaseImpl.print_store_path. unfold get_store_path_prefix in prefix_ok. by rewrite prefix_ok. }
  assert (∀ ps flip outs derivers sort, (compute_fs_closures s ps flip outs derivers sort (at_ q)).1 =
     map_err NixError.Thrown (@Nix.compute_fs_closures answers q ps flip outs derivers sort)) as Hc.
  { intros ps flip outs derivers sort. cbn [compute_fs_closures LocalStore_store BaseStoreImpl_store].
    unfold BaseImpl.compute_fs_closures, Nix.compute_fs_closures. rewrite asyncify_runs by done. cbn [fst ffi_compute_fs_closures answers].
    rewrite bind_run. rewrite (map_ext (@Nix.print_store_path answers) (print_store_path s)) by (intros p; by rewrite Hp).
    cbn. by destruct (Bindings.compute_fs_closures _ _ _ _ _ _ _) as [[]]. }
  split; [done|]. split; [|split; [|split; [|split; [|split; [|split; [done|]]]]]].
  - intros p. unfold Nix.is_valid_path. rewrite <-Hp. cbn. unfold BaseImpl.is_valid_path, ignoring. rewrite asyncify_runs by done.
    by destruct (Bindings.is_valid_path _ _ _) as [[]].
  - intros p. cbn. unfold BaseImpl.query_path_info, ignoring. rewrite asyncify_runs by done.
    by rewrite info_of_answers.
  - intros ps. cbn. unfold BaseImpl.query_path_infos, ignoring. rewrite asyncify_runs by done.
    by rewrite (infos_of_answers ps q).
  - intros p. cbn. unfold BaseImpl.compute_closure_size, ignoring. rewrite asyncify_runs by done.
    by destruct (Bindings.compute_closure_size _ _ _) as [[]].
  - intros p. unfold Nix.try_resolve_drv. rewrite <-Hp. cbn. unfold BaseImpl.try_resolve_drv, ignoring. rewrite asyncify_runs by done.
    rewrite bind_run. by destruct (Bindings.try_resolve_drv _ _ _) as [[]].
  - intros ps outs. specialize (Hc ps false outs false true). revert Hc. cbn [query_requisites compute_fs_closures LocalStore_store BaseStoreImpl_store].
    unfold BaseImpl.query_requisites, Nix.query_requisites. rewrite bind_run.
    destruct (BaseImpl.compute_fs_closures _ _ _ _ _ _ _) as [r o1]. cbn [fst]. intros ->.
    by destruct (Nix.compute_fs_closures _ _ _ _ _ _).
Qed.
End Answers.

(** ** Derivations *)

Section Drvs.
Context `{LN : LibNix} `{TK : !Tokio} `{ND : NixDiff} `{DF : DrvFiles}.

(** An output that is named as fixed by the parser stays so, unless its fields
    are not text or empty; nothing else becomes one. *)
Lemma derivation_is_ca path v :
  is_ca (Derivation_new path v) = true ↔
    ∃ k o h a, (k, o) ∈ dd_outputs v ∧ is_text k = true ∧ df_hash o = Some h ∧ is_text h = true ∧ h ≠ "" ∧
      df_hash_algorithm o = Some a ∧ is_text a = true ∧ a ≠ "".
Proof.
  unfold is_ca. rewrite existsb_exists. cbn [drv_outputs Derivation_new]. split.
  - intros (out & Hin & [Hh Ha]%andb_true_iff). apply list_elem_of_In, list_elem_of_omap in Hin as ([k o] & Hko & Hout).
    unfold output_new, optional_text, from_utf8 in Hout. exists k, o.
    destruct (df_hash o) as [h|], (df_hash_algorithm o) as [a|]; repeat (case_match; cbn in *; simplify_eq/=; try done).
    all: repeat case_bool_decide; try done; try by destruct Hh || destruct Ha.
    all: exists h, a; naive_solver.
  - intros (k & o & h & a & Hin & Hk & Hh & Hht & Hhe & Ha & Hat & Hae).
    eexists. split.
    + apply list_elem_of_In, list_elem_of_omap. exists (k, o). split; [done|]. unfold output_new, optional_text, from_utf8.
      rewrite Hk, Hh, Ha. cbn. rewrite Hht, Hat. cbn. rewrite (decide_False (P := h = "")), (decide_False (P := a = "")) by done. reflexivity.
    + cbn. done.
Qed.
End Drvs.

(** ** [init_nix] from several threads

    The flag is tested, the mutex taken, the flag tested again; [initNix] takes
    a while. *)

Module InitNix.

Inductive Pc := Test | Lock | Retest | Initialising | SetFlag | Unlock | Returned.
#[export] Instance Pc_eq_dec : EqDecision Pc.
Proof. solve_decision. Defined.
Record State := mkState {
  initializedNix : bool;
  nixInitMtx : option nat;
  (** How often [initNix] was called, and how often it was done. *)
  calls : nat;
  completed : nat;
  threads : gmap nat Pc
}.

(** The thread [t] makes a step. *)
Inductive step : State → State → Prop :=
| step_enter t f m c d ts : ts !! t = None → step (mkState f m c d ts) (mkState f m c d (<[t := Test]> ts))
| step_test t f m c d ts : ts !! t = Some Test →
    step (mkState f m c d ts) (mkState f m c d (<[t := if f : bool then Returned else Lock]> ts))
| step_lock t f c d ts : ts !! t = Some Lock → step (mkState f None c d ts) (mkState f (Some t) c d (<[t := Retest]> ts))
| step_retest_set t m c d ts : ts !! t = Some Retest → step (mkState true m c d ts) (mkState true m c d (<[t := Unlock]> ts))
| step_retest_init t m c d ts : ts !! t = Some Retest →
    step (mkState false m c d ts) (mkState false m (S c) d (<[t := Initialising]> ts))
| step_initialised t f m c d ts : ts !! t = Some Initialising → step (mkState f m c d ts) (mkState f m c (S d) (<[t := SetFlag]> ts))
| step_set t f m c d ts : ts !! t = Some SetFlag → step (mkState f m c d ts) (mkState true m c d (<[t := Unlock]> ts))
| step_unlock t f m c d ts : ts !! t = Some Unlock → step (mkState f m c d ts) (mkState f None c d (<[t := Returned]> ts)).

Definition start : State := mkState false None 0 0 ∅.

Definition holds (pc : Pc) : bool := match pc with Retest | Initialising | SetFlag | Unlock => true | _ => false end.

Definition inside (s : State) (t : nat) : bool := match threads s !! t with Some pc => holds pc | None => false end.

Record inv (s : State) : Prop := {
  in_mutex : ∀ t, inside s t = true ↔ nixInitMtx s = Some t;
  in_flag : initializedNix s = true → calls s = 1%nat ∧ completed s = 1%nat;
  in_busy : ∀ t pc, threads s !! t = Some pc →
    match pc with
    | Initialising => initializedNix s = false ∧ calls s = 1%nat ∧ completed s = 0%nat
    | SetFlag => initializedNix s = false ∧ calls s = 1%nat ∧ completed s = 1%nat
    | Unlock | Returned => initializedNix s = true
    | _ => True
    end;
  in_idle : initializedNix s = false → (∀ t, threads s !! t ≠ Some Initialising ∧ threads s !! t ≠ Some SetFlag) →
    calls s = 0%nat ∧ completed s = 0%nat
}.

Lemma start_inv : inv start.
Proof. by split. Qed.

(** Only the thread that holds the mutex is past the lock. *)
Lemma holder_alone s t t' pc pc' : inv s → threads s !! t = Some pc → threads s !! t' = Some pc' →
  holds pc = true → holds pc' = true → t = t'.
Proof.
  intros I H H' Hh Hh'. pose proof (proj1 (in_mutex s I t)) as Ht. pose proof (proj1 (in_mutex s I t')) as Ht'.
  unfold inside in *. rewrite H in Ht. rewrite H' in Ht'. specialize (Ht Hh). specialize (Ht' Hh'). congruence.
Qed.

(** Nobody initialises while somebody else is past the lock. *)
Lemma nobody_initialises s t pc : inv s → threads s !! t = Some pc → holds pc = true →
  pc ≠ Initialising → pc ≠ SetFlag → ∀ t', threads s !! t' ≠ Some Initialising ∧ threads s !! t' ≠ Some SetFlag.
Proof.
  intros I Ht Hh H1 H2 t'. split; intros Ht'; assert (t = t') as <- by (by eapply holder_alone); congruence.
Qed.

Lemma step_mutex s s' : inv s → step s s' → ∀ t, inside s' t = true ↔ nixInitMtx s' = Some t.
Proof.
  intros I Hstep t'. pose proof (in_mutex s I) as Hm. unfold inside in *.
  destruct Hstep; cbn in *; pose proof (Hm t) as H1; pose proof (Hm t') as H2; rewrite H in H1; cbn in H1;
    rewrite lookup_insert; destruct (decide (t = t')) as [->|]; try done; cbn.
  all: try destruct f; cbn; try tauto; intuition congruence.
Qed.

Lemma step_flag s s' : inv s → step s s' → initializedNix s' = true → calls s' = 1%nat ∧ completed s' = 1%nat.
Proof.
  intros I Hstep. pose proof (in_flag s I) as Hf. pose proof (in_busy s I) as Hb.
  destruct Hstep as [| | | | |t f m c d ts Ht|t f m c d ts Ht|]; cbn in *; intros; try done; try by apply Hf.
  - by destruct (Hb t _ Ht) as (Hno & _); simplify_eq.
  - by destruct (Hb t _ Ht) as (_ & -> & ->).
Qed.

Lemma step_idle s s' : inv s → step s s' → initializedNix s' = false →
  (∀ t, threads s' !! t ≠ Some Initialising ∧ threads s' !! t ≠ Some SetFlag) → calls s' = 0%nat ∧ completed s' = 0%nat.
Proof.
  intros I Hstep. pose proof (in_idle s I) as Hi. destruct Hstep; cbn in *; intros Hf Hn; try done.
  all: try (exfalso; pose proof (Hn t) as [? ?]; rewrite lookup_insert_eq in *; congruence).
  all: apply Hi; [done|]; intros t'; specialize (Hn t'); rewrite lookup_insert in Hn;
    destruct (decide (t = t')) as [->|]; [|done]; rewrite H; split; congruence.
Qed.

Lemma step_busy s s' : inv s → step s s' → ∀ t pc, threads s' !! t = Some pc →
    match pc with
    | Initialising => initializedNix s' = false ∧ calls s' = 1%nat ∧ completed s' = 0%nat
    | SetFlag => initializedNix s' = false ∧ calls s' = 1%nat ∧ completed s' = 1%nat
    | Unlock | Returned => initializedNix s' = true
    | _ => True
    end.
Proof.
  intros I Hstep t' pc. pose proof (in_busy s I) as Hb. pose proof (in_idle s I) as Hi.
  pose proof (λ t pc pc', holder_alone s t t' pc pc' I) as Ha. pose proof (λ t, nobody_initialises s t Retest I) as Hn.
  destruct Hstep; cbn in *; try pose proof (Hb _ _ H) as Hown; rewrite lookup_insert;
    (destruct (decide (t = t')) as [->|Hne]; [intros [= <-]|intros Ht; pose proof (Hb _ _ Ht) as Ho]); cbn in *; try done.
  all: try by destruct f.
  all: try by destruct (Hi eq_refl (Hn _ H eq_refl ltac:(done) ltac:(done))) as [-> ->].
  all: try by destruct Hown as (-> & -> & ->).
  all: destruct pc; try done; try (by specialize (Ha t _ _ H Ht eq_refl eq_refl)); by destruct Hown as (-> & _).
Qed.

Lemma step_inv s s' : inv s → step s s' → inv s'.
Proof. intros I H. split; [by eapply step_mutex|by eapply step_flag|by eapply step_busy|by eapply step_idle]. Qed.

(** However many threads call [init_nix], and however they are interleaved,
    [initNix] is called at most once, and when a call of [init_nix] returns it
    is done. *)
Theorem init_nix_once s : rtc step start s →
  (calls s ≤ 1)%nat ∧ ∀ t, threads s !! t = Some Returned → completed s = 1%nat.
Proof.
  intros Hr. assert (inv s) as I.
  { revert Hr. generalize start_inv. generalize start. intros s0 I0 Hr. induction Hr; eauto using step_inv. }
  split.
  - destruct (initializedNix s) eqn:Ef; [by destruct (in_flag s I Ef) as [-> _]|].
    destruct (decide (map_Exists (λ _ pc, pc = Initialising ∨ pc = SetFlag) (threads s))) as [(t & pc & Ht & Hpc)|Hno].
    + pose proof (in_busy s I t pc Ht). destruct Hpc as [-> | ->]; naive_solver lia.
    + enough (calls s = 0%nat) by lia. apply (in_idle s I Ef). intros t. split; intros Ht; apply Hno; exists t; eauto.
  - intros t Ht. apply (in_flag s I). by apply (in_busy s I t Returned).
Qed.
End InitNix.
