(* ===== verification/DispatchInv.v ===== *)
(** * DispatchInv: dispatching and leaving

    The dispatcher's processor leaves the queues alone, so a round keeps their
    invariant; no step stays assigned to a builder that left; what a change of
    the configuration does to the order of the queues. *)

From Stdlib Require Import Ascii String.
From S2P Require Import NarInfo CacheCfg Stream BinaryCache.
From S2P Require Import Prelude Floats RustStr Nix Db Support Jobset Graph Dependents Result Machine.
From S2P Require Import MachineInv Queue QueueOrder QueueInv QueueProcess Config Uploader FodChecker.
From S2P Require Import State StateInv FailJob SucceedJob Reclaim Dispatch Grpc.
Local Open Scope list_scope.
Local Open Scope Z_scope.

Section Env.
Context `{HI : HashIter} `{FE : FloatEnv} `{TL : TimeLib} `{NE : NixEnv} `{DE : DbEnv} `{SE : StateEnv}
  `{UL : UuidLib} `{UR : UrlLib}.

(** ** Leaving builders *)

(** The derivation is not scheduled and no builder has the id. *)
Definition unassigned (id : Uuid) (drv : StorePath) (w : World) : Prop :=
  iq_scheduled (w_queues w) !! drv = None ∧ ms_by_uuid (w_machines w) !! id = None.

Section Unassigned.
Context (id : Uuid) (drv : StorePath).
Abbreviation U := (unassigned id drv).

Lemma unassigned_same {A} (m : WM A) :
  (∀ w, w_queues (m w).2 = w_queues w ∧ w_machines (m w).2 = w_machines w) → preserves U m.
Proof. intros H w. unfold unassigned. destruct (H w) as [-> ->]. done. Qed.
Lemma unassigned_db {A} (m : DbM A) : preserves U (db m).
Proof. apply unassigned_same. intros w. unfold db, zoom. by destruct (m (w_db w)). Qed.
Lemma unassigned_queues f :
  (∀ h iq, iq_scheduled (f h iq) = iq_scheduled iq) → preserves U (on_queues f).
Proof. intros H w. unfold unassigned. cbn. by rewrite H. Qed.
Lemma unassigned_machine {A} a (f : Machine → Heap → A * (Machine * Heap)) : preserves U (on_machine a f).
Proof.
  intros w Hw. unfold on_machine. destruct (ms_objs _ !! a); [|done]. by destruct (f m (w_heap w)) as [r [m' h']].
Qed.
Lemma unassigned_take d : preserves U (take_scheduled d).
Proof.
  intros w [Hs Hm]. unfold take_scheduled, Queues.remove_job_from_scheduled.
  destruct (iq_scheduled (w_queues w) !! d); [|done]. split; [|done]. cbn.
  destruct (decide (d = drv)) as [->|Hne]; [apply lookup_delete_eq|by rewrite lookup_delete_ne].
Qed.

Ltac unassigned :=
  repeat first
    [ apply unassigned_db | apply unassigned_machine | apply unassigned_take
    | (apply unassigned_queues; intros ? ?; first [apply remove_job_scheduled|reflexivity])
    | (apply unassigned_same; intros ?; split; reflexivity)
    | apply preserves_attempt
    | apply preserves_bind; [|intros ?]
    | match goal with
      | |- preserves _ (if ?b then _ else _) => destruct b
      | |- preserves _ (match ?b with _ => _ end) => destruct b
      end ].

Lemma fail_loop_unassigned fuel machine job step fin ids :
  preserves U (fail_loop fuel machine job step fin ids).
Proof.
  revert fin ids. induction fuel as [|fuel IH]; intros fin ids; cbn [fail_loop]; [by intros w|].
  unfold get_all_indirect_builds, retire. unassigned. apply IH.
Qed.

(** [fail_step] once the item is taken out of [scheduled]. *)
Lemma fail_rest_unassigned d item state timings :
  preserves U (with_held (it_step_info item) (
    step ← step_of_item item;
    on_heap (upd_step step (Step.set_finished false));;
    job ← take_job (it_machine item) d;
    fail_taken item step job state timings)).
Proof.
  unfold with_held, take_job, fail_taken, inner_fail_job, finish_build_step. unassigned.
  all: apply fail_loop_unassigned.
Qed.

Lemma fail_step_unassigned d state timings : preserves U (fail_step d state timings).
Proof.
  unfold fail_step, take_and. apply preserves_bind; [apply unassigned_take|]. intros item. apply fail_rest_unassigned.
Qed.
End Unassigned.

Lemma fail_step_unassigns id drv state timings w :
  ms_by_uuid (w_machines w) !! id = None → unassigned id drv (fail_step drv state timings w).2.
Proof.
  intros Hm. unfold fail_step, take_and. rewrite bind_run. unfold take_scheduled, Queues.remove_job_from_scheduled.
  destruct (iq_scheduled (w_queues w) !! drv) as [item|] eqn:E; cbn [ok_or]; [|by split].
  apply fail_rest_unassigned. split; [|done]. cbn. apply lookup_delete_eq.
Qed.

Lemma fail_jobs_unassigned id (jobs : list Job) w :
  ms_by_uuid (w_machines w) !! id = None →
  let r := for_each jobs (λ job,
    attempt (fail_step (j_path job) RsPreparingFailure BuildTimings.default);; mret tt) w in
  r.1 = Ok tt ∧ ms_by_uuid (w_machines r.2) !! id = None ∧
  (∀ d, unassigned id d w → unassigned id d r.2) ∧
  ∀ job, job ∈ jobs → unassigned id (j_path job) r.2.
Proof.
  revert w. induction jobs as [|job jobs IH]; intros w Hm.
  { split_and!; [done|done|done|]. by intros j ?%not_elem_of_nil. }
  pose proof (fail_step_unassigns id (j_path job) RsPreparingFailure BuildTimings.default w Hm) as Hj.
  pose proof (λ d, fail_step_unassigned id d (j_path job) RsPreparingFailure BuildTimings.default w) as Hk.
  set (f := λ job : Job, _). cbn zeta.
  assert (for_each (job :: jobs) f w =
    for_each jobs f (fail_step (j_path job) RsPreparingFailure BuildTimings.default w).2) as ->.
  { cbn [for_each]. rewrite bind_run. unfold f at 1. rewrite bind_run. unfold attempt at 1.
    by destruct (fail_step _ _ _ w). }
  destruct (IH _ (proj2 Hj)) as (H1 & H2 & H3 & H4). split_and!; [done|done|auto|].
  intros j [->|Hin]%elem_of_cons; auto.
Qed.

Lemma remove_machine_spec id w a m :
  ms_by_uuid (w_machines w) !! id = Some a → ms_objs (w_machines w) !! a = Some m →
  let r := remove_machine id w in
  r.1 = Ok tt ∧ ms_by_uuid (w_machines r.2) !! id = None ∧
  ∀ job, job ∈ mc_jobs m → iq_scheduled (w_queues r.2) !! j_path job = None.
Proof.
  intros Hid Ha. unfold remove_machine, on_machines, Machines.remove_machine. rewrite !bind_run. cbn zeta.
  rewrite Hid. cbn [mbind option_bind]. rewrite Ha. cbn [mbind option_bind].
  set (ms := Machines.reconstruct_supported_features _).
  set (w1 := (w <| w_machines := ms |>) <| w_heap := w_heap w |>).
  rewrite bind_run. unfold machine_at.
  assert (ms_objs (w_machines w1) !! a = Some m) as -> by done. cbn [ok_or].
  destruct (fail_jobs_unassigned id (mc_jobs m) w1) as (H1 & H2 & _ & H4).
  { cbn. apply lookup_delete_eq. }
  split_and!; [done|done|]. intros job Hj. by apply H4.
Qed.

(** C15: When the task of a builder's tunnel ends - the builder left, the
    connection broke, a message could not be sent -, no builder is registered
    under its id any more and none of the steps it was given is still marked
    as scheduled, whatever the database answers to the failures of its jobs. *)
Theorem tunnel_end_unassigns (id : Uuid) (ev : TunnelEvent) (w w' : World) (a : addr) (m : Machine)
    (Hid : ms_by_uuid (w_machines w) !! id = Some a) (Ha : ms_objs (w_machines w) !! a = Some m)
    (Hend : tunnel_event id ev w = (Ok false, w')) :
  Machines.get_machine_by_id id (w_machines w') = None ∧
  ∀ job, job ∈ mc_jobs m → iq_scheduled (w_queues w') !! j_path job = None.
Proof.
  pose proof (remove_machine_spec id w a m Hid Ha) as Hspec. cbn zeta in Hspec.
  assert (w' = (remove_machine id w).2) as ->; [|by destruct Hspec as (_ & ? & ?)].
  assert ((remove_machine id ≫= λ _, mret false) w = (Ok false, w') → w' = (remove_machine id w).2) as Hl.
  { rewrite bind_run. destruct (remove_machine id w) as [[]]; [|done]. by intros [= <-]. }
  assert (∀ m : WM unit, (m ≫= λ _, mret true) w ≠ (Ok false, w')) as Ht.
  { intros m'. rewrite bind_run. by destruct (m' w) as [[] ?]. }
  destruct ev as [[]|[]| |[msg|]|[] []|]; cbn [tunnel_event] in Hend;
    first [by apply Hl | by apply Ht in Hend | done].
Qed.

(** ** The processor of the dispatcher *)

(** The queues and the steps stay as they are. *)
Definition calm {A} (m : WM A) : Prop :=
  ∀ w, w_queues (m w).2 = w_queues w ∧ hp_steps (w_heap (m w).2) = hp_steps (w_heap w).

Lemma calm_bind {A B} (m : WM A) (f : A → WM B) : calm m → (∀ a, calm (f a)) → calm (m ≫= f).
Proof.
  intros Hm Hf w. rewrite bind_run. destruct (Hm w) as [E1 E2]. destruct (m w) as [[a|e] w1]; [|done].
  destruct (Hf a w1) as [-> ->]. done.
Qed.
Lemma calm_for_each {A} (l : list A) (f : A → WM unit) : (∀ x, calm (f x)) → calm (for_each l f).
Proof. intros Hf. induction l; cbn; [done|]. by apply calm_bind. Qed.
Lemma calm_attempt {A} (m : WM A) : calm m → calm (attempt m).
Proof. intros H w. unfold attempt. specialize (H w). by destruct (m w). Qed.
Lemma calm_db {A} (m : DbM A) : calm (db m).
Proof. intros w. unfold db, zoom. by destruct (m (w_db w)). Qed.

Lemma find_machine_steps ff req l ms h : hp_steps (Machines.find_machine ff req l ms h).2.2 = hp_steps h.
Proof.
  revert ms h. induction l as [|a l IH]; intros ms h; cbn [Machines.find_machine]; [done|].
  destruct (ms_objs ms !! a) as [m|]; [|apply IH].
  assert (hp_steps (Machines.capacity ff m h).2.2 = hp_steps h) as E.
  { destruct ff; [|done]. cbn. unfold Machine.has_capacity. cbn [now]. by repeat case_match. }
  destruct (Machines.capacity ff m h) as [free [m' h']]. cbn in E.
  destruct (free && _); [done|]. by rewrite IH.
Qed.

Lemma get_machine_steps system req ff ms h :
  hp_steps (Machines.get_machine_for_system system req ff ms h).2.2 = hp_steps h.
Proof.
  unfold Machines.get_machine_for_system. destruct (decide _); [apply find_machine_steps|].
  destruct (ms_by_system ms !! system); [apply find_machine_steps|done].
Qed.

Lemma calm_on_machines {A} (f : Machines → Heap → A * (Machines * Heap)) :
  (∀ ms h, hp_steps (f ms h).2.2 = hp_steps h) → calm (on_machines f).
Proof.
  intros H w. unfold on_machines. specialize (H (w_machines w) (w_heap w)).
  by destruct (f (w_machines w) (w_heap w)) as [r [ms h]].
Qed.

Lemma build_drv_objects job opts presigned m h :
  match Machine.build_drv job opts presigned m h with
  | Ok (_, h') => hp_steps h' = hp_steps h
  | Err _ => True
  end.
Proof.
  unfold Machine.build_drv. destruct (Machine.send _ m) as [m1|e]; [|done]. cbn [mbind result_bind].
  set (p := if _ =? 0 then _ else (m1, h)).
  assert (hp_steps p.2 = hp_steps h) as Ep by (unfold p; by destruct (_ =? 0)).
  destruct p as [m2 h2]. cbn in Ep. unfold Machine.insert_job.
  pose proof (store_current_jobs_objects (Z.of_nat (length (mc_jobs m2 ++ [job]))) (mc_stats m2) h2) as [E _].
  destruct (Stats.store_current_jobs _ _ h2) as [st h3]. cbn in *. congruence.
Qed.

Lemma calm_build_drv a job opts presigned : calm (try_machine a (Machine.build_drv job opts presigned)).
Proof.
  intros w. unfold try_machine. destruct (ms_objs (w_machines w) !! a) as [m|]; [|done].
  pose proof (build_drv_objects job opts presigned m (w_heap w)) as H.
  by destruct (Machine.build_drv job opts presigned m (w_heap w)) as [[m' h']|e].
Qed.

Ltac calm :=
  repeat first
    [ apply calm_db | apply calm_attempt | apply calm_build_drv
    | (apply calm_on_machines; intros ? ?; apply get_machine_steps)
    | (intros ?; split; [reflexivity|apply finish_all_steps])
    | (intros ?; split; reflexivity)
    | apply calm_bind; [|intros ?]
    | apply calm_for_each; intros ?
    | match goal with
      | |- calm (if ?b then _ else _) => destruct b
      | |- calm (match ?b with _ => _ end) => destruct b
      end ].

Lemma fail_loop_calm fuel machine job step fin ids : calm (fail_loop fuel machine job step fin ids).
Proof.
  revert fin ids. induction fuel as [|fuel IH]; intros fin ids; cbn [fail_loop]; [done|].
  unfold get_all_indirect_builds, retire. calm. apply IH.
Qed.

Lemma realise_calm c : calm (realise_drv_on_valid_machine c).
Proof.
  unfold realise_drv_on_valid_machine, resolve, submit, check_cached_failure, inner_fail_job, finish_build_step.
  calm. all: apply fail_loop_calm.
Qed.

Lemma calm_quiet {A} (m : WM A) : calm m → quiet m.
Proof. intros H w. destruct (H w) as [E1 E2]. split; [done|]. intros a. cbn. by rewrite E2. Qed.

(** ** A change of the configuration *)

Lemma reload_queues new w w' :
  reload_config_callback new w = (Ok tt, w') → pa_step_sort_fn (w_config w) ≠ pa_step_sort_fn new →
  w_queues w' = Queues.sort_queues (w_heap w) (pa_step_sort_fn (w_config w)) (w_queues w).
Proof.
  intros H Hne. unfold reload_config_callback in H.
  apply bind_Ok in H as (cfg & w0 & [= <- <-] & H). cbn zeta in H.
  set (changed := negb (bool_decide _)) in H.
  assert (∀ uris w0 r w1, open_stores uris w0 = (r, w1) → w1 = w0) as Hopen.
  { induction uris as [|u us IH]; cbn; intros w0 r w1; [by intros [= _ <-]|].
    rewrite bind_run. unfold lift_result at 1. destruct (open_store u); [|by intros [= _ <-]].
    rewrite bind_run. destruct (open_stores us w0) as [[l|e] w2] eqn:E; apply IH in E as ->; by intros [= _ <-]. }
  apply bind_Ok in H as (rs & w1 & H1 & H).
  assert (w1 = w) as -> by (destruct changed; [by eapply Hopen|by injection H1]).
  apply bind_Ok in H as (u & w1 & H2 & H).
  assert (w1 = w) as -> by (destruct (decide _); by injection H2).
  apply bind_Ok in H as (u' & w1 & H3 & H).
  assert (w_queues w1 = w_queues w ∧ w_heap w1 = w_heap w) as [E1 E2] by (destruct (decide _); by injection H3 as _ <-).
  rewrite decide_False in H by done. apply bind_Ok in H as (u'' & w2 & H4 & H). injection H4 as _ <-.
  apply bind_Ok in H as (u3 & w3 & H5 & H). injection H as <-. cbn.
  destruct changed; injection H5 as _ <-; cbn; by rewrite E1, E2.
Qed.
End Env.
