(* ===== verification/EndToEnd.v ===== *)
(** * EndToEnd: from a builder's result to the builds of the queue runner

    The task of a builder ([Builder.run_task]) ends with a report; the request
    [complete_build] ([Grpc]) hands it to [succeed_step] ([State]). Here the
    two sides are put together: on a database that answers, a build that
    succeeded on the builder is finished on the queue runner, without
    exception, and when something fails on the way the builder is told
    nothing and the queue runner is left with a step that nobody waits for. *)

From Stdlib Require Import Ascii String.
From S2P Require Import NarInfo CacheCfg Stream BinaryCache Presigned PresignedFlow.
From S2P Require Import Prelude Floats RustStr Nix Db Support Jobset Graph Dependents GraphInv Result.
From S2P Require Import Machine MachineInv Queue Config Uploader FodChecker State StateInv FailJob SucceedJob.
From S2P Require Import Dispatch Grpc Builder BuilderInv.
Local Open Scope list_scope.
Local Open Scope Z_scope.

(** ** Total correctness

    [totally P m Q]: started where [P] holds, [m] succeeds and [Q] holds of
    its result and the state. *)

Section Totally.
Context {S E : Type}.

Definition totally {A} (P : S → Prop) (m : M S E A) (Q : A → S → Prop) : Prop :=
  ∀ s, P s → ∃ a s', m s = (Ok a, s') ∧ Q a s'.

Lemma totally_bind {A B} P (m : M S E A) (f : A → M S E B) R Q :
  totally P m R → (∀ a, totally (R a) (f a) Q) → totally P (m ≫= f) Q.
Proof.
  intros Hm Hf s Hs. destruct (Hm s Hs) as (a & s1 & E1 & H1). destruct (Hf a s1 H1) as (b & s2 & E2 & H2).
  exists b, s2. by rewrite bind_run, E1, E2.
Qed.

Lemma totally_ret {A} (Q : A → S → Prop) a : totally (Q a) (mret a : M S E A) Q.
Proof. intros s Hs. by exists a, s. Qed.

Lemma totally_gets {A} (P : S → Prop) (g : S → A) : totally P (gets g : M S E A) (λ a s, P s ∧ a = g s).
Proof. intros s Hs. by exists (g s), s. Qed.

Lemma totally_modify (P : S → Prop) (g : S → S) (Q : unit → S → Prop) :
  (∀ s, P s → Q tt (g s)) → totally P (modify g : M S E unit) Q.
Proof. intros H s Hs. exists tt, (g s). split; [done|]. by apply H. Qed.

Lemma totally_pre {A} (P P' : S → Prop) (m : M S E A) Q : (∀ s, P' s → P s) → totally P m Q → totally P' m Q.
Proof. intros HP Hm s Hs. by apply Hm, HP. Qed.

(** An error comes from the first operation or from the rest. *)
Lemma bind_Err {A B} (m : M S E A) (f : A → M S E B) s e s' :
  (m ≫= f) s = (Err e, s') → m s = (Err e, s') ∨ ∃ a s1, m s = (Ok a, s1) ∧ f a s1 = (Err e, s').
Proof. rewrite bind_run. destruct (m s) as [[a|e'] s1]; [by eauto|]. intros [= <- <-]. by left. Qed.
End Totally.

Section Env.
Context `{HI : HashIter} `{FE : FloatEnv} `{TL : TimeLib} `{NE : NixEnv} `{DE : DbEnv} `{SE : StateEnv}.

(** ** A queue runner that can record a success *)

(** The clock stays within what the columns of times can hold. *)
Definition clock_fits (h : Heap) : Prop := ∀ n, in_i 32 (as_second (hp_clock h n)) = true.

(** What [succeed_taken] needs: a database that answers, the machine and the
    step, and numbers that fit their columns. *)
Record can_record (machine step : addr) (output : BuildOutput) (w : World) : Prop := {
  cr_db : ∃ t, w_db w = db_ok t;
  cr_clock : clock_fits (w_heap w);
  cr_machine : is_Some (ms_objs (w_machines w) !! machine);
  cr_step : is_Some (hp_steps (w_heap w) !! step);
  cr_builds s a b : hp_steps (w_heap w) !! step = Some s → a ∈ st_builds s → hp_builds (w_heap w) !! a = Some b →
    fits (get_mark_build_sccuess_data b output) = true
}.

Lemma try_i_fits n z : in_i n z = true → try_i n z = Some z.
Proof. intros H. unfold try_i. by rewrite H. Qed.

(** *** The transactions *)

Lemma mark_succeeded_build_total d cached st sp t :
  fits d = true → ∃ t', mark_succeeded_build d cached st sp (tx_ok t) = (Ok tt, tx_ok t').
Proof.
  intros Hf. destruct (mb_finished_in_db d) eqn:Hd.
  { exists t. unfold mark_succeeded_build. by rewrite Hd. }
  destruct (check_if_build_is_not_finished (mb_id d) (tx_ok t)) as [r tx] eqn:Hc.
  assert (tx = tx_ok t ∧ r = Ok (bool_decide (is_Some (head (row_order
    (filter (λ r, r_id r = mb_id d ∧ r_finished r = 0) (t_builds t))))))) as [-> ->].
  { revert Hc. unfold check_if_build_is_not_finished. rewrite tx_query_ok. by intros [= <- <-]. }
  destruct (decide (Exists (λ r, r_id r = mb_id d ∧ r_finished r = 0) (t_builds t))) as [He|He].
  - apply Exists_exists in He as (r & Hr & Hid & Hfin). eexists. by apply (mark_succeeded_build_run _ _ _ _ _ r).
  - exists t. unfold mark_succeeded_build. rewrite Hd, bind_run, Hc, bool_decide_eq_false_2; [done|].
    intros [r Hr]. apply He, Exists_exists. exists r. apply head_Some_elem_of in Hr. rewrite row_order_perm in Hr.
    apply list_elem_of_filter in Hr as [? ?]. done.
Qed.

Lemma for_each_total {A} (l : list A) (f : A → TxM unit) t :
  (∀ x t, x ∈ l → ∃ t', f x (tx_ok t) = (Ok tt, tx_ok t')) →
  ∃ t', for_each l f (tx_ok t) = (Ok tt, tx_ok t').
Proof.
  revert t. induction l as [|x l IH]; intros t H; cbn [for_each]; [by exists t|].
  destruct (H x t) as (t1 & E1); [left|]. rewrite bind_run, E1. apply IH. intros y t2 Hy. apply H. by right.
Qed.

Lemma succeed_tx_total job output bs t :
  times_ok (j_result job) → Forall (λ b, fits (get_mark_build_sccuess_data b output) = true) bs →
  ∃ t', succeed_tx job output bs (tx_ok t) = (Ok tt, tx_ok t').
Proof.
  intros [Hst Hsp] Hbs. unfold succeed_tx. rewrite bind_run.
  destruct (RemoteBuild.get_start_time_as_i32 _) as [st|]; [|done]. cbn [lift_result]. rewrite bind_run.
  destruct (RemoteBuild.get_stop_time_as_i32 _) as [sp|]; [|done]. cbn [lift_result].
  apply for_each_total. intros b t1 Hb. rewrite Forall_forall in Hbs. by apply mark_succeeded_build_total, Hbs.
Qed.

Lemma finish_tx_total q b n res m t :
  times_ok res → (∀ p, is_ok (query_drv q p) = true) → ∃ t', finish_tx q b n res m (tx_ok t) = (Ok tt, tx_ok t').
Proof.
  intros [Hst Hsp] Hq. unfold finish_tx. rewrite bind_run.
  destruct (RemoteBuild.get_start_time_as_i32 res) as [st|]; [|done]. cbn [lift_result]. rewrite bind_run.
  destruct (RemoteBuild.get_stop_time_as_i32 res) as [sp|]; [|done]. cbn [lift_result]. rewrite bind_run.
  unfold update_build_step_in_finish. rewrite tx_update_ok, bind_run.
  match goal with |- context [notify_step_finished ?b ?n ?l (tx_ok ?t)] =>
    assert (∃ t1, notify_step_finished b n l (tx_ok t) = (Ok tt, tx_ok t1)) as (t1 & ->) by (by eexists) end.
  case_decide; [|by exists t1]. rewrite bind_run.
  assert (∃ p, get_drv_path_from_build_step b n (tx_ok t1) = (Ok p, tx_ok t1)) as ([p|] & ->) by (by eexists); [|by exists t1].
  rewrite bind_run. specialize (Hq (store_path_new p)). destruct (query_drv q (store_path_new p)) as [o|]; [|done].
  cbn [map_err lift_result]. apply for_each_total. intros x t2 _. destruct (o_path x); [|by exists t2].
  unfold update_build_step_output. rewrite tx_update_ok. by eexists.
Qed.

(** *** The handler *)

Section Handler.
Context (machine step : addr) (output : BuildOutput).
Abbreviation ready := (can_record machine step output).

(** An operation on other parts of the state. *)
Lemma ready_same w w' : same_graph w w' → hp_clock (w_heap w') = hp_clock (w_heap w) → (∃ t, w_db w' = db_ok t) →
  is_Some (ms_objs (w_machines w') !! machine) → ready w → ready w'.
Proof.
  intros (G1 & G2 & _) Hc Hd Hm [H1 H2 H3 H4 H5]. split; [done| |done|by rewrite G1|by rewrite G1, G2].
  intros n. rewrite Hc. apply H2.
Qed.

Lemma ready_modify (g : World → World) :
  (∀ w, w_heap (g w) = w_heap w ∧ w_machines (g w) = w_machines w ∧ w_db (g w) = w_db w ∧ w_builds (g w) = w_builds w) →
  totally ready (modify g : WM unit) (λ _, ready).
Proof.
  intros H. apply totally_modify. intros w Hw. destruct (H w) as (E1 & E2 & E3 & E4).
  apply (ready_same w); [by repeat split; congruence|by rewrite E1|rewrite E3; apply Hw|rewrite E2; apply Hw|done].
Qed.

Lemma ready_clock : totally ready clock (λ t w, in_i 32 (as_second t) = true ∧ ready w).
Proof. intros w Hw. do 2 eexists. split; [done|]. split; [apply Hw|]. apply (ready_same w); try done; apply Hw. Qed.

Lemma ready_db {A} (m : DbM A) Q : (∀ t, ∃ a t', m (db_ok t) = (Ok a, db_ok t') ∧ Q a) →
  totally ready (db m) (λ a w, Q a ∧ ready w).
Proof.
  intros H w Hw. destruct (cr_db _ _ _ _ Hw) as (t & Ht). destruct (H t) as (a & t' & E & Ha).
  exists a, (w <| w_db := db_ok t' |>). unfold db, zoom. rewrite Ht, E. split; [done|]. split; [done|].
  apply (ready_same w); [done|done|by eexists|apply Hw|done].
Qed.

Lemma ready_get : totally ready (db get) (λ _, ready).
Proof. intros w Hw. destruct (ready_db get (λ _, True) (λ t, ex_intro _ tt (ex_intro _ t (conj eq_refl I))) w Hw) as (a & w' & ? & _ & ?). eauto. Qed.

Lemma ready_tx {A} (m : TxM A) : (∀ t, ∃ a t', m (tx_ok t) = (Ok a, tx_ok t')) → totally ready (db (run_tx m)) (λ _, ready).
Proof.
  intros H w Hw. destruct (ready_db (run_tx m) (λ _, True)) with (s := w) as (a & w' & E & _ & Hw'); [|done|eauto].
  intros t. destruct (H t) as (a & t' & E). exists a, t'. split; [|done]. by apply run_tx_ok.
Qed.

Lemma ready_finish b n res m : times_ok res → (∀ q p, is_ok (query_drv q p) = true) →
  totally ready (finish_build_step b n res m) (λ _, ready).
Proof.
  intros Ht Hq. unfold finish_build_step. eapply totally_bind; [apply ready_get|intros ?].
  apply (totally_bind _ _ _ (λ _, ready)); [|intros q].
  { intros w Hw. do 2 eexists. split; [done|]. apply (ready_same w); try done; apply Hw. }
  apply ready_tx. intros t. destruct (finish_tx_total q b n res m t Ht (Hq q)) as (t' & E). by exists tt, t'.
Qed.

(** The transaction on the builds, and what is left of the handler after it. *)
Lemma record_builds_total job s : times_ok (j_result job) →
  totally (λ w, ready w ∧ hp_steps (w_heap w) !! step = Some s)
    (direct ← gets (λ w, Step.get_direct_builds (w_heap w) s);
     (if decide (direct = []) then modify (λ w, w <| w_steps ::= Steps.remove (st_drv_path s) |>) else mret tt);;
     bs ← gets (λ w, builds_data direct (w_heap w));
     db get;;
     db (run_tx (succeed_tx job output bs));;
     ids ← retire direct;
     db get;;
     db (run_tx (for_each ids (λ id, notify_build_finished id [])));;
     on_heap (Step.make_rdeps_runnable step);;
     trigger_dispatch)
    (λ _ _, True).
Proof.
  intros Hjob. eapply totally_bind; [apply totally_gets|intros direct]. cbn beta.
  set (fit (w : World) := Forall (λ b, fits (get_mark_build_sccuess_data b output) = true) (builds_data direct (w_heap w))).
  apply (totally_bind _ _ _ (λ _ w, ready w ∧ fit w)).
  { intros w [[Hw Hs] Hd]. assert (fit w) as Hf.
    { apply Forall_forall. intros b Hb. unfold builds_data in Hb. apply list_elem_of_omap in Hb as (a & Ha & Hb).
      rewrite Hd in Ha. apply list_elem_of_filter in Ha as [_ Ha]. by apply (cr_builds _ _ _ _ Hw s a). }
    case_decide; (do 2 eexists; split; [done|]); (split; [|exact Hf]); [|exact Hw].
    apply (ready_same w); try done; apply Hw. }
  intros ?. eapply totally_bind; [apply totally_gets|intros bs]. cbn beta.
  eapply (totally_pre (λ w, ready w ∧ Forall (λ b, fits (get_mark_build_sccuess_data b output) = true) bs)).
  { intros w [[Hw Hf] ->]. done. }
  intros w [Hw Hf]. revert w Hw. eapply totally_bind; [apply ready_get|intros ?].
  eapply totally_bind; [apply ready_tx; intros t; destruct (succeed_tx_total job output bs t Hjob Hf) as (t' & E); by exists tt, t'|].
  intros ?. apply (totally_bind _ _ _ (λ _ w, ∃ t, w_db w = db_ok t)).
  { intros w Hw. rewrite retire_run. do 2 eexists. split; [done|]. apply Hw. }
  intros ids w [t Ht].
  rewrite bind_run. unfold db at 1, zoom. rewrite Ht. change (get (db_ok t)) with (@Ok Error unit tt, db_ok t).
  cbn [upd set_w_db]. rewrite bind_run.
  match goal with |- context [for_each ids ?f] => assert (∃ t', for_each ids f (tx_ok t) = (Ok tt, tx_ok t')) as (t' & E) end.
  { apply for_each_total. intros id t1 _. by eexists. }
  unfold db, zoom. cbn [w_db]. rewrite (run_tx_ok _ _ _ _ E). by do 2 eexists.
Qed.

Lemma succeed_taken_total item job :
  it_machine item = machine → (∀ q p, is_ok (query_drv q p) = true) →
  is_ok (RemoteBuild.get_start_time_as_i32 (j_result job)) = true →
  in_i 32 (BuildTimings.get_overhead (out_timings output)) = true →
  totally ready (succeed_taken item step job output) (λ _ _, True).
Proof.
  intros Hi Hq Hst Ho. unfold succeed_taken.
  eapply totally_bind; [by apply ready_modify|intros ?]. eapply totally_bind; [apply ready_clock|intros now].
  intros w [Hnow Hw]. set (res0 := RemoteBuild.set_stop_time_now _ _).
  assert (∃ res, RemoteBuild.set_overhead (BuildTimings.get_overhead (out_timings output)) res0 = Ok res ∧ times_ok res)
    as (res & Hres & Htimes).
  { unfold RemoteBuild.set_overhead. rewrite try_i_fits by done. eexists. split; [done|]. split; [done|].
    unfold RemoteBuild.get_stop_time_as_i32, RemoteBuild.time_as_i32. cbn. by rewrite try_i_fits. }
  rewrite bind_run. unfold lift_result at 1. rewrite Hres. revert w Hw. rewrite Hi.
  eapply (totally_bind _ _ _ (λ _, ready)); [|intros ?].
  { intros w Hw. destruct (cr_machine _ _ _ _ Hw) as [m Hm]. unfold on_machine. rewrite Hm.
    do 2 eexists. split; [done|]. apply (ready_same w); [done|done|apply Hw|cbn; rewrite lookup_insert_eq; by eexists|done]. }
  eapply (totally_bind _ _ _ (λ _, ready)); [|intros m].
  { intros w Hw. destruct (cr_machine _ _ _ _ Hw) as [m Hm]. unfold machine_at. rewrite Hm. by do 2 eexists. }
  eapply totally_bind; [by apply ready_finish|intros ?]. eapply totally_bind; [apply totally_gets|intros upload].
  apply (totally_bind _ _ _ (λ _, ready)); [|intros ?].
  { intros w [Hw _]. destruct upload; [|by do 2 eexists]. unfold schedule_upload. rewrite bind_run.
    do 2 eexists. split; [done|]. apply (ready_same w); try done; apply Hw. }
  intros w Hw. destruct (cr_step _ _ _ _ Hw) as [s Hs]. rewrite bind_run. unfold step_at. rewrite Hs. cbn [ok_or].
  by apply (record_builds_total _ s).
Qed.
End Handler.

(** ** Taking the job off *)

(** The queue runner waits for the result of job [build_id] of machine
    [machine_id]: it builds [drv], is scheduled as [item], for the step [s]. *)
Record awaits (w : World) (build_id machine_id : Uuid) (drv : StorePath) (item : ScheduledItem) (info : StepInfo)
    (s : Step) (m : Machine) : Prop := {
  aw_id : Machines.get_machine_by_id machine_id (w_machines w) = Some (it_machine item);
  aw_machine : ms_objs (w_machines w) !! it_machine item = Some m;
  aw_job : Machine.get_job_drv_for_build_id build_id m = Some drv;
  aw_item : iq_scheduled (w_queues w) !! drv = Some item;
  aw_info : iq_infos (w_queues w) !! it_step_info item = Some info;
  aw_step : hp_steps (w_heap w) !! si_step info = Some s;
  aw_path : st_drv_path s = drv;
  aw_self : si_step info ∉ st_rdeps s
}.

Definition drop_held (w : World) : World := w <| w_queues ::= λ iq, iq <| iq_held ::= tail |> |>.

Lemma remove_job_clock drv m h : hp_clock (Machine.remove_job drv m h).2.2 = hp_clock h.
Proof.
  unfold Machine.remove_job, Stats.store_current_jobs, now. by destruct (_ && _).
Qed.

Lemma drv_of_job_run w build_id machine_id drv item info s m :
  awaits w build_id machine_id drv item info s m → drv_of_job build_id machine_id w = (Ok drv, w).
Proof.
  intros []. unfold drv_of_job. rewrite bind_run. cbn [gets]. rewrite aw_id0. cbn [mbind option_bind].
  rewrite aw_machine0, bind_run. cbn [lift_opt lift_result ok_or]. by rewrite aw_job0.
Qed.

(** What the handlers find once the job is taken. *)
Record taken (w : World) (drv : StorePath) (fin : bool) (item : ScheduledItem) (step : addr) (job : Job) (w1 : World) : Prop := {
  tk_off : taken_off drv (it_machine item) w1;
  tk_steps : hp_steps (w_heap w1) = alter (Step.set_finished fin) step (hp_steps (w_heap w));
  tk_builds : hp_builds (w_heap w1) = hp_builds (w_heap w);
  tk_registry : w_builds w1 = w_builds w;
  tk_db : w_db w1 = w_db w;
  tk_info : si_step <$> iq_infos (w_queues w1) !! it_step_info item = Some step;
  tk_clock : hp_clock (w_heap w1) = hp_clock (w_heap w)
}.

Lemma take_and_run w build_id machine_id drv item info s m fin :
  awaits w build_id machine_id drv item info s m →
  ∃ job w1, taken w drv fin item (si_step info) job w1 ∧ job ∈ mc_jobs m ∧ j_path job = drv ∧
    ∀ k, take_and drv fin k w = let '(r, w2) := k item (si_step info) job w1 in (r, drop_held w2).
Proof.
  intros [_ Hm Hj Hit Hin Hs _ _].
  assert (∃ job, List.find (Machine.has_path drv) (mc_jobs m) = Some job) as (job & Hfind).
  { unfold Machine.get_job_drv_for_build_id, Machine.find_job in Hj. apply fmap_Some in Hj as (j & Hj & Hp).
    apply find_some in Hj as [Hj _]. destruct (List.find (Machine.has_path drv) (mc_jobs m)) as [job|] eqn:E; [by eexists|].
    apply (find_none _ _ E) in Hj. unfold Machine.has_path in Hj. by rewrite bool_decide_eq_true_2 in Hj by done. }
  assert (Hf := find_some _ _ Hfind). destruct Hf as [Hjob Hpath%bool_decide_eq_true].
  set (h0 := upd_step (si_step info) (Step.set_finished fin) (w_heap w)).
  pose proof (remove_job_spec drv m h0) as Hr. pose proof (remove_job_clock drv m h0) as Hc.
  pose proof (remove_job_objects drv m h0) as [Ho1 Ho2].
  destruct (Machine.remove_job drv m h0) as [o [m' h']] eqn:Erem. cbn [snd] in Hc, Ho1, Ho2.
  destruct Hr as (_ & _ & _ & -> & Hjobs).
  assert (∃ w1, taken w drv fin item (si_step info) job w1 ∧
    ∀ k, take_and drv fin k w = let '(r, w2) := k item (si_step info) job w1 in (r, drop_held w2)) as (w1 & H1 & H2);
    [|by exists job, w1; rewrite <-list_elem_of_In in Hjob].
  eexists. split; cycle 1.
  - intros k. unfold take_and. rewrite bind_run. unfold take_scheduled at 1, Queues.remove_job_from_scheduled. rewrite Hit.
    cbn [ok_or]. unfold with_held. rewrite bind_run. cbn [on_queues modify]. rewrite bind_run. unfold attempt at 1.
    rewrite bind_run. unfold step_of_item at 1. cbn -[lookup take_job drop_held]. rewrite lookup_alter_eq, Hin.
    cbn -[lookup take_job drop_held]. rewrite bind_run. cbn -[lookup take_job drop_held].
    rewrite bind_run. unfold take_job at 1. rewrite bind_run. unfold on_machine at 1. cbn -[lookup drop_held Machine.remove_job].
    rewrite Hm. match goal with |- context [Machine.remove_job drv m ?h] => change h with h0 end. rewrite Erem, Hfind. cbn -[drop_held].
    match goal with |- ?L = _ => match L with context [k item (si_step info) job ?w1] =>
      instantiate (1 := w1); destruct (k item (si_step info) job w1) as [[]]; reflexivity end end.
  - split; [|done..|cbn; by rewrite lookup_alter_eq, Hin|done]. split; [apply lookup_delete_eq|]. exists m'. split; [cbn; apply lookup_insert_eq|].
    rewrite Hjobs. apply Forall_forall. by intros j [? _]%list_elem_of_filter.
Qed.

(** ** A handler that fails half-way *)

(** Queues and steps are as they were. *)
Definition still (iq : InnerQueues) (steps : gmap addr Step) (w : World) : Prop :=
  w_queues w = iq ∧ hp_steps (w_heap w) = steps.

Section Still.
Context (iq : InnerQueues) (steps : gmap addr Step).
Abbreviation kept := (preserves (still iq steps)).

Lemma still_core {A} (m : WM A) : (∀ w, w_queues (m w).2 = w_queues w ∧ hp_steps (w_heap (m w).2) = hp_steps (w_heap w)) → kept m.
Proof. intros H w. unfold still. destruct (H w) as [-> ->]. done. Qed.
Lemma still_db {A} (m : DbM A) : kept (db m).
Proof. apply still_core. intros w. unfold db, zoom. by destruct (m (w_db w)). Qed.
Lemma still_machine {A} a (f : Machine → Heap → A * (Machine * Heap)) : (∀ m h, hp_steps (f m h).2.2 = hp_steps h) → kept (on_machine a f).
Proof.
  intros H. apply still_core. intros w. unfold on_machine. destruct (ms_objs (w_machines w) !! a) as [m|]; [|done].
  specialize (H m (w_heap w)). by destruct (f m (w_heap w)) as [r [m' h']].
Qed.
Lemma still_retire l : kept (retire l).
Proof. apply still_core. intros w. rewrite retire_run. cbn [snd]. split; [done|]. cbn. apply finish_all_steps. Qed.
Lemma still_finish b n res m : kept (finish_build_step b n res m).
Proof.
  unfold finish_build_step. apply preserves_bind; [apply still_db|intros ?].
  apply preserves_bind; [by apply still_core|intros ?; apply still_db].
Qed.

(** Up to the last two operations, which cannot fail. *)
Lemma failed_still step job output item :
  hoare (λ w, ∃ iq0, iq = Queues.remove_job (w_heap w) (it_step_info item) (it_build_queue item) iq0 ∧ still iq0 steps w)
    (succeed_taken item step job output) (λ _ _, True) (still iq steps).
Proof.
  unfold succeed_taken. apply (hoare_bind _ _ _ (λ _, still iq steps)).
  { intros w (iq0 & -> & <- & <-). done. }
  intros ?.
  do 2 (eapply hoare_bind; [apply hoare_preserves; first [by apply preserves_lift|by apply still_core]|intros ?]).
  eapply hoare_bind; [apply hoare_preserves; by apply still_machine|intros ?].
  eapply hoare_bind; [apply hoare_preserves; by apply still_core|intros ?].
  eapply hoare_bind; [apply hoare_preserves, still_finish|intros ?].
  eapply hoare_bind; [apply hoare_preserves; by apply still_core|intros upload].
  eapply hoare_bind; [apply hoare_preserves; destruct upload; [unfold schedule_upload|by apply still_core]; apply preserves_bind; [|intros ?]; by apply still_core|intros ?].
  do 2 (eapply hoare_bind; [apply hoare_preserves; by apply still_core|intros ?]).
  eapply hoare_bind; [apply hoare_preserves; case_decide; by apply still_core|intros ?].
  eapply hoare_bind; [apply hoare_preserves; by apply still_core|intros ?].
  do 2 (eapply hoare_bind; [apply hoare_preserves, still_db|intros ?]).
  eapply hoare_bind; [apply hoare_preserves, still_retire|intros ?].
  do 2 (eapply hoare_bind; [apply hoare_preserves, still_db|intros ?]).
  intros w _. done.
Qed.
End Still.
End Env.

Section Claims.
Context `{HI : HashIter} `{FE : FloatEnv} `{TL : TimeLib} `{NE : NixEnv} `{DE : DbEnv} `{SE : StateEnv}
  `{UL : UuidLib} `{SL : SignLib} `{SHA : Sha256Lib} `{CE : CacheEnv} `{HE : HttpEnv} `{FS : FsEnv} `{BE : BuilderEnv}.

(** ** The request *)

Lemma complete_build_run report w build_id machine_id drv item info s m :
  uuid_parse (bri_build_id report) = Some build_id → uuid_parse (bri_machine_id report) = Some machine_id →
  bri_result_state report = GSuccess → awaits w build_id machine_id drv item info s m →
  complete_build report w = (Ok (Ok tt), (succeed_step drv (BuildOutput.from_result_info report) w).2).
Proof.
  intros Hb Hm Hs Ha. unfold complete_build, parse_ids. rewrite Hb, Hm, Hs. cbn [ok_or mbind result_bind].
  rewrite bind_run. unfold attempt, succeed_step_by_uuid. rewrite bind_run, (drv_of_job_run _ _ _ _ _ _ _ _ Ha).
  by destruct (succeed_step drv _ w).
Qed.

(** What it takes to record the result: a database and a store that answer,
    and times and sizes that fit their columns. *)
Record recordable (w : World) (drv : StorePath) (item : ScheduledItem) (s : Step) (m : Machine) (output : BuildOutput) : Prop := {
  rc_db : ∃ t, w_db w = db_ok t;
  rc_store q p : is_ok (query_drv q p) = true;
  rc_clock : clock_fits (w_heap w);
  rc_start j : j ∈ mc_jobs m → j_path j = drv → is_ok (RemoteBuild.get_start_time_as_i32 (j_result j)) = true;
  rc_overhead : in_i 32 (BuildTimings.get_overhead (out_timings output)) = true;
  rc_builds a b : a ∈ st_builds s → hp_builds (w_heap w) !! a = Some b → fits (get_mark_build_sccuess_data b output) = true
}.

Lemma taken_can_record w drv fin item info s m job output w1 build_id machine_id :
  awaits w build_id machine_id drv item info s m → recordable w drv item s m output →
  taken w drv fin item (si_step info) job w1 → can_record (it_machine item) (si_step info) output w1.
Proof.
  intros [_ _ _ _ _ Hs _ _] [Hdb _ Hck _ _ Hbs] [[_ (m' & Hm' & _)] G1 G2 _ G4 _ G6].
  split; [by rewrite G4|by intros n; rewrite G6|by eexists|rewrite G1, lookup_alter_eq, Hs; by eexists|].
  intros s' a b. rewrite G1, lookup_alter_eq, Hs, G2. intros [= <-] Ha Hb. by eapply Hbs.
Qed.

Lemma succeed_step_total w drv item info s m output build_id machine_id :
  awaits w build_id machine_id drv item info s m → recordable w drv item s m output →
  ∃ w', succeed_step drv output w = (Ok tt, w').
Proof.
  intros Ha Hr. destruct (take_and_run _ _ _ _ _ _ _ _ true Ha) as (job & w1 & Ht & Hj & Hp & Hk).
  unfold succeed_step. rewrite Hk.
  destruct (succeed_taken_total (it_machine item) (si_step info) output item job) with (s := w1) as ([] & w2 & -> & _);
    [done|apply Hr|by eapply rc_start|apply Hr|by eapply taken_can_record|]. by eexists.
Qed.

(** C7: when every stage of a task succeeded on a builder, the report it sends
    finishes the build on the queue runner: as long as the queue runner waits
    for the job, its database and store answer and the figures fit their
    columns, the request ends, the builds of which the step is the top level
    are finished in memory, in the registry and in the database, the steps
    that depended on it have lost the dependency, and the derivation is off
    the schedule and the machine. *)
Theorem reported_build_finishes w0 machine_id n use_substitutes cancelled msg b b' build_id mid :
  process_build w0 machine_id n use_substitutes msg (b <| bd_timings := mkBuildTimings 0 0 0 |>) = (Ok tt, b') →
  uuid_parse (bm_build_id msg) = Some build_id → uuid_parse machine_id = Some mid →
  run_task w0 machine_id n use_substitutes cancelled msg b = (true, b') ∧
  ∃ report, last (bd_sent b') = Some (SentResult report) ∧
    ∀ w drv item info s m,
      awaits w build_id mid drv item info s m → recordable w drv item s m (BuildOutput.from_result_info report) →
      ∃ w', complete_build report w = (Ok (Ok tt), w') ∧
        succeeded w w' (si_step info) s ∧ taken_off drv (it_machine item) w'.
Proof.
  intros Hp Hb Hm. split; [unfold run_task; by rewrite Hp|].
  destruct (process_build_sends _ _ _ _ _ _ _ _ Hp) as (l & x & Hs & _ & report & -> & H1 & H2 & H3).
  exists report. split; [by rewrite Hs, app_assoc, last_snoc|]. intros w drv item info s m Ha Hr.
  rewrite <-H2 in Hb. rewrite <-H3 in Hm. rewrite (complete_build_run _ _ _ _ _ _ _ _ _ Hb Hm H1 Ha).
  destruct (succeed_step_total _ _ _ _ _ _ _ _ _ Ha Hr) as (w' & E). rewrite E. exists w'. split; [done|].
  destruct (take_and_run _ _ _ _ _ _ _ _ true Ha) as (job & w1 & Ht & _ & _ & Hk). unfold succeed_step in E.
  rewrite Hk in E. destruct (succeed_taken item (si_step info) job _ w1) as [r w2] eqn:Hbody. injection E as -> <-.
  pose proof (succeed_taken_off _ _ item (si_step info) job (BuildOutput.from_result_info report) w1 (tk_off _ _ _ _ _ _ _ Ht)) as Hoff.
  rewrite Hbody in Hoff. destruct Ha as [_ _ _ _ _ Hst _ Hself], Ht as [_ G1 G2 _ _ _ _]. split; [|exact Hoff].
  apply (succeed_taken_spec _ _ _ _ _ _ (Step.set_finished true s)) in Hbody as [Hbd Hrd];
    [|by rewrite G1, lookup_alter_eq, Hst|done|done].
  split.
  - intros a b0 Ha Hb0 Hf. apply Hbd; [done| |done]. by rewrite G2.
  - intros x sx Hx Hsx. apply Hrd; [done|]. rewrite G1, lookup_alter_ne; [done|]. by intros <-.
Qed.

(** C8: when recording a success fails, for whatever reason and however far
    it got, the builder is answered as if it had worked, and the step is
    stranded: it is marked as finished and is neither scheduled, nor queued,
    nor a job of its machine, and all the steps that depend on it still wait
    for it. *)
Theorem lost_result_strands report w build_id machine_id drv item info s m e :
  uuid_parse (bri_build_id report) = Some build_id → uuid_parse (bri_machine_id report) = Some machine_id →
  bri_result_state report = GSuccess → awaits w build_id machine_id drv item info s m →
  (succeed_step drv (BuildOutput.from_result_info report) w).1 = Err e →
  ∃ w', complete_build report w = (Ok (Ok tt), w') ∧
    taken_off drv (it_machine item) w' ∧ iq_jobs (w_queues w') !! drv = None ∧
    hp_steps (w_heap w') = alter (Step.set_finished true) (si_step info) (hp_steps (w_heap w)).
Proof.
  intros Hb Hm Hs Ha He. rewrite (complete_build_run _ _ _ _ _ _ _ _ _ Hb Hm Hs Ha). eexists. split; [done|].
  destruct (take_and_run _ _ _ _ _ _ _ _ true Ha) as (job & w1 & Ht & _ & _ & Hk). unfold succeed_step in *.
  rewrite Hk in *. set (output := BuildOutput.from_result_info report) in *.
  pose proof (succeed_taken_off _ _ item (si_step info) job output w1 (tk_off _ _ _ _ _ _ _ Ht)) as Hoff.
  pose proof (failed_still (Queues.remove_job (w_heap w1) (it_step_info item) (it_build_queue item) (w_queues w1))
    (hp_steps (w_heap w1)) (si_step info) job output item w1) as Hst.
  destruct (succeed_taken item (si_step info) job output w1) as [r w2]. cbn [fst snd] in *. subst r.
  destruct Hst as [Hq Hsteps]; [by exists (w_queues w1)|]. destruct Ht as [_ G1 _ _ _ Hi _], Ha as [_ _ _ _ _ Hs0 Hp _].
  split_and!; [exact Hoff| |cbn; congruence]. cbn. rewrite Hq. unfold Queues.remove_job.
  apply fmap_Some in Hi as (i & -> & Hi). cbn [mbind option_bind]. unfold drv_of_info.
  rewrite <-Hi, G1, lookup_alter_eq, Hs0. cbn -[lookup]. rewrite Hp. apply lookup_delete_eq.
Qed.

(** A report that comes before the dispatcher has entered the job as
    scheduled, which it does after it has sent the job to the machine, is
    dropped: the builder is answered as usual, and nothing has changed; the
    builder will not report again. *)
Theorem early_report_is_dropped report w build_id machine_id drv a m :
  uuid_parse (bri_build_id report) = Some build_id → uuid_parse (bri_machine_id report) = Some machine_id →
  Machines.get_machine_by_id machine_id (w_machines w) = Some a → ms_objs (w_machines w) !! a = Some m →
  Machine.get_job_drv_for_build_id build_id m = Some drv → iq_scheduled (w_queues w) !! drv = None →
  complete_build report w = (Ok (Ok tt), w).
Proof.
  intros Hb Hi Ha Hm Hj Hs. unfold complete_build, parse_ids. rewrite Hb, Hi. cbn [ok_or mbind result_bind].
  assert (drv_of_job build_id machine_id w = (Ok drv, w)) as Hd.
  { unfold drv_of_job. rewrite bind_run. cbn [gets]. rewrite Ha. cbn [mbind option_bind]. rewrite Hm, bind_run.
    cbn [lift_opt lift_result ok_or]. by rewrite Hj. }
  assert (∀ fin k, take_and drv fin k w = (Err (Anyhow "Step is missing in queues.scheduled"), w)) as Ht.
  { intros fin k. unfold take_and. rewrite bind_run. unfold take_scheduled, Queues.remove_job_from_scheduled. rewrite Hs.
    cbn [ok_or]. by destruct w. }
  rewrite bind_run. unfold attempt, succeed_step_by_uuid, fail_step_by_uuid.
  destruct (bri_result_state report); rewrite bind_run, Hd; unfold succeed_step, fail_step; by rewrite Ht.
Qed.
End Claims.
