(* ===== verification/Gcroots.v ===== *)
(** * Gcroots: the roots of the garbage collector on disk
    ([builder/src/state.rs], [nix-utils/src/lib.rs], [queue-runner/src/state/mod.rs])

    A builder keeps one directory per running build below its directory of
    roots, with a symbolic link for every path the build needs. [Builder]
    only records which roots were asked for; here is what the calls do to the
    file system, in any order of the builds, and that it amounts to a set of
    paths per build, which is gone when the build is. *)

From Stdlib Require Import Ascii String.
From S2P Require Import Prelude RustStr Nix Config.
Local Open Scope string_scope.
Local Open Scope list_scope.

(** The directory of roots: [None] when there is none, and otherwise the
    directories in it, with the targets of their links. *)
Abbreviation Links := (gmap string string).
Record RootFs := mkRootFs { rf_dirs : option (gmap string Links) }.
#[export] Instance eta_RootFs : Eta RootFs := λ r, mkRootFs (rf_dirs r).
#[export] Instance set_rf_dirs : Setter rf_dirs := ltac:(mk_setter rf_dirs).

(** The answers of the operating system, by the number of the call: whether it
    fails, and whether the target of a link is there. *)
Class RootEnv : Type := {
  io_fails : nat → bool;
  target_exists : nat → string → bool
}.

Section Ops.
Context `{NE : NixEnv} `{RE : RootEnv}.

(** [exists(&dir/name).unwrap_or_default()] follows the link. *)
Definition link_exists (q : nat) (name : string) (links : Links) : bool :=
  if io_fails q then false
  else match links !! name with Some target => target_exists q target | None => false end.

(** [let _ = remove_file(..)]: the link itself. *)
Definition remove_link (q : nat) (name : string) (links : Links) : Links :=
  if io_fails q then links else delete name links.

(** [let _ = symlink(..)], which refuses a name that is taken. *)
Definition symlink (q : nat) (target name : string) (links : Links) : Links :=
  if io_fails q then links
  else match links !! name with Some _ => links | None => <[name := target]> links end.

(** [add_root], in a directory that is there. *)
Definition add_link (q : nat) (p : StorePath) (links : Links) : Links :=
  let name := StorePath.base_name p in
  let links1 := if link_exists q name links then remove_link (q + 1) name links else links in
  if negb (link_exists (q + 2) name links1) then symlink (q + 3) (print_store_path p) name links1 else links1.

(** [add_root(store, &gcroot.root, path)]: without the directory every call
    fails, and no error is passed on. *)
Definition add_root (q : nat) (prefix : string) (p : StorePath) (fs : RootFs) : RootFs :=
  fs <| rf_dirs ::= option_map (alter (add_link q p) prefix) |>.

(** [create_dir_all] of the directory of roots and of one in it. *)
Definition create_dirs (prefix : string) (fs : RootFs) : RootFs :=
  let dirs := default ∅ (rf_dirs fs) in
  mkRootFs (Some (match dirs !! prefix with Some _ => dirs | None => <[prefix := ∅]> dirs end)).

(** A [Gcroot] is known by the name of its directory. *)
Definition Gcroot_new (q : nat) (prefix : string) (fs : RootFs) : result string string * RootFs :=
  if io_fails q then (Err "io", fs) else (Ok prefix, create_dirs prefix fs).

Definition get_gcroot (q : nat) (prefix : string) : RootFs → result string string * RootFs := Gcroot_new q prefix.

(** [Drop for Gcroot] *)
Definition Gcroot_drop (q : nat) (prefix : string) (fs : RootFs) : RootFs :=
  match rf_dirs fs with
  | Some dirs =>
      if bool_decide (is_Some (dirs !! prefix)) && negb (io_fails q) then fs <| rf_dirs := Some (delete prefix dirs) |> else fs
  | None => fs
  end.

(** [remove_dir_all] of a directory that is not there is an error, and then
    the directory is not made. *)
Definition clear_gcroots (q : nat) (fs : RootFs) : result string unit * RootFs :=
  match rf_dirs fs with
  | None => (Err "not found", fs)
  | Some _ =>
      if io_fails q then (Err "io", fs)
      else if io_fails (q + 1) then (Err "io", mkRootFs None)
      else (Ok tt, mkRootFs (Some ∅))
  end.

(** ** The builds of a builder, interleaved *)

Inductive RootEvent :=
| RNew (prefix : string)
| RRoot (prefix : string) (p : StorePath)
| RDrop (prefix : string)
| RClear.

(** Every event has its own calls of the operating system. *)
Definition root_event (q : nat) (ev : RootEvent) (fs : RootFs) : RootFs :=
  match ev with
  | RNew prefix => (get_gcroot q prefix fs).2
  | RRoot prefix p => add_root q prefix p fs
  | RDrop prefix => Gcroot_drop q prefix fs
  | RClear => (clear_gcroots q fs).2
  end.
Fixpoint run_roots (q : nat) (evs : list RootEvent) (fs : RootFs) : RootFs :=
  match evs with [] => fs | ev :: evs' => run_roots (q + 4) evs' (root_event q ev fs) end.

(** ** What they amount to

    A set of paths per directory. *)

Abbreviation Roots := (gmap string (gset StorePath)).
Definition spec_event (ev : RootEvent) (r : Roots) : Roots :=
  match ev with
  | RNew prefix => match r !! prefix with Some _ => r | None => <[prefix := ∅]> r end
  | RRoot prefix p => alter (λ ps, ps ∪ {[p]}) prefix r
  | RDrop prefix => delete prefix r
  | RClear => ∅
  end.
Definition run_spec (evs : list RootEvent) (r : Roots) : Roots := foldl (λ r ev, spec_event ev r) r evs.

(** The links of a directory are those of a set of paths. *)
Definition links_of (links : Links) (ps : gset StorePath) : Prop :=
  ∀ name target, links !! name = Some target ↔ StorePath.mk name ∈ ps ∧ target = print_store_path (StorePath.mk name).

Definition implements (fs : RootFs) (r : Roots) : Prop :=
  ∃ dirs, rf_dirs fs = Some dirs ∧ ∀ prefix,
    match dirs !! prefix, r !! prefix with
    | Some links, Some ps => links_of links ps
    | None, None => True
    | _, _ => False
    end.
End Ops.

Section Refine.
Context `{NE : NixEnv} `{RE : RootEnv}.

(** ** One directory *)

Lemma links_of_empty : links_of ∅ ∅.
Proof. intros name target. rewrite lookup_empty. set_solver. Qed.

(** The link of [p], with the right target, and nothing else that is new. *)
Lemma links_of_insert links ps p : links_of links ps → links_of (<[StorePath.base_name p := print_store_path p]> links) (ps ∪ {[p]}).
Proof.
  intros H name target. destruct (decide (name = StorePath.base_name p)) as [->|Hne].
  - rewrite lookup_insert_eq. destruct p as [n]. cbn. split; [intros [= <-]; set_solver|]. by intros [_ ->].
  - rewrite lookup_insert_ne by done. rewrite (H name target). assert (StorePath.mk name ≠ p) by (intros <-; done). set_solver.
Qed.

Lemma links_of_present links ps p target : links_of links ps → links !! StorePath.base_name p = Some target →
  target = print_store_path p ∧ links_of links (ps ∪ {[p]}).
Proof.
  intros H Hl. destruct (H (StorePath.base_name p) target) as [H1 _]. specialize (H1 Hl). destruct p as [n]. cbn in *.
  destruct H1 as [Hin ->]. split; [done|]. by replace (ps ∪ {[StorePath.mk n]}) with ps by set_solver.
Qed.

Section Reliable.
Hypothesis reliable : ∀ q, io_fails q = false.

(** Whatever becomes of the targets meanwhile, the link is there afterwards. *)
Lemma add_link_links q p links ps : links_of links ps → links_of (add_link q p links) (ps ∪ {[p]}).
Proof.
  intros H. unfold add_link, link_exists, remove_link, symlink. rewrite !reliable.
  destruct (links !! StorePath.base_name p) as [target|] eqn:E.
  - destruct (links_of_present links ps p target H E) as [-> H'].
    destruct (target_exists q (print_store_path p)).
    + rewrite !lookup_delete_eq. cbn [negb]. rewrite insert_delete_eq. by apply links_of_insert.
    + rewrite E. by destruct (target_exists (q + 2) (print_store_path p)).
  - rewrite E. cbn [negb]. by apply links_of_insert.
Qed.

Lemma event_implements q ev fs r : implements fs r → implements (root_event q ev fs) (spec_event ev r).
Proof.
  intros (dirs & Hd & H). destruct ev as [prefix|prefix p|prefix|]; cbn [root_event spec_event].
  - unfold get_gcroot, Gcroot_new, create_dirs. rewrite reliable, Hd. change (default ∅ (Some dirs)) with dirs. cbn [snd]. eexists. split; [done|].
    intros pre. pose proof (H prefix) as Hp. specialize (H pre).
    destruct (dirs !! prefix) eqn:E, (r !! prefix) eqn:E'; try done. destruct (decide (pre = prefix)) as [->|Hne].
    + rewrite !lookup_insert_eq. apply links_of_empty.
    + by rewrite !lookup_insert_ne by done.
  - eexists. split; [unfold add_root; cbn; by rewrite Hd|]. intros pre. specialize (H pre).
    destruct (decide (pre = prefix)) as [->|Hne]; [|by rewrite !lookup_alter_ne by done]. rewrite !lookup_alter_eq.
    destruct (dirs !! prefix), (r !! prefix); try done. cbn. by apply add_link_links.
  - unfold Gcroot_drop. rewrite Hd, reliable, andb_true_r.
    case_bool_decide as Hs; eexists; (split; [done|]); intros pre; specialize (H pre).
    + destruct (decide (pre = prefix)) as [->|Hne]; [by rewrite !lookup_delete_eq|by rewrite !lookup_delete_ne by done].
    + destruct (decide (pre = prefix)) as [->|Hne]; [|by rewrite lookup_delete_ne by done].
      rewrite lookup_delete_eq. destruct (dirs !! prefix) eqn:E; [|done]. exfalso. apply Hs. by eexists.
  - unfold clear_gcroots. rewrite Hd, !reliable. exists ∅. split; [done|]. intros pre. by rewrite !lookup_empty.
Qed.

Lemma run_implements evs q fs r : implements fs r → implements (run_roots q evs fs) (run_spec evs r).
Proof.
  revert q fs r. induction evs as [|ev evs IH]; intros q fs r H; [done|]. cbn [run_roots]. apply IH. by apply event_implements.
Qed.
End Reliable.

(** ** Builds do not disturb each other, whatever calls fail *)

Definition about (prefix : string) (ev : RootEvent) : bool :=
  match ev with RNew p | RRoot p _ | RDrop p => bool_decide (p = prefix) | RClear => true end.
Definition links_in (prefix : string) (fs : RootFs) : option Links := rf_dirs fs ≫= lookup prefix.

Lemma other_builds_kept q evs prefix fs :
  forallb (λ ev, negb (about prefix ev)) evs = true → links_in prefix (run_roots q evs fs) = links_in prefix fs.
Proof.
  revert q fs. induction evs as [|ev evs IH]; intros q fs; [done|]. cbn [forallb run_roots].
  intros [He Hr]%andb_true_iff. rewrite IH by done. clear IH Hr. unfold links_in.
  destruct ev as [p|p x|p|]; cbn in He; try apply negb_true_iff, bool_decide_eq_false in He; cbn [root_event]; [..|done].
  - unfold get_gcroot, Gcroot_new. destruct (io_fails q); [done|]. unfold create_dirs. cbn -[lookup insert]. destruct (rf_dirs fs) as [dirs|]; cbn -[lookup insert].
    + destruct (dirs !! p); [done|]. by rewrite lookup_insert_ne.
    + rewrite lookup_empty. cbn. by rewrite lookup_insert_ne, lookup_empty.
  - unfold add_root. cbn. destruct (rf_dirs fs); [|done]. cbn. by rewrite lookup_alter_ne.
  - unfold Gcroot_drop. destruct (rf_dirs fs) as [dirs|] eqn:E; [|by rewrite E].
    destruct (_ && _); cbn; [|by rewrite E]. by rewrite lookup_delete_ne.
Qed.
End Refine.

Section Claims.
Context `{NE : NixEnv} `{RE : RootEnv}.

(** C24: while no call of the operating system fails, the directories of roots
    implement a set of paths per build: in every interleaving of the builds of
    a builder, a path a build has rooted keeps its link, to that path, until
    the build drops its roots or all are cleared, whether or not the path is in
    the store at the moment; a build that has dropped its roots has no
    directory any more. *)
Theorem gcroots_refine (reliable : ∀ q, io_fails q = false) evs :
  implements (run_roots 0 evs (mkRootFs (Some ∅))) (run_spec evs ∅).
Proof. apply run_implements; [done|]. exists ∅. split; [done|]. intros pre. by rewrite !lookup_empty. Qed.

(** A root that is asked for again is removed first: when making the link
    fails then, the path has no root any more. *)
Theorem readded_root_is_lost q p links :
  links !! StorePath.base_name p = Some (print_store_path p) → target_exists q (print_store_path p) = true →
  io_fails q = false → io_fails (q + 1) = false → io_fails (q + 3) = true →
  add_link q p links !! StorePath.base_name p = None.
Proof.
  intros Hl Ht H0 H1 H3. unfold add_link, remove_link, symlink. rewrite H1, H3.
  assert (link_exists q (StorePath.base_name p) links = true) as -> by (unfold link_exists; by rewrite H0, Hl).
  destruct (negb _); apply lookup_delete_eq.
Qed.

(** A link that leads elsewhere and nowhere is not replaced. *)
Theorem dangling_link_stays q p links target :
  links !! StorePath.base_name p = Some target → (∀ q, target_exists q target = false) → add_link q p links = links.
Proof.
  intros Hl Ht. unfold add_link. assert (∀ q, link_exists q (StorePath.base_name p) links = false) as He.
  { intros q'. unfold link_exists. rewrite Hl, Ht. by destruct (io_fails q'). }
  rewrite He, He. cbn [negb]. unfold symlink. rewrite Hl. by destruct (io_fails (q + 3)).
Qed.

(** Roots asked for in a directory that was cleared away are silently not
    made. *)
Theorem cleared_roots_are_lost q q' prefix p fs :
  links_in prefix (add_root q' prefix p (clear_gcroots q fs).2) ≠ None →
  (clear_gcroots q fs).1 ≠ Ok tt.
Proof.
  unfold clear_gcroots. destruct (rf_dirs fs) eqn:E; [|done]. destruct (io_fails q); [done|]. by destruct (io_fails (q + 1)).
Qed.
End Claims.
