(* ===== verification/Reload.v ===== *)
(** * Reload: the configuration while the queue runner runs
    ([App] and [reload] of [queue-runner/src/config.rs],
    [spawn_config_reloader] of [main.rs])

    The configuration is read through an [App], whose content is exchanged as
    a whole by a reload; [w_config] of the state is that content. A reload is
    asked for with a signal, which the task of the reloader waits for. *)

From Stdlib Require Import Ascii String.
From S2P Require Import NarInfo CacheCfg Stream BinaryCache.
From S2P Require Import Prelude Floats RustStr Nix Db Support Jobset Graph Result Machine Queue.
From S2P Require Import Config Uploader FodChecker State Dispatch.
Local Open Scope string_scope.
Local Open Scope list_scope.
Local Open Scope Z_scope.

(** ** The configuration of the application *)

Record App := mkApp { app_inner : PreparedApp }.

Module App.
Definition init `{FsEnv} `{EnvLib} (toml : string → result Error AppConfig) (filepath : string) : result Error App :=
  inner ← load_config toml filepath; Ok (mkApp inner).

Definition swap_inner (new_val : PreparedApp) (_ : App) : App := mkApp new_val.

Definition get_hydra_data_dir (a : App) : string := pa_hydra_data_dir (app_inner a).
Definition get_hydra_log_dir (a : App) : string := pa_hydra_log_dir (app_inner a).
Definition get_lockfile (a : App) : string := pa_lockfile (app_inner a).
Definition get_db_url (a : App) : string := pa_db_url (app_inner a).
Definition get_max_db_connections (a : App) : Z := pa_max_db_connections (app_inner a).
Definition get_machine_sort_fn (a : App) : MachineSortFn := pa_machine_sort_fn (app_inner a).
Definition get_machine_free_fn (a : App) : MachineFreeFn := pa_machine_free_fn (app_inner a).
Definition get_step_sort_fn (a : App) : StepSortFn := pa_step_sort_fn (app_inner a).
Definition use_presigned_uploads (a : App) : bool := pa_use_presigned_uploads (app_inner a).
Definition get_dispatch_trigger_timer (a : App) : option Z := pa_dispatch_trigger_timer (app_inner a).
Definition get_queue_trigger_timer (a : App) : option Z := pa_queue_trigger_timer (app_inner a).
Definition get_remote_store_addrs (a : App) : list string := pa_remote_store_addr (app_inner a).
Definition get_use_substitutes (a : App) : bool := pa_use_substitutes (app_inner a).
Definition get_roots_dir (a : App) : string := pa_roots_dir (app_inner a).
Definition get_max_unsupported_time (a : App) : Z := pa_max_unsupported_time (app_inner a).
Definition get_stop_queue_run_after (a : App) : option Z := pa_stop_queue_run_after (app_inner a).
Definition get_max_concurrent_downloads (a : App) : Z := pa_max_concurrent_downloads (app_inner a).
Definition get_concurrent_upload_limit (a : App) : Z := pa_concurrent_upload_limit (app_inner a).
Definition get_enable_fod_checker (a : App) : bool := pa_enable_fod_checker (app_inner a).
Definition get_forced_substituters (a : App) : list string := pa_forced_substituters (app_inner a).
End App.

(** ** A reload *)

(** What the service manager is told. *)
Inductive NotifyState := Status (s : string) | Errno (n : Z) | Ready | Stopping.

Section Reload.
Context `{HI : HashIter} `{FE : FloatEnv} `{SE : StateEnv} `{UR : UrlLib} `{FS : FsEnv} `{EL : EnvLib}.
Context (toml : string → result Error AppConfig).

(** [reload], with its notifications. *)
Definition reload_notifying (filepath : string) : WM (list NotifyState) :=
  match load_config toml filepath with
  | Err _ => mret [Status "Reload failed"; Errno 1]
  | Ok new_config =>
      r ← attempt (reload_config_callback new_config);
      match r with
      | Err _ => mret [Status "Configuration reloaded failed - Running"; Errno 1]
      | Ok _ =>
          modify (λ w, w <| w_config := app_inner (App.swap_inner new_config (mkApp (w_config w))) |>);;
          mret [Status "Configuration reloaded - Running"; Ready]
      end
  end.

Lemma reload_notifying_is_reload filepath w : reload toml filepath w = (Ok tt, (reload_notifying filepath w).2) ∧
  is_ok (reload_notifying filepath w).1 = true.
Proof.
  unfold reload, reload_notifying. destruct (load_config toml filepath) as [c|e]; [|done].
  rewrite !bind_run. unfold attempt. by destruct (reload_config_callback c w) as [[]].
Qed.

(** *** All or nothing *)

Lemma open_stores_same uris w : ∃ r, open_stores uris w = (r, w).
Proof.
  induction uris as [|uri uris [r IH]]; cbn [open_stores]; [by eexists|]. rewrite bind_run. unfold lift_result.
  destruct (open_store uri); [|by eexists]. rewrite bind_run, IH. destruct r; by eexists.
Qed.

(** What the callback leaves when it succeeds. *)
Record reloaded (c : PreparedApp) (w w' : World) : Prop := {
  rl_config : w_config w' = w_config w;
  rl_database : pa_db_url (w_config w) ≠ pa_db_url c → reconfigure_pool (pa_db_url c) = Ok tt;
  rl_stores : if decide (pa_remote_store_addr (w_config w) = pa_remote_store_addr c)
    then w_remote_stores w' = w_remote_stores w
    else open_stores (pa_remote_store_addr c) w = (Ok (w_remote_stores w'), w);
  rl_rest : w_heap w' = w_heap w ∧ w_builds w' = w_builds w ∧ w_db w' = w_db w ∧ w_uploader w' = w_uploader w
}.

Lemma callback_all_or_nothing c w :
  match reload_config_callback c w with
  | (Ok _, w') => reloaded c w w'
  | (Err _, w') => w' = w
  end.
Proof.
  unfold reload_config_callback. rewrite bind_run. cbn [gets]. rewrite bind_run.
  set (changed := negb _).
  assert (∃ r, (if changed then open_stores (pa_remote_store_addr c) else mret []) w = (r, w) ∧
    (changed = true → open_stores (pa_remote_store_addr c) w = (r, w))) as (r & -> & Hr).
  { destruct changed; [|by eexists]. destruct (open_stores_same (pa_remote_store_addr c) w) as [r Hr]. by exists r. }
  destruct r as [stores|]; [|done]. rewrite bind_run.
  assert (∃ r, (if decide (pa_db_url (w_config w) = pa_db_url c) then mret tt
    else lift_result (reconfigure_pool (pa_db_url c)) : WM unit) w = (r, w) ∧
    (pa_db_url (w_config w) ≠ pa_db_url c → reconfigure_pool (pa_db_url c) = r)) as (r & -> & Hdb).
  { case_decide; by eexists. }
  destruct r as [[]|]; [|done]. rewrite !bind_run.
  repeat match goal with |- context [decide (pa_machine_sort_fn ?a = ?b)] => destruct (decide (pa_machine_sort_fn a = b)) end;
    cbn [mret M_ret modify]; rewrite bind_run;
    destruct (decide (pa_step_sort_fn (w_config w) = pa_step_sort_fn c)); cbn [mret M_ret modify on_queues];
    rewrite bind_run;
    unfold changed in *; case_bool_decide as Hs; cbn [negb mret M_ret modify] in *;
    (split; [done|exact Hdb| |done]);
    (destruct (decide (pa_remote_store_addr (w_config w) = pa_remote_store_addr c)); [|try done]; try done);
    by apply Hr.
Qed.
End Reload.

(** ** The signal

    The reloader makes a listener, waits for one signal and reloads; then the
    listener is dropped and a new one made. A signal is seen by the listeners
    there are when it comes. The configuration file is known by its version,
    which grows when it is written; a reload reads it first. *)

Record Reloader := mkReloader {
  (** The listener, and whether a signal has come that it has not taken. *)
  rr_listener : option bool;
  (** The version a running reload has read. *)
  rr_reloading : option nat;
  rr_loaded : nat;
  rr_file : nat;
  (** The version of the file when the last signal was sent. *)
  rr_asked : nat
}.
#[export] Instance eta_Reloader : Eta Reloader := λ r,
  mkReloader (rr_listener r) (rr_reloading r) (rr_loaded r) (rr_file r) (rr_asked r).
#[export] Instance set_rr_listener : Setter rr_listener := ltac:(mk_setter rr_listener).
#[export] Instance set_rr_reloading : Setter rr_reloading := ltac:(mk_setter rr_reloading).
#[export] Instance set_rr_loaded : Setter rr_loaded := ltac:(mk_setter rr_loaded).
#[export] Instance set_rr_file : Setter rr_file := ltac:(mk_setter rr_file).
#[export] Instance set_rr_asked : Setter rr_asked := ltac:(mk_setter rr_asked).

Inductive ReloaderEvent :=
| ReWrite                (* the file is written *)
| ReHangup               (* SIGHUP is sent *)
| ReListen               (* signal(SignalKind::hangup()) *)
| ReRecv                 (* s.recv() returns, and the file is read *)
| ReDone.                (* the reload ends, and the listener is dropped *)

(** One event, if it can happen. *)
Definition spawn_config_reloader (ev : ReloaderEvent) (r : Reloader) : option Reloader :=
  match ev with
  | ReWrite => Some (r <| rr_file ::= S |>)
  | ReHangup => Some (r <| rr_asked := rr_file r |> <| rr_listener ::= option_map (λ _, true) |>)
  | ReListen => match rr_listener r with None => Some (r <| rr_listener := Some false |>) | Some _ => None end
  | ReRecv =>
      match rr_listener r, rr_reloading r with
      | Some true, None => Some (r <| rr_listener := Some false |> <| rr_reloading := Some (rr_file r) |>)
      | _, _ => None
      end
  | ReDone =>
      match rr_reloading r with
      | Some v => Some (r <| rr_loaded := v |> <| rr_reloading := None |> <| rr_listener := None |>)
      | None => None
      end
  end.
Fixpoint run_reloader (evs : list ReloaderEvent) (r : Reloader) : option Reloader :=
  match evs with [] => Some r | ev :: evs' => spawn_config_reloader ev r ≫= run_reloader evs' end.

Definition reloader_start : Reloader := mkReloader None None 0 0 0.

(** It waits for a signal and has none. *)
Definition waits (r : Reloader) : bool :=
  match rr_listener r, rr_reloading r with Some false, None => true | _, _ => false end.
Definition listens (r : Reloader) : bool :=
  match rr_listener r, rr_reloading r with Some _, None => true | _, _ => false end.

(** No signal is sent but when the reloader listens and does not reload. *)
Fixpoint patient (evs : list ReloaderEvent) (r : Reloader) : bool :=
  match evs with
  | [] => true
  | ev :: evs' =>
      (match ev with ReHangup => listens r | _ => true end)
      && match spawn_config_reloader ev r with Some r' => patient evs' r' | None => true end
  end.

(** What the last signal asked for is loaded, being loaded, or to be. *)
Record reloader_wf (r : Reloader) : Prop := {
  rw_file : (rr_loaded r ≤ rr_file r ∧ rr_asked r ≤ rr_file r)%nat;
  rw_reading v : rr_reloading r = Some v → (rr_asked r ≤ v ≤ rr_file r)%nat ∧ rr_listener r = Some false;
  rw_idle : rr_reloading r = None → rr_listener r ≠ Some true → (rr_asked r ≤ rr_loaded r)%nat
}.

Lemma reloader_step_wf ev r r' :
  (ev = ReHangup → listens r = true) → spawn_config_reloader ev r = Some r' → reloader_wf r → reloader_wf r'.
Proof.
  intros Hp Hs [[H1 H2] H3 H4]. destruct ev; cbn [spawn_config_reloader] in Hs.
  - injection Hs as <-. split; cbn; [lia| |done]. intros v Hv. destruct (H3 v Hv). split; [lia|done].
  - injection Hs as <-. specialize (Hp eq_refl). unfold listens in Hp.
    destruct (rr_listener r) as [b|]; [|done]. destruct (rr_reloading r) eqn:E; [done|]. split; cbn; rewrite ?E; [lia|done|done].
  - destruct (rr_listener r) eqn:E; [done|]. injection Hs as <-. split; cbn; [lia|by intros v [_ ?]%H3|]. intros Hr _. by apply H4.
  - destruct (rr_listener r) as [[]|] eqn:E; try done. destruct (rr_reloading r) eqn:E'; [done|]. injection Hs as <-.
    split; cbn; [lia| |done]. intros v [= <-]. split; [lia|done].
  - destruct (rr_reloading r) as [v|] eqn:E; [|done]. injection Hs as <-. destruct (H3 v eq_refl). split; cbn; [lia|done|lia].
Qed.

Lemma run_reloader_wf evs r r' : patient evs r = true → run_reloader evs r = Some r' → reloader_wf r → reloader_wf r'.
Proof.
  revert r. induction evs as [|ev evs IH]; intros r Hp Hr Hw; [by injection Hr as <-|]. cbn [run_reloader patient] in *.
  apply andb_true_iff in Hp as [Hev Hp]. destruct (spawn_config_reloader ev r) as [r1|] eqn:E; [|done].
  apply (IH r1); [done|done|]. eapply reloader_step_wf; [|done|done]. by intros ->.
Qed.

Section Claims.
Context `{HI : HashIter} `{FE : FloatEnv} `{SE : StateEnv} `{UR : UrlLib} `{FS : FsEnv} `{EL : EnvLib}.

(** A reload of the configuration happens as a whole or not at all: when
    the file cannot be read as a configuration, when a store of it cannot be
    opened or when the pool of connections refuses its database, the service
    manager is told of an error and nothing has changed; otherwise the whole
    configuration is the new one, the pool and the stores follow it, and the
    builds, the steps and the database are as they were. *)
Theorem reload_all_or_nothing (toml : string → result Error AppConfig) filepath w :
  ∃ told w', reload_notifying toml filepath w = (Ok told, w') ∧
    ((w' = w ∧ Errno 1 ∈ told) ∨
     (∃ c w1, load_config toml filepath = Ok c ∧ reloaded c w w1 ∧ w' = w1 <| w_config := c |> ∧ Ready ∈ told)).
Proof.
  unfold reload_notifying. destruct (load_config toml filepath) as [c|e].
  - rewrite bind_run. unfold attempt. pose proof (callback_all_or_nothing c w) as H.
    destruct (reload_config_callback c w) as [[[]|e] w1].
    + do 2 eexists. split; [reflexivity|]. right. exists c, w1. split_and!; [done|done|done|]. right. left.
    + do 2 eexists. split; [reflexivity|]. left. split; [done|]. right. left.
  - do 2 eexists. split; [reflexivity|]. left. split; [done|]. right. left.
Qed.

(** Signals that come while the reloader listens are not lost: whenever it
    waits again, it has read the file at least as new as the last signal asked
    for. *)
Theorem patient_hangups_are_heard evs r :
  patient evs reloader_start = true → run_reloader evs reloader_start = Some r → waits r = true →
  (rr_asked r ≤ rr_loaded r)%nat.
Proof.
  intros Hp Hr Hw. assert (reloader_wf r) as [_ _ H].
  { eapply run_reloader_wf; [done|done|]. by split. }
  unfold waits in Hw. destruct (rr_listener r) as [[]|], (rr_reloading r); try done. by apply H.
Qed.

(** One that comes while a reload runs is lost: the reloader waits again, and
    the file it was asked to read was never read. *)
Theorem hangup_during_reload_is_lost :
  ∃ evs r, run_reloader evs reloader_start = Some r ∧ waits r = true ∧ (rr_loaded r < rr_asked r)%nat.
Proof.
  exists [ReListen; ReHangup; ReRecv; ReWrite; ReHangup; ReDone; ReListen]. eexists. split; [reflexivity|].
  split; [reflexivity|]. cbn. lia.
Qed.
End Claims.
