(* ===== verification/StatusProtocol.v ===== *)
(** * StatusProtocol: asking a running queue runner for its status
    ([get_status_from_main_process] and [dump_status_loop] of
    [queue-runner/src/state/mod.rs], [Database::listener] of [db/src/lib.rs])

    A process started with [--status] listens to [status_dumped], notifies
    [dump_status], waits and reads the status from the database; the queue
    runner listens to [dump_status], writes its status and notifies
    [status_dumped]. PostgreSQL gives a notification, when its transaction is
    committed, to the sessions that listen to the channel then. Each operation
    on the database is a step of its own, of any number of processes. *)

From S2P Require Import Prelude.
Local Open Scope list_scope.

(** A status in the database: when it was taken, and when it was written. *)
Record Dump := mkDump { dp_taken : nat; dp_written : nat }.

(** A process that asks. *)
Record Asker := mkAsker {
  ak_since : nat;               (* when it began to listen *)
  ak_pending : nat;             (* notifications it has not taken *)
  ak_asked : bool;
  ak_printed : option (option Dump)
}.
#[export] Instance eta_Asker : Eta Asker := λ r,
  mkAsker (ak_since r) (ak_pending r) (ak_asked r) (ak_printed r).
#[export] Instance set_ak_pending : Setter ak_pending := ltac:(mk_setter ak_pending).
#[export] Instance set_ak_asked : Setter ak_asked := ltac:(mk_setter ak_asked).
#[export] Instance set_ak_printed : Setter ak_printed := ltac:(mk_setter ak_printed).

Record StatusWorld := mkStatusWorld {
  sw_now : nat;
  sw_askers : gmap nat Asker;
  (** The notifications of [dump_status] the queue runner has not taken. *)
  sw_requests : nat;
  (** The status the loop is about to write. *)
  sw_taken : option nat;
  sw_row : option Dump
}.
#[export] Instance eta_StatusWorld : Eta StatusWorld := λ r,
  mkStatusWorld (sw_now r) (sw_askers r) (sw_requests r) (sw_taken r) (sw_row r).
#[export] Instance set_sw_now : Setter sw_now := ltac:(mk_setter sw_now).
#[export] Instance set_sw_askers : Setter sw_askers := ltac:(mk_setter sw_askers).
#[export] Instance set_sw_requests : Setter sw_requests := ltac:(mk_setter sw_requests).
#[export] Instance set_sw_taken : Setter sw_taken := ltac:(mk_setter sw_taken).
#[export] Instance set_sw_row : Setter sw_row := ltac:(mk_setter sw_row).

Module Asker.
(** [self.db.listener(vec!["status_dumped"])] *)
Definition listen (c : nat) (w : StatusWorld) : option StatusWorld :=
  match sw_askers w !! c with
  | Some _ => None
  | None => Some (w <| sw_askers ::= <[c := mkAsker (sw_now w) 0 false None]> |>)
  end.

(** [tx.notify_dump_status()] and [tx.commit()] *)
Definition notify_dump_status (c : nat) (w : StatusWorld) : option StatusWorld :=
  a ← sw_askers w !! c;
  if ak_asked a then None
  else Some (w <| sw_askers ::= <[c := a <| ak_asked := true |>]> |> <| sw_requests ::= S |>).

(** [listener.try_next()] and [db.get_status()]: the status is printed, if
    there is one. *)
Definition get_status (c : nat) (w : StatusWorld) : option StatusWorld :=
  a ← sw_askers w !! c;
  match ak_asked a, ak_pending a, ak_printed a with
  | true, S n, None =>
      Some (w <| sw_askers ::= <[c := a <| ak_pending := n |> <| ak_printed := Some (sw_row w) |>]> |>)
  | _, _, _ => None
  end.
End Asker.

Module Dumper.
(** [listener.try_next()], and the status of the moment. *)
Definition take (w : StatusWorld) : option StatusWorld :=
  match sw_taken w, sw_requests w with
  | None, S n => Some (w <| sw_requests := n |> <| sw_taken := Some (sw_now w) |>)
  | _, _ => None
  end.

(** [upsert_status], [notify_status_dumped] and [commit], which may fail; then
    the loop goes on with the next notification. *)
Definition write (ok : bool) (w : StatusWorld) : option StatusWorld :=
  match sw_taken w with
  | None => None
  | Some t =>
      let w := w <| sw_taken := None |> in
      Some (if ok then w <| sw_row := Some (mkDump t (sw_now w)) |> <| sw_askers ::= fmap (λ a, a <| ak_pending ::= S |>) |>
            else w)
  end.
End Dumper.

Inductive StatusEvent := SeListen (c : nat) | SeAsk (c : nat) | SeRead (c : nat) | SeTake | SeWrite (ok : bool).

Definition status_event (ev : StatusEvent) (w : StatusWorld) : option StatusWorld :=
  w' ← match ev with
       | SeListen c => Asker.listen c w
       | SeAsk c => Asker.notify_dump_status c w
       | SeRead c => Asker.get_status c w
       | SeTake => Dumper.take w
       | SeWrite ok => Dumper.write ok w
       end;
  Some (w' <| sw_now := S (sw_now w) |>).
Fixpoint run_status (evs : list StatusEvent) (w : StatusWorld) : option StatusWorld :=
  match evs with [] => Some w | ev :: evs' => status_event ev w ≫= run_status evs' end.

Definition nobody : StatusWorld := mkStatusWorld 0 ∅ 0 None None.

(** ** What is read is recent *)

(** What an asker may read when it is notified, and what it has printed. *)
Definition written_after (t : nat) (d : option Dump) : Prop := ∃ x, d = Some x ∧ t < dp_written x.
Record asker_wf (w : StatusWorld) (a : Asker) : Prop := {
  aw_since : ak_since a < sw_now w;
  aw_pending : ak_pending a ≠ 0 → written_after (ak_since a) (sw_row w);
  aw_printed d : ak_printed a = Some d → written_after (ak_since a) d
}.
Definition askers_wf (w : StatusWorld) : Prop := ∀ c a, sw_askers w !! c = Some a → asker_wf w a.

Lemma asker_later w w' a :
  sw_now w ≤ sw_now w' → (∀ t, written_after t (sw_row w) → written_after t (sw_row w')) → asker_wf w a → asker_wf w' a.
Proof. intros Hn Hr [H1 H2 H3]. split; [lia|intros Hp; by apply Hr, H2|done]. Qed.

(** The asker at the inserted key, or another one. *)
Ltac asker_cases x a Hx :=
  intros x a Hx; cbn -[lookup insert] in Hx; apply lookup_insert_Some in Hx as [[<- <-]|[_ Hx]].

Lemma status_event_wf ev w w' : status_event ev w = Some w' → askers_wf w → askers_wf w'.
Proof.
  unfold status_event. intros (w1 & H1 & [= <-])%bind_Some Hw.
  assert (∀ a, asker_wf w a → sw_row w1 = sw_row w → asker_wf (w1 <| sw_now := S (sw_now w) |>) a) as Hkeep.
  { intros a Ha Hr. eapply asker_later, Ha; [cbn; lia|]. intros t. cbn. by rewrite Hr. }
  destruct ev as [c|c|c| |ok]; cbn in H1.
  - unfold Asker.listen in H1. destruct (sw_askers w !! c) eqn:E; [done|]. injection H1 as <-.
    asker_cases x a Hx; [|apply Hkeep; [by apply Hw in Hx|done]]. by split; cbn; [lia|..].
  - unfold Asker.notify_dump_status in H1. apply bind_Some in H1 as (a & Ha & H1). destruct (ak_asked a); [done|]. injection H1 as <-.
    asker_cases x a' Hx; [|apply Hkeep; [by apply Hw in Hx|done]].
    apply Hw in Ha as [A1 A2 A3]. split; cbn; [lia|done|done].
  - unfold Asker.get_status in H1. apply bind_Some in H1 as (a & Ha & H1).
    destruct (ak_asked a); [|done]. destruct (ak_pending a) as [|n] eqn:En; [done|]. destruct (ak_printed a); [done|]. injection H1 as <-.
    apply Hw in Ha as [A1 A2 A3]. rewrite En in A2.
    asker_cases x a' Hx; [|apply Hkeep; [by apply Hw in Hx|done]].
    split; cbn; [lia|intros _; by apply A2|intros d [= <-]; by apply A2].
  - unfold Dumper.take in H1. destruct (sw_taken w); [done|]. destruct (sw_requests w); [done|]. injection H1 as <-.
    intros x a Hx. apply Hkeep; [by apply Hw in Hx|done].
  - unfold Dumper.write in H1. destruct (sw_taken w) as [t|]; [|done]. destruct ok; injection H1 as <-.
    + intros x a Hx. cbn in Hx. rewrite lookup_fmap in Hx. apply fmap_Some in Hx as (a0 & Hx & ->).
      apply Hw in Hx as [A1 A2 A3]. split; cbn; [lia| |done]. intros _. eexists. split; [done|]. cbn. lia.
    + intros x a Hx. apply Hkeep; [by apply Hw in Hx|done].
Qed.

Lemma run_status_wf evs w w' : run_status evs w = Some w' → askers_wf w → askers_wf w'.
Proof.
  revert w. induction evs as [|ev evs IH]; intros w H Hw; [by injection H as <-|].
  cbn in H. apply bind_Some in H as (w1 & H1 & H). eapply IH; [done|]. by eapply status_event_wf.
Qed.

(** ** Nobody waits for nothing *)

(** A request that is under way, or an answer. *)
Definition answered_or_asked (w : StatusWorld) : Prop :=
  ∀ c a, sw_askers w !! c = Some a → ak_asked a = true → ak_printed a = None →
    ak_pending a ≠ 0 ∨ sw_requests w ≠ 0 ∨ sw_taken w ≠ None.

Definition write_fails (ev : StatusEvent) : bool := match ev with SeWrite ok => negb ok | _ => false end.

Lemma status_event_answers ev w w' :
  write_fails ev = false → status_event ev w = Some w' → answered_or_asked w → answered_or_asked w'.
Proof.
  unfold status_event. intros Hf (w1 & H1 & [= <-])%bind_Some Hw. destruct ev as [c|c|c| |ok]; cbn in H1.
  - unfold Asker.listen in H1. destruct (sw_askers w !! c); [done|]. injection H1 as <-.
    asker_cases x a Hx; [done|]. by apply (Hw x).
  - unfold Asker.notify_dump_status in H1. apply bind_Some in H1 as (a & Ha & H1). destruct (ak_asked a); [done|]. injection H1 as <-.
    intros x a' _ _ _. right. by left.
  - unfold Asker.get_status in H1. apply bind_Some in H1 as (a & Ha & H1).
    destruct (ak_asked a); [|done]. destruct (ak_pending a); [done|]. destruct (ak_printed a); [done|]. injection H1 as <-.
    asker_cases x a' Hx; [done|]. by apply (Hw x).
  - unfold Dumper.take in H1. destruct (sw_taken w); [done|]. destruct (sw_requests w); [done|]. injection H1 as <-.
    intros x a _ _ _. by do 2 right.
  - cbn in Hf. apply negb_false_iff in Hf as ->. unfold Dumper.write in H1. destruct (sw_taken w); [|done]. injection H1 as <-.
    intros x a Hx. cbn in Hx. rewrite lookup_fmap in Hx. apply fmap_Some in Hx as (a0 & Hx & ->). intros _ _. by left.
Qed.

Lemma run_status_answers evs w w' :
  forallb (λ ev, negb (write_fails ev)) evs = true → run_status evs w = Some w' → answered_or_asked w → answered_or_asked w'.
Proof.
  revert w. induction evs as [|ev evs IH]; intros w Hf H Hw; [by injection H as <-|].
  cbn in Hf. apply andb_true_iff in Hf as [Hf1%negb_true_iff Hf]. cbn in H. apply bind_Some in H as (w1 & H1 & H).
  eapply IH; [done|done|]. by eapply status_event_answers.
Qed.

(** ** Properties *)

(** A process that asks for the status prints one that was written after it
    began to ask, however many ask at the same time. *)
Theorem printed_status_is_recent evs w c a d :
  run_status evs nobody = Some w → sw_askers w !! c = Some a → ak_printed a = Some d →
  ∃ x, d = Some x ∧ ak_since a < dp_written x.
Proof. intros H Ha Hd. eapply (run_status_wf evs nobody w H) in Ha; [|by intros ? ? ?]. by apply Ha. Qed.

(** It may have been taken before: when the queue runner was just writing one
    for somebody else. *)
Theorem printed_status_may_be_older :
  ∃ evs w a x, run_status evs nobody = Some w ∧ sw_askers w !! 2 = Some a ∧ ak_printed a = Some (Some x) ∧
    dp_taken x < ak_since a.
Proof.
  set (evs := [SeListen 1; SeAsk 1; SeTake; SeListen 2; SeAsk 2; SeWrite true; SeRead 2]).
  assert (match run_status evs nobody ≫= (λ w, sw_askers w !! 2) with
    | Some a => match ak_printed a with Some (Some x) => dp_taken x <? ak_since a | _ => false end
    | None => false end = true) as H by (vm_compute; reflexivity).
  destruct (run_status evs nobody) as [w|] eqn:Ew; [|discriminate H]. cbn [mbind option_bind] in H.
  destruct (sw_askers w !! 2) as [a|] eqn:Ea; [|discriminate H].
  destruct (ak_printed a) as [[x|]|] eqn:Ex; try discriminate H. exists evs, w, a, x. apply Nat.ltb_lt in H. done.
Qed.

(** Because it listens before it asks, no process that asks for the status
    waits for nothing: in every interleaving of such processes with a queue
    runner whose writes succeed, as long as a process has no answer, either it
    can go on and read one, or the queue runner can go on. *)
Theorem status_request_answered evs w c a :
  run_status evs nobody = Some w → forallb (λ ev, negb (write_fails ev)) evs = true →
  sw_askers w !! c = Some a → ak_asked a = true → ak_printed a = None →
  is_Some (status_event (SeRead c) w) ∨ is_Some (status_event SeTake w) ∨ is_Some (status_event (SeWrite true) w).
Proof.
  intros H Hf Ha Hq Hp. pose proof (run_status_answers evs nobody w Hf H) as Hw.
  destruct (Hw (λ _ _ E, ltac:(discriminate E)) c a Ha Hq Hp) as [Hn|[Hn|Hn]].
  - left. unfold status_event, Asker.get_status. rewrite Ha. cbn. rewrite Hq, Hp. destruct (ak_pending a); [done|by eexists].
  - destruct (sw_taken w) as [t|] eqn:E.
    + do 2 right. unfold status_event, Dumper.write. rewrite E. by eexists.
    + right. left. unfold status_event, Dumper.take. rewrite E. destruct (sw_requests w); [done|by eexists].
  - do 2 right. unfold status_event, Dumper.write. destruct (sw_taken w); [by eexists|done].
Qed.

(** When writing the status fails, the process that asked waits for ever,
    unless somebody else asks. *)
Theorem failed_dump_is_never_answered :
  ∃ evs w a, run_status evs nobody = Some w ∧ sw_askers w !! 1 = Some a ∧ ak_asked a = true ∧ ak_printed a = None ∧
    ∀ ev, (∀ c, ev ≠ SeListen c) → status_event ev w = None.
Proof.
  set (a := mkAsker 0 0 true None).
  assert (run_status [SeListen 1; SeAsk 1; SeTake; SeWrite false] nobody = Some (mkStatusWorld 4 {[1 := a]} 0 None None)) as H
    by (vm_compute; reflexivity).
  exists [SeListen 1; SeAsk 1; SeTake; SeWrite false], (mkStatusWorld 4 {[1 := a]} 0 None None), a.
  split; [exact H|]. split; [apply lookup_singleton_eq|]. split; [done|]. split; [done|].
  intros [c|c|c| |ok] Hev; [by destruct (Hev c)| | |done|done].
  all: unfold status_event, Asker.notify_dump_status, Asker.get_status; cbn [sw_askers].
  all: destruct (decide (c = 1)) as [->|Hne]; [by rewrite lookup_singleton_eq|by rewrite lookup_singleton_ne].
Qed.
