(* ===== verification/Runner.v ===== *)
(** * Runner: the whole queue runner

    Every entry point of the state as one labelled step, what runs of them do
    to the database, and the errors the machine-side of a run can meet. *)

From Stdlib Require Import Ascii String.
From S2P Require Import NarInfo CacheCfg Stream BinaryCache.
From S2P Require Import Prelude Floats RustStr Nix Db Support Jobset Graph Dependents Result Machine.
From S2P Require Import Queue Config Uploader FodChecker State StateInv Reclaim Intake Dispatch Uploads Loops Grpc.
Local Open Scope list_scope.
Local Open Scope Z_scope.

Section Env.
Context `{HI : HashIter} `{FE : FloatEnv} `{TL : TimeLib} `{NE : NixEnv} `{DE : DbEnv} `{SE : StateEnv}
  `{FS : FsEnv} `{EL : EnvLib} `{UL : UuidLib} `{SL : SignLib} `{SHA : Sha256Lib} `{CE : CacheEnv} `{UR : UrlLib}.

(** ** Steps of the queue runner *)

(** The entry points: what builders report, what the database announces, what
    timers and the administrator start; and the dropping of what nobody refers
    to. The result of a handler is only logged. *)
Inductive Event :=
| EvMonitor (step_fuel : nat) (n : Notification)
| EvAddBuild (step_fuel : nat) (id : BuildID)
| EvDebugBuild (jobset_id : Z) (drv : StorePath)
| EvDispatch (timer_reached : bool)
| EvUpload
| EvOpenTunnel (first : FirstItem)
| EvTunnel (id : Uuid) (ev : TunnelEvent)
| EvShutdown
| EvStepUpdate (req : StepUpdate)
| EvCompleteBuild (req : BuildResultInfo)
| EvClearBusy
| EvReload (toml : string → result Error AppConfig) (filepath : string)
| EvReclaim.

(** A turn of a loop that waits changes nothing. *)
Definition unless_waiting (m : World → option (result Error unit * World)) : WM unit := λ w,
  default (Ok tt, w) (m w).

Definition handle (e : Event) : WM unit :=
  match e with
  | EvMonitor fuel n => monitor_turn fuel n
  | EvAddBuild fuel id => manually_add_queue_build fuel id;; mret tt
  | EvDebugBuild j drv => queue_one_build j drv
  | EvDispatch timer_reached => unless_waiting (dispatch_turn timer_reached)
  | EvUpload => unless_waiting uploader_turn
  | EvOpenTunnel first => open_tunnel first;; mret tt
  | EvTunnel id ev => tunnel_event id ev;; mret tt
  | EvShutdown => remove_all_machines
  | EvStepUpdate req => build_step_update req;; mret tt
  | EvCompleteBuild req => complete_build req;; mret tt
  | EvClearBusy => clear_busy
  | EvReload toml p => reload toml p
  | EvReclaim => modify reclaim
  end.

Inductive runner_step : World → World → Prop :=
| run_event e w : runner_step w (handle e w).2.

(** ** Finished builds stay as they are *)

Section Keeps.
Context (t0 : Tables).
Abbreviation KT := (λ tx, keeps_lives t0 (tx_tables tx)).
Abbreviation KD := (λ d, keeps_lives t0 (db_tables d)).
Abbreviation KW := (on_db (λ d, keeps_lives t0 (db_tables d))).
Abbreviation KI := (λ i, on_db (λ d, keeps_lives t0 (db_tables d)) (in_world i)).

Lemma conn_update_keeps (f : Tables → Tables) :
  (∀ t, keeps_lives t0 t → keeps_lives t0 (f t)) → preserves KW (db (conn_update f)).
Proof.
  intros Hf. apply preserves_db. intros d Hd. unfold conn_update, conn_exec.
  destruct (next_fault (db_faults d)) as [[] fs]; cbn; auto.
Qed.
Lemma conn_query_keeps {A} (f : Tables → A) : preserves KW (db (conn_query f)).
Proof. apply preserves_db. by apply conn_query_preserves. Qed.
Lemma abort_build_keeps now id : preserves KW (db (abort_build now id)).
Proof.
  apply conn_update_keeps. intros t. apply keeps_lives_update; [finishing|]. intros r _ H. by bool_prop.
Qed.
Lemma insert_debug_build_keeps now j d s : preserves KW (db (insert_debug_build now j d s)).
Proof.
  apply conn_update_keeps. intros t. apply keeps_lives_submit; [|done]. apply fresh_build_id_fresh.
Qed.
Lemma busy_keeps (f : Tables → Tables) :
  (∀ t, t_builds (f t) = t_builds t) → preserves KW (db (conn_update f)).
Proof. intros Hf. apply conn_update_keeps. intros t. by apply keeps_lives_same. Qed.

Lemma preserves_world {A} (m : WM A) : preserves KW m → preserves KI (world m).
Proof. intros H i Hi. unfold world, zoom. specialize (H (in_world i) Hi). by destruct (m (in_world i)). Qed.
Lemma preserves_intake (f : Intake → Intake) :
  (∀ i, in_world (f i) = in_world i) → preserves KI (modify f : IM unit).
Proof. intros H i. cbn. by rewrite H. Qed.

(** The tactic for the state of the intake. *)
Ltac pres_intake :=
  repeat first
    [ solve [auto with keeps nocore]
    | apply preserves_world
    | (apply preserves_intake; intros ?; reflexivity)
    | progress pres ].

#[local] Hint Resolve db_get_keeps run_tx_keeps create_build_step_keeps
  mark_succeeded_build_keeps on_first_store_keeps substitute_output_keeps check_cached_failure_keeps
  handle_previous_failure_keeps inner_fail_job_keeps fail_step_keeps succeed_step_keeps
  abort_build_keeps insert_debug_build_keeps : keeps.
#[local] Hint Extern 6 (preserves _ (db _)) => (apply conn_query_keeps) : keeps.
#[local] Hint Extern 5 (preserves _ _) => (apply update_keeps; intros ?; reflexivity) : keeps.
#[local] Hint Extern 6 (preserves _ (db _)) => (apply busy_keeps; intros ?; reflexivity) : keeps.

(** *** Intake *)

Lemma find_missing_keeps d os : preserves KW (find_missing d os).
Proof. unfold find_missing, schedule_upload. pres. Qed.
Lemma substitute_all_keeps b d os n : preserves KW (substitute_all b d os n).
Proof. revert n. induction os; intros n; cbn; pres. Qed.
#[local] Hint Resolve find_missing_keeps substitute_all_keeps : keeps.

Lemma create_keeps d rb rs : preserves KW (create d rb rs).
Proof.
  apply preserves_same_db. intros w. unfold create. by destruct (Steps.create _ _ _ _ _) as [? [? ?]].
Qed.
#[local] Hint Resolve create_keeps : keeps.

Lemma add_inputs_keeps f s inputs :
  (∀ i, preserves KI (f i)) → preserves KI (add_inputs f s inputs).
Proof. intros Hf. induction inputs; cbn; pres_intake. Qed.
#[local] Hint Resolve add_inputs_keeps : keeps.

Lemma create_step_keeps fuel b d rb rs : preserves KI (create_step fuel b d rb rs).
Proof.
  revert d rb rs. induction fuel as [|fuel IH]; intros d rb rs; cbn [create_step]; [by intros i|].
  unfold create_new_step. pres_intake.
Qed.
#[local] Hint Resolve create_step_keeps : keeps.

Lemma cached_output_keeps os : preserves KW (cached_output os).
Proof. induction os; cbn; pres. Qed.
#[local] Hint Resolve cached_output_keeps : keeps.
Lemma handle_cached_build_keeps b : preserves KW (handle_cached_build b).
Proof. unfold handle_cached_build, get_build_output_cached, cached_tx. pres. apply run_tx_keeps. pres. Qed.
Lemma propagate_keeps b : preserves KW (propagate b).
Proof. apply preserves_same_db. intros w. unfold propagate. by destruct (Build.propagate_priorities _ _). Qed.
#[local] Hint Resolve handle_cached_build_keeps propagate_keeps : keeps.
Lemma abort_collected_keeps a b : preserves KW (abort_collected a b).
Proof. unfold abort_collected. pres. Qed.
Lemma attach_build_keeps a s : preserves KW (attach_build a s).
Proof. unfold attach_build. pres. Qed.
#[local] Hint Resolve abort_collected_keeps attach_build_keeps : keeps.

Lemma create_build_keeps fuel sf bp a : preserves KI (create_build fuel sf bp a).
Proof.
  revert a. induction fuel as [|fuel IH]; intros a; cbn [create_build]; [by intros i|]. pres_intake.
Qed.
#[local] Hint Resolve create_build_keeps : keeps.

Lemma process_builds_keeps sf bp t ids : preserves KI (process_builds sf bp t ids).
Proof. induction ids; cbn [process_builds]; pres_intake. Qed.
#[local] Hint Resolve process_builds_keeps : keeps.

Lemma process_new_builds_keeps sf ids bi bp : preserves KW (process_new_builds sf ids bi bp).
Proof.
  intros w Hw. unfold process_new_builds.
  set (m := (starttime ← world clock; process_builds sf bp starttime ids)).
  assert (preserves KI m) as Hm by (unfold m; pres_intake).
  specialize (Hm (mkIntake w ∅ ∅ ∅ bi) Hw). destruct (m _) as [[|e] i]; [|done]. cbn [snd] in Hm.
  revert Hm. generalize (in_world i) as w'. intros w' Hw'.
  assert (∀ f, preserves KW (on_heap f;; trigger_dispatch;; on_fod FodChecker.trigger_traverse)) as Hk
    by (intros f; unfold on_heap, trigger_dispatch, on_fod; pres).
  by apply Hk.
Qed.
#[local] Hint Resolve process_new_builds_keeps : keeps.

Lemma conn_query_keeps_db {A} (f : Tables → A) : preserves KD (conn_query f).
Proof. by apply conn_query_preserves. Qed.

Lemma create_jobset_keeps m : preserves KW (create_jobset m).
Proof.
  unfold create_jobset. pres. intros w Hw. unfold create_jobset_at, Jobsets.create. cbn [fst snd].
  destruct (hp_jobsets (w_heap w) !! _); [done|].
  match goal with |- KW (let '(_, _) := match ?x _ with _ => _ end in _).2 =>
    assert (preserves KD x) as Hx by (pres; apply conn_query_keeps_db);
    specialize (Hx (w_db w) Hw); by destruct (x (w_db w)) as [[] ?]
  end.
Qed.
#[local] Hint Resolve create_jobset_keeps : keeps.

Lemma jobset_change_keeps : preserves KW jobset_change.
Proof.
  intros w Hw. unfold jobset_change, Jobsets.handle_change. cbn [fst snd].
  pose proof (conn_query_keeps_db _ (w_db w) Hw : KD (get_jobsets (w_db w)).2) as Hx.
  by destruct (get_jobsets (w_db w)) as [[] d].
Qed.

Lemma alloc_build_keeps b : preserves KW (alloc_build b).
Proof. by apply preserves_same_db. Qed.
#[local] Hint Resolve alloc_build_keeps : keeps.
Lemma read_builds_keeps acc ms : preserves KW (read_builds acc ms).
Proof. revert acc. induction ms; intros acc; cbn [read_builds]; unfold add_new_build; pres. Qed.
#[local] Hint Resolve read_builds_keeps : keeps.
Lemma get_queued_builds_keeps fuel : preserves KW (get_queued_builds fuel).
Proof. unfold get_queued_builds. pres. Qed.
Lemma manually_add_keeps fuel id : preserves KW (manually_add_queue_build fuel id).
Proof. unfold manually_add_queue_build. pres. Qed.
Lemma queue_one_build_keeps j d : preserves KW (queue_one_build j d).
Proof. unfold queue_one_build. pres. Qed.

(** *** Dispatch *)

Lemma on_machines_keeps {A} (f : Machines → Heap → A * (Machines * Heap)) : preserves KW (on_machines f).
Proof. apply preserves_same_db. intros w. unfold on_machines. by destruct (f _ _) as [? [? ?]]. Qed.
Lemma try_machine_keeps a f : preserves KW (try_machine a f).
Proof.
  apply preserves_same_db. intros w. unfold try_machine.
  destruct (ms_objs _ !! a); [|done]. by destruct (f _ _) as [[]|].
Qed.
#[local] Hint Resolve on_machines_keeps try_machine_keeps : keeps.

Lemma realise_keeps c : preserves KW (realise_drv_on_valid_machine c).
Proof. unfold realise_drv_on_valid_machine, resolve, submit. pres. apply run_tx_keeps. pres. Qed.
#[local] Hint Resolve realise_keeps : keeps.

Lemma process_queues_keeps now n systems :
  preserves KW (Queues.process_queues realise_drv_on_valid_machine now n systems).
Proof.
  assert (∀ s c jobs, preserves KW (Queues.process_jobs realise_drv_on_valid_machine now s c jobs)) as Hj.
  { intros s c jobs. revert c. induction jobs as [|a jobs IH]; intros c; cbn; [pres|].
    unfold Queues.process_job. pres. }
  revert n. induction systems; intros n; cbn; pres.
Qed.
#[local] Hint Resolve process_queues_keeps : keeps.

Lemma clone_runnable_keeps : preserves KW clone_runnable.
Proof. apply preserves_same_db. intros w. unfold clone_runnable. by destruct (Steps.clone_runnable _ _). Qed.
#[local] Hint Resolve clone_runnable_keeps : keeps.
Lemma abort_loop_keeps now l steps ab : preserves KW (abort_loop now l steps ab).
Proof. revert ab. induction steps; intros ab; cbn [abort_loop]; unfold fail_unsupported; pres. Qed.
Lemma new_infos_keeps rs acc : preserves KW (new_infos rs acc).
Proof. revert acc. induction rs; intros acc; cbn [new_infos]; pres. Qed.
#[local] Hint Resolve abort_loop_keeps new_infos_keeps : keeps.
Lemma do_dispatch_once_keeps : preserves KW do_dispatch_once.
Proof. unfold do_dispatch_once, prune_jobsets, Queues.process, abort_unsupported. pres. Qed.

Lemma remove_machine_keeps id : preserves KW (remove_machine id).
Proof. unfold remove_machine. pres. Qed.
#[local] Hint Resolve remove_machine_keeps : keeps.
Lemma insert_machine_keeps m : preserves KW (insert_machine m).
Proof. unfold insert_machine. pres. Qed.
#[local] Hint Resolve insert_machine_keeps : keeps.

Lemma kill_active_loop_keeps active c : preserves KW (kill_active_loop active c).
Proof.
  revert c. induction active as [|[drv item] active IH]; intros c; cbn [kill_active_loop]; [pres|].
  unfold kill_active_step. pres.
Qed.
#[local] Hint Resolve kill_active_loop_keeps : keeps.
Lemma update_priorities_keeps ids : preserves KW (update_priorities ids).
Proof.
  apply preserves_same_db. intros w. unfold update_priorities. by destruct (Builds.update_priorities _ _ _) as [[]|].
Qed.
#[local] Hint Resolve update_priorities_keeps : keeps.
Lemma process_queue_change_keeps : preserves KW process_queue_change.
Proof. unfold process_queue_change, kill_active_steps. pres. Qed.

Lemma open_stores_keeps uris : preserves KW (open_stores uris).
Proof. induction uris; cbn; pres. Qed.
#[local] Hint Resolve open_stores_keeps : keeps.
Lemma reload_keeps toml p : preserves KW (reload toml p).
Proof. unfold reload, reload_config_callback. pres. Qed.

Lemma handle_message_keeps msg : preserves KW (handle_message msg).
Proof. unfold handle_message. pres. Qed.
Lemma new_machine_keeps msg : preserves KW (new_machine msg).
Proof. apply preserves_same_db. intros w. unfold new_machine. by destruct (Machine.new _ _ _ _) as [[]|]. Qed.
#[local] Hint Resolve handle_message_keeps new_machine_keeps : keeps.

#[local] Hint Resolve get_queued_builds_keeps manually_add_keeps queue_one_build_keeps
  jobset_change_keeps do_dispatch_once_keeps process_queue_change_keeps reload_keeps : keeps.

Lemma handle_notification_keeps n : preserves KW (handle_notification n).
Proof. unfold handle_notification. pres. Qed.
#[local] Hint Resolve handle_notification_keeps : keeps.
Lemma monitor_turn_keeps fuel n : preserves KW (monitor_turn fuel n).
Proof. unfold monitor_turn. pres. all: repeat case_match; auto with keeps. Qed.
Lemma dispatch_turn_keeps t : preserves KW (unless_waiting (dispatch_turn t)).
Proof.
  intros w Hw. unfold unless_waiting, dispatch_turn. case_match; [by apply do_dispatch_once_keeps|].
  repeat case_match; [by apply do_dispatch_once_keeps|done..].
Qed.
Lemma upload_keeps msg : preserves KW (upload_in_world msg).
Proof. apply preserves_same_db. intros w. unfold upload_in_world. by destruct (upload_msg _ _ _). Qed.
#[local] Hint Resolve upload_keeps : keeps.
Lemma uploader_turn_keeps : preserves KW (unless_waiting uploader_turn).
Proof.
  intros w Hw. unfold unless_waiting, uploader_turn. case_match.
  - destruct (Uploader.take_one _) as [[msg u]|]; [|done]. cbn [mbind option_bind default].
    match goal with |- on_db _ (id (?m ?w)).2 => assert (preserves KW m) as Hm by pres; by apply Hm end.
  - destruct (Uploader.take_many _ _) as [[ms u]|]; [|done]. cbn [mbind option_bind default].
    match goal with |- on_db _ (id (?m ?w)).2 => assert (preserves KW m) as Hm by pres; by apply Hm end.
Qed.
#[local] Hint Resolve monitor_turn_keeps dispatch_turn_keeps uploader_turn_keeps : keeps.

Lemma handle_keeps e : preserves KW (handle e).
Proof.
  destruct e; cbn [handle]; try (solve [pres]);
    unfold open_tunnel, tunnel_event, remove_all_machines, build_step_update, complete_build, update_build_step,
      succeed_step_by_uuid, fail_step_by_uuid, drv_of_job, clear_busy; pres.
Qed.

End Keeps.
(** The worlds a list of events leads through. *)
Definition run (evs : list Event) (w : World) : World := foldl (λ w e, (handle e w).2) w evs.

Lemma run_steps evs w : rtc runner_step w (run evs w).
Proof.
  revert w. induction evs as [|e evs IH]; intros w; cbn; [done|].
  eapply rtc_l; [by constructor|]. apply IH.
Qed.

Lemma run_keeps w w' :
  ids_unique (db_tables (w_db w)) → rtc runner_step w w' →
  keeps_lives (db_tables (w_db w)) (db_tables (w_db w')).
Proof.
  intros Hids Hrun.
  assert (keeps_lives (db_tables (w_db w)) (db_tables (w_db w))) as H by (by split; [|intros ?]).
  revert H. clear Hids. generalize (db_tables (w_db w)) at 1 3 as t0. intros t0 H.
  induction Hrun as [|w1 w2 w3 [e w1'] _ IH]; [done|]. apply IH, (handle_keeps t0 e w1' H).
Qed.

(** C1: Whatever happens, in whatever order - builds are read, steps are
    dispatched, succeed or fail, builders come and go, transactions abort
    halfway -, a build the database records as finished keeps its row as it
    is, and no two builds ever share an id. *)
Theorem finished_builds_are_final (w w' : World)
    (Hids : ids_unique (db_tables (w_db w))) (Hrun : rtc runner_step w w') :
  ids_unique (db_tables (w_db w')) ∧
  ∀ r, r ∈ t_builds (db_tables (w_db w)) → r_finished r ≠ 0 → r ∈ t_builds (db_tables (w_db w')).
Proof.
  pose proof (run_keeps w w' Hids Hrun) as Hk. split; [apply Hk|].
  intros r. by apply keeps_lives_finished.
Qed.

(** C2: The queue runner implements the life of a build: read as a map from
    ids to what was submitted and what came out, the builds of the database
    only ever change by a new id being submitted and by a waiting build being
    finished, with a status the code has. No build disappears, no id is used
    again, what was submitted is never altered, and nothing is finished twice,
    whatever the runner meets in between. *)
Theorem runner_refines_lifecycle (w w' : World)
    (Hids : ids_unique (db_tables (w_db w))) (Hrun : rtc runner_step w w') :
  rtc lives_step (lives (db_tables (w_db w))) (lives (db_tables (w_db w'))).
Proof. apply lives_steps, (run_keeps w w' Hids Hrun). Qed.

End Env.
