(* ===== verification/LockFile.v ===== *)
(** * LockFile: one queue runner at a time ([queue-runner/src/lock_file.rs])

    The lock is an advisory lock on an open file. [acquire] opens the file,
    creating it if there is none, and then tries to lock what it opened;
    dropping the lock unlocks the file and then removes its name. Files are
    the operating system's: a name leads to an inode, a lock belongs to an
    inode, and an inode whose name is gone lives on while it is open. Each
    call of the operating system is one step of one process. *)

From S2P Require Import Prelude.
Local Open Scope list_scope.

Abbreviation Pid := nat.
Abbreviation Inode := nat.

(** Where a process is: it has opened the file, it holds the lock, it has
    unlocked the file and not removed the name yet. *)
Inductive Phase :=
| Opened (i : Inode)
| Holding (i : Inode)
| Unlocked.

Record LockWorld := mkLockWorld {
  lw_path : option Inode;
  lw_locks : gmap Inode Pid;
  lw_next : Inode;
  lw_procs : gmap Pid Phase
}.
#[export] Instance eta_LockWorld : Eta LockWorld := λ r,
  mkLockWorld (lw_path r) (lw_locks r) (lw_next r) (lw_procs r).
#[export] Instance set_lw_path : Setter lw_path := ltac:(mk_setter lw_path).
#[export] Instance set_lw_locks : Setter lw_locks := ltac:(mk_setter lw_locks).
#[export] Instance set_lw_next : Setter lw_next := ltac:(mk_setter lw_next).
#[export] Instance set_lw_procs : Setter lw_procs := ltac:(mk_setter lw_procs).

Definition no_lock_file : LockWorld := mkLockWorld None ∅ 0 ∅.

Module LockFile.

(** [fs_err::File::create(&path)] *)
Definition create (p : Pid) (w : LockWorld) : LockWorld :=
  match lw_path w with
  | Some i => w <| lw_procs ::= <[p := Opened i]> |>
  | None =>
      let i := lw_next w in
      w <| lw_path := Some i |> <| lw_next := S i |> <| lw_procs ::= <[p := Opened i]> |>
  end.

(** [file.try_lock()]: a process that does not get the lock closes the file. *)
Definition try_lock (p : Pid) (w : LockWorld) : bool * LockWorld :=
  match lw_procs w !! p with
  | Some (Opened i) =>
      match lw_locks w !! i with
      | None => (true, w <| lw_locks ::= <[i := p]> |> <| lw_procs ::= <[p := Holding i]> |>)
      | Some _ => (false, w <| lw_procs ::= delete p |>)
      end
  | _ => (false, w)
  end.

Definition unlock (p : Pid) (w : LockWorld) : LockWorld :=
  match lw_procs w !! p with
  | Some (Holding i) => w <| lw_locks ::= delete i |> <| lw_procs ::= <[p := Unlocked]> |>
  | _ => w
  end.

(** [fs_err::remove_file(&self.path)]: it is the name that is removed. *)
Definition remove_file (p : Pid) (w : LockWorld) : LockWorld :=
  match lw_procs w !! p with
  | Some Unlocked => w <| lw_path := None |> <| lw_procs ::= delete p |>
  | _ => w
  end.

Definition acquire (p : Pid) (w : LockWorld) : bool * LockWorld := try_lock p (create p w).
Definition drop (p : Pid) (w : LockWorld) : LockWorld := remove_file p (unlock p w).

(** A process that is killed: the operating system closes its file. *)
Definition kill (p : Pid) (w : LockWorld) : LockWorld :=
  match lw_procs w !! p with
  | Some (Holding i) => w <| lw_locks ::= delete i |> <| lw_procs ::= delete p |>
  | _ => w <| lw_procs ::= delete p |>
  end.
End LockFile.

(** ** Steps *)

Definition holds (p : Pid) (w : LockWorld) : Prop := ∃ i, lw_procs w !! p = Some (Holding i).

(** Every call for itself. *)
Inductive lock_step : LockWorld → LockWorld → Prop :=
| ls_create p w : lw_procs w !! p = None → lock_step w (LockFile.create p w)
| ls_try p w : lock_step w (LockFile.try_lock p w).2
| ls_unlock p w : lock_step w (LockFile.unlock p w)
| ls_remove p w : lock_step w (LockFile.remove_file p w)
| ls_kill p w : lock_step w (LockFile.kill p w).

(** [acquire] and [drop] without interruption. *)
Inductive whole_step : LockWorld → LockWorld → Prop :=
| ws_acquire p w : lw_procs w !! p = None → whole_step w (LockFile.acquire p w).2
| ws_drop p w : whole_step w (LockFile.drop p w)
| ws_kill p w : whole_step w (LockFile.kill p w).

(** ** The lock excludes while its operations are not interrupted *)

(** The only process there is holds the file that has the name. *)
Record lock_wf (w : LockWorld) : Prop := {
  lf_procs : ∀ p ph, lw_procs w !! p = Some ph → ∃ i, ph = Holding i ∧ lw_path w = Some i ∧ lw_locks w !! i = Some p;
  lf_locks : ∀ i p, lw_locks w !! i = Some p → lw_procs w !! p = Some (Holding i);
  lf_next : ∀ i, lw_path w = Some i ∨ is_Some (lw_locks w !! i) → i < lw_next w
}.

Lemma no_lock_file_wf : lock_wf no_lock_file.
Proof. split; cbn; [done|done|]. intros i [?|[? ?]]; done. Qed.

Lemma acquire_wf p w : lw_procs w !! p = None → lock_wf w → lock_wf (LockFile.acquire p w).2.
Proof.
  intros Hp [W1 W2 W3]. unfold LockFile.acquire, LockFile.create, LockFile.try_lock.
  destruct (lw_path w) as [i|] eqn:Ei; cbn; rewrite lookup_insert_eq.
  - destruct (lw_locks w !! i) as [q|] eqn:El; cbn.
    + assert (delete p (<[p:=Opened i]> (lw_procs w)) = lw_procs w) as E
        by (rewrite delete_insert_eq; by apply delete_id).
      split; cbn; rewrite ?E; rewrite ?Ei; done || eauto.
    + split; cbn; rewrite ?Ei.
      * intros q ph. rewrite insert_insert_eq. intros [[<- <-]|[Hne Hq]]%lookup_insert_Some.
        { exists i. by rewrite lookup_insert_eq. }
        destruct (W1 _ _ Hq) as (j & -> & Hj & Hl). injection Hj as ->. congruence.
      * intros j q. rewrite insert_insert_eq. intros [[<- <-]|[Hne Hj]]%lookup_insert_Some.
        { by rewrite lookup_insert_eq. }
        destruct (W1 _ _ (W2 _ _ Hj)) as (j' & [= <-] & [= ->] & _). congruence.
      * intros j [[= <-]|[q [[<- _]|[_ Hq]]%lookup_insert_Some]]; [auto..|]. apply W3. eauto.
  - assert (lw_locks w !! lw_next w = None) as El.
    { destruct (lw_locks w !! lw_next w) eqn:E; [|done]. specialize (W3 _ (or_intror (ex_intro _ _ E))). lia. }
    rewrite El. cbn. split; cbn.
    + intros q ph. rewrite insert_insert_eq. intros [[<- <-]|[Hne Hq]]%lookup_insert_Some.
      { exists (lw_next w). by rewrite lookup_insert_eq. }
      destruct (W1 _ _ Hq) as (j & _ & Hj & _). congruence.
    + intros j q. rewrite insert_insert_eq. intros [[<- <-]|[Hne Hj]]%lookup_insert_Some.
      { by rewrite lookup_insert_eq. }
      destruct (W1 _ _ (W2 _ _ Hj)) as (j' & _ & Hj' & _). congruence.
    + intros j [[= <-]|[q [[<- _]|[_ Hq]]%lookup_insert_Some]]; [lia..|].
      specialize (W3 j (or_intror (ex_intro _ _ Hq))). lia.
Qed.

(** The one process that is there. *)
Lemma wf_alone w p ph : lock_wf w → lw_procs w !! p = Some ph →
  ∃ i, lw_path w = Some i ∧ lw_procs w = {[p := Holding i]} ∧ lw_locks w = {[i := p]}.
Proof.
  intros [W1 W2 W3] Hp. destruct (W1 _ _ Hp) as (i & -> & Hi & Hl). exists i. split; [done|]. split; apply map_eq.
  - intros q. destruct (decide (q = p)) as [->|Hne]; [by rewrite lookup_singleton_eq|].
    rewrite lookup_singleton_ne by done. destruct (lw_procs w !! q) as [ph|] eqn:Eq; [|done].
    destruct (W1 _ _ Eq) as (j & _ & Hj & Hjl). congruence.
  - intros j. destruct (decide (j = i)) as [->|Hne]; [by rewrite lookup_singleton_eq|].
    rewrite lookup_singleton_ne by done. destruct (lw_locks w !! j) as [q|] eqn:Ej; [|done].
    destruct (W1 _ _ (W2 _ _ Ej)) as (j' & [= <-] & Hj & _). congruence.
Qed.

(** Without its holder the file is nobody's. *)
Lemma released_wf (path : option Inode) next : (∀ i, path = Some i → i < next) → lock_wf (mkLockWorld path ∅ next ∅).
Proof. intros H. split; cbn; [done|done|]. intros i [Hi|[? ?]]; [auto|done]. Qed.

Lemma drop_wf p w : lock_wf w → lock_wf (LockFile.drop p w).
Proof.
  intros W. unfold LockFile.drop, LockFile.unlock. destruct (lw_procs w !! p) as [ph|] eqn:E.
  2: { unfold LockFile.remove_file. by rewrite E. }
  destruct (wf_alone w p ph W E) as (i & Hi & Hp & Hl). destruct w as [path locks next procs]. cbn in *. subst.
  rewrite lookup_singleton_eq in E. injection E as <-. unfold LockFile.remove_file, upd. cbn.
  rewrite lookup_insert_eq. cbn. rewrite delete_singleton_eq, delete_insert_eq, delete_singleton_eq.
  by apply released_wf.
Qed.
Lemma kill_wf p w : lock_wf w → lock_wf (LockFile.kill p w).
Proof.
  intros W. unfold LockFile.kill. destruct (lw_procs w !! p) as [ph|] eqn:E.
  - destruct (wf_alone w p ph W E) as (i & Hi & Hp & Hl). destruct w as [path locks next procs]. cbn in *. subst.
    rewrite lookup_singleton_eq in E. injection E as <-. unfold upd. cbn.
    rewrite !delete_singleton_eq. apply released_wf. intros j [= <-]. apply (lf_next _ W). by left.
  - destruct w as [path locks next procs]. unfold upd. cbn in *. by rewrite delete_id.
Qed.

Lemma whole_step_wf w w' : whole_step w w' → lock_wf w → lock_wf w'.
Proof. intros []; auto using acquire_wf, drop_wf, kill_wf. Qed.

Lemma reachable_lock_wf w : rtc whole_step no_lock_file w → lock_wf w.
Proof.
  intros Hr. pose proof no_lock_file_wf as W0. induction Hr as [|w1 w2 w3 H1 _ IH]; [done|]. by eapply IH, whole_step_wf.
Qed.
Lemma acquire_held w p q : lock_wf w → holds p w → lw_procs w !! q = None → (LockFile.acquire q w).1 = false.
Proof.
  intros W [i Hp] Hq. destruct (wf_alone w p _ W Hp) as (j & Hj & Hps & Hl).
  unfold LockFile.acquire, LockFile.create. rewrite Hj. unfold LockFile.try_lock. cbn.
  by rewrite lookup_insert_eq, Hl, lookup_singleton_eq.
Qed.

(** While no call comes between those of an [acquire] or of a [drop], at
    most one process holds the lock, however many start, end or are killed -
    and one that starts while another holds it does not get it. *)
Theorem lock_excludes w p :
  rtc whole_step no_lock_file w → holds p w →
  (∀ q, holds q w → q = p) ∧ ∀ q, lw_procs w !! q = None → (LockFile.acquire q w).1 = false.
Proof.
  intros W%reachable_lock_wf Hp. split; [|intros q; by eapply acquire_held].
  destruct Hp as [i Hp]. destruct (wf_alone w p _ W Hp) as (j & Hj & Hps & Hl).
  intros q [k Hq]. rewrite Hps in Hq. by apply lookup_singleton_Some in Hq as [-> _].
Qed.

(** ** It does not exclude otherwise *)

(** The first process has the lock; the second has opened the file when the
    first drops the lock and so locks a file without a name; the third makes a
    file of its own. *)
Definition overtaken : LockWorld :=
  let w := (LockFile.acquire 1 no_lock_file).2 in
  let w := LockFile.create 2 w in
  let w := LockFile.drop 1 w in
  let w := (LockFile.try_lock 2 w).2 in
  (LockFile.acquire 3 w).2.

(** Two processes can hold the lock at once: one that has opened the file
    when the holder drops the lock gets a lock on the removed file, and one
    that starts later a lock on a new file. *)
Theorem lock_overtaken :
  rtc lock_step no_lock_file overtaken ∧ holds 2 overtaken ∧ holds 3 overtaken.
Proof.
  split; [|split; by eexists].
  eapply rtc_l; [by apply (ls_create 1)|]. eapply rtc_l; [apply (ls_try 1)|]. eapply rtc_l; [by apply (ls_create 2)|].
  eapply rtc_l; [apply (ls_unlock 1)|]. eapply rtc_l; [apply (ls_remove 1)|]. eapply rtc_l; [apply (ls_try 2)|].
  eapply rtc_l; [by apply (ls_create 3)|]. apply rtc_once, (ls_try 3).
Qed.

(** Process 1 has the lock, and 2 does not get it. *)
Lemma lock_excludes_witness : (LockFile.acquire 2 (LockFile.acquire 1 no_lock_file).2).1 = false.
Proof.
  apply (lock_excludes (LockFile.acquire 1 no_lock_file).2 1).
  - apply rtc_once. by apply ws_acquire.
  - by eexists.
  - reflexivity.
Defined.
