(* ===== verification/Startup.v ===== *)
(** * Startup: the queue runner starts and stops ([queue-runner/src/main.rs],
    [State::new] of [mod.rs], the command line of [config.rs])

    The command line is read by [clap]; what it returned is a [Cli]. The pool
    of connections, the clock and the file with the pending uploads are the
    class [StartEnv]. *)

From Stdlib Require Import Ascii String.
From S2P Require Import NarInfo CacheCfg Stream BinaryCache.
From S2P Require Import Prelude Floats RustStr Nix Db Support Jobset Graph Dependents GraphInv Result Machine MachineInv.
From S2P Require Import Queue QueueInv Config Uploader FodChecker State StateInv Intake IntakeInv Dispatch Io Http Metrics.
From S2P Require Import Grpc DispatchInv LockFile SockAddr.
Local Open Scope string_scope.
Local Open Scope list_scope.
Local Open Scope Z_scope.

(** ** The command line *)

Record Cli := mkCli {
  cl_status : bool;
  cl_rest_bind : SocketAddr;
  cl_grpc_bind : BindSocket;
  cl_config_path : string;
  cl_server_cert_path : option string;
  cl_server_key_path : option string;
  cl_client_ca_cert_path : option string;
  cl_disable_queue_monitor_loop : bool
}.
Definition LOCALHOST : list Z := [0; 0; 0; 0; 0; 0; 0; 1].
Definition default_Cli : Cli :=
  mkCli false (V6 LOCALHOST 0 8080) (Tcp (V6 LOCALHOST 0 50051)) "config.toml" None None None false.

(** The addresses as the attributes of the command line write them. *)
Lemma default_addresses :
  parse_socket_addr "[::1]:8080" = Some (cl_rest_bind default_Cli) ∧
  BindSocket_from_str "[::1]:50051" = Ok (cl_grpc_bind default_Cli).
Proof. split; reflexivity. Qed.

Definition is_some {A} (o : option A) : bool := match o with Some _ => true | None => false end.
Definition mtls_enabled (c : Cli) : bool :=
  is_some (cl_server_cert_path c) && is_some (cl_server_key_path c) && is_some (cl_client_ca_cert_path c).
Definition mtls_configured_correctly (c : Cli) : bool :=
  mtls_enabled c
  || (negb (is_some (cl_server_cert_path c)) && negb (is_some (cl_server_key_path c))
      && negb (is_some (cl_client_ca_cert_path c))).

(** The certificate of the clients' authority; certificate and key of the
    server. *)
Definition get_mtls `{FsEnv} (c : Cli) : result Error (string * (string * string)) :=
  server_cert_path ← ok_or (cl_server_cert_path c) (Anyhow "server_cert_path not provided");
  server_key_path ← ok_or (cl_server_key_path c) (Anyhow "server_key_path not provided");
  client_ca_cert_path ← ok_or (cl_client_ca_cert_path c) (Anyhow "client_ca_cert_path not provided");
  client_ca_cert ← ok_or (fs_read_to_string client_ca_cert_path) (Anyhow "io");
  server_cert ← ok_or (fs_read_to_string server_cert_path) (Anyhow "io");
  server_key ← ok_or (fs_read_to_string server_key_path) (Anyhow "io");
  Ok (client_ca_cert, (server_cert, server_key)).

(** ** The state *)

Class StartEnv : Type := {
  (** [PgPoolOptions::connect], with the most connections there may be. *)
  connect_db : string → Z → result Error Database;
  system_clock : nat → Timestamp;
  (** The messages in the state file of the uploader. *)
  upload_state : string → option (list JsonMessage)
}.

Section Startup.
Context `{HI : HashIter} `{FE : FloatEnv} `{TL : TimeLib} `{NE : NixEnv} `{DE : DbEnv} `{SE : StateEnv}
  `{UL : UuidLib} `{UR : UrlLib} `{FS : FsEnv} `{EL : EnvLib} `{PL : Metrics.PromLib} `{ST : StartEnv}.

Fixpoint open_all (uris : list string) : result Error (list S3BinaryCacheClient) :=
  match uris with
  | [] => Ok []
  | uri :: uris' => s ← open_store uri; ss ← open_all uris'; Ok (s :: ss)
  end.

Definition uploader_file (config : PreparedApp) : string := path_join (pa_hydra_data_dir config) "uploader_state.json".

(** [State::new], with the metrics beside the state. A log directory that
    cannot be created is logged. *)
Definition State_new (toml : string → result Error AppConfig) (cli : Cli) (r : Metrics.Registry)
  : result Error (World * Metrics.PromMetrics) :=
  config ← load_config toml (cl_config_path cli);
  db ← connect_db (pa_db_url config) (pa_max_db_connections config);
  remote_stores ← open_all (pa_remote_store_addr config);
  '(metrics, _) ← Metrics.new r;
  Ok (mkWorld (mkHeap ∅ ∅ ∅ 1%positive system_clock 0) ∅ ∅ Queues.new Machines.new db config remote_stores
        (pa_hydra_log_dir config) (if pa_enable_fod_checker config then Some FodChecker.new else None)
        (Uploader.new new_v4 (upload_state (uploader_file config))) false 0, metrics).

(** ** Starting *)

Inductive Service := ConfigReloader | DispatchLoop | DumpStatusLoop | UploaderQueue | QueueMonitorLoop | TraverseLoop.

Definition start_task_loops (cli : Cli) (w : World) : list Service :=
  [ConfigReloader; DispatchLoop; DumpStatusLoop; UploaderQueue]
  ++ (if cl_disable_queue_monitor_loop cli then [] else [QueueMonitorLoop])
  ++ match w_fod_checker w with Some _ => [TraverseLoop] | None => [] end.

(** How [main] goes on: it prints the status and ends, or it serves. *)
Inductive Started := PrintedStatus (status : option string) | Serving (services : list Service).

(** [locked]: whether the lock file could be locked. *)
Definition main (cli : Cli) (locked : bool) : WM Started :=
  if cl_status cli then s ← read_status; mret (PrintedStatus s)
  else if negb locked then throw (Anyhow "Another instance is already running.")
  else
    clear_busy;;
    if negb (mtls_configured_correctly cli) then throw (Anyhow "Configuration issue")
    else services ← gets (start_task_loops cli); mret (Serving services).

(** ** Stopping *)

(** On a signal to interrupt or to terminate: the servers and loops are ended,
    and what [clear_busy] answers is not looked at. *)
Definition shutdown : WM unit := remove_all_machines;; attempt clear_busy;; mret tt.

(** ** A new state is in order *)

(** The state that is made at the start satisfies what the other parts
    rely on and keep: the graph of steps, the queues and the registry of
    builders are well formed and empty, nothing is held, and the counters are
    at zero - on whatever database, which is read and not changed. *)
Theorem new_state_in_order toml cli r w m :
  State_new toml cli r = Ok (w, m) →
  graph_ok w ∧ queues_wf (w_heap w) (w_queues w) ∧ iq_held (w_queues w) = [] ∧
  machines_wf (pa_machine_sort_fn (w_config w)) (w_machines w) ∧ w_builds w = ∅ ∧ m = Metrics.zero ∧
  connect_db (pa_db_url (w_config w)) (pa_max_db_connections (w_config w)) = Ok (w_db w) ∧
  length (w_remote_stores w) = length (pa_remote_store_addr (w_config w)).
Proof.
  unfold State_new. intros (config & Hc & (db & Hdb & (stores & Hs & ([metrics r'] & Hm & H)%bind_Ok_inv)%bind_Ok_inv)%bind_Ok_inv)%bind_Ok_inv.
  injection H as <- <-. cbn.
  assert (metrics = Metrics.zero) as ->.
  { unfold Metrics.new in Hm. case_match; [|done]. apply bind_Ok_inv in Hm as (r1 & _ & Hm). by injection Hm. }
  assert (∀ uris stores, open_all uris = Ok stores → length stores = length uris) as Hlen.
  { induction uris as [|u uris IH]; intros l Hl; cbn in Hl; [by injection Hl as <-|].
    apply bind_Ok_inv in Hl as (x & _ & (xs & Hxs & Hl)%bind_Ok_inv). injection Hl as <-. cbn. by rewrite (IH xs). }
  split; [|split_and!; eauto using new_wf, new_machines_wf].
  split; [intros x st Hx; discriminate Hx| |intros x st Hx; discriminate Hx].
  split_and!; [intros a st Hx; discriminate Hx|by intros d a st|by intros d a].
Qed.

(** ** A second queue runner is refused *)

(** While one queue runner holds the lock, a second one that is started
    ends with an error, and neither the database nor anything else has
    changed. *)
Theorem second_start_refused (lw : LockWorld) (p q : Pid) cli (w : World) :
  rtc whole_step no_lock_file lw → holds p lw → lw_procs lw !! q = None → cl_status cli = false →
  main cli (LockFile.acquire q lw).1 w = (Err (Anyhow "Another instance is already running."), w).
Proof.
  intros Hr Hp Hq Hs. unfold main. rewrite Hs. by rewrite (acquire_held lw p q (reachable_lock_wf lw Hr) Hp Hq).
Qed.

(** ** Stopping *)

(** The registered builders and who is at which address. *)
Definition registry_is (by_uuid : gmap Uuid addr) (ids : gmap addr Uuid) (w : World) : Prop :=
  ms_by_uuid (w_machines w) = by_uuid ∧ mc_id <$> ms_objs (w_machines w) = ids.

Section Registry.
Context (by_uuid : gmap Uuid addr) (ids : gmap addr Uuid).
Abbreviation R := (registry_is by_uuid ids).

Lemma registry_same {A} (m : WM A) : (∀ w, w_machines (m w).2 = w_machines w) → preserves R m.
Proof. intros H w. unfold registry_is. by rewrite H. Qed.
Lemma registry_db {A} (m : DbM A) : preserves R (db m).
Proof. apply registry_same. intros w. unfold db, zoom. by destruct (m (w_db w)). Qed.
Lemma registry_take d : preserves R (take_scheduled d).
Proof. apply registry_same. intros w. unfold take_scheduled. by destruct (Queues.remove_job_from_scheduled d (w_queues w)). Qed.
Lemma registry_machine {A} a (f : Machine → Heap → A * (Machine * Heap)) :
  (∀ m h, mc_id (f m h).2.1 = mc_id m) → preserves R (on_machine a f).
Proof.
  intros Hf w [H1 H2]. unfold on_machine. destruct (ms_objs (w_machines w) !! a) as [m|] eqn:Ea; [|done].
  specialize (Hf m (w_heap w)). destruct (f m (w_heap w)) as [r [m' h']]. split; [done|]. cbn in *.
  rewrite fmap_insert, <-H2. apply insert_id. by rewrite lookup_fmap, Ea, Hf.
Qed.
Lemma remove_job_id d m h : mc_id (Machine.remove_job d m h).2.1 = mc_id m.
Proof. pose proof (remove_job_spec d m h) as H. destruct (Machine.remove_job d m h) as [j [m' h']]. apply H. Qed.

Ltac registry :=
  repeat first
    [ apply registry_db | apply registry_take
    | (apply registry_machine; intros ? ?; first [apply remove_job_id|reflexivity])
    | (apply registry_same; intros ?; reflexivity)
    | apply preserves_attempt
    | apply preserves_bind; [|intros ?]
    | match goal with
      | |- preserves _ (if ?b then _ else _) => destruct b
      | |- preserves _ (match ?b with _ => _ end) => destruct b
      end ].

Lemma fail_loop_registry fuel machine job step fin l : preserves R (fail_loop fuel machine job step fin l).
Proof.
  revert fin l. induction fuel as [|fuel IH]; intros fin l; cbn [fail_loop]; [by intros w|].
  unfold get_all_indirect_builds, retire. registry. apply IH.
Qed.
Lemma fail_step_registry d state timings : preserves R (fail_step d state timings).
Proof.
  unfold fail_step, take_and, with_held, take_job, fail_taken, inner_fail_job, finish_build_step. registry.
  all: apply fail_loop_registry.
Qed.
End Registry.

(** Each address in use has its builder. *)
Definition registry_ok (by_uuid : gmap Uuid addr) (ids : gmap addr Uuid) : Prop :=
  ∀ id a, by_uuid !! id = Some a → ids !! a = Some id.

Lemma remove_machine_registry by_uuid ids id w :
  registry_ok by_uuid ids → registry_is by_uuid ids w →
  (remove_machine id w).1 = Ok tt ∧ registry_is (delete id by_uuid) ids (remove_machine id w).2.
Proof.
  intros Hok [H1 H2]. unfold remove_machine, on_machines, Machines.remove_machine. rewrite !bind_run. cbn zeta.
  rewrite H1. destruct (by_uuid !! id) as [a|] eqn:E; cbn [mbind option_bind].
  2: { split; [done|]. split; [cbn; by rewrite delete_id|done]. }
  apply Hok in E as Ha. rewrite <-H2, lookup_fmap in Ha.
  destruct (ms_objs (w_machines w) !! a) as [m|] eqn:Em; [|done]. cbn [mbind option_bind].
  set (ms := Machines.reconstruct_supported_features _).
  set (w1 := (w <| w_machines := ms |>) <| w_heap := w_heap w |>).
  assert (registry_is (delete id by_uuid) ids w1) as Hw1 by (split; [cbn; by rewrite H1|exact H2]).
  rewrite bind_run. unfold machine_at. assert (ms_objs (w_machines w1) !! a = Some m) as -> by done. cbn [ok_or].
  destruct (fail_jobs_unassigned id (mc_jobs m) w1) as (Hr & _).
  { cbn. rewrite H1. apply lookup_delete_eq. }
  split; [exact Hr|]. revert Hw1. apply preserves_for_each. intros job _.
  apply preserves_bind; [|intros _; apply preserves_ret]. apply preserves_attempt, fail_step_registry.
Qed.

Lemma remove_all_registry by_uuid ids l w :
  registry_ok by_uuid ids → registry_is by_uuid ids w → (∀ a, a ∈ l → is_Some (ids !! a)) →
  let r := for_each l (λ a, m ← machine_at a; remove_machine (mc_id m)) w in
  r.1 = Ok tt ∧ ∃ by_uuid', registry_is by_uuid' ids r.2 ∧ by_uuid' ⊆ by_uuid ∧
    ∀ a id, a ∈ l → ids !! a = Some id → by_uuid' !! id = None.
Proof.
  revert by_uuid w. induction l as [|a l IH]; intros by_uuid w Hok Hw Hl; cbn zeta.
  { split; [done|]. exists by_uuid. split; [done|]. split; [done|]. by intros a id ?%not_elem_of_nil. }
  destruct (Hl a) as [id Ha]; [left|]. pose proof (remove_machine_registry by_uuid ids id w Hok Hw) as [Hr Hw1].
  assert (∃ m, ms_objs (w_machines w) !! a = Some m ∧ mc_id m = id) as (m & Hm & Hid).
  { destruct Hw as [_ H2]. rewrite <-H2, lookup_fmap in Ha. destruct (ms_objs (w_machines w) !! a) as [m|]; [|done].
    injection Ha as <-. eauto. }
  set (f := λ a : addr, _). assert (for_each (a :: l) f w = for_each l f (remove_machine id w).2) as ->.
  { cbn [for_each]. rewrite bind_run. unfold f at 1. rewrite bind_run. unfold machine_at. rewrite Hm. cbn [ok_or].
    rewrite Hid. destruct (remove_machine id w) as [res w1]. cbn [fst snd] in *. by subst res. }
  generalize dependent (remove_machine id w).2. intros w1 Hw1. clear Hr.
  destruct (IH (delete id by_uuid) w1) as (Hr & by' & Hw' & Hsub & Hno).
  - intros id' a' [_ H]%lookup_delete_Some. by apply Hok.
  - done.
  - intros a' Ha'. apply Hl. by right.
  - split; [exact Hr|]. exists by'. split; [exact Hw'|]. split; [by etrans; [exact Hsub|apply delete_subseteq]|].
    intros a' id' [->|Ha']%elem_of_cons Hid'; [|by eapply Hno]. rewrite Ha in Hid'. injection Hid' as <-.
    destruct (by' !! id) as [x|] eqn:Ex; [|done]. eapply lookup_weaken in Ex; [|exact Hsub].
    by rewrite lookup_delete_eq in Ex.
Qed.

(** C38: a queue runner that is told to stop leaves nothing behind: no builder
    is registered any more, whatever the failures of their jobs meet; and when
    the last two requests are answered, no step in the database is marked as
    busy. *)
Theorem shutdown_leaves_nothing sort_fn w :
  machines_wf sort_fn (w_machines w) →
  (shutdown w).1 = Ok tt ∧ ms_by_uuid (w_machines (shutdown w).2) = ∅ ∧
  (db_faults (w_db (remove_all_machines w).2) = [] →
   ∀ s, s ∈ t_buildsteps (db_tables (w_db (shutdown w).2)) → s_busy s = 0).
Proof.
  intros [W _ _]. set (by_uuid := ms_by_uuid (w_machines w)). set (ids := mc_id <$> ms_objs (w_machines w)).
  assert (registry_ok by_uuid ids) as Hok.
  { intros id a Ha. pose proof (mw_uuid _ W id a Ha) as H. unfold Machines.has_id in H. unfold ids.
    by rewrite lookup_fmap. }
  destruct (remove_all_registry by_uuid ids (Machines.get_all_machines (w_machines w)) w Hok) as (Hr & by' & [Hb _] & Hsub & Hno).
  { by split. }
  { intros a (id & Hid)%elem_of_iter_values. by rewrite (Hok id a Hid). }
  assert (by' = ∅) as ->.
  { apply map_empty. intros id. destruct (by' !! id) as [a|] eqn:E; [|done]. exfalso.
    eapply lookup_weaken in E as Ea; [|exact Hsub]. apply Hok in Ea as Hid.
    rewrite (Hno a id) in E; [done| |done]. apply elem_of_iter_values. by exists id. }
  fold remove_all_machines in *.
  assert (remove_all_machines w = (Ok tt, (remove_all_machines w).2)) as E.
  { change (remove_all_machines w) with (for_each (Machines.get_all_machines (w_machines w))
      (λ a, m ← machine_at a; remove_machine (mc_id m)) w). rewrite <-Hr. by destruct (for_each _ _ w). }
  change (for_each _ _ w) with (remove_all_machines w) in Hb.
  unfold shutdown. rewrite bind_run, E. revert Hb. clear. generalize (remove_all_machines w).2 as w1. intros w1 Hb.
  rewrite bind_run. unfold attempt. destruct (clear_busy w1) as [res w2] eqn:Ec. cbn [fst snd].
  split; [done|]. split.
  - rewrite <-Hb. f_equal. change w2 with (res, w2).2. rewrite <-Ec.
    assert (preserves (λ w, w_machines w = w_machines w1) clear_busy) as Hp; [|by apply Hp].
    unfold clear_busy. apply preserves_bind; [|intros _]; intros w3 Hw; unfold db, zoom;
      by match goal with |- context [let '(_, _) := ?x in _] => destruct x end.
  - intros Hf. unfold clear_busy in Ec. rewrite bind_run in Ec. unfold get in Ec.
    rewrite db_query_ok in Ec by done. unfold db, zoom, Db.clear_busy, conn_update, conn_exec in Ec.
    rewrite Hf in Ec. cbn in Ec. injection Ec as _ <-. cbn. intros s (s0 & -> & _)%list_elem_of_fmap.
    destruct (s_busy s0 =? 0) eqn:Eb; cbn; lia.
Qed.
End Startup.
