(* ===== verification/Service.v ===== *)
(** * Service: what the network and the service manager see
    ([Server::run] and [match_for_io_error] of [queue-runner/src/server/grpc.rs],
    [Server::run] of [server/http.rs], the servers in [main.rs],
    [publish_builds_to_sd_notify] of [builder/src/state.rs])

    Binding a socket, the acceptance of a connection and the parts of the gRPC
    library that can refuse a configuration are the class [NetEnv]. *)

From Stdlib Require Import Ascii String.
From S2P Require Import NarInfo CacheCfg Stream BinaryCache.
From S2P Require Import Prelude Floats RustStr SockAddr Nix Db Support Jobset Graph Result Machine Queue.
From S2P Require Import Config Uploader FodChecker State Dispatch Io Http Metrics Grpc DispatchInv Startup Reload BuilderTasks.
Local Open Scope string_scope.
Local Open Scope list_scope.
Local Open Scope Z_scope.

(** ** Which errors mean that the builder is gone *)

Inductive IoKind := BrokenPipe | OtherKind (kind : string).
#[export] Instance IoKind_eq_dec : EqDecision IoKind.
Proof. solve_decision. Defined.

(** An error and its sources, outermost first. *)
Inductive ErrorNode :=
| IoNode (kind : IoKind)
| H2Node (io : option IoKind)
| OtherNode.

Fixpoint match_for_io_error (err : list ErrorNode) : option IoKind :=
  match err with
  | [] => None
  | IoNode kind :: _ => Some kind
  | H2Node (Some kind) :: _ => Some kind
  | _ :: source => match_for_io_error source
  end.

(** The arm of the tunnel for an error of the incoming stream; [sent]: whether
    the error could be passed on. *)
Definition incoming_error (err : list ErrorNode) (sent : bool) : TunnelEvent :=
  TIncomingError (bool_decide (match_for_io_error err = Some BrokenPipe)) sent.

Definition io_of (n : ErrorNode) : option IoKind :=
  match n with IoNode k => Some k | H2Node o => o | OtherNode => None end.

Lemma match_for_io_error_first err : match_for_io_error err = head (omap io_of err).
Proof. induction err as [|[k|[k|]|] err IH]; [done..|exact IH|exact IH]. Qed.

(** ** The servers *)

Class NetEnv : Type := {
  bind_tcp : SocketAddr → result Error unit;
  bind_unix : string → result Error unit;
  (** [listenfd]: the socket that was passed on, if there is one. *)
  take_unix_listener : result Error (option unit);
  set_nonblocking : result Error unit;
  tls_config : string * (string * string) → result Error unit;
  reflection_builds : result Error unit
}.

(** What the gRPC server serves with. *)
Record Served := mkServed {
  sv_tls : option (string * (string * string));
  sv_socket : BindSocket;
  sv_max_decoding_message_size : Z;
  sv_max_encoding_message_size : Z
}.

Section Servers.
Context `{FS : FsEnv} `{NV : NetEnv}.

(** Up to the point where requests are served. *)
Definition grpc_run (cli : Cli) : result Error Served :=
  tls ← (if mtls_enabled cli then
           mtls ← get_mtls cli;
           tls_config mtls;;
           Ok (Some mtls)
         else Ok None);
  reflection_builds;;
  match cl_grpc_bind cli with
  | Tcp s => bind_tcp s
  | Unix p => bind_unix p
  | ListenFd =>
      listener ← take_unix_listener;
      ok_or listener (Anyhow "No listenfd found in env");;
      set_nonblocking
  end;;
  Ok (mkServed tls (cl_grpc_bind cli) (50 * 1024 * 1024) (50 * 1024 * 1024)).

(** The HTTP server answers the connections it accepts, each in a task of its
    own, until one cannot be accepted; [None] while it goes on. *)
Fixpoint http_loop (accepted : list (result Error unit)) (served : nat) : option (result Error unit) * nat :=
  match accepted with
  | [] => (None, served)
  | Ok _ :: rest => http_loop rest (S served)
  | Err e :: _ => (Some (Err e), served)
  end.
Definition http_run (addr : SocketAddr) (accepted : list (result Error unit)) : option (result Error unit) * nat :=
  match bind_tcp addr with
  | Err e => (Some (Err e), 0%nat)
  | Ok _ => http_loop accepted 0
  end.

(** [join(srv1, srv2)], which waits for both. *)
Definition join_servers (srv1 srv2 : option (result Error unit)) : option (result Error unit) :=
  match srv1, srv2 with
  | Some (Ok _), Some (Ok _) => Some (Ok tt)
  | Some (Ok _), Some (Err _) => Some (Err (Anyhow "hyper error while awaiting handle"))
  | Some (Err _), Some (Ok _) => Some (Err (Anyhow "tonic error while awaiting handle"))
  | Some (Err _), Some (Err _) => Some (Err (Anyhow "tonic and hyper error while awaiting handle"))
  | _, _ => None
  end.

(** The last [select!] of [main]: what ends it. *)
Inductive Ending := BySignal | ByServers (r : result Error unit).
Definition main_ends (signal : bool) (srv1 srv2 : option (result Error unit)) : option Ending :=
  if signal then Some BySignal else ByServers <$> join_servers srv1 srv2.

(** *** With TLS or not at all *)

Lemma get_mtls_files cli mtls : get_mtls cli = Ok mtls →
  ∃ cert key ca, cl_server_cert_path cli = Some cert ∧ cl_server_key_path cli = Some key ∧ cl_client_ca_cert_path cli = Some ca ∧
    fs_read_to_string ca = Some mtls.1 ∧ fs_read_to_string cert = Some mtls.2.1 ∧ fs_read_to_string key = Some mtls.2.2.
Proof.
  unfold get_mtls.
  intros (cert & Hc & (key & Hk & (ca & Ha & (a & H1 & (b & H2 & (c & H3 & [= <-])%bind_Ok_inv)%bind_Ok_inv)%bind_Ok_inv)%bind_Ok_inv)%bind_Ok_inv)%bind_Ok_inv.
  exists cert, key, ca. by apply ok_or_Ok in Hc, Hk, Ha, H1, H2, H3.
Qed.
End Servers.

(** ** The status of a builder *)

Section Status.
Context `{HI : HashIter}.

Definition publish_builds_to_sd_notify (t : Tasks) : list NotifyState :=
  let active := (λ b, StorePath.base_name (bf_drv_path b)) <$> iter_values (ta_active_builds t) in
  [Status (if decide (active = []) then "Building 0 drvs"
           else "Building " +:+ show_Z (Z.of_nat (length active)) +:+ " drvs: " +:+ String.concat ", " active);
   Ready].
End Status.

Section Claims.
Context `{HI : HashIter} `{FE : FloatEnv} `{TL : TimeLib} `{NE : NixEnv} `{DE : DbEnv} `{SE : StateEnv}
  `{UL : UuidLib} `{UR : UrlLib} `{FS : FsEnv} `{EL : EnvLib} `{PL : Metrics.PromLib} `{ST : StartEnv} `{NV : NetEnv}.

(** A queue runner for which any part of TLS was configured does not talk in
    the clear: if it gets to serve at all, it serves with the certificate, the
    key and the authority of the files that were named. *)
Theorem tls_or_nothing cli locked services w w' sv :
  main cli locked w = (Ok (Serving services), w') → grpc_run cli = Ok sv →
  is_Some (cl_server_cert_path cli) ∨ is_Some (cl_server_key_path cli) ∨ is_Some (cl_client_ca_cert_path cli) →
  ∃ mtls cert key ca, sv_tls sv = Some mtls ∧
    cl_server_cert_path cli = Some cert ∧ cl_server_key_path cli = Some key ∧ cl_client_ca_cert_path cli = Some ca ∧
    fs_read_to_string ca = Some mtls.1 ∧ fs_read_to_string cert = Some mtls.2.1 ∧ fs_read_to_string key = Some mtls.2.2.
Proof.
  intros Hm Hg Hany.
  assert (mtls_configured_correctly cli = true) as Hc.
  { revert Hm. unfold main. destruct (cl_status cli); [by intros (? & ? & _ & [=])%bind_Ok|]. destruct (negb locked); [done|].
    intros (? & w1 & _ & H)%bind_Ok. by destruct (mtls_configured_correctly cli). }
  assert (mtls_enabled cli = true) as He.
  { revert Hc. unfold mtls_configured_correctly. destruct (mtls_enabled cli); [done|]. cbn [orb]. unfold is_some.
    destruct (cl_server_cert_path cli), (cl_server_key_path cli), (cl_client_ca_cert_path cli); try done. by destruct Hany as [[]|[[]|[]]]. }
  revert Hg. unfold grpc_run. rewrite He.
  intros (tls & (mtls & Hmt & (? & _ & [= <-])%bind_Ok_inv)%bind_Ok_inv & H)%bind_Ok_inv.
  apply bind_Ok_inv in H as (? & _ & (? & _ & [= <-])%bind_Ok_inv).
  destruct (get_mtls_files cli mtls Hmt) as (cert & key & ca & Hf). by exists mtls, cert, key, ca.
Qed.

(** A builder whose pipe is broken is unregistered, however deep the error is
    buried; any other error of its stream is only passed on. *)
Theorem broken_pipe_unregisters machine_id err sent w :
  sent = true →
  tunnel_event machine_id (incoming_error err sent) w =
    if decide (head (omap io_of err) = Some BrokenPipe) then (remove_machine machine_id;; mret false) w else (Ok true, w).
Proof.
  intros ->. unfold incoming_error. rewrite match_for_io_error_first. cbn [tunnel_event].
  case_decide as H; [by rewrite bool_decide_eq_true_2|by rewrite bool_decide_eq_false_2].
Qed.

(** When one of the two servers ends, the queue runner goes on without it: it
    ends only by a signal, or when the other one has ended too. *)
Theorem lone_server_keeps_running srv1 srv2 :
  (srv1 = None ∨ srv2 = None) ↔ main_ends false srv1 srv2 = None.
Proof. destruct srv1 as [[]|], srv2 as [[]|]; cbn; naive_solver. Qed.

(** One connection that cannot be accepted ends the HTTP server, however many
    would follow. *)
Theorem failed_accept_ends_http addr e before after :
  bind_tcp addr = Ok tt →
  http_run addr ((Ok <$> before) ++ Err e :: after) = (Some (Err e), length before) ∧
  main_ends false None (http_run addr ((Ok <$> before) ++ Err e :: after)).1 = None.
Proof.
  intros Hb. split; [|by destruct (http_run _ _) as [[[]|] n]]. unfold http_run. rewrite Hb.
  assert (∀ n, http_loop ((Ok <$> before) ++ Err e :: after) n = (Some (Err e), n + length before)%nat) as H; [|apply H].
  induction before as [|x before IH]; intros n; cbn; [by rewrite Nat.add_0_r|]. rewrite IH. f_equal. lia.
Qed.

(** The service manager is told of every active build, once. *)
Theorem published_status_is_complete (t : Tasks) : ta_active_builds t ≠ ∅ →
  ∃ names, publish_builds_to_sd_notify t =
    [Status ("Building " +:+ show_Z (Z.of_nat (size (ta_active_builds t))) +:+ " drvs: " +:+ String.concat ", " names); Ready] ∧
    names ≡ₚ (λ kb, StorePath.base_name (bf_drv_path kb.2)) <$> map_to_list (ta_active_builds t).
Proof.
  intros Hne. set (names := (λ b, StorePath.base_name (bf_drv_path b)) <$> iter_values (ta_active_builds t)).
  assert (names ≡ₚ (λ kb, StorePath.base_name (bf_drv_path kb.2)) <$> map_to_list (ta_active_builds t)) as Hp.
  { unfold names, iter_values. rewrite <-list_fmap_compose, (iter_perm (ta_active_builds t)). done. }
  exists names. split; [|exact Hp]. unfold publish_builds_to_sd_notify. fold names.
  assert (length names = size (ta_active_builds t)) as Hl by (rewrite Hp, length_fmap; apply length_map_to_list).
  rewrite Hl, decide_False; [done|]. intros E. rewrite E in Hl. apply Hne, map_size_empty_inv. done.
Qed.
End Claims.
