(* ===== verification/Example.v ===== *)
(** * Example: a small installation

    A derivation [app.drv] with one input [lib.drv], builds of the database
    that ask for them, one builder, and an environment that answers simply:
    the ground on which the general theorems are applied. *)

From Stdlib Require Import Ascii String.
From S2P Require Import NarInfo CacheCfg Stream BinaryCache.
From S2P Require Import Prelude Floats RustStr Nix Db Support Jobset Graph Result Machine Queue.
From S2P Require Import Config Uploader FodChecker State Reclaim Intake Dispatch Uploads Loops Grpc Runner.
Local Open Scope string_scope.
Local Open Scope list_scope.
Local Open Scope Z_scope.

(** ** The environment *)

#[export] Instance example_uuids : UuidLib := {|
  uuid_parse := λ s, ok (parse_u 64 s);
  uuid_to_string := show_Z |}.
#[export] Instance example_state_env : StateEnv := {|
  new_v4 := λ n, 100 + Z.of_nat n;
  state_file_written := λ _, true;
  read_key_file := λ _, Ok "key";
  build_service := λ _, Ok tt;
  bucket_of := λ _, mkBucket ∅ 0;
  reconfigure_pool := λ _, Ok tt |}.
#[export] Instance example_time : TimeLib := {|
  ts_valid := λ t, bool_decide (0 ≤ t);
  ts_valid_epoch := eq_refl;
  total_ms := λ a b, Some (f64_of_Z (Z.quot (b - a) (10 ^ 6)));
  total_s := λ a b, Some (f64_of_Z (Z.quot (b - a) (10 ^ 9))) |}.
#[export] Instance example_floats : FloatEnv := x86_env.
#[export] Instance example_files : FsEnv := example_fs.
#[export] Instance example_variables : EnvLib := example_env.

#[export] Instance cache_sign : SignLib := {|
  convert_sha256_nix32 := λ h, Some h;
  sign_string := λ k fp, k +:+ ":" +:+ fp |}.
#[export] Instance cache_sha : Sha256Lib := {| sha256_digest := λ _, "digest" |}.

(** An environment in which the requests with the given numbers fail. *)
Definition cache_env (fails : nat → bool) : CacheEnv := {|
  object_path := λ k, k;
  s3_error := λ n, if fails n then Some "refused" else None;
  sign_url := λ _ k _, Ok k;
  BinaryCache.encode := λ _ _ _ r, r;
  cache_keeps := λ _ _, true;
  elapsed_ms := λ _, 1;
  nar_from_path := λ _ _, (["nar"; "bytes"], None);
  list_nar_deep := λ _ _, Ok "listing";
  static_output_hashes := λ _ _, Ok [];
  FfiRealisation := unit;
  query_raw_realisation := λ _ _, Err "none";
  realisation_id := λ _, mkDrvOutput "" "";
  realisation_json := λ _, "";
  realisation_sign := λ _ r, Ok r;
  realisation_clear_signatures := λ r, r;
  path_exists := λ _ _, false;
  read_dir := λ _ _, Err "none";
  json_link := λ _, Ok "link" |}.
#[export] Instance good_env : CacheEnv := cache_env (λ _, false).
#[export] Instance example_urls : UrlLib := {| url_parse := λ s, Ok (mkUrl "s3" s []) |}.

(** Rows come in the order of the table; ids count on. *)
Definition next_id (t : list BuildRow) : Z := 1 + foldr Z.max 0 (map r_id t).

Lemma next_id_fresh t : next_id t ∉ map r_id t.
Proof.
  assert (∀ l x, x ∈ l → x ≤ foldr Z.max 0 l) as H.
  { induction l as [|y l IH]; intros x; cbn; [by intros ?%not_elem_of_nil|].
    intros [->|Hx]%elem_of_cons; [lia|]. specialize (IH x Hx). lia. }
  intros Hin%H. unfold next_id in Hin. lia.
Qed.

Definition key_taken (t : list StepRow) (b n : Z) : bool :=
  bool_decide (Exists (λ r, s_build r = b ∧ s_stepnr r = n) t).

Lemma key_taken_spec t b n : key_taken t b n = true ↔ Exists (λ r, s_build r = b ∧ s_stepnr r = n) t.
Proof. apply bool_decide_eq_true. Qed.

#[export] Instance example_db : DbEnv := {|
  row_order := λ A l, l;
  row_order_perm := λ A l, Permutation_refl l;
  fresh_build_id := next_id;
  fresh_build_id_fresh := next_id_fresh;
  step_conflict := key_taken;
  step_conflict_key := key_taken_spec;
  failedpath_conflict := λ l p, bool_decide (p ∈ l) |}.

(** ** The store *)

Definition hash : string := "aaaaaaaaaaaaaaaaaaaaaaaaaaaaaaaa-".
Definition lib_drv : StorePath := StorePath.mk (hash +:+ "lib.drv").
Definition app_drv : StorePath := StorePath.mk (hash +:+ "app.drv").
Definition out_of (n : string) : Output := mkOutput "out" (Some (StorePath.mk (hash +:+ n))) None None.

Definition the_drv (p : StorePath) : option Derivation :=
  if decide (p = lib_drv) then Some (mkDerivation ∅ [] [out_of "lib"] p "x86_64-linux")
  else if decide (p = app_drv) then
    Some (mkDerivation ∅ ["/nix/store/" +:+ StorePath.base_name lib_drv] [out_of "app"] p "x86_64-linux")
  else None.

(** Derivations are there, outputs are not. *)
#[export] Instance example_nix : NixEnv := {|
  get_store_dir := "/nix/store";
  ffi_is_valid_path := λ _ p, ends_with ".drv" p;
  ffi_try_resolve_drv := λ _ _, None;
  ffi_compute_fs_closures := λ _ ps _ _ _ _, Ok ps;
  ffi_query_drv := λ _ p, Ok (the_drv p);
  ffi_ensure_path := λ _ _, false;
  ffi_query_path_info := λ _ _, None;
  ffi_compute_closure_size := λ _ _, 0 |}.

(** ** The world *)

Definition build_row (id finished : Z) (drv : StorePath) : BuildRow :=
  mkBuildRow id finished 0 1 "job" "app" (print_store_path drv) "x86_64-linux" (Some 60) (Some 600) 0 0
    100 0 0 None None None None None None None None.

(** Build 9 is finished; 1 and 2 ask for the same derivation, 3 for its input. *)
Definition example_tables : Tables :=
  mkTables [build_row 9 1 lib_drv; build_row 1 0 app_drv; build_row 2 0 app_drv; build_row 3 0 lib_drv]
    [mkJobsetRow 1 "project" "jobset" 100] [] [] [] [] [] [] ∅ [].

Definition start : World :=
  mkWorld (mkHeap ∅ ∅ ∅ 1%positive (λ n, Z.of_nat n * 10 ^ 9) 0) ∅ ∅ Queues.new Machines.new
    (mkDatabase example_tables []) (example_app []) [] "/log" None
    (Uploader.new Z.of_nat None) false 0.

Definition example_join : JoinMessage :=
  mkJoinMessage "7" ["x86_64-linux"] "builder" 8 (f32_of_Z 4000) (f32_of_Z 1) 4 (f32_of_Z 10)
    (f32_of_Z 10) (f32_of_Z 8) (f32_of_Z 75) (f32_of_Z 80) None 0 [] [] false [] true "2.31".
Definition example_ping : PingMessage :=
  mkPingMessage "7" (f32_of_Z 0) (f32_of_Z 0) (f32_of_Z 0) 0 None (f64_of_Z 50) (f64_of_Z 50) 0 0 0.

(** The builds are read and the builder joins. *)
Definition read : World :=
  run [EvMonitor 10 NClosed; EvOpenTunnel (FMessage (Some (BJoin example_join)));
       EvTunnel 7 (TIncoming (Some (BPing example_ping)))] start.
(** The dispatcher has given the input to the builder. *)
Definition dispatched : World := run [EvDispatch false] read.
