(* ===== verification/Properties.v ===== *)
(** * Properties: what the components promise

    The main theorems on the graph, the queues, the database and the
    conversions, each applied to the small installation of [Example]. The
    theorems on whole handlers are next to their handlers. *)

From Stdlib Require Import Ascii String.
From S2P Require Import Prelude Floats RustStr Nix Db Support Jobset Graph Dependents Priorities.
From S2P Require Import GraphInv Result Machine MachineInv Queue QueueOrder QueueInv QueueProcess.
From S2P Require Import Config Uploader FodChecker State StateInv FailJob SucceedJob Reclaim Intake.
From S2P Require Import IntakeInv Dispatch Uploads Loops Grpc DispatchInv Runner Example.
Local Open Scope string_scope.
Local Open Scope list_scope.
Local Open Scope Z_scope.

(** A closed decidable statement, by running its decision procedure. *)
Ltac by_evaluation :=
  match goal with |- ?P => refine (bool_decide_eq_true_1 P _); vm_compute; reflexivity end.

(** ** Deciding that a graph is well formed *)

Definition step_wfb (h : Heap) (x : addr) (s : Step) : bool :=
  (st_deps_len s =? Z.of_nat (size (st_deps s))) && (st_rdeps_len s =? Z.of_nat (length (st_rdeps s)))
  && forallb (λ '(d, y), match hp_steps h !! y with
                         | Some sy => bool_decide (st_drv_path sy = d) && bool_decide (x ∈ st_rdeps sy)
                         | None => false
                         end) (map_to_list (st_deps s))
  && (negb (st_runnable s) || (bool_decide (st_deps s = ∅) && st_created s))
  && bool_decide (x < hp_next h)%positive.

Definition graph_wfb (h : Heap) : bool :=
  forallb (λ '(x, s), step_wfb h x s) (map_to_list (hp_steps h)).

Lemma graph_wfb_sound h : graph_wfb h = true → graph_wf h.
Proof.
  unfold graph_wfb. rewrite forallb_forall. intros H x s Hx.
  assert (step_wfb h x s = true) as Hs.
  { apply (H (x, s)), list_elem_of_In. by apply elem_of_map_to_list. }
  unfold step_wfb in Hs. rewrite !andb_true_iff, orb_true_iff, andb_true_iff, forallb_forall in Hs.
  destruct Hs as ((((H1 & H2) & H3) & H4) & H5). split.
  - by apply Z.eqb_eq.
  - by apply Z.eqb_eq.
  - intros d y Hd. specialize (H3 (d, y)). cbn in H3.
    destruct (hp_steps h !! y) as [sy|]; [|by discriminate H3; apply list_elem_of_In, elem_of_map_to_list].
    exists sy. split; [done|]. rewrite andb_true_iff, !bool_decide_eq_true in H3.
    apply H3, list_elem_of_In. by apply elem_of_map_to_list.
  - intros Hr. rewrite Hr in H4. destruct H4 as [|[?%bool_decide_eq_true ?]]; done.
  - by apply bool_decide_eq_true in H5.
Qed.

Definition drv_injb (h : Heap) : bool :=
  bool_decide (NoDup (st_drv_path <$> (map_to_list (hp_steps h)).*2)).

Lemma drv_injb_sound h : drv_injb h = true → drv_inj h.
Proof.
  unfold drv_injb. rewrite bool_decide_eq_true, <-list_fmap_compose. intros H x y sx sy Hx Hy E.
  apply elem_of_map_to_list in Hx as [i Hi]%list_elem_of_lookup.
  apply elem_of_map_to_list in Hy as [j Hj]%list_elem_of_lookup.
  assert (i = j) as ->; [|congruence].
  eapply (NoDup_lookup _ i j); [exact H|rewrite list_lookup_fmap, Hi; done|].
  rewrite list_lookup_fmap, Hj. cbn. by rewrite E.
Qed.

Lemma read_graph_wf : graph_wf (w_heap read).
Proof. apply graph_wfb_sound. vm_compute. reflexivity. Qed.
Lemma read_drv_inj : drv_inj (w_heap read).
Proof. apply drv_injb_sound. vm_compute. reflexivity. Qed.

(** The steps of the installation after the builds are read. *)
Definition lib_step : Step := default (Step.new lib_drv) (hp_steps (w_heap read) !! 5%positive).
Definition app_step : Step := default (Step.new app_drv) (hp_steps (w_heap read) !! 4%positive).

Lemma lib_lookup : hp_steps (w_heap read) !! 5%positive = Some lib_step.
Proof. vm_compute. reflexivity. Qed.
Lemma app_lookup : hp_steps (w_heap read) !! 4%positive = Some app_step.
Proof. vm_compute. reflexivity. Qed.

(** ** The graph *)

(** C11: [get_dependents] ends and finds exactly the steps that wait for the
    given one, directly or through others, and of their builds that are not
    finished in the database one for every derivation path. *)
Theorem dependents_are_exact (h : Heap) (a : addr) (s : Step)
    (Hinj : drv_inj h) (Ha : hp_steps h !! a = Some s) :
  ∃ bs ss, Step.dependents h a = Some (bs, ss) ∧ dependents_ok h a bs ss.
Proof. by eapply dependents_correct. Qed.

Lemma dependents_are_exact_witness :
  ∃ bs ss, Step.dependents (w_heap read) 5 = Some (bs, ss) ∧ dependents_ok (w_heap read) 5 bs ss.
Proof. exact (dependents_are_exact (w_heap read) 5 lib_step read_drv_inj lib_lookup). Defined.

(** C12: [propagate_priorities] ends and raises the priorities, lowers the
    build id and adds the jobset of exactly the steps the top-level step
    depends on, directly or through others, and of no other step. *)
Theorem propagate_priorities_exact `{HI : HashIter} (h : Heap) (b : Build) (top : addr) (s : Step)
    (Hwf : graph_wf h) (Hinj : drv_inj h) (Htop : b_toplevel b = Some top) (Hs : hp_steps h !! top = Some s) :
  ∃ h', Build.propagate_priorities b h = Some h' ∧ same_frame h h' ∧
    ∀ x sx, hp_steps h !! x = Some sx →
      (rtc (dep_edge h) top x → hp_steps h' !! x = Some (Build.bump b sx)) ∧
      (¬ rtc (dep_edge h) top x → hp_steps h' !! x = Some sx).
Proof.
  destruct (propagate_priorities_correct h b top (graph_wf_deps_wf h Hwf) Hinj Htop) as (V & HV & Hx); [by eexists|].
  exists (visited_heap h b V). split; [done|]. split; [by split|]. intros x sx Hsx.
  specialize (Hx x ltac:(by eexists)). unfold visited_heap. cbn [hp_steps upd set_hp_steps].
  rewrite visited_lookup, Hsx. cbn. split; intros H.
  - rewrite decide_True by (by apply Hx). done.
  - rewrite decide_False by (by rewrite Hx). done.
Qed.

Definition example_build : Build := default
  (mkBuild 0 app_drv ∅ 0 "" 0 0 0 0 0 None ("", "") false) (hp_builds (w_heap read) !! 1%positive).

Lemma propagate_priorities_exact_witness :
  ∃ h', Build.propagate_priorities example_build (w_heap read) = Some h'.
Proof.
  destruct (propagate_priorities_exact (w_heap read) example_build 4 app_step read_graph_wf read_drv_inj
    ltac:(vm_compute; reflexivity) app_lookup) as (h' & H & _).
  exists h'. exact H.
Defined.

(** [Steps::create] answers with the step of the derivation path: the live
    one if there is one - it reports a new step exactly when there is none -,
    registered under its path, with the referring build and the referring step
    recorded; the graph stays well formed and the registry complete. *)
Theorem create_finds_or_makes (d : StorePath) (rb rs : option addr) (steps : Steps) (h : Heap)
    (Hwf : graph_wf h) (Hreg : registered h steps) :
  let '((a, is_new), (steps', h')) := Steps.create d rb rs steps h in
  graph_wf h' ∧ registered h' steps' ∧
  (is_new = true ↔ ∀ x s, hp_steps h !! x = Some s → st_drv_path s ≠ d) ∧
  ∃ s, hp_steps h' !! a = Some s ∧ st_drv_path s = d ∧
    (∀ r, rs = Some r → r ∈ st_rdeps s) ∧ (∀ b, rb = Some b → b ∈ st_builds s).
Proof. destruct (Steps.create d rb rs steps h) as [[a n] [steps' h']] eqn:E. by eapply create_spec. Qed.

Lemma registered_empty h : hp_steps h = ∅ → registered h ∅.
Proof.
  intros E. split_and!; [intros a s|intros d a s|intros d a]; rewrite ?E, lookup_empty; done.
Qed.

Lemma create_finds_or_makes_witness :
  let '((a, is_new), (_, h')) := Steps.create lib_drv (Some 3%positive) None ∅ (w_heap start) in
  is_new = true ∧ graph_wf h'.
Proof.
  assert (graph_wf (w_heap start)) as Hwf by (apply graph_wfb_sound; vm_compute; reflexivity).
  pose proof (create_finds_or_makes lib_drv (Some 3%positive) None ∅ (w_heap start) Hwf
    (registered_empty (w_heap start) eq_refl)) as H.
  destruct (Steps.create lib_drv (Some 3%positive) None ∅ (w_heap start)) as [[a n] [steps' h']].
  destruct H as (Hwf' & _ & Hn & _). split; [|exact Hwf']. apply Hn. intros x s Hx. discriminate Hx.
Defined.

(** C10: When a step is finished, [make_rdeps_runnable] takes it out of the
    dependencies of exactly the live steps that wait for it; such a step becomes
    runnable if it was created and waits for nothing else, keeping the time at
    which it became so; no other step changes, and the graph stays well formed. *)
Theorem make_rdeps_runnable_releases (a : addr) (s : Step) (h : Heap)
    (Hwf : graph_wf h) (Ha : hp_steps h !! a = Some s) (Hf : st_finished s = true) (Hself : a ∉ st_rdeps s) :
  let h' := Step.make_rdeps_runnable a h in
  graph_wf h' ∧ same_frame h h' ∧
  (∀ x, x ≠ a → x ∉ st_rdeps s → hp_steps h' !! x = hp_steps h !! x) ∧
  (∀ x sx, x ∈ st_rdeps s → hp_steps h !! x = Some sx →
     ∃ sx', hp_steps h' !! x = Some sx' ∧ released (st_drv_path s) sx sx').
Proof.
  destruct (make_rdeps_runnable_lookup a s h Ha Hf Hself) as (H1 & _ & H3 & H4 & _).
  split_and!; [|done..]. apply make_rdeps_runnable_wf; [|done]. intros s' Hs'. by simplify_eq.
Qed.

(** The input has been built. *)
Definition lib_finished : Heap := upd_step 5 (Step.set_finished true) (w_heap read).

Lemma make_rdeps_runnable_releases_witness :
  (st_runnable <$> hp_steps (Step.make_rdeps_runnable 5 lib_finished) !! 4%positive) = Some true.
Proof.
  destruct (make_rdeps_runnable_releases 5 (Step.set_finished true lib_step) lib_finished) as (_ & _ & _ & H).
  - apply graph_wfb_sound. vm_compute. reflexivity.
  - vm_compute. reflexivity.
  - reflexivity.
  - by_evaluation.
  - destruct (H 4%positive app_step) as (sx' & -> & Hrel).
    + by_evaluation.
    + vm_compute. reflexivity.
    + destruct Hrel as (since & last & -> & _). vm_compute. reflexivity.
Defined.

(** ** The queues *)

(** C31: [sort_jobs] reorders the entries of the queue, keeps the order of equal
    entries, and leaves them sorted by the chosen comparison; this comparison
    puts an entry first when it has the higher global priority, then the lower
    share used, then (only with reverse dependencies) more steps waiting for
    it, then the higher local priority, then the smaller build id. *)
Theorem sort_jobs_orders `{HI : HashIter} `{FE : FloatEnv} (h : Heap) (sort_fn : StepSortFn) (system : System)
    (iq : InnerQueues) (q : BuildQueue) (Hq : iq_inner iq !! system = Some q) :
  (let iq' := Queues.sort_jobs h sort_fn system iq in
   ∃ q', iq_inner iq' !! system = Some q' ∧ q_jobs q' ≡ₚ q_jobs q ∧
     StronglySorted (cmp_le (Queues.job_cmp h sort_fn iq')) (q_jobs q') ∧
     (∀ z, filter (λ y, Queues.job_cmp h sort_fn iq' z y = Eq) (q_jobs q') =
           filter (λ y, Queues.job_cmp h sort_fn iq' z y = Eq) (q_jobs q))) ∧
  (∀ x y, cmp_fn sort_fn x y = Lt ↔
     let share := total_cmp f64_format (k_lowest_share_used x) (k_lowest_share_used y) in
     let rest := k_highest_local_priority y < k_highest_local_priority x ∨
       (k_highest_local_priority x = k_highest_local_priority y ∧ k_lowest_build_id x < k_lowest_build_id y) in
     k_highest_global_priority y < k_highest_global_priority x ∨
     (k_highest_global_priority x = k_highest_global_priority y ∧
      (share = Lt ∨ (share = Eq ∧
        match sort_fn with
        | Legacy => rest
        | WithRdeps => k_rdeps_len y < k_rdeps_len x ∨ (k_rdeps_len x = k_rdeps_len y ∧ rest)
        end)))).
Proof.
  split; [by apply sort_jobs_spec|]. intros x y.
  destruct sort_fn; [apply legacy_before|apply with_rdeps_before].
Qed.

(** The queue of the builder's system. *)
Definition example_queue : BuildQueue :=
  default BuildQueue.new (iq_inner (w_queues dispatched) !! "x86_64-linux").

Lemma sort_jobs_orders_witness :
  ∃ q', iq_inner (Queues.sort_jobs (w_heap dispatched) Legacy "x86_64-linux" (w_queues dispatched))
          !! "x86_64-linux" = Some q' ∧ q_jobs q' = [1%positive].
Proof.
  assert (iq_inner (w_queues dispatched) !! "x86_64-linux" = Some example_queue) as E
    by (vm_compute; reflexivity).
  destruct (sort_jobs_orders (w_heap dispatched) Legacy "x86_64-linux" (w_queues dispatched) example_queue E)
    as [(q' & Hq' & Hp & _) _].
  exists q'. split; [exact Hq'|].
  assert (q_jobs example_queue = [1%positive]) as Hone by (vm_compute; reflexivity).
  rewrite Hone in Hp. apply Permutation_singleton_r in Hp. exact Hp.
Defined.


(** The entry of the input, not scheduled yet. *)
Definition lib_info : StepInfo := StepInfo_new 0 (w_heap read) 5 lib_step.


(** [insert_new_jobs] leaves an entry for every unfinished step it was
    given, keeps the entries there were, and puts the new ones into the queue
    of the system, which it leaves sorted. *)
Theorem insert_new_jobs_complete `{HI : HashIter} `{FE : FloatEnv} (h : Heap) (system : System)
    (jobs : list StepInfo) (now : Timestamp) (sort_fn : StepSortFn) (iq : InnerQueues)
    (Hwf : queues_wf h iq) (Hheld : iq_held iq = [])
    (Hnew : Forall (λ j, si_already_scheduled j = false) jobs) :
  inserted h system jobs sort_fn iq (Queues.insert_new_jobs h system jobs now sort_fn iq).
Proof. by apply insert_new_jobs_inserted. Qed.

Lemma insert_new_jobs_complete_witness :
  is_Some (iq_jobs (Queues.insert_new_jobs (w_heap read) "x86_64-linux" [lib_info] 0 Legacy Queues.new) !! lib_drv).
Proof.
  destruct (insert_new_jobs_complete (w_heap read) "x86_64-linux" [lib_info] 0 Legacy Queues.new) as [_ _ H _ _].
  - apply new_wf.
  - reflexivity.
  - repeat constructor.
  - exact (H lib_info lib_step ltac:(left) lib_lookup ltac:(vm_compute; reflexivity)).
Defined.



(** [p], with an error for every job that is not eligible at [t]. *)
Definition only_eligible `{TL : TimeLib} {W E} `{HQ : !Queues.HasQueues W} (t : Timestamp) (e : E)
    (p : Queues.JobConstraint → M W E Queues.RealiseStepResult) (c : Queues.JobConstraint)
  : M W E Queues.RealiseStepResult :=
  λ w, if Queues.eligible t w (Queues.jc_job c) then p c w else (Err e, w).

(** The dispatcher only tries to realise jobs that are alive, not scheduled
    already, not finished and past the time before which they must not be
    retried: a processor that refused all other jobs would make no difference. *)
Theorem process_only_eligible `{HI : HashIter} `{FE : FloatEnv} `{TL : TimeLib} `{NE : NixEnv}
    `{DE : DbEnv} `{SE : StateEnv} (w : World) (e : Error) :
  Queues.process clock realise_drv_on_valid_machine w =
  Queues.process clock
    (only_eligible (hp_clock (w_heap w) (hp_reads (w_heap w))) e realise_drv_on_valid_machine) w.
Proof.
  eapply process_ext; [|reflexivity]. intros a system w1 He. unfold only_eligible. cbn. by rewrite He.
Qed.

(** ** The database *)

(** A transaction that fails - a statement is refused, the connection is
    lost, a number does not fit - leaves no trace in the tables. *)
Theorem failed_transaction_has_no_effect {A} (body : TxM A) (d : Database) (e : Error) (d' : Database)
    (Hrun : run_tx body d = (Err e, d')) : db_tables d' = db_tables d.
Proof. by eapply run_tx_Err. Qed.

(** The server refuses the second statement of marking a build. *)
Definition refused : Database := mkDatabase example_tables [false; false; true].

Lemma failed_transaction_has_no_effect_witness :
  db_tables (run_tx (notify_builds_added;; notify_builds_added) refused).2 = example_tables.
Proof.
  apply (failed_transaction_has_no_effect (notify_builds_added;; notify_builds_added) refused Sqlx).
  vm_compute. reflexivity.
Defined.

(** [create_build_step] never gives a step number twice: the pairs of build
    and step number of the table stay distinct, whatever is refused. *)
Theorem step_numbers_stay_unique `{DE : DbEnv} fuel start build drv system machine status err from outputs
    (d : Database) (Hkeys : steps_keyed (db_tables d)) :
  steps_keyed (db_tables
    (run_tx (create_build_step fuel start build drv system machine status err from outputs) d).2).
Proof.
  apply (run_tx_preserves steps_keyed (create_build_step fuel start build drv system machine status err
    from outputs)); [apply create_build_step_keyed|done].
Qed.

Lemma step_numbers_stay_unique_witness :
  steps_keyed (db_tables (run_tx (create_build_step 2 None 1 "/nix/store/x.drv" None "m" Failed None None
    [("out", None)]) (mkDatabase example_tables [])).2).
Proof. apply step_numbers_stay_unique. constructor. Defined.

(** A build marked as succeeded with data that fits reads back its
    products: the row is finished with the status, times and sizes given, and
    the products come back in order, each with its fields. *)
Theorem marked_build_reads_back `{HI : HashIter} `{DE : DbEnv} (d : MarkBuildSuccessData) (cached : bool)
    (st sp : Z) (t : Tables) (r : BuildRow)
    (Hopen : mb_finished_in_db d = false) (Hfits : fits d = true)
    (Hr : r ∈ t_builds t) (Hid : r_id r = mb_id d) (Hun : r_finished r = 0) :
  mark_succeeded_build d cached st sp (tx_ok t) = (Ok tt, tx_ok (marked d cached st sp t)) ∧
  get_build_products_for_build_id (mb_id d) (db_ok (marked d cached st sp t)) =
    (Ok (map stored_product (mb_products d)), db_ok (marked d cached st sp t)).
Proof. split; [by eapply mark_succeeded_build_run|apply marked_products]. Qed.

(** Build 1 with one product. *)
Definition example_data : MarkBuildSuccessData :=
  mkMarkBuildSuccessData 1 "job" "project" "jobset" false 0 false 10 20 None ∅
    [mkBuildProductModel "file" "iso" (Some 5) None (Some "/nix/store/x") "x.iso" None] [].

Lemma marked_build_reads_back_witness :
  get_build_products_for_build_id 1 (db_ok (marked example_data true 3 4 example_tables)) =
  (Ok (map stored_product (mb_products example_data)), db_ok (marked example_data true 3 4 example_tables)).
Proof.
  apply (marked_build_reads_back example_data true 3 4 example_tables (build_row 1 0 app_drv)).
  - reflexivity.
  - vm_compute. reflexivity.
  - right. left.
  - reflexivity.
  - reflexivity.
Defined.

(** ** Conversions *)

(** A path of the store survives being printed and parsed again, when the
    store directory has no final slash and the base name no leading one. *)
Theorem store_path_roundtrip `{NE : NixEnv} (p : StorePath)
    (Hdir : ends_with "/" get_store_dir = false) (Hbase : strip_prefix "/" (StorePath.base_name p) = None) :
  store_path_new (print_store_path p) = p.
Proof. by apply store_path_print_new. Qed.

Lemma store_path_roundtrip_witness : store_path_new (print_store_path lib_drv) = lib_drv.
Proof. apply store_path_roundtrip; vm_compute; reflexivity. Defined.

(** A build product written to the database reads back as itself, when it
    is a regular file exactly if it has a size, and the size fits. *)
Theorem build_product_roundtrip `{NE : NixEnv} (p : BuildProduct) (Hp : storable p) :
  product_from_db (product_to_db p) = p.
Proof. by apply product_roundtrip. Qed.

Definition example_product : BuildProduct :=
  mkBuildProduct (Some (StorePath.mk (hash +:+ "app"))) (Some "index.html") "doc" "manual" "manual" true
    None (Some 12).

Lemma build_product_roundtrip_witness : product_from_db (product_to_db example_product) = example_product.
Proof.
  apply build_product_roundtrip. split; [vm_compute; reflexivity|]. split; [|split].
  - intros sp H. injection H as <-. vm_compute. reflexivity.
  - vm_compute. reflexivity.
  - intros n H. injection H as <-. lia.
Defined.

(** The sizes of a result are the sums over its outputs with a path, as
    unsigned 64-bit numbers, and the outputs are those with a path, the last
    one of a name. *)
Theorem result_info_sums `{NE : NixEnv} (v : BuildResultInfo) :
  let os := omap with_path (bri_outputs v) in
  out_outputs (BuildOutput.from_result_info v) = foldl (λ m o, <[o.1.1 := store_path_new o.1.2]> m) ∅ os ∧
  out_closure_size (BuildOutput.from_result_info v) = u64_wrap (sum_list_Z ((λ o, o.2.1) <$> os)) ∧
  out_size (BuildOutput.from_result_info v) = u64_wrap (sum_list_Z ((λ o, o.2.2) <$> os)).
Proof.
  unfold BuildOutput.from_result_info. rewrite fold_add_output by done. rewrite !Z.add_0_l.
  by destruct (bri_nix_support v).
Qed.

(** A time stored in a pair of atomics reads back as itself, when the
    library can represent it. *)
Theorem datetime_roundtrip `{TL : TimeLib} (t : Timestamp) (Ht : ts_valid t = true) :
  AtomicDateTime.load (AtomicDateTime.new t) = t.
Proof. by apply datetime_load_new. Qed.

Lemma datetime_roundtrip_witness : AtomicDateTime.load (AtomicDateTime.new 1234567890123) = 1234567890123.
Proof. apply datetime_roundtrip. vm_compute. reflexivity. Defined.

(** [query_missing_outputs] returns exactly the outputs with a path that
    is not valid, when the store's answers do not change meanwhile. *)
Theorem missing_outputs_exact (valid : StorePath → bool) (q : nat) (os : list Output) (o : Output) :
  (∀ q p, is_valid_path q p = valid p) →
  o ∈ query_missing_outputs q os ↔ o ∈ os ∧ ∃ p, o_path o = Some p ∧ valid p = false.
Proof. apply query_missing_outputs_spec. Qed.

(** ** Jobsets *)

(** Pruning a jobset at [now] removes exactly the steps that started a
    scheduling window ago or earlier, and the seconds it has used are again
    the sum of the durations of the steps that are left. *)
Theorem prune_keeps_window (now : Z) (j : Jobset) (Hj : seconds_ok j) :
  js_steps (Jobset.prune_steps now j) = recent now (js_steps j) ∧ seconds_ok (Jobset.prune_steps now j).
Proof.
  split; [|by apply seconds_ok_prune]. rewrite prune_steps_eq; [done|]. rewrite Hj. by rewrite i64_wrap_idem.
Qed.

Definition example_jobset : Jobset :=
  Jobset.add_step 100000 30 (Jobset.add_step 10 20 (Jobset.new 1 "project" "jobset")).

Lemma prune_keeps_window_witness : js_seconds (Jobset.prune_steps 100000 example_jobset) = 30.
Proof.
  destruct (prune_keeps_window 100000 example_jobset) as [Hs Hok].
  - apply seconds_ok_add_step; [vm_compute; reflexivity|].
    apply seconds_ok_add_step; [vm_compute; reflexivity|apply seconds_ok_new].
  - unfold seconds_ok in Hok. rewrite Hok, Hs. vm_compute. reflexivity.
Defined.

(** Two steps that start in the same second share one entry of the window,
    which keeps the later duration, but both durations are added to the
    seconds used: these are then too high by the first duration, and stay so. *)
Theorem same_start_drifts (j : Jobset) (start d1 d2 : Z)
    (Hfree : js_steps j !! start = None) (Hj : seconds_ok j) :
  js_seconds (Jobset.add_step start d2 (Jobset.add_step start d1 j)) =
  i64_wrap (steps_sum (js_steps (Jobset.add_step start d2 (Jobset.add_step start d1 j))) + d1).
Proof. by apply add_step_same_start_drifts. Qed.

Lemma same_start_drifts_witness :
  js_seconds (Jobset.add_step 5 7 (Jobset.add_step 5 3 (Jobset.new 1 "p" "n"))) = 10.
Proof.
  rewrite (same_start_drifts (Jobset.new 1 "p" "n") 5 3 7); [vm_compute; reflexivity|vm_compute; reflexivity|].
  apply seconds_ok_new.
Defined.

(** In the registry every jobset is stored under its own name and has
    shares that fit into 32 bits, after any creation and any announced change,
    failing ones included. *)
Theorem jobset_registry_consistent `{DE : DbEnv} (now id : Z) (project name : string) (js : Jobsets) (d : Database)
    (Hjs : registry_ok js) :
  registry_ok (Jobsets.create now id project name (js, d)).2.1 ∧
  registry_ok (Jobsets.handle_change (js, d)).2.1.
Proof.
  split; [by apply (create_registry now id project name (js, d))|by apply (handle_change_registry (js, d))].
Qed.

Lemma jobset_registry_consistent_witness :
  registry_ok (Jobsets.create 0 1 "project" "jobset" (∅, mkDatabase example_tables [])).2.1.
Proof. apply jobset_registry_consistent. intros k j H. rewrite lookup_empty in H. discriminate H. Defined.

(** ** Configuration *)

(** When a reload changes how steps are sorted, the queues are sorted with
    the function of the old configuration: their order only becomes that of
    the new one with the next insertion into each queue. *)
Theorem reload_sorts_with_old_function `{HI : HashIter} `{FE : FloatEnv} `{SE : StateEnv}
    (new : PreparedApp) (w w' : World)
    (Hrun : reload_config_callback new w = (Ok tt, w'))
    (Hne : pa_step_sort_fn (w_config w) ≠ pa_step_sort_fn new) :
  w_queues w' = Queues.sort_queues (w_heap w) (pa_step_sort_fn (w_config w)) (w_queues w).
Proof. by eapply reload_queues. Qed.

(** The configuration of the installation with the other function. *)
Definition other_config : PreparedApp :=
  let c := example_app [] in
  mkPreparedApp (pa_hydra_data_dir c) (pa_hydra_log_dir c) (pa_lockfile c) (pa_db_url c)
    (pa_max_db_connections c) (pa_machine_sort_fn c) (pa_machine_free_fn c)
    (match pa_step_sort_fn c with Legacy => WithRdeps | WithRdeps => Legacy end)
    (pa_dispatch_trigger_timer c) (pa_queue_trigger_timer c) (pa_remote_store_addr c) (pa_use_substitutes c)
    (pa_roots_dir c) (pa_max_retries c) (pa_retry_interval c) (pa_retry_backoff c)
    (pa_max_unsupported_time c) (pa_stop_queue_run_after c) (pa_max_concurrent_downloads c)
    (pa_concurrent_upload_limit c) (pa_token_list c) (pa_enable_fod_checker c)
    (pa_use_presigned_uploads c) (pa_forced_substituters c).

Lemma reload_sorts_with_old_function_witness :
  w_queues (reload_config_callback other_config dispatched).2 =
  Queues.sort_queues (w_heap dispatched) (pa_step_sort_fn (w_config dispatched)) (w_queues dispatched).
Proof.
  apply (reload_sorts_with_old_function other_config dispatched).
  - vm_compute. reflexivity.
  - vm_compute. discriminate.
Defined.

(** ** The handlers, on the installation *)

Lemma run_Ok {S E A} (m : M S E A) s a : (m s).1 = Ok a → m s = (Ok a, (m s).2).
Proof. destruct (m s) as [r s1]. cbn. by intros ->. Qed.

(** A handler that succeeds: its result is computed, the state it leads to is
    named by the run. *)
Ltac run_handler :=
  match goal with |- ?m ?w = (Ok ?a, _) => refine (run_Ok m w a _); vm_compute; reflexivity end.

Lemma finished_builds_are_final_witness :
  build_row 9 1 lib_drv ∈ t_builds (db_tables (w_db dispatched)).
Proof.
  apply (finished_builds_are_final start dispatched).
  - by_evaluation.
  - unfold dispatched, read. etrans; [apply run_steps|]. apply run_steps.
  - left.
  - discriminate.
Defined.

(** A build is added by hand, and the builder reports that the input fails. *)
Definition ended : World :=
  run [EvDebugBuild 1 lib_drv; EvCompleteBuild (mkBuildResultInfo "108" "7" 1 1 1 GBuildFailure None [])] dispatched.

(** The map really changes: build 10 is new, build 1 was waiting and has failed. *)
Lemma runner_refines_lifecycle_witness :
  lives (db_tables (w_db start)) !! 10 = None ∧
  is_Some (lives (db_tables (w_db ended)) !! 10) ∧
  lives (db_tables (w_db start)) !! 1 ≠ lives (db_tables (w_db ended)) !! 1 ∧
  rtc lives_step (lives (db_tables (w_db start))) (lives (db_tables (w_db ended))).
Proof.
  split; [vm_compute; reflexivity|]. split; [vm_compute; by eexists|].
  split; [vm_compute; discriminate|].
  apply (runner_refines_lifecycle start ended).
  - by_evaluation.
  - unfold ended, dispatched, read. etrans; [apply run_steps|]. etrans; apply run_steps.
Defined.

(** The input fails for build 3, on no machine. *)
Definition example_failure : Job :=
  (Job_new 1 3 lib_drv None) <| j_result ::= λ r,
    RemoteBuild.set_start_and_stop (5 * 10 ^ 9) (r <| rb_step_status := Failed |>) |>.
Definition failed : World := (inner_fail_job None example_failure 5 read).2.

Lemma inner_fail_job_fails_dependents_witness :
  finished_in 1 (db_tables (w_db failed)) ∧ w_builds failed !! 1 = None.
Proof.
  assert (is_Some (hp_builds (w_heap read) !! 1%positive)) as [b Hb] by (by_evaluation).
  assert (b = example_build) as -> by (unfold example_build; rewrite Hb; reflexivity).
  assert (inner_fail_job None example_failure 5 read = (Ok tt, failed)) as Hrun by (unfold failed; run_handler).
  destruct (inner_fail_job_fails_dependents None example_failure 5 lib_step read failed read_drv_inj lib_lookup
    Hrun 4%positive app_step 1%positive example_build) as (_ & H1 & H2).
  - apply rtc_once. exists lib_step. split; [exact lib_lookup|]. split; [by_evaluation|]. by_evaluation.
  - exact app_lookup.
  - by_evaluation.
  - exact Hb.
  - vm_compute. reflexivity.
  - split; [exact H2|exact H1].
Defined.

Lemma inner_fail_job_terminates_witness :
  ∃ w', inner_fail_job None example_failure 5 read = (Ok tt, w').
Proof.
  apply (inner_fail_job_terminates None example_failure 5 lib_step read (db_tables (w_db read)) read_drv_inj lib_lookup).
  - exact I.
  - vm_compute. reflexivity.
  - split; [vm_compute; reflexivity|]. intros s Hs. vm_compute in Hs. by apply not_elem_of_nil in Hs.
  - split; vm_compute; reflexivity.
  - discriminate.
  - reflexivity.
Defined.

(** What the dispatcher has scheduled. *)
Definition example_item : ScheduledItem :=
  default (mkScheduledItem 1 "" 1) (iq_scheduled (w_queues dispatched) !! lib_drv).
Definition example_info : StepInfo := default lib_info (iq_infos (w_queues dispatched) !! it_step_info example_item).
Definition example_step : Step := default lib_step (hp_steps (w_heap dispatched) !! si_step example_info).

Lemma item_lookup : iq_scheduled (w_queues dispatched) !! lib_drv = Some example_item.
Proof. vm_compute. reflexivity. Qed.
Lemma info_lookup : iq_infos (w_queues dispatched) !! it_step_info example_item = Some example_info.
Proof. vm_compute. reflexivity. Qed.
Lemma step_lookup : hp_steps (w_heap dispatched) !! si_step example_info = Some example_step.
Proof. vm_compute. reflexivity. Qed.

Definition example_output : BuildOutput :=
  mkBuildOutput false BuildTimings.default None 100 50 [] {["out" := StorePath.mk (hash +:+ "lib")]} [].

Lemma succeed_step_correct_witness :
  taken_off lib_drv (it_machine example_item) (succeed_step lib_drv example_output dispatched).2.
Proof.
  apply (succeed_step_correct lib_drv example_output dispatched _ example_item example_info example_step
    item_lookup info_lookup step_lookup); [by_evaluation|run_handler].
Defined.

Lemma ended_step_wakes_dispatcher_witness :
  is_Some (dispatch_turn false (succeed_step lib_drv example_output dispatched).2).
Proof.
  rewrite (ended_step_wakes_dispatcher lib_drv dispatched (succeed_step lib_drv example_output dispatched).2);
    [by eexists|]. left. exists example_output. run_handler.
Defined.


Lemma reclaim_exact_witness : graph_wf (w_heap (reclaim read)).
Proof. apply (reclaim_exact read). exact read_graph_wf. Defined.

Lemma get_queued_builds_ends_witness :
  match get_queued_builds 3 start with (Ok _, w') => graph_ok w' | (Err e, _) => e ≠ Fuel end.
Proof.
  apply (get_queued_builds_ends {[lib_drv; app_drv]} 3 start).
  - intros q d drv j Hd. apply elem_of_union in Hd as [Hd|Hd]; apply elem_of_singleton in Hd as ->;
      intros Hdrv; vm_compute in Hdrv; injection Hdrv as <-; cbn [drv_input_drvs]; intros Hj.
    + by apply not_elem_of_nil in Hj.
    + apply list_elem_of_singleton in Hj as ->. split; by_evaluation.
  - intros r Hr. vm_compute in Hr.
    repeat (apply elem_of_cons in Hr as [->|Hr]; [by_evaluation|]). by apply not_elem_of_nil in Hr.
  - split; [apply graph_wfb_sound; vm_compute; reflexivity|apply registered_empty; reflexivity|].
    intros x s Hx. discriminate Hx.
  - vm_compute. lia.
Defined.

(** The builder's machine while it has the job. *)
Definition busy_machine : Machine :=
  default MachineInv.example_machine (ms_objs (w_machines dispatched) !! 1%positive).

Lemma tunnel_end_unassigns_witness :
  iq_scheduled (w_queues (tunnel_event 7 TIncomingEnd dispatched).2) !! lib_drv = None.
Proof.
  destruct (tunnel_end_unassigns 7 TIncomingEnd dispatched (tunnel_event 7 TIncomingEnd dispatched).2
    1%positive busy_machine) as [_ H].
  - vm_compute. reflexivity.
  - vm_compute. reflexivity.
  - run_handler.
  - assert (∃ job, job ∈ mc_jobs busy_machine ∧ j_path job = lib_drv) as (job & Hin & <-).
    { eexists. split; [vm_compute; left|reflexivity]. }
    exact (H job Hin).
Defined.
