(* ===== verification/CacheExample.v ===== *)
(** * CacheExample: a cache, a builder, and the theorems about them at work

    A store with one path, a bucket that answers, and a builder; each general
    theorem on caches and builders is applied to them. *)

From Stdlib Require Import Ascii String.
From S2P Require Import Prelude Floats RustStr Nix Db Support Jobset Graph Result Machine Queue.
From S2P Require Import Config Uploader FodChecker State Dispatch Grpc Runner Example.
From S2P Require Import NarInfo CacheCfg Stream BinaryCache CacheInv CacheRefine Presigned PresignedFlow PresignedInv.
From S2P Require Import Uploads Builder BuilderInv BuilderTasks.
Local Open Scope string_scope.
Local Open Scope list_scope.
Local Open Scope Z_scope.

(** ** The store *)

Definition app : StorePath := StorePath.mk (hash +:+ "app").
Definition app_hash : string := "sha256:0000000000000000000000000000000000000000000000000000".
Definition app_info : PathInfo := mkPathInfo None app_hash 0 8 [] [] None.

#[local] Instance cache_nix : NixEnv := {|
  get_store_dir := "/nix/store";
  ffi_is_valid_path := λ _ p, ends_with ".drv" p;
  ffi_try_resolve_drv := λ _ _, None;
  ffi_compute_fs_closures := λ _ ps _ _ _ _, Ok ps;
  ffi_query_drv := λ _ p, Ok (Some (mkDerivation ∅ [] [mkOutput "out" (Some app) None None] p "x86_64-linux"));
  ffi_ensure_path := λ _ _, false;
  ffi_query_path_info := λ _ p,
    if decide (p = "/nix/store/" +:+ StorePath.base_name app)
    then Some (mkInternalPathInfo "" app_hash 0 8 [] [] "") else None;
  ffi_compute_closure_size := λ _ _, 0 |}.

(** ** The bucket *)

#[local] Instance good_http : HttpEnv := {| http_error := λ _, None; url_object := λ u, Some u |}.

(** Parts of four bytes, listings, one key. *)
Definition cache_cfg : S3CacheConfig :=
  S3CacheConfig.with_buffer_size (Some 4)
    (S3CacheConfig.with_write_nar_listing (Some "1") (S3CacheConfig.new (S3ClientConfig.new "bucket"))).
Definition client_with (objs : gmap string Object) : S3BinaryCacheClient :=
  mkS3BinaryCacheClient cache_cfg (mkS3Stats 0 0 0 0 0 0 0) ["key"] ∅ (mkBucket objs 0).
Definition client : S3BinaryCacheClient := client_with ∅.

Definition app_key : string := "aaaaaaaaaaaaaaaaaaaaaaaaaaaaaaaa.narinfo".
Definition app_narinfo : NarInfo :=
  default (mkNarInfo app "" Xz None None "" 0 [] None None []) (NarInfo.new app app_info Xz ["key"]).

Lemma example_answers : answers. Proof. done. Qed.
Lemma example_encoders : encoders_keep. Proof. by intros comp level cores r. Qed.
Lemma example_http : http_reliable. Proof. intros n. exists 0%nat. split; [unfold RETRY_MAX_ATTEMPTS; lia|done]. Qed.
Lemma example_signs : signs. Proof. intros n k expiry. by exists k. Qed.

Lemma app_info_known q : query_path_info q app = Some app_info.
Proof. vm_compute. reflexivity. Qed.

Lemma app_copyable : copyable client app app_info ["nar"; "bytes"] app_narinfo app_key.
Proof.
  split; try done.
  - by intros q r ?%not_elem_of_nil.
  - intros _. by exists "listing".
Qed.

(** ** Caches *)

(** The archive goes up in three parts, after the listing. *)
Lemma copy_path_publishes_witness :
  ∃ c', copy_path app false client = (Ok tt, c') ∧
    ob_bytes <$> lookup_object (ni_url app_narinfo) (cl_bucket c') = Some "narbytes" ∧
    is_Some (published (cl_bucket c') app).
Proof.
  destruct (copy_path_publishes client app app_info ["nar"; "bytes"] app_narinfo app_key false
    example_answers example_encoders app_copyable) as (c' & H1 & H2 & _ & H4).
  - right. split; reflexivity.
  - vm_compute. discriminate.
  - exists c'. rewrite H1, H2, H4; [|vm_compute; reflexivity..]. split; [done|]. split; [reflexivity|by eexists].
Defined.

Lemma narinfo_roundtrip_witness : NarInfo.from_str (NarInfo.render app_narinfo) = Ok app_narinfo.
Proof. apply narinfo_roundtrip. vm_compute. reflexivity. Defined.

Lemma fingerprint_binds_witness : ∃ fp, NarInfo.fingerprint_path app_narinfo = Some (Some fp) ∧
  ni_nar_hash app_narinfo = ni_nar_hash (app_narinfo <| ni_sigs := [] |>).
Proof.
  eexists. split; [reflexivity|].
  eapply (fingerprint_binds app_narinfo (app_narinfo <| ni_sigs := [] |>)); vm_compute; reflexivity.
Defined.

Definition uploaded : S3BinaryCacheClient :=
  client_with {[ni_url app_narinfo := mkObject "narbytes" "" ""; "aaaaaaaaaaaaaaaaaaaaaaaaaaaaaaaa.ls" := mkObject "" "" ""]}.

Lemma narinfo_needs_archive_witness :
  is_Some (lookup_object (ni_url app_narinfo)
    (cl_bucket (upload_narinfo_after_presigned_upload app_narinfo uploaded).2)).
Proof.
  destruct (upload_narinfo_after_presigned_upload app_narinfo uploaded) as [[key|e] c'] eqn:E.
  - exact (proj1 (narinfo_needs_archive app_narinfo uploaded key c' E)).
  - exfalso. apply (f_equal (λ x, is_ok x.1)) in E. vm_compute in E. discriminate E.
Defined.

(** Copying enters the description of the path in the catalogue. *)
#[local] Instance example_keys : KeyLaws.
Proof. by split. Qed.
Lemma client_refines_catalogue_witness :
  let ops := [QueryMissingPaths [app]; CopyPaths [app] false] in
  ∃ o n key, catalogue_of (run_ops ops client) !! app_key = Some o ∧
    entered cache_cfg ["key"] (CopyPaths [app] false) n ∧ o = description cache_cfg key n.
Proof.
  destruct (client_refines_catalogue [QueryMissingPaths [app]; CopyPaths [app] false] client) as (_ & _ & H).
  - reflexivity.
  - repeat constructor.
  - assert (∃ o, catalogue_of (run_ops [QueryMissingPaths [app]; CopyPaths [app] false] client) !! app_key = Some o) as [o Ho]
      by (eexists; vm_compute; reflexivity).
    destruct (H app_key o Ho) as [Hno|(op & n & key & Hop & He & _ & _ & Hd)]; [discriminate Hno|].
    exists o, n, key. split; [exact Ho|]. split; [|exact Hd].
    apply elem_of_cons in Hop as [->|[->|Hop%not_elem_of_nil]%elem_of_cons]; [destruct He|exact He|destruct Hop].
Defined.

(** Of two paths, the second is missing. *)
Definition lib : StorePath := StorePath.mk ("bbbbbbbbbbbbbbbbbbbbbbbbbbbbbbbb-" +:+ "lib").
Definition filled : S3BinaryCacheClient := client_with {[app_key := mkObject (NarInfo.render app_narinfo) "" ""]}.

Lemma query_missing_paths_exact_witness : ∃ c', query_missing_paths [app; lib] filled = (Ok [lib], c').
Proof.
  destruct (query_missing_paths_exact [app; lib] filled example_answers) as (c' & H & _).
  - intros p n Hp. discriminate Hp.
  - repeat constructor; by eexists.
  - exists c'. rewrite H. by f_equal.
Defined.

(** The upload is accepted, its first part refused. *)
Lemma refused_multipart_is_reported_done_witness :
  let env := cache_env (λ n, (n =? 1)%nat) in
  ∃ r' c', upload_file (CE := env) "nar/x" (cursor "narbytes") "" "" client = (Ok r', c') ∧
    bk_objects (cl_bucket c') = ∅.
Proof.
  intros env.
  destruct (refused_multipart_is_reported_done (CE := env) "nar/x" (cursor "narbytes") "" "" client)
    as (r' & c' & H & Ho & _); [vm_compute; intuition discriminate|reflexivity|reflexivity|by eexists|].
  by exists r', c'.
Defined.

(** ** Builders and the cache *)

(** The builder of the small installation, which has a job, and a store. *)
Definition with_store : World := dispatched <| w_remote_stores := [client] |>.
Definition job_id : string :=
  match map_to_list (ms_objs (w_machines with_store)) with
  | (_, m) :: _ => match mc_jobs m with j :: _ => show_Z (j_internal_build_id j) | [] => "" end
  | [] => ""
  end.
Definition session : Session := mkSession client (mkPresignedUploadMetrics 0 0 0).

Lemma app_uploadable : uploadable with_store client app app_info ["nar"; "bytes"] app_narinfo app_key job_id "7".
Proof.
  split; try (vm_compute; reflexivity); try done.
  - apply app_copyable.
  - assert (match parse_ids job_id "7" with Ok (b, m) => is_ok (check_job with_store b m) | Err _ => false end = true) as H
      by (vm_compute; reflexivity).
    destruct (parse_ids job_id "7") as [[b m]|]; [|discriminate H]. exists b, m.
    destruct (check_job with_store b m) as [drv|]; [|discriminate H]. exists drv. split; reflexivity.
Qed.


(** The same store, when the closure cannot be computed and derivations not
    resolved. *)
Definition broken_nix : NixEnv := {|
  get_store_dir := "/nix/store";
  ffi_is_valid_path := ffi_is_valid_path;
  ffi_try_resolve_drv := λ _ _, Some "";
  ffi_compute_fs_closures := λ _ _ _ _ _ _, Err "no store";
  ffi_query_drv := ffi_query_drv;
  ffi_ensure_path := ffi_ensure_path;
  ffi_query_path_info := ffi_query_path_info;
  ffi_compute_closure_size := ffi_compute_closure_size |}.

Lemma failed_requisites_upload_nothing_witness :
  ∃ s', upload_nars_presigned (NE := broken_nix) with_store [app] true job_id "7" session = (Ok tt, s').
Proof.
  assert (is_ok (parse_ids job_id "7") = true) as H0 by (vm_compute; reflexivity).
  destruct (parse_ids job_id "7") as [ids|e] eqn:E; [|discriminate H0].
  destruct (failed_requisites_upload_nothing (NE := broken_nix) [app] "no store" with_store session true job_id "7" ids)
    as (s' & H & _); [reflexivity|exact E|discriminate|].
  exists s'. exact H.
Defined.

(** One link is there, the other is not. *)
Definition linked : S3BinaryCacheClient := client_with {["debuginfo/aa" := mkObject "link" "" ""]}.
Lemma existing_debug_link_is_an_error_witness :
  ∃ ups c' pc, presign_debug_info ["aa"; "bb"] linked = (Ok ups, c') ∧ length ups = 1%nat ∧
    (PresignedUploadClient.create_debug_info_link ups "nar/x" "aa" "file" pc).1 =
    Err (UploadError "debuginfo/aa" "Presigned URL not found for build ID: aa").
Proof.
  assert (match presign_debug_info ["aa"; "bb"] linked with (Ok ups, _) => length ups =? 1 | _ => false end = true)%nat as H
    by (vm_compute; reflexivity).
  destruct (presign_debug_info ["aa"; "bb"] linked) as [[ups|e] c'] eqn:E; [|discriminate H].
  exists ups, c', (mkPresignedUploadClient (mkPresignedUploadMetrics 0 0 0) (cl_bucket linked)).
  split; [reflexivity|]. split; [by apply Nat.eqb_eq|].
  rewrite (existing_debug_link_is_an_error ["aa"; "bb"] "aa" linked ups c' "nar/x" "file" _ example_answers);
    [reflexivity|by eexists|exact E].
Defined.

(** ** Builders *)

#[local] Instance builder_files : FsEnv := example_files.
#[local] Instance builder_env : BuilderEnv := {|
  rpc_error := λ _, None;
  rpc_requisites := λ _ _ _, [hash +:+ "lib"; hash +:+ "lib.drv"];
  rpc_has_path := λ _ _, false;
  substitute_error := λ _ _, None;
  import_error := λ _ _, None;
  export_error := λ _ _, None;
  gcroot_error := λ _, None;
  realise_error := λ _ _ _, None;
  wait_build := λ _, Ok true;
  elapsed := λ _, 5 |}.

Definition builder : Builder := mkBuilder (mkMetrics 0 0 0) ∅ (mkBuildTimings 0 0 0) [] session 0.
Definition message : BuildMessage := mkBuildMessage job_id (hash +:+ "app.drv") None 100 60 600 (Some false).



Lemma zero_downloads_hang_witness : (run_task with_store "7" 0 true false message builder).1 = false.
Proof.
  destruct (zero_downloads_hang with_store "7" true false message builder) as (b' & l & H & _); [done..|]. by rewrite H.
Defined.

Definition app_derivation : Derivation := mkDerivation ∅ [] [mkOutput "out" (Some app) None None] app_drv "x86_64-linux".
Lemma remote_result_is_local_witness :
  ∃ out, BuildOutput.new 0 (drv_outputs app_derivation) = Ok out ∧ out_size out = 8.
Proof.
  destruct (new_success_build_result_info 0 "7" app_derivation (mkBuildTimings 1 2 3) "101") as [info|e] eqn:E.
  - destruct (remote_result_is_local 0 "7" app_derivation (mkBuildTimings 1 2 3) "101" info) as (out & H & _);
      [vm_compute; reflexivity|exact E|].
    exists out. split; [exact H|]. apply (f_equal (λ r, match r with Ok o => out_size o | Err _ => 0 end)) in H. cbv beta iota in H.
    rewrite <-H. vm_compute. reflexivity.
  - exfalso. apply (f_equal is_ok) in E. vm_compute in E. discriminate E.
Defined.

(** The step of the installation, when it cannot be resolved. *)
Definition unresolved : BuildMessage := mkBuildMessage "101" (StorePath.base_name lib_drv) (Some "") 1 1 1 None.
Lemma resolution_is_inverted_witness : to_build (NE := broken_nix) unresolved = StorePath.mk "".
Proof.
  apply (resolution_is_inverted (NE := broken_nix) 0 (w_heap dispatched) 5 (Step.new lib_drv) "" unresolved); reflexivity.
Defined.

(** Two builds of different derivations. *)
Definition two_builds : Tasks :=
  default no_tasks (run_events [ESpawn "101" (hash +:+ "lib.drv"); EInsert; ESpawn "102" (hash +:+ "app.drv"); EInsert] no_tasks).

Lemma run_reachable evs s s' : reachable s → run_events evs s = Some s' → reachable s'.
Proof.
  revert s. induction evs as [|ev evs IH]; intros s Hs; cbn; [by intros [= <-]|].
  intros (s1 & H1 & H2)%bind_Some. eapply IH; [|exact H2]. by eapply reach_step.
Qed.

Lemma two_reachable : reachable two_builds.
Proof.
  unfold two_builds. destruct (run_events _ no_tasks) as [s|] eqn:E; [|constructor].
  exact (run_reachable _ _ _ reach_start E).
Qed.

Lemma active_builds_distinct_witness :
  size (ta_active_builds two_builds) = 2%nat ∧
  ∀ b, ta_active_builds two_builds !! 101 = Some b → ta_active_builds two_builds !! 102 = Some b → False.
Proof.
  split; [vm_compute; reflexivity|]. intros b H1 H2.
  assert (101 = 102); [|lia].
  apply (active_builds_distinct two_builds 101 102 b b); [|done..].
  apply two_reachable.
Defined.

Lemma early_end_blocks_derivation_witness :
  ∃ s, contains_build lib_drv s = true ∧ task_step (ESpawn "102" (hash +:+ "lib.drv")) s = Some s.
Proof.
  destruct (early_end_blocks_derivation "101" "102" (hash +:+ "lib.drv") 101 EndErr) as (s & _ & H1 & _ & H2);
    [vm_compute; reflexivity|set_solver|]. exists s. split; [exact H1|exact H2].
Defined.

(** ** The uploader *)

(** One message, to the store of the example. *)
Definition app_message : UploadMessage := mkUploadMessage 1 [app] "log/app" "/log/app".
Definition to_upload : World := with_store <| w_uploader := mkUploader (mkChannel [app_message] true) [] None |>.

