(* ===== verification/ConnExample.v ===== *)
(** * ConnExample: a builder joins, builds and leaves

    A builder on a small machine, and the theorems on connections, logs and
    archives applied to it. *)

From Stdlib Require Import Ascii String.
From S2P Require Import NarInfo CacheCfg Stream BinaryCache Presigned PresignedFlow.
From S2P Require Import Prelude Floats RustStr Nix Db Support Jobset Graph Result Machine Queue MachineInv.
From S2P Require Import Config System Uploader FodChecker State Dispatch Grpc GrpcStreams Runner Example.
From S2P Require Import Io Http Metrics.
From S2P Require Import Builder BuilderInv BuilderTasks BuilderConn Connection.
Local Open Scope string_scope.
Local Open Scope list_scope.
Local Open Scope Z_scope.

#[local] Instance example_network : ConnEnv := {|
  uri_parses := λ _, true;
  url_domain := λ _, Ok None;
  metadata_parses := λ _, true;
  connect := λ _, Ok tt;
  gethostname := Some "builder" |}.
#[local] Instance example_settings : NixSettings := {|
  get_this_system := "x86_64-linux"; get_extra_platforms := ["i686-linux"]; get_system_features := ["kvm"];
  get_substituters := []; get_nix_version := "2.31"; get_use_cgroups := false; get_build_dir := "/build" |}.
#[local] Instance example_proc : ProcEnv := {|
  proc_cpuinfo := λ _, Ok (8, {["bogomips" := "4000.00"]});
  proc_meminfo := λ _, Ok (1024, Some 512);
  proc_loadavg := λ _, Ok (f32_of_Z 0, f32_of_Z 0, f32_of_Z 0);
  proc_cpu_pressure := λ _ _, Err "none";
  proc_memory_pressure := λ _ _, Err "none";
  proc_io_pressure := λ _ _, Err "none";
  statvfs := λ _ _, Ok (100, 50, 4096) |}.
#[local] Instance example_logs : LogEnv := {| open_fails := λ _, false; write_fails := λ _ _, false |}.
#[local] Instance example_archives : ArchiveEnv := {|
  ffi_export_paths := λ _ ps, (ps, None);
  ffi_import_paths := λ _ _ bytes, if decide (bytes = "") then Err "empty" else Ok tt;
  import_room := λ _, 16 |}.

(** A command line with a token. *)
Definition builder_cli : Cli :=
  mkCli "http://[::1]:50051" 10 (f32_of_Z 1) 4 (f32_of_Z 10) (f32_of_Z 10) (f32_of_Z 8) (f32_of_Z 75) (f32_of_Z 80)
    None None None None None None None None false (Some "/secret").

Definition no_builder : BuilderState :=
  mkBuilderState 0 "" (mkBuilderConfig 0 (f32_of_Z 0) 0 (f32_of_Z 0) (f32_of_Z 0) (f32_of_Z 0) (f32_of_Z 0) (f32_of_Z 0)
    None "" [] [] [] false false) 0 no_tasks Noop (mkMetrics 0 0 0).
Definition builder : BuilderState :=
  match BuilderState_new 7 builder_cli with Ok s => s | Err _ => no_builder end.
Definition builder_join : JoinMessage :=
  match get_join_message 0 builder with Ok m => m | Err _ => example_join end.

Lemma builder_authorized_witness : check_auth (example_app ["/secret"]) (call (bs_client builder)) = true.
Proof.
  apply (builder_authorized (with_tokens ["/secret"]) (example_app ["/secret"]) ["/secret"] ["tok"] builder_cli
    (Token "Bearer tok")); [vm_compute; reflexivity..|].
  exists "/secret", "tok". split; [reflexivity|]. split; [reflexivity|]. left.
Defined.

Lemma join_registers_builder_witness :
  ∃ w' a m, open_tunnel (FMessage (head (ping_stream builder_join [] builder))) start = (Ok (Ok (7, ("7", 5))), w') ∧
    Machines.get_machine_by_id 7 (w_machines w') = Some a ∧ ms_objs (w_machines w') !! a = Some m ∧ mirrors builder m.
Proof.
  destruct (join_registers_builder "1" 0 [] builder start builder_join) as (w' & a & m & H1 & H2 & H3 & H4 & _);
    [vm_compute; reflexivity..|].
  exists w', a, m. split; [exact H1|]. split; [exact H2|]. split; [exact H3|exact H4].
Defined.

(** A job for the builder, and the machine it is given to. *)
Definition lib_job : Job := Job_new 101 3 lib_drv None.
Definition with_job : Machine :=
  match Machine.build_drv lib_job (BuildOptions.new None) None example_machine example_heap with
  | Ok (m, _) => m | Err _ => example_machine
  end.


Lemma other_version_ends_witness :
  ∃ e, start_bidirectional_stream "1" (Ok (check_version "2" "1")) 0 [] (λ _, Ok []) builder = (Err e, builder).
Proof.
  destruct (other_version_ends "2" "1" 0 [] (λ _, Ok []) builder) as (e & H & _); [discriminate|].
  exists e. exact H.
Defined.

(** Two builds run when the builder is stopped. *)
Definition busy : Tasks :=
  default no_tasks (run_events [ESpawn "101" (hash +:+ "lib.drv"); EInsert; ESpawn "102" (hash +:+ "app.drv"); EInsert] no_tasks).
Definition after_stop : list TaskEvent := [ESpawn "103" (hash +:+ "new.drv"); EEnd 0 EndDropped].

Lemma stopped_builder_rests_witness :
  match run_events after_stop (stop_application busy) with
  | Some s' => ta_active_builds s' = ∅ ∧ ta_next s' = 2%nat
  | None => False
  end.
Proof.
  destruct (run_events after_stop (stop_application busy)) as [s'|] eqn:E; [|vm_compute in E; discriminate E].
  destruct (stopped_builder_rests after_stop busy s') as (H1 & H2 & _); [vm_compute; reflexivity|exact E|].
  split; [exact H1|exact H2].
Defined.


Lemma example_room : ∀ n, 0 < import_room n.
Proof. by intros n. Qed.

Lemma archives_arrive_witness :
  GrpcStreams.import_paths 1 (stream_files 0 (StorePath.base_name <$> [lib_drv; app_drv])) true = Ok tt.
Proof.
  rewrite (proj1 (archives_arrive 0 1 [lib_drv; app_drv] true example_room
    ltac:(repeat (constructor; [vm_compute; reflexivity|]); constructor))).
  vm_compute. reflexivity.
Defined.

Lemma broken_transfer_looks_complete_witness :
  GrpcStreams.import_paths 0 [Ok "half"; Err "reset"] false = Ok tt.
Proof.
  transitivity (GrpcStreams.import_paths (E := string) 0 (Ok <$> ["half"]) false); [|vm_compute; reflexivity].
  exact (broken_transfer_looks_complete 0 ["half"] "reset" [] false example_room).
Defined.

(** ** The status server *)

#[local] Instance example_self : Io.SelfEnv := {|
  Io.self_pid := None; Io.self_statm := None; Io.page_size := 4096; Io.self_cgroups := None |}.
#[local] Instance example_json : JsonLib := {|
  json_build := λ _, None; json_build_one := λ _, None; json_dump := λ _, Ok "{}"; ffi_get_store_stats := λ _, None |}.

Lemma active_page_exact_witness :
  ∃ active, router 10 GET ("/status/build/" +:+ show_Z 1 +:+ "/active") "" start =
    (Ok (200, Io.BuildActiveResponse active), start) ∧ active = true.
Proof.
  destruct (active_page_exact 10 "" 1 start) as (active & H & Ha); [reflexivity..|].
  exists active. split; [exact H|]. apply Ha. exists (build_row 1 0 app_drv). split; [|done]. right. left.
Defined.

Lemma dump_reads_back_witness : ∃ w1, dump_turn read = (Ok tt, w1) ∧ read_status w1 = (Ok (Some "{}"), w1).
Proof.
  assert (match dump_response read with (Ok _, w0) => bool_decide (db_faults (w_db w0) = []) | _ => false end = true) as H0
    by (vm_compute; reflexivity).
  destruct (dump_response read) as [[d|e] w0] eqn:E; [|discriminate H0].
  destruct (dump_reads_back read d w0 "{}" E eq_refl) as (w1 & H1 & H2 & _); [by apply bool_decide_eq_true in H0|].
  exists w1. split; [exact H1|exact H2].
Defined.

Lemma machines_shown_by_hostname_witness :
  match router 10 GET "/status/machines" "" read with
  | (Ok (200, Io.MachinesResponse ms n), _) => ∃ names : list string, dom ms = list_to_set names ∧ n = 1%nat
  | _ => False
  end.
Proof.
  assert (match router 10 GET "/status/machines" "" read with
    | (Ok (200, Io.MachinesResponse ms n), _) => Nat.eqb n 1 | _ => false end = true) as H0 by (vm_compute; reflexivity).
  destruct (router 10 GET "/status/machines" "" read) as [[[c b]|e] w'] eqn:E; [|discriminate H0].
  destruct c as [|c|]; [discriminate H0| |discriminate H0]. destruct (decide (c = 200%positive)) as [->|Hn].
  - destruct b; try discriminate H0. apply Nat.eqb_eq in H0.
    destruct (machines_shown_by_hostname 10 "" read _ _ _ E) as (names & _ & Hd & _). exists names. split; [exact Hd|exact H0].
  - exfalso. vm_compute in E. congruence.
Defined.

(** ** The metrics *)

#[local] Instance example_prom : Metrics.PromLib := Metrics.names_only.

Lemma metrics_register_once_witness :
  ∃ r, Metrics.new (∅ : gset string) = Ok (Metrics.zero, r) ∧ ∃ e, Metrics.new r = Err e.
Proof.
  destruct (Metrics.metrics_register_once (PL := example_prom) ∅) as (r & H1 & _ & _ & H2).
  - intros f. apply not_elem_of_empty.
  - exists r. split; [exact H1|exact H2].
Defined.

