(* ===== verification/StartExample.v ===== *)
(** * StartExample: a queue runner starts and stops

    The theorems on the start and on the end of a queue runner, on the small
    installation. *)

From Stdlib Require Import Ascii String.
From S2P Require Import NarInfo CacheCfg Stream BinaryCache.
From S2P Require Import Prelude Floats RustStr Nix Db Support Jobset Graph Result Machine MachineInv Queue QueueInv.
From S2P Require Import Config Uploader FodChecker State IntakeInv Dispatch Io Http Metrics Runner Example.
From S2P Require Import LockFile Startup.
Local Open Scope string_scope.
Local Open Scope list_scope.
Local Open Scope Z_scope.

#[local] Instance example_start : StartEnv := {|
  connect_db := λ _ _, Ok (mkDatabase example_tables []);
  system_clock := λ n, Z.of_nat n * 10 ^ 9;
  upload_state := λ _, None |}.
#[local] Instance example_prom : Metrics.PromLib := Metrics.names_only.

Definition is_ok {E A} (r : result E A) : bool := match r with Ok _ => true | Err _ => false end.
Definition started : World :=
  match State_new (λ _, Ok default_AppConfig) default_Cli (∅ : gset string) with
  | Ok (w, _) => w
  | Err _ => start
  end.

Lemma starts : ∃ m, State_new (λ _, Ok default_AppConfig) default_Cli (∅ : gset string) = Ok (started, m).
Proof.
  unfold started. assert (is_ok (State_new (λ _, Ok default_AppConfig) default_Cli (∅ : gset string)) = true) as H
    by (vm_compute; reflexivity).
  destruct (State_new _ _ _) as [[w m]|]; [by exists m|discriminate H].
Qed.

Lemma new_state_in_order_witness : graph_ok started ∧ w_builds started = ∅.
Proof.
  destruct starts as [m Hm]. destruct (new_state_in_order _ _ _ _ _ Hm) as (Hg & _ & _ & _ & Hb & _).
  split; [exact Hg|exact Hb].
Defined.

Lemma second_start_refused_witness :
  main default_Cli (LockFile.acquire 2 (LockFile.acquire 1 no_lock_file).2).1 started =
  (Err (Anyhow "Another instance is already running."), started).
Proof.
  apply (second_start_refused (LockFile.acquire 1 no_lock_file).2 1 2 default_Cli started).
  - apply rtc_once. by apply ws_acquire.
  - by eexists.
  - reflexivity.
  - reflexivity.
Defined.

(** A builder has a job when the queue runner is told to stop. *)
Definition with_builder : World := dispatched <| w_machines := busy_registry |>.

Lemma shutdown_leaves_nothing_witness :
  ms_by_uuid (w_machines with_builder) ≠ ∅ ∧ ms_by_uuid (w_machines (shutdown with_builder).2) = ∅.
Proof.
  split; [vm_compute; discriminate|].
  apply (shutdown_leaves_nothing SpeedFactorOnly with_builder).
  apply (reachable_wf (FE := x86_env) (H := MachineInv.example_uuids) clock_typed ping_typed SpeedFactorOnly busy_registry).
  eapply rtc_l; [exact joins|]. apply rtc_once, builds.
Defined.
