(* ===== verification/StoreExample.v ===== *)
(** * StoreExample: a small Nix library, and the theorems of the stores on it *)

From Stdlib Require Import Ascii String.
From S2P Require Import NarInfo CacheCfg Stream BinaryCache.
From S2P Require Import Prelude Floats RustStr Nix Db Support Jobset Graph Result Machine Queue.
From S2P Require Import Config Uploader FodChecker State Dispatch Grpc GrpcStreams Io BuilderConn Stores StoresInv.
Local Open Scope string_scope.
Local Open Scope list_scope.
Local Open Scope Z_scope.

(** ** A store with an application and the library it refers to *)

Definition example_info (p : string) : result string ValidPathInfo :=
  if decide (p = "app") then Ok (mkValidPathInfo None "sha256:a" {["lib"]} 1 100 ∅ None)
  else if decide (p = "lib") then Ok (mkValidPathInfo None "sha256:l" {["lib"]} 1 28 ∅ None)
  else Err "path is not valid".

Definition example_closure (p : string) (X : PathSet) : result string PathSet :=
  if decide (p = "app") then Ok ({["app"; "lib"]} ∪ X)
  else if decide (p = "lib") then Ok ({["lib"]} ∪ X)
  else Err "path is not valid".

Definition example_parse (path : string) : result string string :=
  match strip_prefix "/nix/store/" path with
  | Some b => if decide (strip_prefix "/" b = None) then Ok b else Err "bad name"
  | None => Err "not in the store"
  end.

(** Two bytes make an archive. *)
Definition example_importing : Importing unit :=
  Reads 1 (λ r, match r with
    | Err e => Finish (throw e)
    | Ok _ => Reads 1 (λ r, match r with Err e => Finish (throw e) | Ok _ => Finish (mret tt) end)
    end).

Definition no_stats : Io.FfiStoreStats := Io.mkFfiStoreStats 0 0 0 0 0 0 0 0 0 0 0 0 0.

#[export] Instance example_lib : LibNix := {|
  Outside := unit;
  Store := unit;
  NixDrv := string;
  NixHash := string;
  settings := mkSettings "/nix" "/nix/store" None "/nix/var/nix" "/nix/var/log/nix" "x86_64-linux" ∅ {["kvm"]} [] false;
  nixVersion := "2.30";
  initNix o := o;
  set_nix_verbosity _ o := o;
  openStore _ := mret tt;
  parseStorePath _ := example_parse;
  followLinksToStorePath _ p := lift_result (example_parse p);
  toStorePath _ p := (λ b, (b, "")) <$> example_parse p;
  printStorePath _ p := "/nix/store/" +:+ p;
  isValidPath _ p := mret (bool_decide (p = "app" ∨ p = "lib"));
  queryPathInfo _ p := lift_result (example_info p);
  computeFSClosure _ p X _ _ _ := lift_result (example_closure p X);
  topoSortPaths _ X := mret ((if decide ("app" ∈ X) then ["app"] else []) ++ elements (X ∖ {["app"]}));
  getStats _ _ := no_stats;
  listNarDeep _ _ := mret "{}";
  clearPathInfoCache _ := mret tt;
  ensurePath _ p := (if decide (p = "app" ∨ p = "lib") then mret tt else throw "cannot substitute");
  upsertFile _ := None;
  copyPaths _ _ _ _ _ _ := mret tt;
  importPaths _ _ _ := example_importing;
  fd_read _ _ := throw "bad file descriptor";
  exportPaths _ _ := mret (["nar"], None);
  narFromPath _ _ := mret (["nar"], None);
  readDerivation _ p := mret p;
  tryResolve drv _ := mret (Some drv);
  writeDerivation _ drv := mret drv;
  staticOutputHashes _ _ := mret [("out", "sha256:0")];
  signDetached _ _ := "signature";
  parseAny s _ := Ok s;
  hash_to_string h _ _ := h;
  queryRealisation _ _ := mret None;
  parseDrvOutput s := Ok (mkDrvOutput s "out");
  realisation_from_json _ := Err "no json";
  realisation_to_json _ := "{}";
  realisation_fingerprint _ := "";
  realisation_signature _ _ := Ok "signature";
  upsertRealisation := None
|}.
#[export] Instance example_tokio : Tokio := {| task_lost _ := false; runtime_error _ := None |}.
#[export] Instance example_same : SameStores.
Proof. by refine {| same := λ _ _, True |}. Defined.

#[export] Instance example_quiet : QuietLib.
Proof. split; intros; by split; [|intros [] []]. Qed.

Lemma example_sorted (X : PathSet) :
  (if decide ("app" ∈ X) then ["app"] else []) ++ elements (X ∖ {["app"]}) ≡ₚ elements X.
Proof.
  case_decide as H.
  - rewrite (union_difference_L {["app"]} X) at 2 by set_solver. by rewrite elements_union_singleton by set_solver.
  - cbn. f_equiv. set_solver.
Qed.

#[export] Instance example_laws : LibLaws.
Proof.
  split.
  - done.
  - intros [] b p. cbn. unfold example_parse. change ("/nix/store" +:+ "/" +:+ b) with ("/nix/store/" +:+ b).
    rewrite strip_prefix_app. case_decide; by intros [= <-].
  - intros [] p X X' outs [] []. cbn. unfold example_closure, lift_result, with_references, plain_names. cbn.
    intros HX HR HP. assert (X ⊆ X' ∧ p ∈ X' ∧ (p = "app" ∨ p = "lib") ∧ (∀ q, q ∈ X' → q ∈ X ∨ q = "app" ∨ q = "lib") ∧ ("app" ∈ X' → "lib" ∈ X'))
      as (H1 & H2 & Hp & H3 & H4).
    { assert ("app" ∈ X → "lib" ∈ X) as HA by (intros Ha; eapply (HR "app" _ Ha); [reflexivity|set_solver]).
      repeat case_decide; simplify_eq; set_solver. }
    split; [done|]. split; [done|]. split.
    + intros q info Hq Hi. destruct (H3 q Hq) as [HqX|[->| ->]]; [etrans; [by eapply HR|done]| |].
      * revert Hi. unfold lift_result, example_info. rewrite decide_True by done. intros [= <-]. set_solver.
      * revert Hi. unfold lift_result, example_info. rewrite decide_False, decide_True by done. intros [= <-]. set_solver.
    + intros q Hq. destruct (H3 q Hq) as [HqX|[->| ->]]; [by apply HP|done..].
  - intros [] X l [] []. cbn. intros [= <-]. split; [apply example_sorted|]. intros i j p q info Hi Hj Hne Hinfo Hq.
    assert (p = "app" ∧ q = "lib") as [-> ->].
    { revert Hinfo Hq. unfold example_info. cbn. repeat case_decide; intros [= <-]; set_solver. }
    assert ("app" ∈ X) as Ha.
    { apply elem_of_elements. rewrite <-example_sorted. by eapply list_elem_of_lookup_2. }
    rewrite decide_True in Hi, Hj by done. destruct i as [|i].
    + destruct j; [done|lia].
    + cbn in Hi. apply list_elem_of_lookup_2 in Hi. apply elem_of_elements in Hi. set_solver.
Qed.

Definition example_store : LocalStore := mkLocalStore (mkBaseStoreImpl (mkStoreWrapper (tt : Store)) "/nix/store").

(** ** Witnesses *)


Lemma broken_import_fails_witness :
  (import_paths example_store [Ok "x"; Err "connection reset"] true tt).1 = Err (NixError.Thrown Bindings.END_OF_STREAM) ∧
  (import_paths example_store [Ok "x"; Ok "y"] true tt).1 = Ok tt.
Proof.
  assert ((import_paths example_store [Ok "x"; Ok "y"] true tt).1 = Ok tt) as Hwhole by (vm_compute; reflexivity).
  split; [|exact Hwhole].
  destruct (broken_import_fails example_store true ["x"] "connection reset" [] [Ok "y"] tt) as [H|H].
  - reflexivity.
  - reflexivity.
  - constructor; [lia|intros e; eexists; split; [reflexivity|done]|]. intros data.
    constructor; [lia|intros e; eexists; split; [reflexivity|done]|]. intros data'. constructor.
  - exact H.
  - exfalso. apply (f_equal fst) in H. vm_compute in H. discriminate H.
Defined.

Lemma local_store_answers_witness :
  (is_valid_path example_store (StorePath.mk "app") tt).1 = true ∧
  @Nix.is_valid_path (answers example_store (λ _, tt) (λ _ _, Ok None)) 0 (StorePath.mk "app") = true.
Proof.
  destruct (local_store_answers (TK := example_tokio) example_store (λ _, tt) (λ _ _, Ok None) (λ _, eq_refl) eq_refl 0) as (_ & H & _).
  rewrite <-(H (StorePath.mk "app")). split; vm_compute; reflexivity.
Defined.

Lemma closure_size_total_witness : (compute_closure_size example_store (StorePath.mk "app") tt).1 = 128.
Proof.
  destruct (closure_size_total (TK := example_tokio) example_store (StorePath.mk "app") tt (λ _, eq_refl) eq_refl) as [-> _].
  vm_compute. reflexivity.
Defined.

Lemma init_nix_once_witness : ∃ s, rtc InitNix.step InitNix.start s ∧ InitNix.threads s !! 0%nat = Some InitNix.Returned ∧ InitNix.completed s = 1%nat.
Proof.
  assert (∃ s, rtc InitNix.step InitNix.start s ∧ InitNix.threads s !! 0%nat = Some InitNix.Returned) as (s & Hs & Ht).
  { eexists. split.
    - eapply rtc_l; [apply (InitNix.step_enter 0); reflexivity|].
      eapply rtc_l; [apply (InitNix.step_test 0); reflexivity|].
      eapply rtc_l; [apply (InitNix.step_lock 0); reflexivity|].
      eapply rtc_l; [apply (InitNix.step_retest_init 0); reflexivity|].
      eapply rtc_l; [apply (InitNix.step_initialised 0); reflexivity|].
      eapply rtc_l; [apply (InitNix.step_set 0); reflexivity|].
      eapply rtc_l; [apply (InitNix.step_unlock 0); reflexivity|]. apply rtc_refl.
    - reflexivity. }
  exists s. split; [exact Hs|]. split; [exact Ht|]. exact (proj2 (InitNix.init_nix_once s Hs) 0%nat Ht).
Defined.
