(* ===== verification/EndExample.v ===== *)
(** * EndExample: a build from the builder's task to the finished row

    The builder of [Example] builds the input that the dispatcher gave it, and
    its report is handled by a queue runner that can record it and by one that
    loses its database. *)

From Stdlib Require Import Ascii String.
From S2P Require Import NarInfo CacheCfg Stream BinaryCache Presigned PresignedFlow.
From S2P Require Import Prelude Floats RustStr Nix Db Support Jobset Graph Result Machine Queue.
From S2P Require Import Config Uploader FodChecker State FailJob SucceedJob Dispatch Grpc Runner Example Properties.
From S2P Require Import Builder BuilderInv EndToEnd Gcroots CacheExample.
Local Open Scope string_scope.
Local Open Scope list_scope.
Local Open Scope Z_scope.

#[local] Existing Instance good_http.
#[local] Existing Instance builder_files.
#[local] Existing Instance builder_env.

(** The job the dispatcher gave to the builder. *)
Definition lib_job_id : Uuid :=
  match ms_objs (w_machines dispatched) !! it_machine example_item with
  | Some m => match mc_jobs m with j :: _ => j_internal_build_id j | [] => 0 end
  | None => 0
  end.
Definition lib_message : BuildMessage := mkBuildMessage (show_Z lib_job_id) (StorePath.base_name lib_drv) None 100 60 600 None.

(** The same queue runner, with a clock that stops in time. *)
Definition in_time (w : World) : World :=
  w <| w_heap ::= λ h, mkHeap (hp_steps h) (hp_builds h) (hp_jobsets h) (hp_next h) (λ n, Z.of_nat (Nat.min n 1000) * 10 ^ 9) (hp_reads h) |>.
Definition waiting : World := in_time dispatched.

Lemma in_time_fits w : clock_fits (w_heap (in_time w)).
Proof.
  intros n. cbn -[in_i as_second Z.mul Z.pow Nat.min]. unfold as_second. 
  set (k := Nat.min n 1000). assert (0 ≤ Z.of_nat k ≤ 1000) by (unfold k; lia). clearbody k.
  unfold in_i. rewrite ?Z.quot_mul, ?Z.div_mul by lia. bool_prop. lia.
Qed.

Lemma in_time_awaits w id mid drv item info st m : awaits w id mid drv item info st m → awaits (in_time w) id mid drv item info st m.
Proof. intros []. by split. Qed.

(** The machine the job was given to. *)
Lemma lib_machine : ∃ m, ms_objs (w_machines dispatched) !! it_machine example_item = Some m ∧
  Machine.get_job_drv_for_build_id lib_job_id m = Some lib_drv ∧
  forallb (λ j, is_ok (RemoteBuild.get_start_time_as_i32 (j_result j))) (mc_jobs m) = true.
Proof.
  assert (match ms_objs (w_machines dispatched) !! it_machine example_item with
    | Some m => bool_decide (Machine.get_job_drv_for_build_id lib_job_id m = Some lib_drv) &&
                forallb (λ j, is_ok (RemoteBuild.get_start_time_as_i32 (j_result j))) (mc_jobs m)
    | None => false end = true) as H by (vm_compute; reflexivity).
  destruct (ms_objs (w_machines dispatched) !! it_machine example_item) as [m|]; [|discriminate H].
  apply andb_true_iff in H as [H1%bool_decide_eq_true H2]. exact (ex_intro _ m (conj eq_refl (conj H1 H2))).
Qed.

Lemma dispatched_awaits m :
  ms_objs (w_machines dispatched) !! it_machine example_item = Some m → Machine.get_job_drv_for_build_id lib_job_id m = Some lib_drv →
  awaits dispatched lib_job_id 7 lib_drv example_item example_info example_step m.
Proof.
  intros Hm Hj. split; [vm_compute; reflexivity|exact Hm|exact Hj|exact item_lookup|exact info_lookup|exact step_lookup| |].
  - vm_compute. reflexivity.
  - by_evaluation.
Qed.

Definition lib_report : BuildResultInfo :=
  match last (bd_sent (run_task dispatched "7" 2 true false lib_message builder).2) with
  | Some (SentResult r) => r
  | _ => failed_build "" "" (mkBuildTimings 0 0 0) GBuildFailure
  end.

Lemma in_time_builds w : hp_builds (w_heap (in_time w)) = hp_builds (w_heap w).
Proof. done. Qed.

(** What [recordable] asks, as tests. *)
Definition recordableb (w : World) (s : Step) (m : Machine) (output : BuildOutput) : bool :=
  bool_decide (db_faults (w_db w) = []) &&
  forallb (λ j, is_ok (RemoteBuild.get_start_time_as_i32 (j_result j))) (mc_jobs m) &&
  in_i 32 (BuildTimings.get_overhead (out_timings output)) &&
  forallb (λ a, match hp_builds (w_heap w) !! a with
                | Some b => fits (get_mark_build_sccuess_data b output)
                | None => true end) (st_builds s).

Lemma recordableb_spec w drv item s m output : recordableb w s m output = true → recordable (in_time w) drv item s m output.
Proof.
  unfold recordableb. rewrite !andb_true_iff, !forallb_forall, bool_decide_eq_true. intros (((Hd & Hj) & Ho) & Hb).
  split; [exists (db_tables (w_db w)); cbn; destruct (w_db w); cbn in *; by subst| |apply in_time_fits| |done|].
  - intros q p. unfold query_drv. by destruct (StorePath.is_drv p).
  - intros j Hin _. by apply Hj, list_elem_of_In.
  - intros a b Ha Hl. apply list_elem_of_In, Hb in Ha. cbn in Hl. by rewrite Hl in Ha.
Qed.

(** The build of the input alone is number 3. *)
Lemma lib_build : ∃ a b, a ∈ st_builds example_step ∧ hp_builds (w_heap dispatched) !! a = Some b ∧
  b_finished_in_db b = false ∧ b_id b = 3.
Proof.
  assert (existsb (λ a, match hp_builds (w_heap dispatched) !! a with
    | Some b => negb (b_finished_in_db b) && (b_id b =? 3) | None => false end) (st_builds example_step) = true) as H
    by (vm_compute; reflexivity).
  apply existsb_exists in H as (a & Ha%list_elem_of_In & H). destruct (hp_builds (w_heap dispatched) !! a) as [b|] eqn:E; [|discriminate H].
  apply andb_true_iff in H as [H1%negb_true_iff H2%Z.eqb_eq]. exact (ex_intro _ a (ex_intro _ b (conj Ha (conj E (conj H1 H2))))).
Qed.

(** The builder's report finishes build 3. *)
Lemma reported_build_finishes_witness :
  ∃ w', complete_build lib_report waiting = (Ok (Ok tt), w') ∧ taken_off lib_drv (it_machine example_item) w' ∧
    finished_in 3 (db_tables (w_db w')).
Proof.
  destruct (process_build dispatched "7" 2 true lib_message (builder <| bd_timings := mkBuildTimings 0 0 0 |>)) as [r b'] eqn:E.
  assert (r = Ok tt) as -> by (apply (f_equal fst) in E; vm_compute in E; by rewrite <-E).
  destruct (reported_build_finishes dispatched "7" 2 true false lib_message builder b' lib_job_id 7 E)
    as (Hrun & report & Hlast & H); [vm_compute; reflexivity..|].
  assert (lib_report = report) as Hr by (unfold lib_report; rewrite Hrun; cbn [snd]; by rewrite Hlast).
  rewrite <-Hr in H. destruct lib_machine as (m & Hm1 & Hm2 & Hm).
  destruct (H waiting lib_drv example_item example_info example_step m) as (w' & H1 & [H2 _] & H3).
  - exact (in_time_awaits _ _ _ _ _ _ _ _ (dispatched_awaits m Hm1 Hm2)).
  - apply recordableb_spec. unfold recordableb. rewrite Hm. vm_compute. reflexivity.
  - exists w'. split; [exact H1|]. split; [exact H3|]. destruct lib_build as (a & b & Ha & Hb & Hf & <-).
    rewrite <-(in_time_builds dispatched) in Hb. destruct (H2 a b Ha Hb Hf) as (_ & _ & H4). exact H4.
Defined.

(** The database is gone when the report comes. *)
Definition cut_off : World := dispatched <| w_db ::= λ d, d <| db_faults := [true] |> |>.

Lemma lost_result_strands_witness :
  ∃ w', complete_build lib_report cut_off = (Ok (Ok tt), w') ∧ taken_off lib_drv (it_machine example_item) w'.
Proof.
  destruct lib_machine as (m & Hm1 & Hm2 & Hm). pose proof (dispatched_awaits m Hm1 Hm2) as Ha.
  destruct (lost_result_strands lib_report cut_off lib_job_id 7 lib_drv example_item example_info example_step m Sqlx)
    as (w' & H1 & H2 & _); [vm_compute; reflexivity..| |vm_compute; reflexivity|exact (ex_intro _ w' (conj H1 H2))].
  revert Ha. unfold cut_off. generalize dispatched. intros w []. by split.
Defined.

(** Two builds, one of which has ended. *)
#[local] Instance good_disk : RootEnv := {| io_fails := λ _, false; target_exists := λ _ _, true |}.
Definition root_events : list RootEvent :=
  [RNew "a"; RRoot "a" (StorePath.mk "l"); RNew "b"; RRoot "b" (StorePath.mk "p"); RRoot "b" (StorePath.mk "p"); RRoot "a" (StorePath.mk "p"); RDrop "a"].

Lemma gcroots_refine_witness :
  implements (run_roots 0 root_events (mkRootFs (Some ∅))) (run_spec root_events ∅) ∧
  run_spec root_events ∅ !! "b" = Some {[StorePath.mk "p"]} ∧ run_spec root_events ∅ !! "a" = None ∧
  links_in "b" (run_roots 0 root_events (mkRootFs (Some ∅))) =
    Some {[StorePath.base_name (StorePath.mk "p") := print_store_path (StorePath.mk "p")]}.
Proof.
  split; [exact (gcroots_refine (λ _, eq_refl) root_events)|]. split; [vm_compute; reflexivity|].
  split; vm_compute; reflexivity.
Defined.
